(* ===== verification/_CoqProject ===== *)
-Q . S2P
Prelude.v
GoStrings.v
GoStringFacts.v
Paths.v
Support.v
FilterParser.v
FilterParserFacts.v
FilterGrammar.v
FilterRoundTrip.v
FilterProps.v
SqlText.v
GoAny.v
Schema.v
FilterSQL.v
FilterTests.v
FilterSQLFacts.v
FilterBinds.v
FilterMeaning.v
FilterSQLProps.v
Headers.v
OrderBy.v
Query.v
QueryTests.v
QueryFacts.v
QueryText.v
QueryProps.v
RequestProps.v
SchemaCache.v
SchemaCacheProps.v
Http.v
Server.v
ServerProps.v
Base64.v
Jq.v
JqProps.v
Middleware.v
MiddlewareProps.v
FileServer.v
RestCommand.v
Age.v
Rpc.v
RpcProps.v
Cdc.v
Json.v
JsonFacts.v
EventJson.v
Router.v
CacheLife.v
Transform.v
TransformProps.v
Crud.v
PeerPG.v
PeerConnect.v
Replication.v
ReplicationSetup.v
ReplicationProps.v
SqlStore.v
Replica.v
Mqtt.v
MqttProps.v
MqttClient.v
Webhook.v
WebhookProps.v
Rag.v
Nats.v
NatsPeer.v
Grpc.v
GrpcPeer.v
Kafka.v
Migrate.v
Roles.v
Pools.v
OpenAPI.v
OpenAPIProps.v
Pipeline.v
PipelineProps.v
PipelineCommand.v
Delivery.v
Otel.v
PgProxy.v
