(* ===== verification/Prelude.v ===== *)
(** * PiGO: a verification of the REST server and the event pipeline.

    The program (Go, under [src/]) has two halves on one PostgreSQL database. The
    REST server turns HTTP requests, in the manner of PostgREST, into SQL
    statements that run under the role of the client. The pipeline takes change
    events from sources, transforms them and publishes them to sinks. This
    development models the code of both halves that decides anything, as functions
    and step relations, and proves what it does.

    ** Parts, files and sources

    Foundations. [Prelude]: the type [res] of results or errors (a Go pair of a
    value and an error), loops that stop at an error, tactics. [GoStrings],
    [GoStringFacts], [Base64], [GoAny]: what the program uses of Go's strings,
    strconv, utf8, base64, encoding/json and fmt, with values of type [any], 64-bit
    integers that wrap around and binary64 floats. [Json] is the reader of
    encoding/json with its scanner, escapes and limit of depth; [JsonFacts] shows that
    it reads back whatever is printed. [SqlText]: readings of SQL text
    that the statements are judged by: a scanner for parameters, an evaluator of
    boolean expressions with SQL's precedence and three-valued logic, the reading
    of array literals.

    REST, [src/pkg/rest]. A request's query is parsed and rendered:
    - [FilterParser] is the recursive-descent parser of filter.go, with its cursor
      and errors; [FilterParserFacts], [FilterGrammar], [FilterRoundTrip] and
      [FilterProps] show that it terminates, that what it accepts is well formed
      and at most 32 levels deep, and that it reads back every printed filter.
    - [FilterSQL] renders filter trees; [FilterTests] evaluates the cases of the
      unit tests; [FilterSQLFacts], [FilterBinds], [FilterMeaning] and
      [FilterSQLProps] show that the WHERE clause means the tree (under SQL
      precedence), that it exists exactly for filters on known columns, and which
      parameters it binds.
    - [Headers] (http_headers.go), [OrderBy] (order_by.go) and [Query] (query.go)
      build SELECT, INSERT, UPDATE and DELETE; [QueryTests], [QueryFacts],
      [QueryText], [QueryProps] and [RequestProps] show that placeholders and
      arguments agree, that no text of a client enters a statement, that filters
      are never lost, and that ordering parameters are read back.
    - [Schema] and [SchemaCache] are the catalog of [src/pkg/pgx/schema/schema.go]
      and the state machine of its cache (load, LISTEN, reload, reconnect, Watch);
      [SchemaCacheProps] has its invariants. [CacheLife] makes, initializes and closes
      the cache, shows when closing is safe, and has the JSON that its handler serves.
    - [Http] is the exchange: request, context, the connections taken and given
      back, the statements run, the responses ([src/pkg/httputil/context.go] and
      postgres.go); [Server] (server.go) and [Rpc] (rpc.go) are the handlers;
      [ServerProps] and [RpcProps] show that a request or call runs a beginning of a
      plan, session statements, count or look-up, and one statement of its own, each
      once and all of it when it succeeds, with one response, and how arguments of
      calls are converted.
    - [Jq] ([src/pkg/util/jq.go]) reads roles out of claims; [JqProps] shows that
      it refines an evaluation on lists of keys and reads what is written.
    - [Middleware] is [src/pkg/httputil/middleware] and the stack that
      [src/cmd/pigo/rest.go] assembles; [MiddlewareProps] proves basic
      authentication and CORS, and, for the whole stack in front of the handlers,
      under which role statements run and when the connection goes back: always, but
      for requests that are granted the empty role or have claims that cannot be
      encoded. [Router] is httputil/router.go with
      its groups and the server that its routers share, TLS, the helpers of context.go
      for users, bodies and responses, and middleware/cache.go.
    - [Paths] is what path/filepath does on Unix; [FileServer] is
      middleware/file_server.go, which is shown to stay in its directory, and
      proxy.go.
    - [RestCommand] is the command [src/cmd/pigo/rest.go] with its settings
      ([src/pkg/config], root.go), the provider of verify_oidc.go that is made once,
      and the life of the server: which settings give which stack, what a missing
      secret does, and how a request without credentials is let on.
    - [OpenAPI] and [OpenAPIProps] are the document of pgx/schema/openapi.go: its
      paths and schemas are those of the tables, its references resolve, and which
      of its paths the server does not serve.

    Database helpers, [src/pkg/pgx]. [Crud] (crud.go) writes rows from maps in any
    order of visiting them, [Pools] (pool.go) is the pool manager as a state
    machine, [Roles] (role/role.go) the statements for roles. [Migrate] is
    [src/cmd/pigo/migrate.go]: the settings and the versions a destination means, and
    the command from its arguments, read as the flag package does, to the closing of
    its connection.

    Logical replication, [src/pkg/pglogrepl]. [Replication] is the loop of
    stream.go with process_v2.go, codec.go and util.go; [ReplicationSetup] the
    configuration, publication and slot; [ReplicationProps] shows that the events
    are the changes decoded against the last definition of their relation, in
    order, which positions are reported to the server, and when the loop goes on.
    [SqlStore] is a database as far as the PostgreSQL sink needs one: it reads the
    texts of INSERT and UPDATE and runs them on tables. [Replica] shows that what
    the sink writes for the events of the loop is read back as the change of the
    source, so that the sink follows the source.

    Pipeline, [src/pkg/pipeline]. [Cdc] is the event; [EventJson] its JSON by the tags
    of the structs, which is shown to be read back but for the integers of rows;
    [Transform] the extract, filter and replace transformations on a heap of events and
    of arrays of schema fields, because copies of an event share the array; [TransformProps] gives each
    its meaning and a frame property. [Pipeline] is the manager with its retries,
    the fan-out to bounded channels, the sinks' goroutines as a step relation and
    the setting up by [src/cmd/pigo/pipeline.go]; [PipelineProps] shows that
    channels lose and duplicate nothing, that processing touches no other event but
    for the shared fields, and what the extra goroutines do to the order.
    [PipelineCommand] is the life of the command: its start, the metrics server of
    [src/pkg/metrics/prom.go], the signal, and the shutdown with its timeout; its
    theorems say that only a signal ends it, within ten seconds, and what of the
    accepted events is then done.
    [Delivery] puts loop, channels and sink together, for the several goroutines that
    the program starts for a sink: inserted rows arrive whatever the interleaving,
    updates follow the source when the goroutines keep their order, and need not
    when they do not.

    Peers, [src/pkg/pipeline/peer]. [PeerPG] publishes events with the statements
    of [Crud]; [PeerConnect] is its connecting and disconnecting, the registry of
    connectors and plugins, and the peers that only log. [Mqtt] is mqtt/peer.go and
    transform.go: topics to tables, fields and operations; [MqttProps] proves what
    becomes of a message; [MqttClient] is client.go and options.go with the calls of
    the client library, and shows what one peer, with the filter it subscribes with,
    receives and reads of what another publishes. [Webhook] is http/peer.go with [src/pkg/httputil/client.go], whose
    retries [WebhookProps] specifies. [Nats] has the defaults and the stream of the NATS
    peer and what becomes of a fetched message; [NatsPeer] its settings, its life and
    the redelivery of what is not acknowledged, with the theorem that events arrive
    once each and in order. [Grpc] has the messages of the gRPC peer, [GrpcPeer] its
    server, whose clients share one channel of events. [Kafka] has the settings, TLS
    and topics of the Kafka peer and the operations of kafka.go and acl.go.

    Around them. [Support] is [src/pkg/logger], [src/pkg/util] and the options of
    [src/pkg/metrics]; [Otel] is [src/pkg/otelx]. The experiments of [src/pkg/x]:
    [Age] (graph queries in one transaction), [Rag] (embeddings and retrieval),
    [PgProxy] (pgproxy and pgcache).

    ** Interactions

    A request goes through [Middleware.rest_middleware] to [Server.handleRequest]
    or [Rpc.handleRPC]. The one takes a table from the cache's snapshot and calls the
    builders of [Query] on what [FilterParser] and [OrderBy] read, the other looks its
    function up with a query of its own; both run the statement after
    [Http.ConnWithRole]. [MiddlewareProps.rest_end_to_end] is
    the theorem about the whole way. An event goes through [Pipeline.ProcessEvent]
    and the channels to [Pipeline.sink_turn] and, for PostgreSQL, to [PeerPG.Pub];
    [Delivery.pipeline_follows_source] is the theorem about its whole way. From peer
    to peer an event travels as the JSON of [EventJson] ([NatsPeer.nats_delivers]), as
    the JSON of its payload ([MqttClient.mqtt_wraps]) or as a message of gRPC.

    ** What is a parameter

    Code that is not in the repository is a class with an instance for examples:
    quoting of identifiers by pgx ([PgxIdentifier], with the laws that its result is
    made of complete quoted identifiers and, where statements are read again,
    [PgxIdentifierReads], that they read as the names), the answers of the database
    ([Database], [PgxConn], [VectorDB]) and the pool, token verification and
    discovery, the mux and the file serving of net/http, regular expressions, path
    patterns, mapstructure, viper ([Viper]), templates, YAML and the migrator
    ([MigrateWorld]), the connectors of peers and plugins ([GoPlugin]), Unicode tables
    above ASCII, and the printing and reading of floats ([GoFloat], with the law
    [GoFloatJson] that a finite float is printed as a number and read back). The wire
    protocol of replication is read by [WalParser] and its values by [PgTypes], the
    server answers through [ReplServer]; the brokers and their clients ([Paho],
    [JetStreamContext] with [Redelivery], [GrpcServer], [Cluster]), the network with
    its connections, which decide whether a body can be sent again, and the waits
    between retries ([Network], [Backoff]), the equality of values in the
    database of the sink ([SqlEq]), certificates, the driver of the graph database
    ([AgeDriver]), and the SDK of OpenTelemetry ([OtelSDK]) are classes too. The
    order in which Go visits a map is the class [GoRange]: theorems hold for every
    order.

    ** Fuel and bounds

    Recursion is structural, except: the filter parser, whose fuel is the length
    of its input ([FilterProps.parseFilter_terminates] shows that it never runs
    out, and the depth limit of 32 is the program's own); [Jq], whose fuel is the
    length of the path ([JqProps.Jq_eval] equates it with a structural function);
    decoding and trimming of runes and the escaping of JSON, whose fuel is the
    length of the string, each step consuming a byte at least; and the reader of JSON,
    whose fuel is twice the length, which [JsonFacts.parse_print] shows to be enough
    for everything that is printed. Integers that come
    from a client are wrapped to 64 bits where the code computes with them.
    Properties about runs of the cache, the pools and the pipeline hold for every
    reachable state, without a bound.

    ** Not modelled

    Calls of libraries that decide nothing in this repository: sockets, TLS
    handshakes, the migrator, exporters and the values of histograms, the consumers of
    brokers, and the conversation of SCRAM. Code that is commented out: rest.go of the
    Kafka peer, process_v1.go, listen.go, the second half of verify_oidc.go, the retries
    of rag/client.go and the statement of the ClickHouse peer. Times elapsed (latencies,
    jitter of waits) are left out where only logs depend on them; the clock of the
    pipeline command is part of its state. Data races are not modelled: operations
    under a lock are atomic steps. Generated code, examples, the accept loops of the
    proxies and the parse tree that pgcache prints are left aside. *)

From stdpp Require Export prelude strings gmap list fin_maps pretty sorting.
From Stdlib Require Export ZArith Lia Ascii Sorting.Permutation.

Declare Scope go_scope.
Delimit Scope go_scope with go.

(** ** Fallible code

    A Go function that returns [(T, error)] is a function to [res E T]; the
    error type [E] is an inductive type per component whose constructors are
    the component's distinct failures. *)

Inductive res (E A : Type) : Type :=
| Ok (a : A)
| Err (e : E).
Arguments Ok {E A} a.
Arguments Err {E A} e.

Definition res_bind {E A B} (m : res E A) (k : A → res E B) : res E B :=
  match m with
  | Ok a => k a
  | Err e => Err e
  end.

(** [map_err f m] is [if err != nil { return fmt.Errorf(..., err) }]. *)
Definition map_err {E F A} (f : E → F) (m : res E A) : res F A :=
  match m with
  | Ok a => Ok a
  | Err e => Err (f e)
  end.

Definition is_ok {E A} (m : res E A) : bool :=
  match m with Ok _ => true | Err _ => false end.

Notation "'let?' x := m 'in' k" := (res_bind m (λ x, k))
  (at level 10, x pattern, m at level 100, k at level 200) : go_scope.

Open Scope go_scope.

(** [mapM_res f l] runs [f] over [l] from left to right and stops at the first
    error: the shape of a Go [for] loop with an early error return. *)
Fixpoint mapM_res {E A B} (f : A → res E B) (l : list A) : res E (list B) :=
  match l with
  | [] => Ok []
  | x :: l => let? y := f x in let? ys := mapM_res f l in Ok (y :: ys)
  end.

(** [foldM_res f s l] is the same loop with a mutated local [s]. *)
Fixpoint foldM_res {E S A} (f : S → A → res E S) (s : S) (l : list A) : res E S :=
  match l with
  | [] => Ok s
  | x :: l => let? s := f s x in foldM_res f s l
  end.

Lemma res_bind_ok {E A B} (m : res E A) (k : A → res E B) b :
  res_bind m k = Ok b ↔ ∃ a, m = Ok a ∧ k a = Ok b.
Proof. destruct m; simpl; naive_solver. Qed.

Lemma res_bind_err {E A B} (m : res E A) (k : A → res E B) e :
  res_bind m k = Err e ↔ m = Err e ∨ ∃ a, m = Ok a ∧ k a = Err e.
Proof. destruct m; simpl; naive_solver. Qed.

Lemma map_err_ok {E F A} (f : E → F) (m : res E A) a :
  map_err f m = Ok a ↔ m = Ok a.
Proof. destruct m; simpl; naive_solver. Qed.

Lemma map_err_err {E F A} (f : E → F) (m : res E A) e :
  map_err f m = Err e ↔ ∃ e', m = Err e' ∧ e = f e'.
Proof. destruct m; simpl; naive_solver. Qed.

Lemma mapM_res_ok {E A B} (f : A → res E B) l ys :
  mapM_res f l = Ok ys ↔ Forall2 (λ x y, f x = Ok y) l ys.
Proof.
  revert ys. induction l as [|x l IH]; intros ys; simpl.
  - split; [intros [= <-]; constructor | inversion 1; done].
  - rewrite res_bind_ok. setoid_rewrite res_bind_ok. split.
    + intros (y & ? & ys' & Hl & [= <-]). constructor; [done|]. by apply IH.
    + inversion 1 as [|? y ? ys' ? Hl]; subst. exists y. split; [done|].
      exists ys'. split; [by apply IH | done].
Qed.

Lemma mapM_res_length {E A B} (f : A → res E B) l ys :
  mapM_res f l = Ok ys → length ys = length l.
Proof. intros H%mapM_res_ok. symmetry. by eapply Forall2_length. Qed.

(** ** Automation *)

(** [res_inv] turns every [... = Ok _] hypothesis of a bind into its steps. *)
Ltac res_inv :=
  repeat match goal with
  | H : res_bind _ _ = Ok _ |- _ =>
      apply res_bind_ok in H; destruct H as (? & ? & ?)
  | H : map_err _ _ = Ok _ |- _ => apply map_err_ok in H
  | H : Ok _ = Ok _ |- _ => injection H as H; subst
  | H : Err _ = Ok _ |- _ => discriminate H
  | H : Ok _ = Err _ |- _ => discriminate H
  | H : Err _ = Err _ |- _ => injection H as H; subst
  | H : (let '(_, _) := ?p in _) = _ |- _ => destruct p eqn:?
  end.

(** [case_all] splits every [if] and [match] in sight. *)
Ltac case_all :=
  repeat (case_match; try discriminate; simplify_eq/=).

(** [split_if] splits the boolean conditions of a hypothesis. *)
Ltac bool_simp :=
  repeat match goal with
  | H : _ && _ = true |- _ => apply andb_true_iff in H; destruct H
  | H : _ || _ = false |- _ => apply orb_false_iff in H; destruct H
  | H : negb _ = true |- _ => apply negb_true_iff in H
  | H : negb _ = false |- _ => apply negb_false_iff in H
  | H : bool_decide _ = true |- _ => apply bool_decide_eq_true in H
  | H : bool_decide _ = false |- _ => apply bool_decide_eq_false in H
  end.

