(* ===== verification/GoStrings.v ===== *)
(** * GoStrings: the parts of Go's [strings], [unicode/utf8], [strconv] and
    [fmt] packages that the program uses.

    A Go string is a sequence of bytes, so it is a [string] (a sequence of
    8-bit [ascii]) here; runes are [Z]. The Unicode tables of package
    [unicode] above U+007F are an argument (class [Unicode]); everything below
    is defined. *)

From S2P Require Import Prelude.
Local Open Scope Z_scope.

(** ** Bytes *)

Definition byte_val (c : ascii) : Z := Z.of_N (N_of_ascii c).
Definition byte_of (z : Z) : ascii := ascii_of_N (Z.to_N z).

Definition in_range (lo hi c : Z) : bool := (lo <=? c) && (c <=? hi).

(** The double quote, and [%q] of a string without special characters. *)
Definition dquote : ascii := "034"%char.
Definition quote (s : string) : string := String dquote (s +:+ String dquote "").

(** ** Slicing: [s[n:]] and [s[:n]] *)

Fixpoint drop (n : nat) (s : string) : string :=
  match n, s with
  | O, _ => s
  | S n, String _ s => drop n s
  | S _, EmptyString => ""
  end.

Fixpoint take (n : nat) (s : string) : string :=
  match n, s with
  | S n, String c s => String c (take n s)
  | _, _ => ""
  end.

Arguments drop !n s : simpl nomatch.
Arguments take !n s : simpl nomatch.

Abbreviation len := String.length.

(** ** Package [strings] *)

Fixpoint HasPrefix (s prefix : string) {struct prefix} : bool :=
  match prefix, s with
  | EmptyString, _ => true
  | String a p, String b s => bool_decide (a = b) && HasPrefix s p
  | String _ _, EmptyString => false
  end.

Definition HasSuffix (s suffix : string) : bool :=
  bool_decide (len suffix ≤ len s)%nat &&
  bool_decide (drop (len s - len suffix) s = suffix).

Definition TrimPrefix (s prefix : string) : string :=
  if HasPrefix s prefix then drop (len prefix) s else s.

Definition TrimSuffix (s suffix : string) : string :=
  if HasSuffix s suffix then take (len s - len suffix) s else s.

(** Go's [-1] for "not found" is [None]. *)
Fixpoint IndexFunc (f : ascii → bool) (s : string) : option nat :=
  match s with
  | EmptyString => None
  | String c s => if f c then Some O else S <$> IndexFunc f s
  end.

Definition mem_byte (cs : string) (c : ascii) : bool :=
  bool_decide (c ∈ String.list_ascii_of_string cs).

Definition IndexByte (s : string) (c : ascii) : option nat :=
  IndexFunc (λ d, bool_decide (d = c)) s.
Definition IndexAny (s chars : string) : option nat := IndexFunc (mem_byte chars) s.

Fixpoint Contains (s sub : string) : bool :=
  HasPrefix s sub ||
  match s with
  | EmptyString => false
  | String _ s => Contains s sub
  end.

(** [strings.LastIndex(s, sub)]; [None] is -1. *)
Fixpoint LastIndex (s sub : string) : option nat :=
  match s with
  | EmptyString => if bool_decide (sub = "") then Some O else None
  | String _ t =>
      match LastIndex t sub with
      | Some i => Some (S i)
      | None => if HasPrefix s sub then Some O else None
      end
  end.

(** [strings.Split(s, sep)] for a one-byte separator; [cur] is never empty-listed:
    a string without [sep] gives one field. *)
Fixpoint Split (s : string) (sep : ascii) : list string :=
  match s with
  | EmptyString => [""]
  | String c s =>
      if bool_decide (c = sep) then "" :: Split s sep
      else match Split s sep with
           | f :: fs => String c f :: fs
           | [] => [String c ""]
           end
  end.

Fixpoint Join (elems : list string) (sep : string) : string :=
  match elems with
  | [] => ""
  | [x] => x
  | x :: xs => x +:+ sep +:+ Join xs sep
  end.

(** [strings.ReplaceAll(s, old, new)] for a non-empty [old]; [skip] counts the
    bytes of a match that have already been replaced. *)
Fixpoint replace_go (old new : string) (skip : nat) (s : string) : string :=
  match s with
  | EmptyString => ""
  | String c s' =>
      match skip with
      | S k => replace_go old new k s'
      | O => if HasPrefix s old then new +:+ replace_go old new (pred (len old)) s'
             else String c (replace_go old new O s')
      end
  end.
Definition ReplaceAll (s old new : string) : string := replace_go old new O s.

(** [strings.Cut(s, sep)] for a one-byte separator. *)
Fixpoint Cut (s : string) (sep : ascii) : option (string * string) :=
  match s with
  | EmptyString => None
  | String c s =>
      if bool_decide (c = sep) then Some ("", s)
      else '(a, b) ← Cut s sep; Some (String c a, b)
  end.

Fixpoint map_string (f : ascii → ascii) (s : string) : string :=
  match s with
  | EmptyString => ""
  | String c s => String (f c) (map_string f s)
  end.

Fixpoint all_bytes (f : ascii → bool) (s : string) : bool :=
  match s with
  | EmptyString => true
  | String c s => f c && all_bytes f s
  end.

(** [strings.Trim(s, cutset)] for a cutset of ASCII bytes. *)
Fixpoint TrimLeftBytes (f : ascii → bool) (s : string) : string :=
  match s with
  | EmptyString => ""
  | String c s' => if f c then TrimLeftBytes f s' else s
  end.
Fixpoint TrimRightBytes (f : ascii → bool) (s : string) : string :=
  match s with
  | EmptyString => ""
  | String c s' =>
      match TrimRightBytes f s' with
      | EmptyString => if f c then "" else String c ""
      | t => String c t
      end
  end.
Definition Trim (s cutset : string) : string :=
  TrimRightBytes (mem_byte cutset) (TrimLeftBytes (mem_byte cutset) s).
Definition TrimRight (s cutset : string) : string :=
  TrimRightBytes (mem_byte cutset) s.

Fixpoint repeat_string (s : string) (n : nat) : string :=
  match n with O => "" | S n => s +:+ repeat_string s n end.

(** ** Package [unicode/utf8] *)

Definition RuneError : Z := 0xFFFD.

Definition cont (c : ascii) : bool := in_range 0x80 0xBF (byte_val c).

(** [utf8.DecodeRuneInString]: the rune and its width; an invalid encoding is
    [(RuneError, 1)] and the empty string [(RuneError, 0)]. *)
Definition DecodeRune (s : string) : Z * nat :=
  match s with
  | EmptyString => (RuneError, 0%nat)
  | String c0 s1 =>
      let b0 := byte_val c0 in
      let bad := (RuneError, 1%nat) in
      if b0 <? 0x80 then (b0, 1%nat) else
      if in_range 0xC2 0xDF b0 then
        match s1 with
        | String c1 _ =>
            if cont c1 then
              (Z.lor (Z.shiftl (Z.land b0 0x1F) 6) (Z.land (byte_val c1) 0x3F), 2%nat)
            else bad
        | _ => bad
        end else
      if in_range 0xE0 0xEF b0 then
        match s1 with
        | String c1 (String c2 _) =>
            let lo := if b0 =? 0xE0 then 0xA0 else 0x80 in
            let hi := if b0 =? 0xED then 0x9F else 0xBF in
            if in_range lo hi (byte_val c1) && cont c2 then
              (Z.lor (Z.lor (Z.shiftl (Z.land b0 0x0F) 12)
                            (Z.shiftl (Z.land (byte_val c1) 0x3F) 6))
                     (Z.land (byte_val c2) 0x3F), 3%nat)
            else bad
        | _ => bad
        end else
      if in_range 0xF0 0xF4 b0 then
        match s1 with
        | String c1 (String c2 (String c3 _)) =>
            let lo := if b0 =? 0xF0 then 0x90 else 0x80 in
            let hi := if b0 =? 0xF4 then 0x8F else 0xBF in
            if in_range lo hi (byte_val c1) && cont c2 && cont c3 then
              (Z.lor (Z.lor (Z.lor (Z.shiftl (Z.land b0 0x07) 18)
                                   (Z.shiftl (Z.land (byte_val c1) 0x3F) 12))
                            (Z.shiftl (Z.land (byte_val c2) 0x3F) 6))
                     (Z.land (byte_val c3) 0x3F), 4%nat)
            else bad
        | _ => bad
        end
      else bad
  end.

(** [utf8.AppendRune] / [strings.Builder.WriteRune]: surrogates and values out
    of range are written as [RuneError]. *)
Definition EncodeRune (r : Z) : string :=
  let r := if in_range 0 0x10FFFF r && negb (in_range 0xD800 0xDFFF r) then r else RuneError in
  let tail sh := byte_of (Z.lor 0x80 (Z.land (Z.shiftr r sh) 0x3F)) in
  if r <? 0x80 then String (byte_of r) "" else
  if r <? 0x800 then
    String (byte_of (Z.lor 0xC0 (Z.shiftr r 6))) (String (tail 0) "") else
  if r <? 0x10000 then
    String (byte_of (Z.lor 0xE0 (Z.shiftr r 12))) (String (tail 6) (String (tail 0) ""))
  else
    String (byte_of (Z.lor 0xF0 (Z.shiftr r 18)))
      (String (tail 12) (String (tail 6) (String (tail 0) ""))).

(** [for _, r := range s]: the runes of a string. A rune is at least one byte
    wide, so the length of the string bounds the number of iterations. *)
Fixpoint runes_go (fuel : nat) (s : string) : list Z :=
  match fuel, s with
  | S fuel, String _ _ =>
      let '(r, w) := DecodeRune s in r :: runes_go fuel (drop w s)
  | _, _ => []
  end.
Definition runes (s : string) : list Z := runes_go (len s) s.

Definition encode_runes (rs : list Z) : string := foldr (λ r s, EncodeRune r +:+ s) "" rs.

(** ** Package [unicode] *)

(** The tables for runes from U+0080 on. *)
Class Unicode := {
  letter_table : Z → bool;
  lower_table : Z → Z
}.

Definition ascii_upper (r : Z) : bool := in_range 65 90 r.
Definition ascii_lower (r : Z) : bool := in_range 97 122 r.

Definition IsLetter `{Unicode} (r : Z) : bool :=
  if r <? 0x80 then ascii_lower r || ascii_upper r else letter_table r.

Definition rune_to_lower `{Unicode} (r : Z) : Z :=
  if r <? 0x80 then (if ascii_upper r then r + 32 else r) else lower_table r.

(** The tables restricted to Latin-1, to evaluate the model on examples. *)
Definition latin1_unicode : Unicode := {|
  letter_table r := (r =? 0xAA) || (r =? 0xB5) || (r =? 0xBA) ||
                    in_range 0xC0 0xFF r && negb (r =? 0xD7) && negb (r =? 0xF7);
  lower_table r := if in_range 0xC0 0xDE r && negb (r =? 0xD7) then r + 32 else r
|}.

(** [unicode.IsSpace], the [White_Space] property. *)
Definition IsSpace (r : Z) : bool :=
  in_range 9 13 r || (r =? 0x20) || (r =? 0x85) || (r =? 0xA0) || (r =? 0x1680) ||
  in_range 0x2000 0x200A r || in_range 0x2028 0x2029 r || (r =? 0x202F) ||
  (r =? 0x205F) || (r =? 0x3000).

(** [strings.ToLower] is [strings.Map(unicode.ToLower, s)]. *)
Definition ToLower `{Unicode} (s : string) : string :=
  encode_runes (rune_to_lower <$> runes s).

(** [strings.ToUpper] of an ASCII string, the only kind the program upper-cases. *)
Definition byte_to_upper (c : ascii) : ascii :=
  if ascii_lower (byte_val c) then byte_of (byte_val c - 32) else c.
Definition ToUpperASCII (s : string) : string := map_string byte_to_upper s.

(** [utf8.DecodeLastRuneInString]: back up over at most three continuation
    bytes, then decode forwards. [before] holds the bytes before the last one,
    nearest first. *)
Definition DecodeLastRune (s : string) : Z * nat :=
  let n := len s in
  match n with
  | O => (RuneError, 0%nat)
  | S m =>
      let at_ (i : nat) := drop i s in
      let is_start (i : nat) :=
        match at_ i with String c _ => negb (cont c) | _ => true end in
      match at_ m with
      | String c _ =>
          if byte_val c <? 0x80 then (byte_val c, 1%nat) else
          let lim := (n - 4)%nat in
          let start :=
            if bool_decide (m = lim) then m
            else if is_start (m - 1)%nat || bool_decide (m - 1 = lim)%nat then (m - 1)%nat
            else if is_start (m - 2)%nat || bool_decide (m - 2 = lim)%nat then (m - 2)%nat
            else (m - 3)%nat in
          let '(r, size) := DecodeRune (at_ start) in
          if bool_decide (start + size = n)%nat then (r, size) else (RuneError, 1%nat)
      | EmptyString => (RuneError, 0%nat)
      end
  end.

(** [strings.TrimSpace]. *)
Fixpoint trim_left_space (fuel : nat) (s : string) : string :=
  match fuel with
  | O => s
  | S fuel =>
      match s with
      | EmptyString => ""
      | _ => let '(r, w) := DecodeRune s in
             if IsSpace r then trim_left_space fuel (drop w s) else s
      end
  end.
Fixpoint trim_right_space (fuel : nat) (s : string) : string :=
  match fuel with
  | O => s
  | S fuel =>
      match s with
      | EmptyString => ""
      | _ => let '(r, w) := DecodeLastRune s in
             if IsSpace r then trim_right_space fuel (take (len s - w) s) else s
      end
  end.
Definition TrimSpace (s : string) : string :=
  let s := trim_left_space (len s) s in trim_right_space (len s) s.

(** ** Packages [strconv] and [fmt] *)

Definition isDigit (c : ascii) : bool := in_range 48 57 (byte_val c).
Definition digit_val (c : ascii) : Z := byte_val c - 48.

Fixpoint digits_val (acc : Z) (s : string) : option Z :=
  match s with
  | EmptyString => Some acc
  | String c s => if isDigit c then digits_val (10 * acc + digit_val c) s else None
  end.

(** [strconv.ParseInt(s, 10, bits)]; [None] is an error (syntax or range). *)
Definition ParseInt (s : string) (bits : Z) : option Z :=
  let '(neg, ds) :=
    match s with
    | String "+" t => (false, t)
    | String "-" t => (true, t)
    | _ => (false, s)
    end in
  match ds with
  | EmptyString => None
  | _ =>
      v ← digits_val 0 ds;
      if (neg : bool) then if v <=? 2 ^ (bits - 1) then Some (- v) else None
      else if v <? 2 ^ (bits - 1) then Some v else None
  end.

(** [strconv.Atoi] on a 64-bit platform. *)
Definition Atoi (s : string) : option Z := ParseInt s 64.

(** [strconv.ParseBool]; [None] is an error. *)
Definition ParseBool (s : string) : option bool :=
  if bool_decide (s ∈ ["1"; "t"; "T"; "TRUE"; "true"; "True"]) then Some true
  else if bool_decide (s ∈ ["0"; "f"; "F"; "FALSE"; "false"; "False"]) then Some false
  else None.

(** [strconv.Itoa] and [fmt]'s [%d]. *)
Definition Itoa (z : Z) : string := pretty z.

(** The number of leading bytes that satisfy [f]: the loop
    [for i < len(s) && f(s[i]) { i++ }]. *)
Fixpoint span (f : ascii → bool) (s : string) : nat :=
  match s with
  | EmptyString => O
  | String c s => if f c then S (span f s) else O
  end.

(** [fmt.Sscanf(s, "%d", &x)] into an [int]: leading spaces are skipped (a line
    feed is an error, a carriage return only before one is skipped with it),
    then an optional sign and decimal digits are read and the rest of the input
    is ignored. *)
Fixpoint scan_skip_space (fuel : nat) (s : string) : option string :=
  match fuel with
  | O => Some s
  | S fuel =>
      match s with
      | EmptyString => Some ""
      | String "013" ((String "010" _) as t) => scan_skip_space fuel t
      | String "010" _ => None
      | _ => let '(r, w) := DecodeRune s in
             if IsSpace r then scan_skip_space fuel (drop w s) else Some s
      end
  end.
Definition Sscanf_d (s : string) : option Z :=
  s ← scan_skip_space (len s) s;
  let sign := span (mem_byte "+-") (take 1 s) in
  let n := span isDigit (drop sign s) in
  match n with
  | O => None
  | _ => ParseInt (take (sign + n) s) 64
  end.

Example sscanf_ex : Sscanf_d "  10abc" = Some 10 ∧ Sscanf_d "-5" = Some (-5) ∧ Sscanf_d "x" = None.
Proof. vm_compute. auto. Qed.
Example itoa_ex : Itoa 120 = "120" ∧ Itoa (-3) = "-3" ∧ Itoa 0 = "0".
Proof. vm_compute. auto. Qed.

(** ** Lemmas on slices and prefixes *)

Lemma app_nil_l_str (s : string) : "" +:+ s = s.
Proof. done. Qed.
Lemma app_cons_str c (s t : string) : String c s +:+ t = String c (s +:+ t).
Proof. done. Qed.
Lemma app_nil_r_str (s : string) : s +:+ "" = s.
Proof. induction s as [|c s IH]; [done|]. by rewrite app_cons_str, IH. Qed.
Lemma app_assoc_str (s t u : string) : (s +:+ t) +:+ u = s +:+ (t +:+ u).
Proof. induction s as [|c s IH]; [done|]. by rewrite !app_cons_str, IH. Qed.

Lemma len_app (s t : string) : len (s +:+ t) = (len s + len t)%nat.
Proof. induction s as [|c s IH]; [done|]. rewrite app_cons_str. simpl. by rewrite IH. Qed.

Lemma drop_0 s : drop 0 s = s.
Proof. done. Qed.
Lemma drop_nil n : drop n "" = "".
Proof. by destruct n. Qed.
Lemma drop_add n m s : drop (n + m) s = drop m (drop n s).
Proof.
  revert s. induction n as [|n IH]; intros s; [done|].
  destruct s as [|c s]; simpl; [by rewrite drop_nil | apply IH].
Qed.
Lemma len_drop n s : len (drop n s) = (len s - n)%nat.
Proof.
  revert s. induction n as [|n IH]; intros [|c s]; simpl; auto.
Qed.
Lemma drop_ge n s : (len s ≤ n)%nat → drop n s = "".
Proof.
  revert s. induction n as [|n IH]; intros [|c s]; simpl; try done; [lia|].
  intros ?. apply IH. lia.
Qed.
Lemma take_drop n s : take n s +:+ drop n s = s.
Proof.
  revert s. induction n as [|n IH]; intros [|c s]; simpl; try done.
  by rewrite app_cons_str, IH.
Qed.
Lemma drop_app s t : drop (len s) (s +:+ t) = t.
Proof. induction s as [|c s IH]; done. Qed.
Lemma take_app s t : take (len s) (s +:+ t) = s.
Proof.
  induction s as [|c s IH]; [by destruct t|]. rewrite app_cons_str. simpl. by rewrite IH.
Qed.
Lemma len_take n s : len (take n s) = Nat.min n (len s).
Proof.
  revert s. induction n as [|n IH]; intros [|c s]; simpl; try done. by rewrite IH.
Qed.

Lemma HasPrefix_app p t : HasPrefix (p +:+ t) p = true.
Proof.
  induction p as [|c p IH]; [by destruct t|]. rewrite app_cons_str. simpl.
  by rewrite bool_decide_eq_true_2, IH.
Qed.
Lemma HasPrefix_spec s p : HasPrefix s p = true ↔ s = p +:+ drop (len p) s.
Proof.
  split; [|intros ->; apply HasPrefix_app].
  revert s. induction p as [|c p IH]; intros s; simpl; [done|].
  destruct s as [|d s]; [done|]. intros [Hc Hp]%andb_true_iff.
  apply bool_decide_eq_true in Hc as ->. rewrite app_cons_str. f_equal. by apply IH.
Qed.
Lemma HasPrefix_len s p : HasPrefix s p = true → (len p ≤ len s)%nat.
Proof. intros H%HasPrefix_spec. rewrite H, len_app. lia. Qed.

Lemma span_le f s : (span f s ≤ len s)%nat.
Proof. induction s as [|c s IH]; simpl; [done|]. destruct (f c); lia. Qed.
Lemma span_app f s t :
  all_bytes f s = true → (∀ c u, t = String c u → f c = false) → span f (s +:+ t) = len s.
Proof.
  intros Hs Ht. induction s as [|c s IH]; simpl.
  - destruct t as [|c t]; [done|]. simpl. by rewrite (Ht c t).
  - simpl in Hs. apply andb_true_iff in Hs as [Hc Hs].
    change (span f (String c (s +:+ t)) = S (len s)). simpl. rewrite Hc. f_equal. by apply IH.
Qed.
Lemma span_all f s : all_bytes f (take (span f s) s) = true.
Proof.
  induction s as [|c s IH]; simpl; [done|].
  destruct (f c) eqn:Hc; simpl; [by rewrite Hc, IH | done].
Qed.

(** A decoded rune is never empty and never reads past the end. *)
Lemma DecodeRune_width s :
  s ≠ "" → (1 ≤ (DecodeRune s).2)%nat ∧ ((DecodeRune s).2 ≤ len s)%nat.
Proof.
  destruct s as [|c0 s1]; [done|]. intros _. unfold DecodeRune.
  repeat case_match; simpl; lia.
Qed.
Lemma DecodeRune_ascii c s :
  byte_val c < 0x80 → DecodeRune (String c s) = (byte_val c, 1%nat).
Proof. intros H. unfold DecodeRune. by rewrite (proj2 (Z.ltb_lt _ _) H). Qed.
