(* ===== verification/GoStringFacts.v ===== *)
(** * GoStringFacts: decimal printing and parsing, splitting and joining.

    Facts about the definitions of [GoStrings] that several components use. *)

From S2P Require Import Prelude GoStrings.

(** ** Decimal numbers *)

(** Printed integers read back. *)
Lemma pretty_digit m :
  (m < 10)%N → isDigit (pretty_N_char m) = true ∧ digit_val (pretty_N_char m) = Z.of_N m.
Proof.
  intros Hm. destruct m as [|m]; [done|]. do 4 (destruct m as [m|m|]; try done); lia.
Qed.

Lemma digits_val_pretty x s : digits_val 0 (pretty_N_go x s) = digits_val (Z.of_N x) s.
Proof.
  revert s. induction (N.lt_wf_0 x) as [x _ IH]. intros s.
  destruct (decide (x = 0%N)) as [->|Hx]; [by rewrite pretty_N_go_0|].
  rewrite pretty_N_go_step by lia. rewrite IH by (apply N.div_lt; lia). cbn [digits_val].
  destruct (pretty_digit (x mod 10)) as [-> ->]; [apply N.mod_lt; lia|].
  f_equal. pose proof (N.div_mod x 10 ltac:(done)). lia.
Qed.

Lemma pretty_N_digits x s :
  all_bytes isDigit s = true → all_bytes isDigit (pretty_N_go x s) = true.
Proof.
  revert s. induction (N.lt_wf_0 x) as [x _ IH]. intros s Hs.
  destruct (decide (x = 0%N)) as [->|Hx]; [by rewrite pretty_N_go_0|].
  rewrite pretty_N_go_step by lia. apply IH; [apply N.div_lt; lia|]. cbn [all_bytes].
  destruct (pretty_digit (x mod 10)) as [-> _]; [apply N.mod_lt; lia | done].
Qed.

Lemma pretty_N_go_nonempty x s : (0 < x)%N → pretty_N_go x s ≠ "".
Proof.
  revert s. induction (N.lt_wf_0 x) as [x _ IH]. intros s Hx.
  rewrite pretty_N_go_step by lia. destruct (decide (x / 10 = 0)%N) as [->|Hd].
  - by rewrite pretty_N_go_0.
  - apply IH; [apply N.div_lt; lia | by apply N.neq_0_lt_0].
Qed.

(** The digits of a number: not empty, digits only, with its value. *)
Lemma pretty_N_spec x :
  ∃ c s, pretty x = String c s ∧ isDigit c = true ∧ all_bytes isDigit s = true ∧
         digits_val 0 (String c s) = Some (Z.of_N x).
Proof.
  unfold pretty, pretty_N. case_decide as Hx; [subst; by exists "0"%char, ""|].
  pose proof (pretty_N_go_nonempty x "" ltac:(lia)) as Hne.
  pose proof (pretty_N_digits x "" eq_refl) as Hd. pose proof (digits_val_pretty x "") as Hv.
  destruct (pretty_N_go x "") as [|c s]; [done|].
  simpl in Hd. apply andb_true_iff in Hd as [? ?]. eauto 10.
Qed.

(** [Itoa] is an optional minus sign and digits. *)
Lemma Itoa_spec z :
  ∃ sg c s, Itoa z = sg +:+ String c s ∧ isDigit c = true ∧ all_bytes isDigit s = true ∧
    ((0 ≤ z)%Z ∧ sg = "" ∧ digits_val 0 (String c s) = Some z ∨
     (z < 0)%Z ∧ sg = "-" ∧ digits_val 0 (String c s) = Some (- z)%Z).
Proof.
  unfold Itoa, pretty, pretty_Z. destruct z as [|x|x].
  - exists "", "0"%char, "". split_and!; [done..|]. left. by split_and!.
  - destruct (pretty_N_spec (N.pos x)) as (c & s & Hp & Hc & Hs & Hv).
    exists "", c, s. split_and!; [exact Hp | done | done |]. left. by split_and!.
  - destruct (pretty_N_spec (N.pos x)) as (c & s & Hp & Hc & Hs & Hv).
    exists "-", c, s. split_and!; [|done|done|].
    + change ("-" +:+ pretty (N.pos x) = "-" +:+ String c s). by rewrite Hp.
    + right. by split_and!.
Qed.

Lemma digit_not_sign c : isDigit c = true → c ≠ "+"%char ∧ c ≠ "-"%char.
Proof. intros Hc. split; by intros ->. Qed.

Lemma ParseInt_digits c s neg v bits :
  isDigit c = true → digits_val 0 (String c s) = Some v →
  ParseInt ((if neg : bool then "-" else "") +:+ String c s) bits =
    if neg then (if (v <=? 2 ^ (bits - 1))%Z then Some (- v)%Z else None)
    else (if (v <? 2 ^ (bits - 1))%Z then Some v else None).
Proof.
  intros Hc Hv. destruct (digit_not_sign c Hc) as [Hp Hm]. destruct neg.
  - change (ParseInt (String "-" (String c s)) bits = (if (v <=? 2 ^ (bits - 1))%Z then Some (- v)%Z else None)).
    unfold ParseInt. by rewrite Hv.
  - rewrite app_nil_l_str. unfold ParseInt.
    replace (match String c s with String "+" t => (false, t) | String "-" t => (true, t)
             | _ => (false, String c s) end) with (false, String c s); [by rewrite Hv|].
    clear Hv. destruct c as [[] [] [] [] [] [] [] []]; done.
Qed.

(** ** [Split] and [Join] *)

Lemma Join_cons x y l sep : Join (x :: y :: l) sep = x +:+ sep +:+ Join (y :: l) sep.
Proof. done. Qed.

Lemma Split_nonempty s sep : Split s sep ≠ [].
Proof. destruct s; simpl; [done|]. case_bool_decide; [done|]. by destruct (Split s sep). Qed.

Lemma Join_Split s sep : Join (Split s sep) (String sep "") = s.
Proof.
  induction s as [|c s IH]; [done|]. simpl. pose proof (Split_nonempty s sep).
  case_bool_decide as Hc; destruct (Split s sep) as [|f [|g fs]]; try done; simpl in *.
  - by rewrite IH, Hc.
  - by rewrite <-IH, Hc.
  - by rewrite IH.
  - by rewrite <-IH.
Qed.

Lemma Split_free v sep t :
  mem_byte v sep = false → Split (v +:+ String sep t) sep = v :: Split t sep.
Proof.
  induction v as [|c v IH]; intros Hv.
  - simpl. by rewrite bool_decide_eq_true_2.
  - rewrite app_cons_str. unfold mem_byte in *. apply bool_decide_eq_false in Hv.
    simpl in Hv. apply not_elem_of_cons in Hv as [Hc Hv]. simpl.
    rewrite bool_decide_eq_false_2 by done. by rewrite IH by by apply bool_decide_eq_false.
Qed.
Lemma Split_free_all v sep : mem_byte v sep = false → Split v sep = [v].
Proof.
  induction v as [|c v IH]; intros Hv; [done|]. unfold mem_byte in *. apply bool_decide_eq_false in Hv.
  simpl in Hv. apply not_elem_of_cons in Hv as [Hc Hv]. simpl.
  rewrite bool_decide_eq_false_2 by done. by rewrite IH by by apply bool_decide_eq_false.
Qed.
Lemma Split_Join vs sep :
  vs ≠ [] → Forall (λ v, mem_byte v sep = false) vs → Split (Join vs (String sep "")) sep = vs.
Proof.
  intros Hne Hv. induction Hv as [|v vs Hv Hvs IH]; [done|]. destruct vs as [|w vs].
  - by apply Split_free_all.
  - rewrite Join_cons. change (String sep "" +:+ Join (w :: vs) (String sep ""))
      with (String sep (Join (w :: vs) (String sep ""))).
    rewrite Split_free by done. by rewrite IH.
Qed.

Lemma chars_app s t :
  String.list_ascii_of_string (s +:+ t) = String.list_ascii_of_string s ++ String.list_ascii_of_string t.
Proof. induction s as [|c s IH]; [done|]. rewrite app_cons_str. simpl. by rewrite IH. Qed.
Lemma mem_byte_app s t c : mem_byte (s +:+ t) c = mem_byte s c || mem_byte t c.
Proof.
  unfold mem_byte. rewrite chars_app. apply eq_true_iff_eq.
  rewrite orb_true_iff, !bool_decide_eq_true. apply elem_of_app.
Qed.
