(* ===== verification/Paths.v ===== *)
(** * Paths: [path/filepath] on Unix, as the file server uses it.

    A path is split into words at slashes; [Clean] is a stack machine on words.
    The lemmas characterise cleaned paths ([plain_path]) and what [Rel] says of two
    of them: whether one lies under the other. *)

From S2P Require Import Prelude GoStrings GoStringFacts.
Local Open Scope Z_scope.

Definition slash : ascii := "/"%char.
Definition words (path : string) : list string := Split path slash.

(** The words of a cleaned path: [stack] holds the words kept, last first. *)
Fixpoint clean_words (rooted : bool) (stack ws : list string) : list string :=
  match ws with
  | [] => reverse stack
  | w :: ws =>
      if bool_decide (w = "") || bool_decide (w = ".") then clean_words rooted stack ws
      else if bool_decide (w = "..") then
        match stack with
        | [] => clean_words rooted (if rooted then [] else [".."]) ws
        | t :: rest => clean_words rooted (if bool_decide (t = "..") then ".." :: stack else rest) ws
        end
      else clean_words rooted (w :: stack) ws
  end.

Definition Clean (path : string) : string :=
  if bool_decide (path = "") then "." else
  let rooted := HasPrefix path "/" in
  let out := Join (clean_words rooted [] (words path)) "/" in
  if rooted then "/" +:+ out else if bool_decide (out = "") then "." else out.

(** [filepath.Join] of two elements. *)
Definition Join2 (dir path : string) : string :=
  if bool_decide (dir = "") then (if bool_decide (path = "") then "" else Clean path)
  else Clean (dir +:+ "/" +:+ path).

Definition IsAbs (path : string) : bool := HasPrefix path "/".

(** [filepath.Abs]; [cwd] is what [os.Getwd] answers. *)
Definition Abs (cwd : option string) (path : string) : option string :=
  if IsAbs path then Some (Clean path) else (λ wd, Join2 wd path) <$> cwd.

(** The words [Rel] compares one after the other. *)
Definition rel_words (path : string) : list string :=
  if bool_decide (path = "") then [] else if bool_decide (path = "/") then [""] else words path.

Fixpoint strip_common (bs ts : list string) : list string * list string :=
  match bs, ts with
  | b :: bs', t :: ts' => if bool_decide (b = t) then strip_common bs' ts' else (bs, ts)
  | _, _ => (bs, ts)
  end.

(** [filepath.Rel]; [None] is an error. *)
Definition Rel (basepath targpath : string) : option string :=
  let base := Clean basepath in
  let targ := Clean targpath in
  if bool_decide (targ = base) then Some "." else
  let base := if bool_decide (base = ".") then "" else base in
  if negb (Bool.eqb (HasPrefix base "/") (HasPrefix targ "/")) then None else
  match strip_common (rel_words base) (rel_words targ) with
  | ([], ts) => Some (Join ts "/")
  | (b :: bs, ts) =>
      if bool_decide (b = "..") && negb (bool_decide (ts = [])) then None
      else Some (Join (replicate (S (length bs)) ".." ++ ts) "/")
  end.

(** The part of a name from its last dot on, if no slash comes after it. *)
Fixpoint ext_go (s : string) : option string :=
  match s with
  | EmptyString => None
  | String c t =>
      match ext_go t with
      | Some e => Some e
      | None => if bool_decide (c = "."%char) && negb (mem_byte t slash) then Some s else None
      end
  end.
Definition Ext (path : string) : string := default "" (ext_go path).

Example clean_1 : Clean "a//b/./../c/" = "a/c". Proof. reflexivity. Qed.
Example clean_2 : Clean "/../a/.." = "/". Proof. reflexivity. Qed.
Example clean_3 : Clean "a/../../b" = "../b". Proof. reflexivity. Qed.
Example rel_1 : Rel "/a/b" "/a/c/d" = Some "../c/d". Proof. reflexivity. Qed.
Example rel_2 : Rel "/" "/a" = Some "a". Proof. reflexivity. Qed.
Example rel_3 : Rel "../.." "a" = None. Proof. reflexivity. Qed.
Example rel_4 : Rel "/a" "/" = Some "..". Proof. reflexivity. Qed.
Example ext_1 : Ext "a.b/c.tar.gz" = ".gz". Proof. reflexivity. Qed.
Example ext_2 : Ext "a.b/c" = "". Proof. reflexivity. Qed.

(** ** Cleaned paths *)

(** A word that names something. *)
Definition plain (w : string) : bool :=
  negb (bool_decide (w = "")) && negb (bool_decide (w = ".")) && negb (bool_decide (w = "..")) &&
  negb (mem_byte w slash).

Lemma plain_spec w : plain w = true ↔ w ≠ "" ∧ w ≠ "." ∧ w ≠ ".." ∧ mem_byte w slash = false.
Proof. unfold plain. rewrite !andb_true_iff, !negb_true_iff, !bool_decide_eq_false. tauto. Qed.

Lemma plain_not_up w : plain w = true → w ≠ "..".
Proof. rewrite plain_spec. tauto. Qed.

(** The words of a cleaned path: going up first, and only where there is no root. *)
Definition clean_list (rooted : bool) (ws : list string) : Prop :=
  ∃ n rest, ws = replicate n ".." ++ rest ∧ Forall (λ w, plain w = true) rest ∧ (rooted = true → n = 0%nat).

(** The absolute path of words. *)
Definition abs_path (ws : list string) : string := "/" +:+ Join ws "/".

Lemma Split_words_free s sep : Forall (λ w, mem_byte w sep = false) (Split s sep).
Proof.
  induction s as [|c s IH]; cbn [Split].
  - by constructor.
  - case_bool_decide as Hc; [by constructor|]. destruct (Split s sep) as [|f fs].
    + constructor; [|done]. apply bool_decide_eq_false_2. simpl. rewrite list_elem_of_singleton. congruence.
    + apply Forall_cons in IH as [Hf IH]. constructor; [|done]. unfold mem_byte in *.
      apply bool_decide_eq_false in Hf. apply bool_decide_eq_false_2. simpl. rewrite elem_of_cons. intros [?|?]; congruence.
Qed.

Lemma clean_words_normal rooted n st ws :
  (rooted = true → n = 0%nat) → Forall (λ w, plain w = true) st →
  Forall (λ w, mem_byte w slash = false) ws →
  clean_list rooted (clean_words rooted (st ++ replicate n "..") ws).
Proof.
  revert n st. induction ws as [|w ws IH]; intros n st Hn Hst Hws; cbn [clean_words].
  - exists n, (reverse st). rewrite reverse_app, reverse_replicate. split_and!; [done| |done].
    by apply Forall_reverse.
  - apply Forall_cons in Hws as [Hw Hws]. destruct (_ || _) eqn:Hskip; [by apply IH|].
    apply orb_false_iff in Hskip as [H1 H2]. apply bool_decide_eq_false in H1, H2.
    case_bool_decide as Hup.
    + destruct st as [|t st]; cbn [app].
      * destruct n as [|n]; cbn [replicate].
        -- destruct rooted; [by apply (IH 0%nat [])|]. by apply (IH 1%nat []).
        -- rewrite bool_decide_eq_true_2 by done. apply (IH (S (S n)) []); try done.
           intros Hr. by specialize (Hn Hr).
      * apply Forall_cons in Hst as [Ht Hst]. rewrite bool_decide_eq_false_2 by by apply plain_not_up.
        by apply IH.
    + apply (IH n (w :: st)); [done| |done]. constructor; [|done]. apply plain_spec. done.
Qed.

Lemma clean_words_plain ws :
  Forall (λ w, mem_byte w slash = false) ws → Forall (λ w, plain w = true) (clean_words true [] ws).
Proof.
  intros Hws. destruct (clean_words_normal true 0 [] ws) as (n & rest & E & Hr & Hn); [done..|].
  cbn [replicate app] in E. rewrite E, (Hn eq_refl). done.
Qed.

Lemma clean_words_app rooted st ws ws' :
  clean_words rooted st (ws ++ ws') = clean_words rooted (reverse (clean_words rooted st ws)) ws'.
Proof.
  revert st. induction ws as [|w ws IH]; intros st; cbn [app clean_words]; [by rewrite reverse_involutive|].
  destruct (_ || _); [done|]. case_bool_decide; [|done]. by destruct st.
Qed.

(** Words that name something are kept. *)
Lemma clean_words_keep rooted st ws :
  Forall (λ w, plain w = true) ws → clean_words rooted st ws = reverse st ++ ws.
Proof.
  intros H. revert st. induction H as [|w ws Hw Hws IH]; intros st; cbn [clean_words]; [by rewrite app_nil_r|].
  apply plain_spec in Hw as (H1 & H2 & H3 & _). rewrite !bool_decide_eq_false_2 by done. cbn [orb].
  rewrite IH, reverse_cons, <-app_assoc. done.
Qed.

Lemma plain_free ws : Forall (λ w, plain w = true) ws → Forall (λ w, mem_byte w slash = false) ws.
Proof. intros H. eapply Forall_impl; [done|]. intros w. cbn. rewrite plain_spec. tauto. Qed.

Lemma words_abs ws :
  Forall (λ w, plain w = true) ws → words (abs_path ws) = "" :: match ws with [] => [""] | _ => ws end.
Proof.
  intros H. unfold words, abs_path, slash. cbn [Split]. change ("/" +:+ ?s) with (String "/" s).
  cbn [Split]. rewrite bool_decide_eq_true_2 by done. f_equal. destruct ws as [|w ws]; [done|].
  apply (Split_Join (w :: ws) "/"); [done|]. by apply plain_free.
Qed.

Lemma Clean_abs ws : Forall (λ w, plain w = true) ws → Clean (abs_path ws) = abs_path ws.
Proof.
  intros H. unfold Clean. rewrite bool_decide_eq_false_2 by done.
  change (HasPrefix (abs_path ws) "/") with (HasPrefix ("/" +:+ Join ws "/") "/"). rewrite HasPrefix_app.
  rewrite words_abs by done. cbn [clean_words]. rewrite bool_decide_eq_true_2 by done. cbn [orb].
  unfold abs_path. destruct ws as [|w ws]; [done|]. by rewrite clean_words_keep.
Qed.

(** A rooted path becomes an absolute path of words that name something. *)
Lemma Clean_rooted path :
  HasPrefix path "/" = true →
  ∃ ws, Clean path = abs_path ws ∧ Forall (λ w, plain w = true) ws ∧ ws = clean_words true [] (words path).
Proof.
  intros H. eexists. split_and!; [|by apply clean_words_plain, Split_words_free|done].
  unfold Clean. rewrite bool_decide_eq_false_2 by (intros ->; done). by rewrite H.
Qed.

Lemma abs_path_inj ws ws' :
  Forall (λ w, plain w = true) ws → Forall (λ w, plain w = true) ws' →
  abs_path ws = abs_path ws' → ws = ws'.
Proof.
  intros H H' E. apply (f_equal words) in E. rewrite !words_abs in E by done. injection E as E.
  assert (∀ l, Forall (λ w, plain w = true) l → [""] ≠ l) as Hne.
  { intros l Hl <-. by apply Forall_cons in Hl as [Hl _]. }
  destruct ws, ws'; try done; [by apply Hne in E|]. symmetry in E. by apply Hne in E.
Qed.

(** Joining to an absolute path gives an absolute path, of the cleaned words. *)
Lemma Join2_abs bs path :
  Forall (λ w, plain w = true) bs →
  ∃ ts, Join2 (abs_path bs) path = abs_path ts ∧ Forall (λ w, plain w = true) ts ∧
    ts = clean_words true (reverse bs) (words path).
Proof.
  intros Hb. unfold Join2. rewrite bool_decide_eq_false_2 by done.
  destruct (Clean_rooted (abs_path bs +:+ "/" +:+ path)) as (ts & E & Ht & Hts); [done|].
  exists ts. split_and!; [done..|]. rewrite Hts.
  assert (words (abs_path bs +:+ "/" +:+ path) = words (abs_path bs) ++ words path) as ->.
  { unfold words, slash. generalize (abs_path bs). intros s. induction s as [|c s IH]; [done|].
    rewrite app_cons_str. cbn [Split]. rewrite IH. case_bool_decide; [done|].
    pose proof (Split_nonempty s "/") as Hne. by destruct (Split s "/"). }
  rewrite words_abs by done. rewrite clean_words_app. f_equal. cbn [clean_words].
  rewrite bool_decide_eq_true_2 by done. cbn [orb]. destruct bs as [|b bs]; [done|].
  by rewrite clean_words_keep.
Qed.

Lemma Join_app l l' sep : l ≠ [] → l' ≠ [] → Join (l ++ l') sep = Join l sep +:+ sep +:+ Join l' sep.
Proof.
  intros Hl Hl'. induction l as [|x l IH]; [done|]. destruct l as [|y l].
  - by destruct l'.
  - cbn [app]. rewrite !Join_cons. change (y :: l ++ l') with ((y :: l) ++ l'). rewrite IH by done.
    by rewrite !app_assoc_str.
Qed.

(** ** Lying under a directory *)

Lemma strip_common_spec bs ts :
  let '(b, t) := strip_common bs ts in
  ∃ common, bs = common ++ b ∧ ts = common ++ t ∧ (∀ x y l l', b = x :: l → t = y :: l' → x ≠ y).
Proof.
  revert ts. induction bs as [|b bs IH]; intros ts; cbn [strip_common]; [by exists []|].
  destruct ts as [|t ts]; [by exists []|]. case_bool_decide as E.
  - specialize (IH ts). destruct (strip_common bs ts) as [b' t']. destruct IH as (c & -> & -> & H).
    subst. by exists (t :: c).
  - exists []. split_and!; [done..|]. congruence.
Qed.

Lemma HasPrefix_Join w ws p :
  HasPrefix w p = true → HasPrefix (Join (w :: ws) "/") p = true.
Proof.
  intros H. apply HasPrefix_spec in H. rewrite H. destruct ws as [|x ws]; [apply HasPrefix_app|].
  rewrite Join_cons, app_assoc_str. apply HasPrefix_app.
Qed.

(** The prefix [..] of a joined path is that of its first word. *)
Lemma HasPrefix_up_Join w ws :
  mem_byte w slash = false → HasPrefix (Join (w :: ws) "/") ".." = HasPrefix w "..".
Proof.
  intros Hw. destruct ws as [|x ws]; [done|]. rewrite Join_cons.
  generalize (Join (x :: ws) "/"). intros t. destruct w as [|a [|b w]].
  - reflexivity.
  - change (bool_decide ("." = a)%char && false = bool_decide ("." = a)%char && false). done.
  - reflexivity.
Qed.

(** Whether the first word of a list begins with two dots. *)
Definition up_first (ws : list string) : bool :=
  match ws with [] => false | w :: _ => HasPrefix w ".." end.

(** What [Rel] says of two cleaned absolute paths: no relative path that begins
    with two dots exactly when the second lies under the first, and its first
    word beyond the first does not begin with two dots. *)
Lemma Rel_under bs ts :
  Forall (λ w, plain w = true) bs → Forall (λ w, plain w = true) ts →
  ∃ rel, Rel (abs_path bs) (abs_path ts) = Some rel ∧
    (HasPrefix rel ".." = false ↔ ∃ rest, ts = bs ++ rest ∧ up_first rest = false).
Proof.
  intros Hb Ht. unfold Rel. rewrite !Clean_abs by done.
  case_bool_decide as E.
  { apply abs_path_inj in E; [|done..]. subst. exists ".". split; [done|]. split; [|done].
    intros _. exists []. by rewrite app_nil_r. }
  rewrite (bool_decide_eq_false_2 (abs_path bs = ".")) by (change (String "/" (Join bs "/") ≠ "."); congruence).
  change (HasPrefix (abs_path bs) "/") with true. change (HasPrefix (abs_path ts) "/") with true. cbn [Bool.eqb negb].
  assert (∀ l, Forall (λ w, plain w = true) l → rel_words (abs_path l) = "" :: l) as Hw.
  { intros l Hl. unfold rel_words. rewrite bool_decide_eq_false_2 by done. case_bool_decide as El.
    - by rewrite (abs_path_inj l [] Hl (Forall_nil_2 _) El).
    - rewrite words_abs by done. by destruct l. }
  rewrite !Hw by done. cbn [strip_common]. rewrite bool_decide_eq_true_2 by done.
  pose proof (strip_common_spec bs ts) as H. destruct (strip_common bs ts) as [b t].
  destruct H as (c & -> & -> & Hd). apply Forall_app in Hb as [_ Hb], Ht as [_ Ht].
  destruct b as [|x b].
  - exists (Join t "/"). split; [done|]. destruct t as [|y t]; [by rewrite !app_nil_r in E|].
    rewrite HasPrefix_up_Join by (by apply Forall_cons in Ht as [Ht%plain_spec _]; tauto). split.
    + intros H. exists (y :: t). by rewrite app_nil_r.
    + rewrite app_nil_r. intros (rest & Hr%app_inv_head & H). by subst rest.
  - apply Forall_cons in Hb as [Hx _]. rewrite (bool_decide_eq_false_2 (x = "..")) by by apply plain_not_up.
    cbn [andb]. eexists. split; [done|]. cbn [replicate app].
    rewrite HasPrefix_Join by done. split; [done|]. intros (rest & H & _).
    rewrite <-app_assoc in H. apply app_inv_head in H. destruct t as [|y t]; [done|]. injection H as -> _.
    by destruct (Hd x x b t).
Qed.
