(* ===== verification/Support.v ===== *)
(** * Support: [pkg/logger], [pkg/util] and [pkg/metrics].

    The logger that fans records out, the settings it is made from, and the small
    helpers for environment variables, names, passwords and the metrics server. *)

From S2P Require Import Prelude GoStrings GoStringFacts.
Local Open Scope Z_scope.

(** ** env.go *)

(** [os.Getenv]: an unset variable is the empty string. *)
Definition Environ : Type := string → string.
(** [cmp.Or] on strings: the first that is not empty. *)
Definition cmp_Or (a b : string) : string := if bool_decide (a = "") then b else a.
Definition GetEnvOrDefault (getenv : Environ) (env def : string) : string :=
  if bool_decide (getenv env = "") then def else getenv env.

(** ** rand *)

Definition adjectives : list string :=
  ["agile"; "brave"; "calm"; "daring"; "eager"; "fancy"; "gentle"; "happy"; "intelligent"; "jolly";
   "kind"; "lively"; "mighty"; "noble"; "optimistic"; "playful"; "quick"; "radiant"; "spirited"; "trusty";
   "upbeat"; "vibrant"; "wise"; "youthful"; "zealous"; "ambitious"; "bright"; "cheerful"; "dynamic"; "elegant";
   "fearless"; "graceful"; "hopeful"; "inspired"; "jovial"; "keen"; "loyal"; "motivated"; "nimble"; "passionate";
   "resourceful"; "sturdy"; "tenacious"; "uplifted"; "vigorous"; "warm"; "xenial"; "zesty"].
Definition birds : list string :=
  ["albatross"; "bluebird"; "canary"; "dove"; "eagle"; "falcon"; "goldfinch"; "hawk"; "ibis"; "jay";
   "kingfisher"; "lark"; "magpie"; "nightingale"; "oriole"; "parrot"; "quail"; "robin"; "sparrow"; "toucan";
   "umbrella bird"; "vulture"; "woodpecker"; "yellowhammer"; "zebra finch"; "avocet"; "bunting"; "crane"; "duck";
   "egret"; "flamingo"; "goose"; "heron"; "indigo bunting"; "junco"; "kestrel"; "loon"; "mockingbird"; "nuthatch";
   "owl"; "pelican"; "raven"; "starling"; "tern"; "vireo"; "wren"; "xantus's hummingbird"; "yellowthroat"].

(** [mrand.Intn(n)]: the [i]-th number drawn is in [0, n). *)
Definition Intn (draw : nat → nat) (i n : nat) : nat := (draw i `mod` n)%nat.
Definition NewName (draw : nat → nat) : string :=
  let adj := default "" (adjectives !! Intn draw 0 (length adjectives)) in
  let bird := default "" (birds !! Intn draw 1 (length birds)) in
  adj +:+ "-" +:+ bird.

(** The dash of the names is the only one in them. *)
Theorem NewName_reads draw : ∃ adj bird,
  adj ∈ adjectives ∧ bird ∈ birds ∧ Split (NewName draw) "-" = [adj; bird].
Proof.
  assert (∀ (l : list string) i, l ≠ [] → ∃ x, l !! Intn draw i (length l) = Some x ∧ x ∈ l) as Hdraw.
  { intros l i Hl. destruct (lookup_lt_is_Some_2 l (Intn draw i (length l))) as [x Hx].
    - apply Nat.mod_upper_bound. by destruct l.
    - exists x. split; [done|]. by eapply list_elem_of_lookup_2. }
  destruct (Hdraw adjectives 0%nat) as (adj & Ha & Ha'); [done|].
  destruct (Hdraw birds 1%nat) as (bird & Hb & Hb'); [done|].
  exists adj, bird. split_and!; [done..|]. unfold NewName. rewrite Ha, Hb. cbn [default from_option id].
  assert (Forall (λ v, mem_byte v "-" = false) adjectives) as HA by by repeat constructor.
  assert (Forall (λ v, mem_byte v "-" = false) birds) as HB by by repeat constructor.
  rewrite Forall_forall in HA, HB. change ("-" +:+ bird) with (String "-" bird).
  rewrite Split_free by by apply HA. f_equal. by apply Split_free_all, HB.
Qed.

(** Some names have spaces or a quote in them. *)
Example NewName_with_space : ∃ draw, mem_byte (NewName draw) " " = true ∧ mem_byte (NewName draw) "'" = true.
Proof. exists (λ i, match i with O => 0 | _ => 46 end%nat). by split. Qed.

Definition charset : string := "abcdefghijklmnopqrstuvwxyzABCDEFGHIJKLMNOPQRSTUVWXYZ0123456789!@#$%^&*()-_=+[]{}|;:,.<>?".

Definition passwordLength (length : list Z) : Z :=
  match length with n :: _ => if n <=? 0 then 16 else n | [] => 16 end.

(** [rand.Int(random, max)] draws the [i]-th number below [max], or fails. *)
Fixpoint password_bytes (random : nat → option nat) (i n : nat) : option string :=
  match n with
  | O => Some ""
  | S n =>
      num ← random i;
      rest ← password_bytes random (S i) n;
      Some (match String.get (num `mod` len charset)%nat charset with Some b => String b rest | None => rest end)
  end.
(** [None] is the panic when the source of randomness fails. *)
Definition NewPassword (random : nat → option nat) (length : list Z) : option string :=
  password_bytes random 0 (Z.to_nat (passwordLength length)).

Lemma get_charset n : (n < len charset)%nat → ∃ b, String.get n charset = Some b ∧ mem_byte charset b = true.
Proof.
  assert (∀ s n, (n < len s)%nat → ∃ b, String.get n s = Some b ∧ b ∈ String.list_ascii_of_string s) as H.
  { induction s as [|c s IH]; intros m Hm; cbn in Hm; [lia|]. destruct m as [|m].
    - exists c. split; [done|]. by left.
    - destruct (IH m) as (b & Hb & Hin); [lia|]. exists b. split; [done|]. by right. }
  intros Hn. destruct (H charset n Hn) as (b & Hb & Hin). exists b. split; [done|].
  by apply bool_decide_eq_true_2.
Qed.

(** A password has the length asked for, 16 unless that is positive, and only
    characters of the set. *)
Theorem NewPassword_spec random length p :
  NewPassword random length = Some p →
  Z.of_nat (len p) = passwordLength length ∧ 0 < passwordLength length ∧ all_bytes (mem_byte charset) p = true.
Proof.
  assert (∀ n i p, password_bytes random i n = Some p → len p = n ∧ all_bytes (mem_byte charset) p = true) as H.
  { induction n as [|n IH]; intros i q Hq; cbn [password_bytes] in Hq; [by injection Hq as <-|].
    destruct (random i) as [num|]; [|done]. cbn [mbind option_bind] in Hq.
    destruct (password_bytes random (S i) n) as [rest|] eqn:Hr; [|done]. apply (inj Some) in Hq. subst q.
    apply IH in Hr as [Hl Hall].
    destruct (get_charset (num `mod` len charset)) as (b & -> & Hb); [by apply Nat.mod_upper_bound|].
    cbn [String.length all_bytes]. rewrite Hl, Hb. done. }
  intros Hp. apply H in Hp as [Hl Hall].
  assert (0 < passwordLength length) as Hpos.
  { unfold passwordLength. destruct length as [|n ?]; [lia|]. destruct (Z.leb_spec n 0); lia. }
  split_and!; [|done|done]. rewrite Hl. lia.
Qed.

(** ** logger.go: settings *)

Definition LevelDebug : Z := -4.
Definition LevelInfo : Z := 0.
Definition LevelWarn : Z := 4.
Definition LevelError : Z := 8.

Definition ParseLevel (s : string) : Z :=
  if bool_decide (s ∈ ["debug"; "DEBUG"]) then LevelDebug
  else if bool_decide (s ∈ ["warn"; "WARN"; "warning"; "WARNING"]) then LevelWarn
  else if bool_decide (s ∈ ["error"; "ERROR"]) then LevelError
  else LevelInfo.

(** The handlers [New] makes. *)
Inductive sink :=
| StderrJSON (level : Z) (addSource : bool)
| StderrText (level : Z) (addSource : bool)
| OTelSink (scope : string)
| Discard.
#[export] Instance sink_eq_dec : EqDecision sink.
Proof. solve_decision. Defined.

Record LogOptions := {
  lo_Level : Z; lo_AddSource : bool; lo_JSON : bool; lo_Stderr : bool; lo_OTel : bool;
  lo_OTelScope : string; lo_LoggerProvider : bool (* a provider is there *) }.

(** [New]; [None] is the error for a missing provider. *)
Definition NewLogger (hostname : string) (opts : LogOptions) : option (list sink) :=
  let handlers := if lo_Stderr opts then
                    [if lo_JSON opts then StderrJSON (lo_Level opts) (lo_AddSource opts)
                     else StderrText (lo_Level opts) (lo_AddSource opts)]
                  else [] in
  if lo_OTel opts && negb (lo_LoggerProvider opts) then None else
  let handlers := handlers ++ (if lo_OTel opts then [OTelSink (cmp_Or (lo_OTelScope opts) ("pigo-" +:+ hostname))] else []) in
  Some (if bool_decide (handlers = []) then [Discard] else handlers).

(** ** fanout.go *)

Record LogRecord := { lr_Level : Z; lr_Message : string }.

(** A [slog.Handler]: whether it wants a level, and what it writes of a record. *)
Class SlogHandler (H : Type) := {
  h_Enabled : H → Z → bool;
  h_Handle : H → LogRecord → list string → option string * list string;
  h_WithAttrs : list (string * string) → H → H;
  h_WithGroup : string → H → H
}.

Section Fanout.
Context `{SH : SlogHandler H}.

Definition fanout_Enabled (handlers : list H) (level : Z) : bool := existsb (λ h, h_Enabled h level) handlers.

(** The errors in order; [errors.Join] of none is nil. *)
Fixpoint fanout_Handle (handlers : list H) (r : LogRecord) (out : list string) : list string * list string :=
  match handlers with
  | [] => ([], out)
  | h :: handlers =>
      if h_Enabled h (lr_Level r) then
        let '(err, out) := h_Handle h r out in
        let '(errs, out) := fanout_Handle handlers r out in
        (match err with Some e => e :: errs | None => errs end, out)
      else fanout_Handle handlers r out
  end.

Definition fanout_WithAttrs (attrs : list (string * string)) (handlers : list H) : list H := h_WithAttrs attrs <$> handlers.
Definition fanout_WithGroup (name : string) (handlers : list H) : list H := h_WithGroup name <$> handlers.

(** The handlers given a record one after the other, whatever they answer. *)
Fixpoint handled (handlers : list H) (r : LogRecord) (out : list string) : list (option string) * list string :=
  match handlers with
  | [] => ([], out)
  | h :: handlers =>
      let '(err, out) := h_Handle h r out in
      let '(errs, out) := handled handlers r out in (err :: errs, out)
  end.

(** A record reaches exactly the handlers that want its level, in order, and an
    error of one keeps none of the others from it. *)
Theorem fanout_spec handlers r out :
  fanout_Handle handlers r out =
    let '(errs, out') := handled (List.filter (λ h, h_Enabled h (lr_Level r)) handlers) r out in
    (omap id errs, out').
Proof.
  revert out. induction handlers as [|h hs IH]; intros out; [done|]. cbn [fanout_Handle List.filter].
  destruct (h_Enabled h (lr_Level r)); [|apply IH]. cbn [handled]. destruct (h_Handle h r out) as [err out1].
  rewrite IH. destruct (handled _ r out1) as [errs out2]. by destruct err.
Qed.

(** Nothing is written for a level the fan-out does not want. *)
Corollary fanout_disabled handlers r out :
  fanout_Enabled handlers (lr_Level r) = false → fanout_Handle handlers r out = ([], out).
Proof.
  intros He. rewrite fanout_spec. assert (List.filter (λ h, h_Enabled h (lr_Level r)) handlers = []) as ->; [|done].
  induction handlers as [|h hs IH]; [done|]. cbn in *. apply orb_false_iff in He as [-> He]. by apply IH.
Qed.

End Fanout.

(** A logger fails to be made only for a missing provider; otherwise it has a
    handler, and it drops records only when nothing was asked for. *)
Theorem NewLogger_spec hostname opts :
  match NewLogger hostname opts with
  | None => lo_OTel opts = true ∧ lo_LoggerProvider opts = false
  | Some hs => hs ≠ [] ∧ (Discard ∈ hs ↔ lo_Stderr opts = false ∧ lo_OTel opts = false)
  end.
Proof.
  unfold NewLogger. destruct (lo_Stderr opts), (lo_OTel opts), (lo_LoggerProvider opts), (lo_JSON opts); cbn.
  all: split; [done|]; rewrite ?elem_of_cons, ?elem_of_nil; intuition congruence.
Qed.

(** ** The logger in a context: context.go *)

(** [FromContext]: the logger of the context, or the default one. *)
Definition FromContext {L} (default_ : L) (ctx : option (option L)) : L :=
  match ctx with Some (Some l) => l | _ => default_ end.
Definition logger_WithContext {L} (l : option L) (ctx : option (option L)) : option (option L) := Some l.

(** ** prom.go: the options of the metrics server; times in nanoseconds *)

Record PromServerOpts := { ps_Addr : string; ps_Path : string; ps_ShutdownTimeout : Z; ps_ReadHeaderTimeout : Z }.
Definition defaultPrometheusServerOptions : PromServerOpts := {|
  ps_Addr := ":9100"; ps_Path := "/metrics"; ps_ShutdownTimeout := 5 * 10 ^ 9; ps_ReadHeaderTimeout := 3 * 10 ^ 9 |}.
Definition cmp_Or_Z (a b : Z) : Z := if a =? 0 then b else a.
(** The options [StartPrometheusServer] runs with. *)
Definition effectiveOpts (opts : option PromServerOpts) : PromServerOpts :=
  match opts with
  | None => defaultPrometheusServerOptions
  | Some o => {|
      ps_Addr := cmp_Or (ps_Addr o) (ps_Addr defaultPrometheusServerOptions);
      ps_Path := cmp_Or (ps_Path o) (ps_Path defaultPrometheusServerOptions);
      ps_ShutdownTimeout := cmp_Or_Z (ps_ShutdownTimeout o) (ps_ShutdownTimeout defaultPrometheusServerOptions);
      ps_ReadHeaderTimeout := cmp_Or_Z (ps_ReadHeaderTimeout o) (ps_ReadHeaderTimeout defaultPrometheusServerOptions) |}
  end.
Lemma effectiveOpts_idempotent opts : effectiveOpts (Some (effectiveOpts opts)) = effectiveOpts opts.
Proof.
  assert (∀ a b, b ≠ "" → cmp_Or (cmp_Or a b) b = cmp_Or a b) as Hs.
  { intros a b Hb. unfold cmp_Or. by repeat case_bool_decide. }
  assert (∀ a b, b ≠ 0 → cmp_Or_Z (cmp_Or_Z a b) b = cmp_Or_Z a b) as Hz.
  { intros a b Hb. unfold cmp_Or_Z. destruct (Z.eqb_spec a 0); [by destruct (b =? 0)|].
    by destruct (Z.eqb_spec a 0). }
  destruct opts as [o|]; [|done]. unfold effectiveOpts. cbn [ps_Addr ps_Path ps_ShutdownTimeout ps_ReadHeaderTimeout].
  by rewrite !Hs, !Hz.
Qed.

(** ** cert.go *)

(** The file system as the certificate helper writes it; keys and certificates are
    opaque texts. *)
Class CertLibs := {
  ecdsa_GenerateKey : option string;
  x509_CreateCertificate : string → option string;       (* from the key *)
  x509_MarshalECPrivateKey : string → option string;
  os_MkdirAll : string → bool;
  os_Create : string → bool;
  pem_Encode : string → string → option string           (* type, bytes: the text, unless the write fails *)
}.
Inductive cert_error := GenerateKey | CreateCertificate | MakeDirectory | CreateFile (path : string) | MarshalKey | WriteFile (path : string).

Section Certs.
Context `{CL : CertLibs} (Dir : string → string).

(** A file is emptied when it is created, before anything else can fail. *)
Definition write_pem (path blockType : string) (bytes : res cert_error string) (fs : gmap string string)
    : res cert_error unit * gmap string string :=
  if negb (os_Create path) then (Err (CreateFile path), fs) else
  let fs := <[path := ""]> fs in
  match bytes with
  | Err e => (Err e, fs)
  | Ok b => match pem_Encode blockType b with
            | None => (Err (WriteFile path), fs)
            | Some text => (Ok tt, <[path := text]> fs)
            end
  end.
Definition writeCert (certPath derBytes : string) := write_pem certPath "CERTIFICATE" (Ok derBytes).
Definition writeKey (keyPath priv : string) :=
  write_pem keyPath "EC PRIVATE KEY"
    (match x509_MarshalECPrivateKey priv with Some b => Ok b | None => Err MarshalKey end).

(** The certificate and key, and the files after it. *)
Definition LoadOrGenerateCert (certPath keyPath : string) (fs : gmap string string)
    : res cert_error (string * string) * gmap string string :=
  match ecdsa_GenerateKey with
  | None => (Err GenerateKey, fs)
  | Some priv =>
      match x509_CreateCertificate priv with
      | None => (Err CreateCertificate, fs)
      | Some derBytes =>
          if negb (os_MkdirAll (Dir certPath)) then (Err MakeDirectory, fs) else
          match writeCert certPath derBytes fs with
          | (Err e, fs) => (Err e, fs)
          | (Ok _, fs) =>
              match writeKey keyPath priv fs with
              | (Err e, fs) => (Err e, fs)
              | (Ok _, fs) => (Ok (derBytes, priv), fs)
              end
          end
      end
  end.

(** Files that are there are not loaded but overwritten: the result does not depend
    on them, and after a success they are gone. *)
Theorem certificate_overwritten certPath keyPath fs cert key fs' :
  certPath ≠ keyPath → LoadOrGenerateCert certPath keyPath fs = (Ok (cert, key), fs') →
  ecdsa_GenerateKey = Some key ∧ x509_CreateCertificate key = Some cert ∧
  fs' !! certPath = pem_Encode "CERTIFICATE" cert ∧
  (∀ old, ∃ fs2, LoadOrGenerateCert certPath keyPath old = (Ok (cert, key), fs2)).
Proof.
  intros Hne H. unfold LoadOrGenerateCert in *. destruct ecdsa_GenerateKey as [priv|]; [|done].
  destruct (x509_CreateCertificate priv) as [der|] eqn:Hd; [|done]. destruct (os_MkdirAll _); [|done]. cbn [negb] in *.
  unfold writeCert, writeKey, write_pem in *. destruct (os_Create certPath); [|done]. cbn [negb] in *.
  destruct (pem_Encode "CERTIFICATE" der) as [t|] eqn:Ht; [|done]. destruct (os_Create keyPath); [|done]. cbn [negb] in *.
  destruct (x509_MarshalECPrivateKey priv) as [b|]; [|done]. destruct (pem_Encode "EC PRIVATE KEY" b) as [t'|]; [|done].
  injection H as <- <- <-. split_and!; [done|done| |by eexists].
  by rewrite Ht, !lookup_insert_ne, lookup_insert_eq by done.
Qed.

End Certs.
