(* ===== verification/FilterParser.v ===== *)
(** * FilterParser: the horizontal-filter parser of [pkg/rest/filter.go].

    [parseFilter] turns one query parameter ([age=gte.18], [or=(a.eq.1,b.eq.2)])
    into a [filterNode]. The recursive-descent parser of the source is a state
    and error monad over its cursor; this file holds the data, the parser, and
    the invariants of the cursor: it stays inside the input, every repetition
    makes progress (so the fuel is enough), and the nesting is bounded. *)

From S2P Require Import Prelude GoStrings.
Local Open Scope Z_scope.

(** ** Data *)

Record RawFilter := { Key : string; Value : string }.

(** A Go map literal with string keys is an association list; a missing key
    reads as the zero value. *)
Definition table_get (t : list (string * string)) (k : string) : option string :=
  snd <$> List.find (λ kv, bool_decide (kv.1 = k)) t.
Definition table_str (t : list (string * string)) (k : string) : string :=
  default "" (table_get t k).

Definition sqlOperators : list (string * string) :=
  [("eq", "="); ("neq", "<>"); ("gt", ">"); ("gte", ">="); ("lt", "<"); ("lte", "<=");
   ("like", "LIKE"); ("ilike", "ILIKE"); ("match", "~"); ("imatch", "~*");
   ("cs", "@>"); ("cd", "<@"); ("ov", "&&"); ("sl", "<<"); ("sr", ">>");
   ("nxr", "&<"); ("nxl", "&>"); ("adj", "-|-")].

Definition quantifiable (op : string) : bool :=
  bool_decide (op ∈ ["eq"; "gt"; "gte"; "lt"; "lte"; "like"; "ilike"; "match"; "imatch"]).

Definition ftsFunctions : list (string * string) :=
  [("fts", "to_tsquery"); ("plfts", "plainto_tsquery");
   ("phfts", "phraseto_tsquery"); ("wfts", "websearch_to_tsquery")].

Definition isValues : list (string * string) :=
  [("null", "NULL"); ("not_null", "NOT NULL"); ("true", "TRUE"); ("false", "FALSE");
   ("unknown", "UNKNOWN")].

Definition maxFilterDepth : nat := 32.

Record jsonPathStep := {
  arrow : string;
  key : string;
  index : Z;
  isIndex : bool
}.

Record filterField := { column : string; path : list jsonPathStep }.

Inductive filterNode := mkFilterNode {
  negate : bool;
  logic : string;
  children : list filterNode;
  field : filterField;
  operator : string;
  quant : string;
  lang : string;
  value : string;
  list_ : list string
}.

Definition zeroField : filterField := {| column := ""; path := [] |}.

(** A condition node before its field is filled in. *)
Definition condNode (neg : bool) (op quant lang value : string) (items : list string) : filterNode :=
  mkFilterNode neg "" [] zeroField op quant lang value items.
Definition groupNode (neg : bool) (logic : string) (children : list filterNode) : filterNode :=
  mkFilterNode neg logic children zeroField "" "" "" "" [].
Definition with_field (n : filterNode) (f : filterField) : filterNode :=
  mkFilterNode (negate n) (logic n) (children n) f (operator n) (quant n) (lang n)
    (value n) (list_ n).

(** ** Errors *)

(** What [errorf] reports about the current position. *)
Inductive found := found_eof | found_rune (r : Z) (position : nat).

Inductive parse_error :=
| ErrSyntax (msg : string) (at_ : found)
| ErrExpected (tok : string) (at_ : found)
| ErrDepth
| ErrInvalidIs (v : string)
| ErrNoQuantifier (op : string)
| ErrUnknownOperator (op : string)
| ErrOutOfFuel.   (* model only: never returned, see [FilterProps.parseFilter_terminates] *)

Inductive filter_error :=
| EmbeddedFilter (key : string)
| BadKey (key : string) (e : parse_error)
| BadTree (value : string) (e : parse_error)
| BadFilter (value : string) (e : parse_error)
| NoSuchColumn (table column : string).

(** ** The parser's state and monad *)

Record filterParser := { src : string; pos : nat }.

Definition rest (p : filterParser) : string := drop (pos p) (src p).
Definition adv (n : nat) (p : filterParser) : filterParser :=
  {| src := src p; pos := pos p + n |}.

Definition parser (A : Type) : Type := filterParser → res parse_error (A * filterParser).

Definition retP {A} (a : A) : parser A := λ p, Ok (a, p).
Definition failP {A} (e : parse_error) : parser A := λ _, Err e.
Definition bindP {A B} (m : parser A) (k : A → parser B) : parser B :=
  λ p, let? (a, p') := m p in k a p'.

Notation "'let*' x := m 'in' k" := (bindP m (λ x, k))
  (at level 10, x pattern, m at level 100, k at level 200) : go_scope.

Definition eof (p : filterParser) : bool := bool_decide (len (src p) ≤ pos p)%nat.

Definition peek (p : filterParser) : ascii :=
  match rest p with String c _ => c | EmptyString => Ascii.zero end.

Definition found_at (p : filterParser) : found :=
  if eof p then found_eof else found_rune (DecodeRune (rest p)).1 (pos p + 1).

Definition errorf {A} (msg : string) : parser A := λ p, Err (ErrSyntax msg (found_at p)).

Definition consume (s : string) : parser bool :=
  λ p, if HasPrefix (rest p) s then Ok (true, adv (len s) p) else Ok (false, p).

Definition expect (s : string) : parser unit :=
  λ p, let? (ok, p') := consume s p in
       if ok : bool then Ok (tt, p') else Err (ErrExpected s (found_at p')).

Definition expectEOF : parser unit :=
  λ p, if eof p then Ok (tt, p) else errorf "unexpected input" p.

(** [start := p.pos; for !p.eof() && f(p.src[p.pos]) { p.pos++ }; p.src[start:p.pos]] *)
Definition take_while (f : ascii → bool) : parser string :=
  λ p, let n := span f (rest p) in Ok (take n (rest p), adv n p).

Definition skipSpaces : parser unit :=
  λ p, Ok (tt, adv (span (mem_byte (String " " (String "009" (String "013" (String "010" ""))))) (rest p)) p).

Definition until (stops : string) : parser string :=
  take_while (λ c, negb (mem_byte stops c)).

(** ** Characters *)

Definition isASCIILetter (c : ascii) : bool :=
  in_range 97 122 (byte_val c) || in_range 65 90 (byte_val c).
Definition isASCIIDigit (c : ascii) : bool := in_range 48 57 (byte_val c).

Section Parser.
Context `{Unicode}.

Definition isNameRune (r : Z) : bool :=
  IsLetter r || in_range 48 57 r || (r =? 95) || (r =? 36) || (r =? 32).

(** [nameRuneAt i] looks at [p.src[i:]]; here the argument is that suffix. *)
Definition nameRuneAt (s : string) : bool :=
  match s with
  | EmptyString => false
  | _ => isNameRune (DecodeRune s).1
  end.

(** ** Quoted strings *)

(** The loop of [quoted] after the opening quote: the content and the number of
    bytes read, closing quote included. *)
Fixpoint quoted_go (s : string) : option (string * nat) :=
  match s with
  | EmptyString => None
  | String c t =>
      if bool_decide (c = "\"%char) then
        match t with
        | EmptyString => None
        | String d t' => '(b, n) ← quoted_go t'; Some (String d b, S (S n))
        end
      else if bool_decide (c = dquote) then Some ("", 1%nat)
      else '(b, n) ← quoted_go t; Some (String c b, S n)
  end.

Definition quoted : parser (option string) :=
  λ p, if negb (bool_decide (peek p = dquote)) then Ok (None, p)
       else match quoted_go (drop 1 (rest p)) with
            | Some (b, n) => Ok (Some b, adv (S n) p)
            | None => Ok (None, p)
            end.

Definition quotedElement : parser (option string) :=
  λ p, let? (q, p') := quoted p in
       match q with
       | Some s =>
           if eof p' || bool_decide (peek p' = ","%char) || bool_decide (peek p' = ")"%char)
           then Ok (Some s, p') else Ok (None, p)
       | None => Ok (None, p)
       end.

(** ** Names and JSON paths *)

Fixpoint name_len (fuel : nat) (first : bool) (s : string) : nat :=
  match fuel, s with
  | S fuel, String _ t =>
      let '(r, w) := DecodeRune s in
      if isNameRune r || ((r =? 45) && negb first && nameRuneAt t)
      then (w + name_len fuel false (drop w s))%nat else O
  | _, _ => O
  end.

Definition name : parser string :=
  λ p, if bool_decide (peek p = dquote) then
         let? (q, p') := quoted p in
         match q with
         | Some s => Ok (s, p')
         | None => errorf "unterminated quoted name" p'
         end
       else
         let n := name_len (len (rest p)) true (rest p) in
         match n with
         | O => errorf "expected a column name" p
         | _ => Ok (take n (rest p), adv n p)
         end.

Definition arrayIndex : parser (option Z) :=
  λ p, let r := rest p in
       let sgn := match r with String c _ => if bool_decide (c = "-"%char) then 1%nat else O
                             | _ => O end in
       let n := span isASCIIDigit (drop sgn r) in
       let i := (sgn + n)%nat in
       let tail := drop i r in
       let dash_name := match tail with
                        | String c t => bool_decide (c = "-"%char) && nameRuneAt t
                        | _ => false end in
       if bool_decide (n = O) || nameRuneAt tail || dash_name then Ok (None, p)
       else match ParseInt (take i r) 32 with
            | None => Ok (None, p)
            | Some v => Ok (Some v, adv i p)
            end.

Fixpoint jsonPath_go (fuel : nat) (acc : list jsonPathStep) : parser (list jsonPathStep) :=
  match fuel with
  | O => failP ErrOutOfFuel
  | S fuel =>
      let* two := consume "->>" in
      let* one := if two : bool then retP true else consume "->" in
      if negb one then retP acc else
      let arrow := if two then "->>" else "->" in
      let* idx := arrayIndex in
      let* step :=
        match idx with
        | Some i => retP {| arrow := arrow; key := ""; index := i; isIndex := true |}
        | None => let* k := name in
                  retP {| arrow := arrow; key := k; index := 0; isIndex := false |}
        end in
      jsonPath_go fuel (acc ++ [step])
  end.

(** Every step of a path is at least two bytes long. *)
Definition jsonPath : parser (list jsonPathStep) :=
  λ p, jsonPath_go (S (len (rest p))) [] p.

(** ** Operands *)

Definition operand (inTree : bool) : parser string :=
  λ p, if negb inTree then Ok (rest p, {| src := src p; pos := len (src p) |})
       else
         let? (q, p1) := quotedElement p in
         match q with
         | Some v => Ok (v, p1)
         | None =>
             let braced :=
               if bool_decide (peek p1 = "{"%char) then
                 let tail := drop 1 (rest p1) in
                 match IndexAny tail "{}" with
                 | Some e => if bool_decide (take 1 (drop e tail) = "}") then Some e else None
                 | None => None
                 end
               else None in
             match braced with
             | Some e => Ok (take (e + 2) (rest p1), adv (e + 2) p1)
             | None => until ",)" p1
             end
         end.

Fixpoint list_go (fuel : nat) (items : list string) : parser (list string) :=
  match fuel with
  | O => failP ErrOutOfFuel
  | S fuel =>
      let* q := quotedElement in
      let* item := match q with Some v => retP (Some v)
                   | None =>
                       let* item := until ",)" in
                       λ p, if bool_decide (item = "") && bool_decide (items = []) &&
                               bool_decide (peek p = ")"%char)
                            then Ok (None, p) else Ok (Some item, p)
                   end in
      match item with
      | None => retP items
      | Some v =>
          let items := items ++ [v] in
          let* more := consume "," in
          if more : bool then list_go fuel items else retP items
      end
  end.

(** Every element but the last ends with a comma. *)
Definition list_operand (inTree : bool) : parser (list string) :=
  let* paren := consume "(" in
  if negb paren then
    λ p, if inTree || eof p then errorf ("expected " +:+ quote "(") p
         else Ok (Split (rest p) ",", {| src := src p; pos := len (src p) |})
  else
    let* _ := skipSpaces in
    let* items := (λ p, list_go (S (len (rest p))) [] p) in
    let* _ := expect ")" in
    let* _ := skipSpaces in
    retP items.

(** ** Operations *)

(** The optional "(any)", "(all)" or "(language)" after an operator: [(quant, lang)]. *)
Definition modifier (op : string) : parser (string * string) :=
  if bool_decide (op = "isdistinct") then retP ("", "")
  else if negb (bool_decide (table_str ftsFunctions op = "")) then
    let* paren := consume "(" in
    if negb paren then retP ("", "") else
    let* l := take_while (λ c, isASCIILetter c || isASCIIDigit c || bool_decide (c = "_"%char)) in
    if bool_decide (l = "") then
      errorf "expected a text search configuration, e.g. fts(english)"
    else let* _ := expect ")" in retP ("", l)
  else if negb (bool_decide (table_str sqlOperators op = "")) then
    let* paren := consume "(" in
    if negb paren then retP ("", "") else
    if negb (quantifiable op) then failP (ErrNoQuantifier op) else
    let* any := consume "any)" in
    if any : bool then retP ("ANY", "") else
    let* all := consume "all)" in
    if all : bool then retP ("ALL", "") else
    errorf ("expected " +:+ quote "any)" +:+ " or " +:+ quote "all)")
  else failP (ErrUnknownOperator op).

Definition operation (inTree : bool) : parser filterNode :=
  let* neg := consume "not." in
  let* op := take_while isASCIILetter in
  if bool_decide (op = "") then errorf "expected an operator (eq, gt, in, is, ...)"
  else if bool_decide (op = "in") then
    let* _ := expect "." in
    let* items := list_operand inTree in
    retP (condNode neg op "" "" "" items)
  else if bool_decide (op = "is") then
    let* _ := expect "." in
    let* raw := take_while (λ c, isASCIILetter c || bool_decide (c = "_"%char)) in
    let v := ToLower raw in
    match table_get isValues v with
    | None => failP (ErrInvalidIs raw)
    | Some _ => retP (condNode neg op "" "" v [])
    end
  else
    let* (q, l) := modifier op in
    let* _ := expect "." in
    let* v := operand inTree in
    retP (condNode neg op q l v []).

(** ** Logic trees *)

Definition treePrefixes : list (string * string * bool) :=
  [("and(", "AND", false); ("or(", "OR", false);
   ("not.and(", "AND", true); ("not.or(", "OR", true)].

Definition find_prefix (s : string) : option (string * string * bool) :=
  List.find (λ g, HasPrefix s g.1.1) treePrefixes.

(** [group], the loop over its members, and [condition] call each other; [fuel]
    bounds the calls, and [parseFilter] gives enough for its input. *)
Fixpoint group (fuel : nat) (logic : string) (neg : bool) (depth : nat) : parser filterNode :=
  match fuel with
  | O => failP ErrOutOfFuel
  | S fuel =>
      if bool_decide (maxFilterDepth < depth)%nat then failP ErrDepth else
      let* _ := expect "(" in
      let* _ := skipSpaces in
      let* cs := members fuel depth [] in
      let* close := consume ")" in
      if negb close then errorf ("expected " +:+ quote "," +:+ " or " +:+ quote ")") else
      let* _ := skipSpaces in
      retP (groupNode neg logic cs)
  end
with members (fuel : nat) (depth : nat) (acc : list filterNode)
    : parser (list filterNode) :=
  match fuel with
  | O => failP ErrOutOfFuel
  | S fuel =>
      let* child := condition fuel depth in
      let acc := acc ++ [child] in
      let* more := consume "," in
      if negb more then retP acc else
      let* _ := skipSpaces in
      members fuel depth acc
  end
with condition (fuel : nat) (depth : nat) : parser filterNode :=
  match fuel with
  | O => failP ErrOutOfFuel
  | S fuel =>
      λ p,
      match find_prefix (rest p) with
      | Some (prefix, logic, neg) =>
          group fuel logic neg (depth + 1) (adv (len prefix - 1) p)
      | None =>
          (let* col := name in
           let* path := jsonPath in
           let* _ := expect "." in
           let* node := operation true in
           retP (with_field node {| column := col; path := path |})) p
      end
  end.

(** ** Entry points *)

Definition parseFilterKey (k : string) : res filter_error filterField :=
  let p := {| src := k; pos := 0 |} in
  match name p with
  | Err e => Err (BadKey k e)
  | Ok (col, p) =>
      if bool_decide (peek p = "."%char) then Err (EmbeddedFilter k) else
      map_err (BadKey k)
        (let? (path, p) := jsonPath p in
         let? _ := expectEOF p in
         Ok {| column := col; path := path |})
  end.

Definition group_fuel (s : string) : nat := (len s + 4)%nat.

Definition parseFilter (k v : string) : res filter_error filterNode :=
  let segments := Split k "." in
  let last_ := List.last segments "" in
  let p := {| src := v; pos := 0 |} in
  if bool_decide (last_ = "and") || bool_decide (last_ = "or") then
    let prefix := removelast segments in
    let neg := bool_decide (prefix ≠ []) && bool_decide (List.last prefix "" = "not") in
    let prefix := if neg then removelast prefix else prefix in
    if bool_decide (prefix ≠ []) then Err (EmbeddedFilter k) else
    map_err (BadTree v)
      (let? (node, p) := group (group_fuel v) (ToUpperASCII last_) neg 1 p in
       let? _ := expectEOF p in
       Ok node)
  else
    let? fld := parseFilterKey k in
    map_err (BadFilter v)
      (let? (node, p) := operation false p in
       let? _ := expectEOF p in
       Ok (with_field node fld)).

End Parser.
