(* ===== verification/FilterParserFacts.v ===== *)
(** * FilterParserFacts: the cursor discipline of the filter parser.

    Hoare-style facts about the parser monad: every operation leaves [src]
    alone, only moves [pos] forward and never past the end of the input (so no
    slice expression of the source can panic), and the fuel that [parseFilter]
    and the loops choose is never exhausted. *)

From S2P Require Import Prelude GoStrings FilterParser.

(** ** Cursor invariant *)

Definition in_bounds (p : filterParser) : Prop := pos p ≤ len (src p).

(** A run of [m] advances the cursor by at least [k] bytes, inside the input. *)
Definition advances {A} (k : nat) (m : parser A) : Prop :=
  ∀ p a p', in_bounds p → m p = Ok (a, p') →
    src p' = src p ∧ pos p + k ≤ pos p' ∧ in_bounds p'.

(** [m] does not run out of fuel when at most [n] bytes of input remain. *)
Definition enough_fuel {A} (n : nat) (m : parser A) : Prop :=
  ∀ p, in_bounds p → len (rest p) ≤ n → m p ≠ Err ErrOutOfFuel.

Create HintDb parser discriminated.

Lemma bindP_ok {A B} (m : parser A) (k : A → parser B) p b p'' :
  bindP m k p = Ok (b, p'') ↔ ∃ a p', m p = Ok (a, p') ∧ k a p' = Ok (b, p'').
Proof.
  unfold bindP. rewrite res_bind_ok. split.
  - intros ([a p'] & ? & ?). eauto.
  - intros (a & p' & ? & ?). by exists (a, p').
Qed.

Lemma len_rest p : len (rest p) = len (src p) - pos p.
Proof. apply len_drop. Qed.

Lemma rest_adv n p : rest (adv n p) = drop n (rest p).
Proof. unfold rest. simpl. apply drop_add. Qed.

Lemma in_bounds_adv n p : in_bounds p → n ≤ len (rest p) → in_bounds (adv n p).
Proof. unfold in_bounds. rewrite len_rest. simpl. lia. Qed.

Lemma advances_adv {A} (k n : nat) (a : A) p p' b :
  in_bounds p → n ≤ len (rest p) → k ≤ n → @Ok parse_error _ (a, adv n p) = Ok (b, p') →
  src p' = src p ∧ pos p + k ≤ pos p' ∧ in_bounds p'.
Proof.
  intros Hp Hn Hk [= _ <-]. split_and!; [done | simpl; lia | by apply in_bounds_adv].
Qed.

Lemma advances_weaken {A} j k (m : parser A) : k ≤ j → advances j m → advances k m.
Proof. intros Hk Hm p a p' Hp H. destruct (Hm p a p' Hp H) as (? & ? & ?). split_and!; auto; lia. Qed.

Lemma advances_ret {A} (a : A) : advances 0 (retP a).
Proof. intros p b p' Hp [= _ <-]. split_and!; auto; lia. Qed.
Lemma advances_fail {A} k e : advances k (@failP A e).
Proof. by intros p a p' _. Qed.
Lemma advances_errorf {A} k msg : advances k (@errorf A msg).
Proof. by intros p a p' _. Qed.

Lemma advances_bind {A B} j k (m : parser A) (f : A → parser B) :
  advances j m → (∀ a, advances k (f a)) → advances (j + k) (bindP m f).
Proof.
  intros Hm Hf p b p'' Hp (a & p' & Ha & Hk)%bindP_ok.
  destruct (Hm _ _ _ Hp Ha) as (Hs & Hj & Hb).
  destruct (Hf _ _ _ _ Hb Hk) as (Hs' & Hk' & Hb').
  split_and!; [congruence | lia | done].
Qed.
Lemma advances_bind_l {A B} k (m : parser A) (f : A → parser B) :
  advances k m → (∀ a, advances 0 (f a)) → advances k (bindP m f).
Proof. intros. replace k with (k + 0) by lia. by apply advances_bind. Qed.
Lemma advances_bind_r {A B} k (m : parser A) (f : A → parser B) :
  advances 0 m → (∀ a, advances k (f a)) → advances k (bindP m f).
Proof. apply advances_bind. Qed.

Lemma advances_consume s : advances 0 (consume s).
Proof.
  intros p b p' Hp. unfold consume. destruct (HasPrefix (rest p) s) eqn:E.
  - intros H. eapply advances_adv; [done | by apply HasPrefix_len | lia | done].
  - intros [= _ <-]. split_and!; auto; lia.
Qed.
Lemma advances_expect s : advances (len s) (expect s).
Proof.
  intros p b p' Hp. unfold expect, consume. destruct (HasPrefix (rest p) s) eqn:E; [|done].
  simpl. intros H. eapply advances_adv; [done | by apply HasPrefix_len | lia | done].
Qed.
Lemma advances_expect0 s : advances 0 (expect s).
Proof. eapply advances_weaken; [|apply advances_expect]. lia. Qed.
Lemma advances_expectEOF : advances 0 expectEOF.
Proof. intros p b p' Hp. unfold expectEOF. destruct (eof p); [|done]. intros [= _ <-]. split_and!; auto; lia. Qed.
Lemma advances_take_while f : advances 0 (take_while f).
Proof. intros p b p' Hp H. eapply advances_adv; [done | apply span_le | lia | done]. Qed.
Lemma advances_until s : advances 0 (until s).
Proof. apply advances_take_while. Qed.
Lemma advances_skipSpaces : advances 0 skipSpaces.
Proof. intros p b p' Hp H. eapply advances_adv; [done | apply span_le | lia | done]. Qed.

(** Moving the cursor to the end, as the verbatim operands do. *)
Lemma advances_to_end {A} (p p' : filterParser) (a b : A) :
  in_bounds p → @Ok parse_error _ (a, {| src := src p; pos := len (src p) |}) = Ok (b, p') →
  src p' = src p ∧ pos p + 0 ≤ pos p' ∧ in_bounds p'.
Proof. unfold in_bounds. intros ? [= _ <-]. simpl. split_and!; auto; lia. Qed.

#[export] Hint Resolve advances_ret advances_fail advances_errorf advances_consume
  advances_expect0 advances_expectEOF advances_take_while advances_until
  advances_skipSpaces : parser.

(** [parser_tac] walks a parser that is built from binds and conditionals. *)
Ltac parser_tac :=
  repeat first
    [ progress eauto with parser
    | apply advances_bind_r
    | match goal with
      | |- ∀ _, _ => intro
      | |- advances _ (if ?b then _ else _) => destruct b
      | |- advances _ (match ?x with _ => _ end) => destruct x
      end ].

Section Facts.
Context `{Unicode}.

Lemma quoted_go_len s b n : quoted_go s = Some (b, n) → n ≤ len s.
Proof.
  revert b n. induction s as [s IH] using (induction_ltof1 _ len).
  unfold ltof in IH. intros b n.
  destruct s as [|c t]; simpl; [done|].
  case_bool_decide as Hc.
  - destruct t as [|d t']; [done|]. intros Hq.
    apply bind_Some in Hq as ([b' n'] & Hq & [= _ <-]).
    apply IH in Hq; simpl; lia.
  - case_bool_decide; [intros [= _ <-]; lia|]. intros Hq.
    apply bind_Some in Hq as ([b' n'] & Hq & [= _ <-]).
    apply IH in Hq; simpl; lia.
Qed.

Lemma peek_len p c : peek p = c → c ≠ Ascii.zero → 1 ≤ len (rest p).
Proof. unfold peek. destruct (rest p); simpl; [congruence | lia]. Qed.

Lemma advances_quoted : advances 0 quoted.
Proof.
  intros p q p' Hp. unfold quoted.
  case_bool_decide as Hq; simpl; [|intros [= _ <-]; split_and!; auto; lia].
  destruct (quoted_go _) as [[b n]|] eqn:E; [|intros [= _ <-]; split_and!; auto; lia].
  apply quoted_go_len in E. rewrite len_drop in E. apply peek_len in Hq; [|done].
  apply advances_adv; [done | lia | lia].
Qed.

(** A quoted name is at least its two quotes long. *)
Lemma quoted_some p s p' : in_bounds p → quoted p = Ok (Some s, p') → pos p + 1 ≤ pos p'.
Proof.
  intros Hp. unfold quoted. case_bool_decide; simpl; [|done].
  destruct (quoted_go _) as [[b n]|]; [|done]. intros [= _ <-]. simpl. lia.
Qed.

Lemma advances_quotedElement : advances 0 quotedElement.
Proof.
  intros p q p' Hp. unfold quotedElement. intros ([[s|] p1] & Hq & Hv)%res_bind_ok.
  - case_match; simplify_eq; [by apply (advances_quoted p (Some s))|].
    split_and!; auto; lia.
  - simplify_eq. split_and!; auto; lia.
Qed.

Lemma name_len_le fuel first s : name_len fuel first s ≤ len s.
Proof.
  revert first s. induction fuel as [|fuel IH]; intros first s; [simpl; lia|].
  destruct s as [|c s]; [simpl; lia|]. cbn [name_len].
  pose proof (DecodeRune_width (String c s) ltac:(done)) as [_ Hw].
  destruct (DecodeRune (String c s)) as [r w]. simpl in Hw.
  case_match; [|lia]. specialize (IH false (drop w (String c s))). rewrite len_drop in IH.
  simpl in *. lia.
Qed.

Lemma advances_name : advances 1 name.
Proof.
  intros p s p' Hp. unfold name. case_bool_decide as Hq.
  - intros ([[s'|] p1] & Hr & Hv)%res_bind_ok; [|done]. simplify_eq.
    pose proof (quoted_some _ _ _ Hp Hr). destruct (advances_quoted _ _ _ Hp Hr) as (? & ? & ?).
    split_and!; auto.
  - pose proof (name_len_le (len (rest p)) true (rest p)) as Hle.
    destruct (name_len _ _ _) as [|n]; [done|]. apply advances_adv; [done | lia | lia].
Qed.

Lemma advances_arrayIndex : advances 0 arrayIndex.
Proof.
  intros p i p' Hp. unfold arrayIndex.
  set (sgn := match rest p with String c _ => _ | _ => _ end).
  set (n := span isASCIIDigit (drop sgn (rest p))).
  case_match eqn:E; [intros [= _ <-]; split_and!; auto; lia|].
  destruct (ParseInt _ _); [|intros [= _ <-]; split_and!; auto; lia].
  apply advances_adv; [done | | lia].
  apply orb_false_iff in E as [E _]. apply orb_false_iff in E as [E _].
  apply bool_decide_eq_false in E.
  pose proof (span_le isASCIIDigit (drop sgn (rest p))) as Hn. fold n in Hn.
  rewrite len_drop in Hn. lia.
Qed.

#[local] Hint Resolve advances_quotedElement advances_arrayIndex : parser.

Lemma advances_name0 : advances 0 name.
Proof. eapply advances_weaken, advances_name. lia. Qed.
#[local] Hint Resolve advances_name0 : parser.

Lemma advances_jsonPath_go fuel acc : advances 0 (jsonPath_go fuel acc).
Proof. revert acc. induction fuel as [|fuel IH]; intros acc; cbn [jsonPath_go]; parser_tac. Qed.
Lemma advances_jsonPath : advances 0 jsonPath.
Proof. intros p. exact (advances_jsonPath_go _ _ p). Qed.

Lemma IndexFunc_lt f s n : IndexFunc f s = Some n → n < len s.
Proof.
  revert n. induction s as [|c s IH]; intros n; simpl; [done|].
  destruct (f c); [intros [= <-]; lia|].
  intros (m & Hm & ->)%fmap_Some. specialize (IH _ Hm). lia.
Qed.

Lemma advances_operand inTree : advances 0 (operand inTree).
Proof.
  intros p v p' Hp. unfold operand. destruct inTree; simpl; [|by apply advances_to_end].
  intros ([[s|] p1] & H0 & Hv)%res_bind_ok.
  { simplify_eq. by apply (advances_quotedElement p (Some v)). }
  destruct (advances_quotedElement _ _ _ Hp H0) as (Hs & Hk & Hb).
  enough (src p' = src p1 ∧ pos p1 + 0 ≤ pos p' ∧ in_bounds p')
    by (destruct_and!; split_and!; [congruence | lia | done]).
  case_match eqn:E; [|by apply (advances_until ",)" p1 v)].
  case_bool_decide as Hq; [|done]. apply peek_len in Hq; [|done].
  destruct (IndexAny _ _) as [e|] eqn:Hi; [|done]. case_bool_decide; [|done].
  injection E as ->. apply IndexFunc_lt in Hi. rewrite len_drop in Hi.
  eapply advances_adv; [done | | | exact Hv]; lia.
Qed.

Lemma advances_list_go fuel items : advances 0 (list_go fuel items).
Proof.
  revert items. induction fuel as [|fuel IH]; intros items; cbn [list_go]; parser_tac.
  intros p b p' Hp. case_match; intros [= _ <-]; split_and!; auto; lia.
Qed.

Lemma advances_list_operand inTree : advances 0 (list_operand inTree).
Proof.
  unfold list_operand. apply advances_bind_r; [eauto with parser|]. intros [|]; cbn [negb].
  - apply advances_bind_r; [eauto with parser|]. intros _.
    apply advances_bind_r; [intros p; exact (advances_list_go _ _ p) | parser_tac].
  - intros p b p' Hp. case_match; [done|]. by apply advances_to_end.
Qed.

Lemma advances_modifier op : advances 0 (modifier op).
Proof. unfold modifier. parser_tac. Qed.

#[local] Hint Resolve advances_operand advances_list_operand advances_modifier
  advances_jsonPath : parser.

Lemma advances_operation inTree : advances 0 (operation inTree).
Proof. unfold operation. parser_tac. Qed.

#[local] Hint Resolve advances_operation : parser.

(** The tree prefixes leave their parenthesis to [group]. *)
Lemma find_prefix_spec s prefix lg neg :
  find_prefix s = Some (prefix, lg, neg) →
  HasPrefix s prefix = true ∧ 3 ≤ len prefix.
Proof.
  unfold find_prefix. intros Hf. apply List.find_some in Hf as [Hin Hp]. simpl in Hp.
  split; [done|]. simpl in Hin. naive_solver (simpl; lia).
Qed.

(** Every member of a logic tree, and every tree, consumes input. *)
Lemma advances_tree fuel :
  (∀ lg neg d, advances 1 (group fuel lg neg d)) ∧
  (∀ d acc, advances 1 (members fuel d acc)) ∧
  (∀ d, advances 1 (condition fuel d)).
Proof.
  induction fuel as [|fuel (IHg & IHm & IHc)]; [by split_and!|]. split_and!.
  - intros lg neg d. cbn [group]. case_bool_decide; [apply advances_fail|].
    apply advances_bind_l; [apply advances_expect | intros []].
    parser_tac. eapply advances_weaken, IHm. lia.
  - intros d acc. cbn [members]. apply advances_bind_l; [apply IHc|]. intros child.
    parser_tac. eapply advances_weaken, IHm. lia.
  - intros d p a p' Hp. cbn [condition].
    destruct (find_prefix (rest p)) as [[[prefix lg] neg]|] eqn:Hf.
    + apply find_prefix_spec in Hf as [Hpre Hlen]. apply HasPrefix_len in Hpre.
      intros Hg. destruct (IHg _ _ _ _ _ _ (in_bounds_adv (len prefix - 1) p Hp ltac:(lia)) Hg)
        as (Hs & Hk & Hb). simpl in *. split_and!; [done | lia | done].
    + revert p a p' Hp Hf. intros p a p' Hp _. revert p a p' Hp.
      apply advances_bind_l; [apply advances_name|]. parser_tac.
Qed.

End Facts.

(** ** The fuel is enough *)

Definition fuel_at {A} (p : filterParser) (m : parser A) : Prop := m p ≠ Err ErrOutOfFuel.

Lemma fuel_at_bind {A B} (m : parser A) (k : A → parser B) p :
  fuel_at p m → (∀ a p', m p = Ok (a, p') → fuel_at p' (k a)) → fuel_at p (bindP m k).
Proof.
  unfold fuel_at, bindP. intros Hm Hk. destruct (m p) as [[a p']|e] eqn:E; simpl; [|congruence].
  by apply Hk.
Qed.

Lemma fuel_ret {A} (a : A) p : fuel_at p (retP a).
Proof. done. Qed.
Lemma fuel_errorf {A} msg p : fuel_at p (@errorf A msg).
Proof. done. Qed.
Lemma fuel_consume s p : fuel_at p (consume s).
Proof. unfold fuel_at, consume. by case_match. Qed.
Lemma fuel_expect s p : fuel_at p (expect s).
Proof. unfold fuel_at, expect, consume. by case_match. Qed.
Lemma fuel_expectEOF p : fuel_at p expectEOF.
Proof. unfold fuel_at, expectEOF. by case_match. Qed.
Lemma fuel_take_while f p : fuel_at p (take_while f).
Proof. done. Qed.
Lemma fuel_skipSpaces p : fuel_at p skipSpaces.
Proof. done. Qed.
Lemma fuel_until s p : fuel_at p (until s).
Proof. done. Qed.

#[export] Hint Resolve fuel_ret fuel_errorf fuel_consume fuel_expect fuel_expectEOF
  fuel_take_while fuel_skipSpaces fuel_until : parser.

(** [fuel_tac] is [parser_tac] for [fuel_at]: it walks the binds and keeps the
    equations of the steps already run. *)
Ltac fuel_tac :=
  repeat first
    [ progress eauto with parser
    | done
    | apply fuel_at_bind
    | match goal with
      | |- ∀ _, _ => intro
      | |- fuel_at _ (if ?b then _ else _) => destruct b eqn:?
      | |- fuel_at _ (match ?x with _ => _ end) => destruct x eqn:?
      end ].

Lemma consume_ok s p b p' :
  consume s p = Ok (b, p') →
  (b = true ∧ HasPrefix (rest p) s = true ∧ p' = adv (len s) p) ∨ (b = false ∧ p' = p).
Proof. unfold consume. case_match; intros [= <- <-]; auto. Qed.

Lemma advances_rest {A} k (m : parser A) p a p' :
  advances k m → in_bounds p → m p = Ok (a, p') →
  in_bounds p' ∧ len (rest p') + k ≤ len (rest p) .
Proof.
  intros Hm Hp H. destruct (Hm _ _ _ Hp H) as (Hs & Hk & Hb). split; [done|].
  rewrite !len_rest, Hs. unfold in_bounds in *. rewrite Hs in *. lia.
Qed.

(** [step_rest] records the progress of the steps run so far. *)
Ltac step_rest Hm H :=
  let Hb := fresh "Hb" in let Hl := fresh "Hl" in
  destruct (advances_rest _ _ _ _ _ Hm ltac:(eassumption) H) as [Hb Hl].

Section Fuel.
Context `{Unicode}.

Lemma fuel_quoted p : fuel_at p quoted.
Proof. unfold fuel_at, quoted. by repeat case_match. Qed.
Lemma fuel_quotedElement p : fuel_at p quotedElement.
Proof.
  unfold fuel_at, quotedElement, quoted. by repeat (case_match; simpl).
Qed.
Lemma fuel_name p : fuel_at p name.
Proof.
  unfold fuel_at, name, quoted, errorf. by repeat (case_match; simpl).
Qed.
Lemma fuel_arrayIndex p : fuel_at p arrayIndex.
Proof. unfold fuel_at, arrayIndex. by repeat case_match. Qed.
Lemma fuel_operand inTree p : fuel_at p (operand inTree).
Proof.
  unfold fuel_at, operand, quotedElement, quoted, until, take_while.
  by repeat (case_match; simpl).
Qed.
#[local] Hint Resolve fuel_quoted fuel_quotedElement fuel_name fuel_arrayIndex
  fuel_operand : parser.

Lemma fuel_jsonPath_go fuel acc p :
  in_bounds p → len (rest p) < fuel → fuel_at p (jsonPath_go fuel acc).
Proof.
  revert acc p. induction fuel as [|fuel IH]; intros acc p Hp Hlen; [lia|].
  cbn [jsonPath_go]. apply fuel_at_bind; [eauto with parser|]. intros two p1 E1.
  apply fuel_at_bind; [destruct two; eauto with parser|]. intros one p2 E2.
  destruct one; cbn [negb]; [|done].
  step_rest (advances_consume "->>") E1.
  assert (in_bounds p2 ∧ len (rest p2) < len (rest p)) as [Hb2 Hl2].
  { apply consume_ok in E1 as [(-> & Hpre & ->)|[-> ->]].
    - injection E2 as <-. split; [done|]. apply HasPrefix_len in Hpre.
      rewrite rest_adv, len_drop. simpl in *. lia.
    - apply consume_ok in E2 as [(_ & Hpre & ->)|[? _]]; [|done].
      apply HasPrefix_len in Hpre. simpl in Hpre. split; [apply in_bounds_adv; simpl; [done|lia]|].
      rewrite rest_adv, len_drop. simpl in *. lia. }
  apply fuel_at_bind; [eauto with parser|]. intros idx p3 E3.
  step_rest advances_arrayIndex E3.
  apply fuel_at_bind; [fuel_tac|]. intros step p4 E4.
  assert (in_bounds p4 ∧ len (rest p4) ≤ len (rest p3)) as [Hb4 Hl4].
  { destruct idx; [injection E4 as _ <-; auto|].
    apply bindP_ok in E4 as (k & p5 & Hn & [= _ <-]). step_rest advances_name0 Hn.
    split; [done | lia]. }
  apply IH; [done | lia].
Qed.
Lemma fuel_jsonPath p : in_bounds p → fuel_at p jsonPath.
Proof. intros Hp. by apply fuel_jsonPath_go; [|lia]. Qed.

Lemma fuel_list_go fuel items p :
  in_bounds p → len (rest p) < fuel → fuel_at p (list_go fuel items).
Proof.
  revert items p. induction fuel as [|fuel IH]; intros items p Hp Hlen; [lia|].
  cbn [list_go]. apply fuel_at_bind; [eauto with parser|]. intros q p1 E1.
  step_rest advances_quotedElement E1.
  apply fuel_at_bind.
  { destruct q; [done|]. apply fuel_at_bind; [eauto with parser|].
    intros. unfold fuel_at. by case_match. }
  intros item p2 E2.
  assert (in_bounds p2 ∧ len (rest p2) ≤ len (rest p1)) as [Hb2 Hl2].
  { destruct q; [injection E2 as _ <-; auto|].
    apply bindP_ok in E2 as (v & p3 & Hv & E2). step_rest (advances_until ",)") Hv.
    assert (p3 = p2) as -> by (by case_match; simplify_eq). split; [done | lia]. }
  destruct item; [|done].
  apply fuel_at_bind; [eauto with parser|]. intros more p3 E3.
  destruct more; [|done]. apply consume_ok in E3 as [(_ & Hpre & ->)|[? _]]; [|done].
  apply HasPrefix_len in Hpre. simpl in Hpre.
  apply IH; [apply in_bounds_adv; simpl; [done | lia]|].
  rewrite rest_adv, len_drop. simpl in *. lia.
Qed.

Lemma fuel_list_operand inTree p : in_bounds p → fuel_at p (list_operand inTree).
Proof.
  intros Hp. unfold list_operand. apply fuel_at_bind; [eauto with parser|]. intros b p1 E1.
  step_rest (advances_consume "(") E1. destruct b; cbn [negb].
  - apply fuel_at_bind; [eauto with parser|]. intros ? p2 E2. step_rest advances_skipSpaces E2.
    apply fuel_at_bind; [by apply fuel_list_go; [|lia] | fuel_tac].
  - unfold fuel_at. by case_match.
Qed.

Lemma fuel_modifier op p : fuel_at p (modifier op).
Proof. unfold modifier. fuel_tac. Qed.

Lemma fuel_operation inTree p : in_bounds p → fuel_at p (operation inTree).
Proof.
  intros Hp. unfold operation. apply fuel_at_bind; [eauto with parser|]. intros neg p1 E1.
  step_rest (advances_consume "not.") E1.
  apply fuel_at_bind; [eauto with parser|]. intros op p2 E2.
  step_rest (advances_take_while isASCIILetter) E2.
  case_bool_decide; [done|]. case_bool_decide.
  { apply fuel_at_bind; [eauto with parser|]. intros ? p3 E3. step_rest (advances_expect0 ".") E3.
    apply fuel_at_bind; [by apply fuel_list_operand | fuel_tac]. }
  case_bool_decide; [fuel_tac|].
  apply fuel_at_bind; [apply fuel_modifier | fuel_tac].
Qed.

Lemma fuel_tree fuel :
  (∀ lg neg d p, in_bounds p → len (rest p) + 3 ≤ fuel → fuel_at p (group fuel lg neg d)) ∧
  (∀ d acc p, in_bounds p → len (rest p) + 3 ≤ fuel → fuel_at p (members fuel d acc)) ∧
  (∀ d p, in_bounds p → len (rest p) + 2 ≤ fuel → fuel_at p (condition fuel d)).
Proof.
  induction fuel as [|fuel (IHg & IHm & IHc)]; [split_and!; intros; lia|].
  destruct (advances_tree fuel) as (_ & Am & Ac). split_and!.
  - intros lg neg d p Hp Hlen. cbn [group]. case_bool_decide; [done|].
    apply fuel_at_bind; [eauto with parser|]. intros ? p1 E1. step_rest (advances_expect "(") E1.
    apply fuel_at_bind; [eauto with parser|]. intros ? p2 E2. step_rest advances_skipSpaces E2.
    simpl in *. apply fuel_at_bind; [apply IHm; [done | lia] | fuel_tac].
  - intros d acc p Hp Hlen. cbn [members].
    apply fuel_at_bind; [apply IHc; [done | lia]|]. intros child p1 E1.
    step_rest (Ac d) E1.
    apply fuel_at_bind; [eauto with parser|]. intros more p2 E2. step_rest (advances_consume ",") E2.
    destruct more; cbn [negb]; [|done].
    apply fuel_at_bind; [eauto with parser|]. intros ? p3 E3. step_rest advances_skipSpaces E3.
    apply IHm; [done | lia].
  - intros d p Hp Hlen. cbn [condition]. unfold fuel_at.
    destruct (find_prefix (rest p)) as [[[prefix lg] neg]|] eqn:Hf.
    + apply find_prefix_spec in Hf as [Hpre Hl]. apply HasPrefix_len in Hpre.
      apply IHg; [apply in_bounds_adv; [done | lia]|]. rewrite rest_adv, len_drop. lia.
    + clear Hf. revert p Hp Hlen.
      enough (∀ p, in_bounds p → fuel_at p
        (let* col := name in let* path := jsonPath in let* _ := expect "." in
         let* node := operation true in
         retP (with_field node {| column := col; path := path |}))) as Hc by (intros; by apply Hc).
      intros p Hp. apply fuel_at_bind; [eauto with parser|]. intros col p1 E1. step_rest advances_name E1.
      apply fuel_at_bind; [by apply fuel_jsonPath|]. intros pth p2 E2. step_rest advances_jsonPath E2.
      apply fuel_at_bind; [eauto with parser|]. intros ? p3 E3. step_rest (advances_expect0 ".") E3.
      apply fuel_at_bind; [by apply fuel_operation | fuel_tac].
Qed.

End Fuel.
