(* ===== verification/FilterGrammar.v ===== *)
(** * FilterGrammar: the language of the filter parser.

    The abstract specification of [parseFilter]: a well-formedness predicate
    [wf_node] on filter trees with their nesting, and a printer [print_filter]
    that writes a tree in the query-parameter syntax with every name and operand
    quoted. The parser only produces well-formed trees and reads every printed
    tree back, so the well-formed trees are exactly what it can produce. *)

From S2P Require Import Prelude GoStrings FilterParser FilterParserFacts.

(** ** Well-formed filter trees *)

Definition int32 (z : Z) : bool := ((- 2 ^ 31 <=? z) && (z <? 2 ^ 31))%Z.

Definition wf_step (s : jsonPathStep) : bool :=
  bool_decide (arrow s ∈ ["->"; "->>"]) &&
  (if isIndex s then bool_decide (key s = "") && int32 (index s)
   else bool_decide (index s = 0%Z)).

Definition lang_char (c : ascii) : bool :=
  isASCIILetter c || isASCIIDigit c || bool_decide (c = "_"%char).

(** The operator of a condition and the parts it may carry. *)
Definition wf_cond (op quant lang value : string) (items : list string) : bool :=
  if bool_decide (op = "in") then
    bool_decide (quant = "") && bool_decide (lang = "") && bool_decide (value = "")
  else if bool_decide (op = "is") then
    bool_decide (quant = "") && bool_decide (lang = "") && bool_decide (items = []) &&
    bool_decide (value ∈ isValues.*1)
  else if bool_decide (op = "isdistinct") then
    bool_decide (quant = "") && bool_decide (lang = "") && bool_decide (items = [])
  else if bool_decide (op ∈ ftsFunctions.*1) then
    bool_decide (quant = "") && all_bytes lang_char lang && bool_decide (items = [])
  else
    bool_decide (op ∈ sqlOperators.*1) && bool_decide (lang = "") && bool_decide (items = []) &&
    (bool_decide (quant = "") || (quantifiable op && bool_decide (quant ∈ ["ANY"; "ALL"]))).

#[export] Instance jsonPathStep_eq_dec : EqDecision jsonPathStep.
Proof. solve_decision. Defined.
#[export] Instance filterField_eq_dec : EqDecision filterField.
Proof. solve_decision. Defined.

(** [levels] is the number of group levels the tree may still use. *)
Fixpoint wf_node (levels : nat) (n : filterNode) : bool :=
  match n with
  | mkFilterNode neg lg cs fld op q l v items =>
      if bool_decide (lg = "") then
        bool_decide (length cs = 0) && forallb wf_step (path fld) && wf_cond op q l v items
      else
        match levels with
        | O => false
        | S levels =>
            bool_decide (lg ∈ ["AND"; "OR"]) && negb (bool_decide (length cs = 0)) &&
            forallb (wf_node levels) cs && bool_decide (fld = zeroField) &&
            bool_decide (op = "") && bool_decide (q = "") && bool_decide (l = "") &&
            bool_decide (v = "") && bool_decide (items = [])
        end
  end.

(** ** Soundness: what a successful parse returns *)

(** Every value [m] returns satisfies [P]. *)
Definition yields {A} (m : parser A) (P : A → Prop) : Prop :=
  ∀ p a p', m p = Ok (a, p') → P a.

Lemma yields_any {A} (m : parser A) : yields m (λ _, True).
Proof. done. Qed.
Lemma yields_ret {A} (a : A) (P : A → Prop) : P a → yields (retP a) P.
Proof. intros Ha p b p' [= <- _]. done. Qed.
Lemma yields_fail {A} e (P : A → Prop) : yields (failP e) P.
Proof. done. Qed.
Lemma yields_errorf {A} msg (P : A → Prop) : yields (errorf msg) P.
Proof. done. Qed.
Lemma yields_bind {A B} (m : parser A) (k : A → parser B) P Q :
  yields m P → (∀ a, P a → yields (k a) Q) → yields (bindP m k) Q.
Proof. intros Hm Hk p b p'' (a & p' & Ha & Hb)%bindP_ok. by eapply Hk, Hb; eapply Hm. Qed.
Lemma yields_step {A B} (m : parser A) (k : A → parser B) Q :
  (∀ a, yields (k a) Q) → yields (bindP m k) Q.
Proof. intros. eapply yields_bind; [apply yields_any | auto]. Qed.
Lemma yields_take_while f : yields (take_while f) (λ s, all_bytes f s = true).
Proof. intros p s p' [= <- _]. apply span_all. Qed.

Ltac yields_tac :=
  repeat first
    [ apply yields_ret | apply yields_fail | apply yields_errorf | apply yields_step
    | match goal with
      | |- ∀ _, _ => intro
      | |- yields (if ?b then _ else _) _ => destruct b eqn:?
      | |- yields (match ?x with _ => _ end) _ => destruct x eqn:?
      end ].

(** Membership in a table, as the source tests it. *)
Lemma table_get_Some t k v : table_get t k = Some v → (k, v) ∈ t.
Proof.
  unfold table_get. intros ([k' v'] & Hf & ->)%fmap_Some.
  apply List.find_some in Hf as [Hin Hk]. apply bool_decide_eq_true in Hk. simpl in *.
  subst. by apply list_elem_of_In.
Qed.
Lemma table_get_dom t k v : table_get t k = Some v → k ∈ t.*1.
Proof. intros H%table_get_Some. apply list_elem_of_fmap. by exists (k, v). Qed.
Lemma table_str_dom t k : table_str t k ≠ "" → k ∈ t.*1.
Proof.
  unfold table_str. destruct (table_get t k) as [v|] eqn:E; [|done].
  intros _. by eapply table_get_dom.
Qed.
Lemma table_get_is_Some t k : k ∈ t.*1 → is_Some (table_get t k).
Proof.
  intros ([k' v] & -> & Hin)%list_elem_of_fmap. unfold table_get. apply fmap_is_Some.
  destruct (List.find _ t) eqn:E; [eauto|].
  eapply List.find_none in E; [|by apply list_elem_of_In]. simpl in E.
  by rewrite bool_decide_eq_true_2 in E.
Qed.

Lemma ParseInt_int32 s z : ParseInt s 32 = Some z → int32 z = true.
Proof.
  unfold ParseInt, int32.
  destruct (match s with String "+" t => _ | _ => _ end) as [neg ds]. destruct ds as [|c ds]; [done|].
  intros (v & Hv & Hz)%bind_Some.
  assert (0 ≤ v)%Z.
  { revert Hv. generalize (String c ds) as t. assert (0 ≤ 0)%Z as Hacc by lia.
    revert Hacc. generalize 0%Z at 2 3 as acc. intros acc Hacc t. revert acc Hacc.
    induction t as [|d t IH]; intros acc Hacc; simpl; [by intros [= <-]|].
    destruct (isDigit d) eqn:Hd; [|done]. apply IH. unfold isDigit, in_range, digit_val in *.
    apply andb_true_iff in Hd as [Hd _]. apply Z.leb_le in Hd. lia. }
  destruct neg; case_match; simplify_eq;
    apply andb_true_iff; rewrite Z.leb_le, Z.ltb_lt; lia.
Qed.

Section Soundness.
Context `{Unicode}.

Lemma arrayIndex_int32 p z p' : arrayIndex p = Ok (Some z, p') → int32 z = true.
Proof.
  unfold arrayIndex. case_match; [done|]. destruct (ParseInt _ _) eqn:E; [|done].
  intros [= <- _]. by eapply ParseInt_int32.
Qed.

Lemma jsonPath_go_wf fuel acc :
  forallb wf_step acc = true → yields (jsonPath_go fuel acc) (λ l, forallb wf_step l = true).
Proof.
  revert acc. induction fuel as [|fuel IH]; intros acc Hacc; [done|].
  cbn [jsonPath_go]. apply yields_step; intros two. apply yields_step; intros one.
  destruct one; cbn [negb]; [|by apply yields_ret].
  eapply yields_bind with (P := λ idx, ∀ z, idx = Some z → int32 z = true).
  { intros p idx p' Hi z ->. by eapply arrayIndex_int32. }
  intros idx Hidx.
  eapply yields_bind with (P := λ s, wf_step s = true).
  { destruct idx as [z|]; yields_tac; unfold wf_step; simpl.
    - rewrite (Hidx z eq_refl). by destruct two.
    - by destruct two. }
  intros st Hst. apply IH. rewrite forallb_app, Hacc. simpl. by rewrite Hst.
Qed.

Lemma jsonPath_wf : yields jsonPath (λ l, forallb wf_step l = true).
Proof. intros p a p'. by apply jsonPath_go_wf. Qed.

(** The modifiers only come with operators that take them. *)
Lemma modifier_wf op v :
  op ≠ "in" → op ≠ "is" →
  yields (modifier op) (λ ql, wf_cond op ql.1 ql.2 v [] = true).
Proof.
  intros Hin His. unfold modifier, wf_cond.
  rewrite (bool_decide_eq_false_2 (op = "in")), (bool_decide_eq_false_2 (op = "is")) by done.
  destruct (decide (op = "isdistinct")) as [->|Hd]; [by apply yields_ret|].
  rewrite (bool_decide_eq_false_2 (op = "isdistinct")) by done.
  destruct (decide (table_str ftsFunctions op = "")) as [Hf|Hf].
  - rewrite (bool_decide_eq_true_2 (table_str ftsFunctions op = "")) by done. cbn [negb].
    rewrite (bool_decide_eq_false_2 (op ∈ ftsFunctions.*1)).
    2:{ simpl. rewrite !elem_of_cons. by intros [->|[->|[->|[->|?%elem_of_nil]]]]. }
    destruct (decide (table_str sqlOperators op = "")) as [Hs|Hs];
      [rewrite (bool_decide_eq_true_2 _ Hs); done|].
    rewrite (bool_decide_eq_false_2 _ Hs). cbn [negb].
    rewrite (bool_decide_eq_true_2 (op ∈ sqlOperators.*1)) by by apply table_str_dom.
    yields_tac; simpl; try done; destruct (quantifiable op); done.
  - rewrite (bool_decide_eq_false_2 _ Hf). cbn [negb].
    rewrite (bool_decide_eq_true_2 (op ∈ ftsFunctions.*1)) by by apply table_str_dom.
    apply yields_step; intros []; cbn [negb]; [|by apply yields_ret].
    eapply yields_bind; [apply yields_take_while|]. intros l Hl. simpl in Hl.
    yields_tac. simpl. change (all_bytes lang_char l = true) in Hl.
    by rewrite Hl.
Qed.

Lemma operation_wf inTree :
  yields (operation inTree)
    (λ n, logic n = "" ∧ children n = [] ∧
          wf_cond (operator n) (quant n) (lang n) (value n) (list_ n) = true).
Proof.
  unfold operation. apply yields_step; intros neg. apply yields_step; intros op.
  case_bool_decide; [done|]. case_bool_decide as Hin; [subst; by yields_tac|].
  case_bool_decide as His.
  - subst. yields_tac. split_and!; [done..|]. simpl.
    apply andb_true_iff. split; [done|]. apply bool_decide_eq_true.
    by eapply (table_get_dom isValues).
  - eapply yields_bind with (P := λ ql, ∀ v, wf_cond op ql.1 ql.2 v [] = true).
    { intros p ql p' Hm v. by eapply modifier_wf. }
    intros [q l] Hw. yields_tac. simpl. split_and!; [done..|]. apply Hw.
Qed.

Lemma wf_node_group levels neg lg cs :
  lg ∈ ["AND"; "OR"] → cs ≠ [] → forallb (wf_node levels) cs = true →
  wf_node (S levels) (groupNode neg lg cs) = true.
Proof.
  intros Hlg Hcs Hw. simpl. rewrite Hw.
  rewrite (bool_decide_eq_true_2 (lg ∈ _)) by done.
  rewrite (bool_decide_eq_false_2 (lg = "")) by set_solver.
  by destruct cs.
Qed.

Lemma wf_node_cond levels n fld :
  logic n = "" → children n = [] →
  wf_cond (operator n) (quant n) (lang n) (value n) (list_ n) = true →
  forallb wf_step (path fld) = true → wf_node levels (with_field n fld) = true.
Proof.
  destruct n as [neg lg cs f op q l v items]. simpl. intros -> -> Hw Hp.
  destruct levels; simpl; by rewrite Hw, Hp.
Qed.

Lemma find_prefix_logic s prefix lg neg :
  find_prefix s = Some (prefix, lg, neg) → lg ∈ ["AND"; "OR"].
Proof.
  unfold find_prefix. intros Hf. apply List.find_some in Hf as [Hin _].
  simpl in Hin. set_solver.
Qed.

Lemma tree_wf fuel :
  (∀ lg neg d, lg ∈ ["AND"; "OR"] →
     yields (group fuel lg neg d) (λ n, wf_node (S maxFilterDepth - d) n = true)) ∧
  (∀ d acc, forallb (wf_node (maxFilterDepth - d)) acc = true →
     yields (members fuel d acc)
       (λ cs, cs ≠ [] ∧ forallb (wf_node (maxFilterDepth - d)) cs = true)) ∧
  (∀ d, yields (condition fuel d) (λ n, wf_node (maxFilterDepth - d) n = true)).
Proof.
  induction fuel as [|fuel (IHg & IHm & IHc)]; [split_and!; done|]. split_and!.
  - intros lg neg d Hlg. cbn [group]. case_bool_decide as Hd; [done|].
    apply yields_step; intros _. apply yields_step; intros _.
    eapply yields_bind; [by apply IHm|]. intros cs [Hcs Hw]. simpl in Hw.
    yields_tac. replace (S maxFilterDepth - d) with (S (maxFilterDepth - d)) by lia.
    by apply wf_node_group.
  - intros d acc Hacc. cbn [members]. eapply yields_bind; [apply IHc|].
    intros child Hch. simpl in Hch.
    assert (forallb (wf_node (maxFilterDepth - d)) (acc ++ [child]) = true) as Hacc'.
    { rewrite forallb_app, Hacc. cbn [forallb]. by rewrite Hch. }
    apply yields_step; intros more. destruct more; cbn [negb].
    + apply yields_step; intros _. by apply IHm.
    + apply yields_ret. split; [by destruct acc | done].
  - intros d p n p'. cbn [condition].
    destruct (find_prefix (rest p)) as [[[prefix lg] neg]|] eqn:Hf.
    + intros Hg. apply IHg in Hg; [|by eapply find_prefix_logic].
      simpl in Hg. by replace (S maxFilterDepth - (d + 1)) with (maxFilterDepth - d) in Hg by lia.
    + revert p n p' Hf. intros p n p' _. revert p n p'.
      apply yields_step; intros col. eapply yields_bind; [apply jsonPath_wf|].
      intros pth Hp. apply yields_step; intros _.
      eapply yields_bind; [apply operation_wf|]. intros n (Hlg & Hcs & Hw).
      apply yields_ret. by apply wf_node_cond.
Qed.

(** A path of a parsed key. *)
Lemma parseFilterKey_wf k f : parseFilterKey k = Ok f → forallb wf_step (path f) = true.
Proof.
  unfold parseFilterKey. destruct (name _) as [[col p1]|]; [|done]. case_bool_decide; [done|].
  intros Hok. apply map_err_ok, res_bind_ok in Hok as ([pth p2] & Hp & Hok).
  apply res_bind_ok in Hok as (? & _ & [= <-]). by apply jsonPath_wf in Hp.
Qed.

Lemma last_and_or (s : string) :
  bool_decide (s = "and") || bool_decide (s = "or") = true → ToUpperASCII s ∈ ["AND"; "OR"].
Proof.
  intros [->%bool_decide_eq_true | ->%bool_decide_eq_true]%orb_true_iff; vm_compute; set_solver.
Qed.

(** The whole parser. *)
Lemma parseFilter_result_wf k v n : parseFilter k v = Ok n → wf_node maxFilterDepth n = true.
Proof.
  unfold parseFilter. case_match eqn:Hlg.
  - case_match; [done|]. intros ([node p] & Hg & Hr)%map_err_ok%res_bind_ok.
    apply res_bind_ok in Hr as (? & _ & [= <-]).
    destruct (tree_wf (group_fuel v)) as (Hgroup & _ & _).
    eapply Hgroup in Hg; [|by apply last_and_or]. done.
  - intros (fld & Hf%parseFilterKey_wf & Hr)%res_bind_ok.
    apply map_err_ok, res_bind_ok in Hr as ([node p] & Ho & Hr).
    apply res_bind_ok in Hr as (? & _ & [= <-]).
    apply operation_wf in Ho as (? & ? & ?). by apply wf_node_cond.
Qed.

End Soundness.
