(* ===== verification/FilterRoundTrip.v ===== *)
(** * FilterRoundTrip: every well-formed filter tree can be written and read back.

    [print_filter] is the client's side of the filter syntax. The relation
    [reads m s a ok] says that the parser [m] reads exactly [s] as [a] whenever
    the rest of the input satisfies [ok]; the lemmas compose along the grammar
    up to [group], [members] and [condition]. *)

From S2P Require Import Prelude GoStrings GoStringFacts FilterParser FilterParserFacts FilterGrammar.

(** ** The printer *)

Fixpoint escape (s : string) : string :=
  match s with
  | EmptyString => ""
  | String c s =>
      if bool_decide (c = dquote) || bool_decide (c = "\"%char)
      then String "\" (String c (escape s)) else String c (escape s)
  end.
Definition print_quoted (s : string) : string := String dquote (escape s +:+ String dquote "").

Arguments print_quoted : simpl never.

Definition print_step (s : jsonPathStep) : string :=
  arrow s +:+ (if isIndex s then Itoa (index s) else print_quoted (key s)).
Definition print_path (l : list jsonPathStep) : string := Join (print_step <$> l) "".
Definition print_field (f : filterField) : string :=
  print_quoted (column f) +:+ print_path (path f).

Definition print_not (neg : bool) : string := if neg then "not." else "".

Definition print_modifier (q l : string) : string :=
  if bool_decide (l = "") then
    (if bool_decide (q = "ANY") then "(any)" else if bool_decide (q = "ALL") then "(all)" else "")
  else "(" +:+ l +:+ ")".

Definition print_list (items : list string) : string :=
  "(" +:+ Join (print_quoted <$> items) "," +:+ ")".

(** The operand of a condition; in a column filter a single value is verbatim. *)
Definition print_operand (inTree : bool) (op v : string) (items : list string) : string :=
  if bool_decide (op = "in") then print_list items
  else if bool_decide (op = "is") then v
  else if inTree then print_quoted v else v.

Definition print_operation (inTree neg : bool) (op q l v : string) (items : list string) : string :=
  print_not neg +:+ op +:+ print_modifier q l +:+ "." +:+ print_operand inTree op v items.

Definition print_logic (lg : string) : string :=
  if bool_decide (lg = "AND") then "and" else "or".

Fixpoint print_tree (n : filterNode) : string :=
  match n with
  | mkFilterNode neg lg cs fld op q l v items =>
      if bool_decide (lg = "") then
        print_field fld +:+ "." +:+ print_operation true neg op q l v items
      else
        print_not neg +:+ print_logic lg +:+ "(" +:+ Join (print_tree <$> cs) "," +:+ ")"
  end.

Definition print_group (cs : list filterNode) : string :=
  "(" +:+ Join (print_tree <$> cs) "," +:+ ")".

Definition print_filter (n : filterNode) : RawFilter :=
  match n with
  | mkFilterNode neg lg cs fld op q l v items =>
      if bool_decide (lg = "") then
        {| Key := print_field fld; Value := print_operation false neg op q l v items |}
      else {| Key := print_not neg +:+ print_logic lg; Value := print_group cs |}
  end.

(** ** Exact reading *)

Definition reads {A} (m : parser A) (s : string) (a : A) (ok : string → Prop) : Prop :=
  ∀ p t, in_bounds p → rest p = s +:+ t → ok t → m p = Ok (a, adv (len s) p).

(** [starts f t]: [t] begins with a byte that satisfies [f]. *)
Definition starts (f : ascii → bool) (t : string) : Prop :=
  ∃ c u, t = String c u ∧ f c = true.
Definition ends_or (f : ascii → bool) (t : string) : Prop := t = "" ∨ starts f t.

Definition is_byte (c : ascii) (d : ascii) : bool := bool_decide (d = c).

(** What may follow an operand of a logic tree. *)
Definition tree_follow : string → Prop := ends_or (mem_byte ",)").

Lemma adv_adv n m p : adv m (adv n p) = adv (n + m) p.
Proof. unfold adv. simpl. f_equal. lia. Qed.
Lemma adv_0 p : adv 0 p = p.
Proof. unfold adv. destruct p as [s i]. simpl. f_equal. lia. Qed.

Lemma rest_adv_app p s t : rest p = s +:+ t → rest (adv (len s) p) = t.
Proof. intros H. by rewrite rest_adv, H, drop_app. Qed.

Lemma in_bounds_app p s t : in_bounds p → rest p = s +:+ t → in_bounds (adv (len s) p).
Proof. intros Hb Hp. apply in_bounds_adv; [done|]. rewrite Hp, len_app. lia. Qed.

Lemma reads_bind {A B} (m : parser A) (k : A → parser B) s1 s2 a b (ok1 ok2 : string → Prop) :
  reads m s1 a ok1 → reads (k a) s2 b ok2 → (∀ t, ok2 t → ok1 (s2 +:+ t)) →
  reads (bindP m k) (s1 +:+ s2) b ok2.
Proof.
  intros Hm Hk Hok p t Hb Hp Ht. rewrite app_assoc_str in Hp.
  apply bindP_ok. exists a, (adv (len s1) p). split; [by eapply Hm; [| |apply Hok]|].
  rewrite (Hk _ t); [by rewrite adv_adv, len_app | by eapply in_bounds_app | by apply rest_adv_app | done].
Qed.

Lemma reads_weaken {A} (m : parser A) s a (ok ok' : string → Prop) :
  reads m s a ok → (∀ t, ok' t → ok t) → reads m s a ok'.
Proof. intros Hm Hok p t Hb Hp Ht. eapply Hm; eauto. Qed.

Lemma reads_ret {A} (a : A) ok : reads (retP a) "" a ok.
Proof. intros p t _ _ _. unfold retP. by rewrite adv_0. Qed.

Lemma reads_bind_ret {A B} (m : parser A) (f : A → B) s a ok :
  reads m s a ok → reads (bindP m (λ x, retP (f x))) s (f a) ok.
Proof.
  intros Hm. rewrite <-(app_nil_r_str s).
  eapply reads_bind; [exact Hm | apply reads_ret | auto].
Qed.

Lemma reads_skip {A B} (m : parser A) (k : A → parser B) s a b (ok1 ok2 : string → Prop) :
  reads m "" a ok1 → reads (k a) s b ok2 → (∀ t, ok2 t → ok1 (s +:+ t)) →
  reads (bindP m k) s b ok2.
Proof. intros Hm Hk Hok. apply (reads_bind m k "" s a b ok1 ok2 Hm Hk Hok). Qed.

Lemma reads_consume s ok : reads (consume s) s true ok.
Proof. intros p t Hb Hp _. unfold consume. by rewrite Hp, HasPrefix_app. Qed.
Lemma reads_consume_not s (ok : string → Prop) :
  (∀ t, ok t → HasPrefix t s = false) → reads (consume s) "" false ok.
Proof. intros Hok p t Hb Hp Ht. unfold consume. by rewrite Hp, app_nil_l_str, Hok, adv_0. Qed.
Lemma reads_expect s ok : reads (expect s) s tt ok.
Proof. intros p t Hb Hp _. unfold expect, consume. by rewrite Hp, HasPrefix_app. Qed.

Lemma reads_take_while f s :
  all_bytes f s = true → reads (take_while f) s s (ends_or (λ c, negb (f c))).
Proof.
  intros Hs p t Hb Hp Ht. unfold take_while. rewrite Hp, span_app; [by rewrite take_app | done |].
  intros c u ->. destruct Ht as [?|(c' & u' & [= <- <-] & Hc)]; [done|]. by apply negb_true_iff.
Qed.
Lemma reads_skipSpaces (ok : string → Prop) :
  (∀ t, ok t → ends_or (mem_byte ",)()") t ∨ starts (is_byte dquote) t) → reads skipSpaces "" tt ok.
Proof.
  intros Hok p t Hb Hp Ht. unfold skipSpaces. rewrite Hp, app_nil_l_str.
  assert (span (mem_byte (String " " (String "009" (String "013" (String "010" ""))))) t = 0) as ->;
    [|done].
  destruct (Hok _ Ht) as [[->|(c & u & -> & Hc)]|(c & u & -> & Hc)]; [done|..]; simpl.
  - apply bool_decide_eq_true in Hc. simpl in Hc. rewrite !elem_of_cons in Hc.
    by destruct Hc as [->|[->|[->|[->|?%elem_of_nil]]]].
  - apply bool_decide_eq_true in Hc as ->. done.
Qed.

(** ** Tokens *)

Lemma quoted_go_escape s t :
  quoted_go (escape s +:+ String dquote t) = Some (s, len (escape s) + 1).
Proof.
  induction s as [|c s IH]; [done|]. simpl.
  destruct (decide (c = dquote)) as [->|Hq];
    [|destruct (decide (c = "\"%char)) as [->|Hb]].
  - change (quoted_go (String "\" (String dquote (escape s +:+ String dquote t)))
            = Some (String dquote s, S (S (len (escape s))) + 1)).
    cbn [quoted_go]. rewrite bool_decide_eq_true_2 by done. by rewrite IH.
  - change (quoted_go (String "\" (String "\" (escape s +:+ String dquote t)))
            = Some (String "\" s, S (S (len (escape s))) + 1)).
    cbn [quoted_go]. rewrite bool_decide_eq_true_2 by done. by rewrite IH.
  - rewrite !bool_decide_eq_false_2 by done. simpl.
    change (quoted_go (String c (escape s +:+ String dquote t))
            = Some (String c s, S (len (escape s)) + 1)).
    cbn [quoted_go]. rewrite !bool_decide_eq_false_2 by done. by rewrite IH.
Qed.

Lemma print_quoted_app s t : print_quoted s +:+ t = String dquote (escape s +:+ String dquote t).
Proof. unfold print_quoted. by rewrite app_cons_str, app_assoc_str. Qed.
Lemma len_print_quoted s : len (print_quoted s) = S (len (escape s) + 1).
Proof. unfold print_quoted. simpl. by rewrite len_app. Qed.

Lemma reads_quoted s ok : reads quoted (print_quoted s) (Some s) ok.
Proof.
  intros p t Hb Hp _. unfold quoted. rewrite print_quoted_app in Hp.
  unfold peek. rewrite Hp, bool_decide_eq_true_2 by done. cbn [negb drop].
  by rewrite quoted_go_escape, len_print_quoted.
Qed.

Lemma eof_rest p : eof p = true → rest p = "".
Proof. intros H%bool_decide_eq_true. unfold rest. by apply drop_ge. Qed.
Lemma rest_eof p : rest p = "" → eof p = true.
Proof.
  intros H. apply bool_decide_eq_true. apply (f_equal len) in H.
  rewrite len_rest in H. simpl in H. lia.
Qed.

Lemma reads_quotedElement s : reads quotedElement (print_quoted s) (Some s) tree_follow.
Proof.
  intros p t Hb Hp Ht. unfold quotedElement. rewrite (reads_quoted s (λ _, True) p t Hb Hp I). cbn [res_bind].
  apply rest_adv_app in Hp. destruct Ht as [->|(c & u & -> & Hc)].
  - by rewrite rest_eof.
  - unfold peek. rewrite Hp. apply bool_decide_eq_true in Hc. simpl in Hc.
    rewrite !elem_of_cons in Hc.
    destruct Hc as [->|[->|?%elem_of_nil]]; simpl; rewrite ?orb_true_r; done.
Qed.

Section Names.
Context `{Unicode}.

Lemma reads_name s ok : reads name (print_quoted s) s ok.
Proof.
  intros p t Hb Hp _. unfold name. rewrite (reads_quoted s (λ _, True) p t Hb Hp I).
  unfold peek. rewrite Hp, print_quoted_app. by rewrite bool_decide_eq_true_2.
Qed.

Lemma reads_arrayIndex_none : reads arrayIndex "" None (starts (is_byte dquote)).
Proof.
  intros p t Hb Hp (c & u & -> & Hc). apply bool_decide_eq_true in Hc as ->.
  unfold arrayIndex. rewrite Hp. simpl. by rewrite adv_0.
Qed.

End Names.

Lemma ParseInt_Itoa z : int32 z = true → ParseInt (Itoa z) 32 = Some z.
Proof.
  intros [Hlo%Z.leb_le Hhi%Z.ltb_lt]%andb_true_iff.
  destruct (Itoa_spec z) as (sg & c & s & -> & Hc & Hs & [(Hz & -> & Hv)|(Hz & -> & Hv)]).
  - rewrite (ParseInt_digits c s false z 32 Hc Hv).
    rewrite (proj2 (Z.ltb_lt _ _)); [done | lia].
  - rewrite (ParseInt_digits c s true (- z) 32 Hc Hv).
    rewrite (proj2 (Z.leb_le _ _)); [f_equal; lia | lia].
Qed.

(** What follows an array index inside a printed path. *)
Definition idx_follow (t : string) : Prop :=
  t = "" ∨ starts (is_byte ".") t ∨ HasPrefix t "->" = true.

Section Paths.
Context `{Unicode}.

Lemma nameRuneAt_byte c u :
  byte_val c = 46%Z ∨ byte_val c = 45%Z ∨ byte_val c = 62%Z → nameRuneAt (String c u) = false.
Proof.
  intros Hc. unfold nameRuneAt. rewrite DecodeRune_ascii by lia. cbn [fst].
  unfold isNameRune, IsLetter. by destruct Hc as [->|[->| ->]].
Qed.

Lemma idx_follow_spec t :
  idx_follow t →
  nameRuneAt t = false ∧
  match t with String c u => bool_decide (c = "-"%char) && nameRuneAt u | _ => false end = false ∧
  (∀ c u, t = String c u → isASCIIDigit c = false).
Proof.
  intros [->|[(c & u & -> & Hc%bool_decide_eq_true)|Hpre%HasPrefix_spec]]; [done|..].
  - subst. split_and!; [by apply nameRuneAt_byte; left | done | by intros c u' [= <- <-]].
  - rewrite Hpre. split_and!.
    + apply nameRuneAt_byte. right. by left.
    + rewrite app_cons_str. cbn [bool_decide andb]. rewrite bool_decide_eq_true_2 by done.
      apply nameRuneAt_byte. right. by right.
    + by intros c u' [= <- <-].
Qed.

Lemma reads_arrayIndex z : int32 z = true → reads arrayIndex (Itoa z) (Some z) idx_follow.
Proof.
  intros Hz p t Hb Hp (Hn & Hd & Ht)%idx_follow_spec. pose proof (ParseInt_Itoa z Hz) as HP.
  destruct (Itoa_spec z) as (sg & c & s & Heq & Hc & Hs & Hcase).
  assert (span isASCIIDigit (String c s +:+ t) = len (String c s)) as Hspan.
  { apply span_app; [|done]. change (isDigit c && all_bytes isDigit s = true). by rewrite Hc, Hs. }
  unfold arrayIndex. rewrite Hp.
  set (sgn := match Itoa z +:+ t with String _ _ => _ | _ => _ end).
  assert (sgn = len sg ∧ drop (len sg) (Itoa z +:+ t) = String c s +:+ t) as [-> Hdrop].
  { unfold sgn. rewrite Heq, app_assoc_str. destruct Hcase as [(_ & -> & _)|(_ & -> & _)].
    - rewrite !app_nil_l_str, app_cons_str. split; [|done].
      rewrite bool_decide_eq_false_2; [done|]. by apply digit_not_sign.
    - done. }
  rewrite Hdrop, Hspan.
  replace (len sg + len (String c s)) with (len (Itoa z)) by (by rewrite Heq, len_app).
  rewrite drop_app, Hn, Hd, take_app, HP. done.
Qed.

Lemma reads_step_idx (s : jsonPathStep) :
  wf_step s = true → isIndex s = true →
  reads arrayIndex (Itoa (index s)) (Some (index s)) idx_follow.
Proof.
  unfold wf_step. intros [_ Hw]%andb_true_iff Hi. rewrite Hi in Hw.
  apply andb_true_iff in Hw as [_ Hw]. by apply reads_arrayIndex.
Qed.

(** What may follow a printed path: the dot before the operator, or the end of
    a filter key. *)
Definition path_follow : string → Prop := ends_or (is_byte ".").

Lemma print_path_cons s l : print_path (s :: l) = print_step s +:+ print_path l.
Proof.
  unfold print_path. destruct l as [|s' l]; simpl; [by rewrite app_nil_r_str | done].
Qed.

Lemma print_path_follow l t :
  forallb wf_step l = true → path_follow t → idx_follow (print_path l +:+ t).
Proof.
  intros Hl Ht. destruct l as [|s l].
  - unfold print_path. simpl. rewrite app_nil_l_str. destruct Ht as [->|?]; [by left|]. by right; left.
  - simpl in Hl. apply andb_true_iff in Hl as [Hs _]. unfold wf_step in Hs.
    apply andb_true_iff in Hs as [Ha _]. apply bool_decide_eq_true in Ha.
    rewrite print_path_cons, app_assoc_str. unfold print_step. rewrite app_assoc_str.
    right; right. rewrite !elem_of_cons in Ha. by destruct Ha as [->|[->|?%elem_of_nil]].
Qed.

Lemma path_follow_no_arrow a t : a = "->" ∨ a = "->>" → path_follow t → HasPrefix t a = false.
Proof. intros [-> | ->] [->|(c & u & -> & Hc%bool_decide_eq_true)]; by subst. Qed.

(** A key is printed between quotes and an index starts with a digit or a minus
    sign, so neither turns "->" into "->>". *)
Lemma print_step_arrow (s : jsonPathStep) u :
  wf_step s = true → arrow s = "->" →
  HasPrefix (print_step s +:+ u) "->>" = false.
Proof.
  unfold wf_step, print_step. intros [_ Hw]%andb_true_iff ->.
  rewrite app_assoc_str. destruct (isIndex s); [|by rewrite print_quoted_app].
  destruct (Itoa_spec (index s)) as (sg & c & t & -> & Hc & _ & [(_ & -> & _)|(_ & -> & _)]).
  - rewrite app_assoc_str, app_nil_l_str.
    assert (c ≠ ">"%char) by by intros ->.
    change (true && (true && (bool_decide (">"%char = c) && HasPrefix (t +:+ u) "")) = false).
    by rewrite bool_decide_eq_false_2.
  - by rewrite app_assoc_str.
Qed.

(** One step: the arrow, then an index or a key. *)
Lemma consume_arrow (s : jsonPathStep) p u :
  wf_step s = true → rest p = print_step s +:+ u →
  ∃ two p1, consume "->>" p = Ok (two, p1) ∧
    (if two : bool then retP true else consume "->") p1 = Ok (true, adv (len (arrow s)) p) ∧
    arrow s = (if two then "->>" else "->").
Proof.
  intros Hs Hp. pose proof Hs as Ha. unfold wf_step in Ha.
  apply andb_true_iff in Ha as [Ha _]. apply bool_decide_eq_true in Ha.
  rewrite !elem_of_cons in Ha. destruct Ha as [Ha|[Ha|?%elem_of_nil]]; [..|done].
  - exists false, p. unfold consume. rewrite Hp, print_step_arrow by done.
    split_and!; [done| |done]. unfold print_step. by rewrite Ha, app_assoc_str, HasPrefix_app.
  - exists true, (adv 3 p). unfold consume. rewrite Hp. unfold print_step.
    rewrite Ha, app_assoc_str, HasPrefix_app. by split_and!.
Qed.

Lemma reads_step_body (s : jsonPathStep) :
  wf_step s = true →
  reads (let* idx := arrayIndex in
         match idx with
         | Some i => retP {| arrow := arrow s; key := ""; index := i; isIndex := true |}
         | None => let* k := name in
                   retP {| arrow := arrow s; key := k; index := 0; isIndex := false |}
         end)
    (if isIndex s then Itoa (index s) else print_quoted (key s)) s idx_follow.
Proof.
  intros Hw. unfold wf_step in Hw. apply andb_true_iff in Hw as [_ Hw].
  destruct s as [ar k i ix]. simpl in *. destruct ix.
  - apply andb_true_iff in Hw as [->%bool_decide_eq_true Hi].
    rewrite <-(app_nil_r_str (Itoa i)).
    eapply reads_bind; [by apply reads_arrayIndex | apply reads_ret | done].
  - apply bool_decide_eq_true in Hw as ->.
    eapply reads_skip; [apply reads_arrayIndex_none | |].
    + apply (reads_bind_ret name
        (λ k, {| arrow := ar; key := k; index := 0; isIndex := false |})), reads_name.
    + intros u _. rewrite print_quoted_app. by exists dquote, (escape k +:+ String dquote u).
Qed.

Lemma jsonPath_go_reads fuel acc l p t :
  in_bounds p → forallb wf_step l = true → rest p = print_path l +:+ t → path_follow t →
  len (rest p) < fuel →
  jsonPath_go fuel acc p = Ok (acc ++ l, adv (len (print_path l)) p).
Proof.
  revert acc p l. induction fuel as [|fuel IH]; intros acc p l Hb Hl Hp Ht Hlen; [lia|].
  cbn [jsonPath_go]. destruct l as [|s l].
  { unfold print_path in *. simpl in Hp. rewrite app_nil_l_str in Hp. unfold bindP, consume.
    rewrite Hp, path_follow_no_arrow by auto. cbn [res_bind].
    rewrite Hp, path_follow_no_arrow by auto. cbn [res_bind negb]. unfold retP.
    by rewrite app_nil_r, adv_0. }
  simpl in Hl. apply andb_true_iff in Hl as [Hs Hl].
  rewrite print_path_cons, app_assoc_str in Hp.
  destruct (consume_arrow s p _ Hs Hp) as (two & p1 & H1 & H2 & Ha).
  unfold bindP at 1. rewrite H1. cbn [res_bind]. unfold bindP at 1. rewrite H2.
  cbn [res_bind negb]. rewrite <-Ha.
  set (q := adv (len (arrow s)) p). pose (body := if isIndex s then Itoa (index s) else print_quoted (key s)).
  assert (rest q = body +:+ (print_path l +:+ t)) as Hq.
  { unfold q. rewrite rest_adv, Hp. unfold print_step. by rewrite app_assoc_str, drop_app. }
  assert (in_bounds q) as Hbq.
  { apply in_bounds_adv; [done|]. rewrite Hp. unfold print_step. rewrite !len_app. lia. }
  pose proof (reads_step_body s Hs q _ Hbq Hq (print_path_follow l t Hl Ht)) as Hstep.
  apply bindP_ok in Hstep as (idx & p3 & H3 & H4).
  unfold bindP at 1. rewrite H3. cbn [res_bind]. unfold bindP at 1. rewrite H4. cbn [res_bind].
  assert (adv (len body) q = adv (len (print_step s)) p) as Hadv.
  { unfold q, print_step. by rewrite adv_adv, len_app. }
  fold body. fold q. rewrite Hadv, IH with (l := l); [|by eapply in_bounds_app|done|by apply rest_adv_app|done|].
  - rewrite <-app_assoc. simpl. by rewrite adv_adv, print_path_cons, len_app.
  - rewrite (rest_adv_app p _ _ Hp). rewrite Hp, len_app in Hlen.
    assert (1 ≤ len (print_step s)); [|lia].
    unfold print_step. rewrite len_app, Ha. destruct two; simpl; lia.
Qed.

Lemma reads_jsonPath l :
  forallb wf_step l = true → reads jsonPath (print_path l) l path_follow.
Proof.
  intros Hl p t Hb Hp Ht. unfold jsonPath.
  rewrite (jsonPath_go_reads _ [] l p t Hb Hl Hp Ht); [done | lia].
Qed.

End Paths.

(** ** Operators and operands *)

Definition all_operators : list string :=
  ["in"; "is"; "isdistinct"] ++ ftsFunctions.*1 ++ sqlOperators.*1.

Lemma wf_cond_operator op q l v items : wf_cond op q l v items = true → op ∈ all_operators.
Proof.
  unfold all_operators. rewrite !elem_of_app, !elem_of_cons.
  destruct (decide (op = "in")); [tauto|]. destruct (decide (op = "is")); [tauto|].
  destruct (decide (op = "isdistinct")); [tauto|].
  destruct (decide (op ∈ ftsFunctions.*1)); [tauto|].
  unfold wf_cond. rewrite (bool_decide_eq_false_2 (op = "in")), (bool_decide_eq_false_2 (op = "is")),
    (bool_decide_eq_false_2 (op = "isdistinct")), (bool_decide_eq_false_2 (op ∈ ftsFunctions.*1)) by done.
  intros ?. bool_simp. tauto.
Qed.

(** An operator is a word, and none starts like a negation. *)
Lemma operator_word op :
  op ∈ all_operators →
  all_bytes isASCIILetter op = true ∧ op ≠ "" ∧ ∀ t, HasPrefix (op +:+ t) "not." = false.
Proof.
  revert op. apply Forall_forall. unfold all_operators. simpl.
  repeat (constructor; [by split_and!; [vm_compute| |] |]). constructor.
Qed.

(** The follow set of an operand, inside and outside a logic tree. *)
Definition follow (inTree : bool) (t : string) : Prop :=
  if inTree then tree_follow t else t = "".

Lemma follow_tree inTree t : follow inTree t → tree_follow t.
Proof. destruct inTree; [done|]. by left. Qed.

Lemma tree_follow_not f t :
  f ","%char = false → f ")"%char = false → tree_follow t → ends_or (λ c, negb (f c)) t.
Proof.
  intros Hc Hp [->|(c & u & -> & Hm)]; [by left|]. right. exists c, u. split; [done|].
  apply bool_decide_eq_true in Hm. simpl in Hm. rewrite !elem_of_cons in Hm.
  destruct Hm as [->|[->|?%elem_of_nil]]; [| |done]; by rewrite ?Hc, ?Hp.
Qed.

Lemma tree_follow_no_space t :
  tree_follow t → ends_or (mem_byte ",)()") t ∨ starts (is_byte dquote) t.
Proof.
  intros [->|(c & u & -> & Hm)]; [by left; left|]. left; right. exists c, u. split; [done|].
  apply bool_decide_eq_true in Hm. apply bool_decide_eq_true. simpl in *. set_solver.
Qed.

Lemma starts_dot u : starts (is_byte ".") ("." +:+ u).
Proof. by exists "."%char, u. Qed.

Section Operations.
Context `{Unicode}.

Lemma reads_not neg : reads (consume "not.") (print_not neg) neg (λ t, HasPrefix t "not." = false).
Proof. destruct neg; [apply reads_consume | by apply reads_consume_not]. Qed.

(** Without its optional part a modifier reads nothing before the dot. *)
Lemma reads_no_paren {A} (k : bool → parser A) a :
  reads (k false) "" a (starts (is_byte ".")) →
  reads (let* paren := consume "(" in k paren) "" a (starts (is_byte ".")).
Proof.
  intros Hk. eapply reads_skip; [|exact Hk|intros u Hu; exact Hu].
  apply reads_consume_not. by intros t (c & u & -> & ->%bool_decide_eq_true).
Qed.

Lemma reads_modifier op q l v items :
  op ≠ "in" → op ≠ "is" → wf_cond op q l v items = true →
  reads (modifier op) (print_modifier q l) (q, l) (starts (is_byte ".")).
Proof.
  intros Hin His. unfold wf_cond, modifier, print_modifier.
  rewrite (bool_decide_eq_false_2 (op = "in")), (bool_decide_eq_false_2 (op = "is")) by done.
  case_bool_decide as Hd.
  { intros ?. bool_simp. subst. apply reads_ret. }
  case_bool_decide as Hf.
  - intros ?. bool_simp. subst.
    assert (table_str ftsFunctions op ≠ "") as Ht.
    { simpl in Hf. rewrite !elem_of_cons in Hf.
      by destruct Hf as [->|[->|[->|[->|?%elem_of_nil]]]]. }
    rewrite (bool_decide_eq_false_2 (table_str ftsFunctions op = "")) by done. cbn [negb].
    case_bool_decide; [subst; by apply reads_no_paren, reads_ret|].
    eapply reads_bind; [apply reads_consume with (ok := λ _, True)| |done]. cbn [negb].
    eapply reads_bind; [by apply reads_take_while| |].
    + rewrite (bool_decide_eq_false_2 (l = "")) by done.
      rewrite <-(app_nil_r_str ")"). eapply reads_bind; [apply (reads_expect ")" (λ _, True)) | apply reads_ret | done].
    + intros t _. right. by exists ")"%char, t.
  - rewrite !andb_true_iff. intros [[[Hop%bool_decide_eq_true ->%bool_decide_eq_true] _] Hq].
    rewrite (bool_decide_eq_true_2 (table_str ftsFunctions op = "")).
    2:{ destruct (decide (table_str ftsFunctions op = "")) as [|Hn]; [done|].
        by apply table_str_dom in Hn. }
    cbn [negb]. rewrite (bool_decide_eq_false_2 (table_str sqlOperators op = "")).
    2:{ assert (Forall (λ k, table_str sqlOperators k ≠ "") sqlOperators.*1) as Hall
          by (simpl; repeat constructor; done).
        by rewrite Forall_forall in Hall; apply Hall. }
    rewrite (bool_decide_eq_true_2 ("" = "")) by done. cbn [negb].
    apply orb_true_iff in Hq as [->%bool_decide_eq_true|[Hqu Hq]%andb_true_iff].
    { by apply reads_no_paren, reads_ret. }
    apply bool_decide_eq_true in Hq. rewrite !elem_of_cons in Hq.
    destruct Hq as [->|[->|?%elem_of_nil]]; [| |done]; simpl.
    + apply (reads_bind (consume "(") _ "(" "any)" true _ (λ _, True)); [apply reads_consume| |done].
      cbn [negb]. rewrite Hqu. cbn [negb]. rewrite <-(app_nil_r_str "any)").
      eapply reads_bind; [apply (reads_consume "any)" (λ _, True)) | apply reads_ret | done].
    + apply (reads_bind (consume "(") _ "(" "all)" true _ (λ _, True)); [apply reads_consume| |done].
      cbn [negb]. rewrite Hqu. cbn [negb].
      eapply reads_skip; [by apply (reads_consume_not "any)" (λ t, HasPrefix t "any)" = false))| |done].
      rewrite <-(app_nil_r_str "all)").
      eapply reads_bind; [apply (reads_consume "all)" (λ _, True)) | apply reads_ret | done].
Qed.

Lemma reads_operand inTree v :
  reads (operand inTree) (if inTree then print_quoted v else v) v (follow inTree).
Proof.
  intros p t Hb Hp Ht. unfold operand. destruct inTree; cbn [negb].
  - by rewrite (reads_quotedElement v p t Hb Hp Ht).
  - simpl in Ht. subst t. rewrite app_nil_r_str in Hp. rewrite Hp. unfold adv.
    do 3 f_equal. pose proof (len_rest p) as Hl. rewrite Hp in Hl. unfold in_bounds in Hb. lia.
Qed.

(** ** Lists *)

Lemma Join_quoted_head items t :
  items ≠ [] → ∃ u, Join (print_quoted <$> items) "," +:+ t = String dquote u.
Proof.
  destruct items as [|x [|y l]]; [done|..]; intros _; simpl.
  - rewrite print_quoted_app. eauto.
  - rewrite !app_assoc_str, print_quoted_app. eauto.
Qed.

Lemma quotedElement_none p : peek p ≠ dquote → quotedElement p = Ok (None, p).
Proof. intros Hp. unfold quotedElement, quoted. by rewrite bool_decide_eq_false_2. Qed.

Lemma list_go_reads fuel acc items p t :
  in_bounds p → rest p = Join (print_quoted <$> items) "," +:+ String ")" t →
  (items = [] → acc = []) → len (rest p) < fuel →
  list_go fuel acc p = Ok (acc ++ items, adv (len (Join (print_quoted <$> items) ",")) p).
Proof.
  revert acc p items. induction fuel as [|fuel IH]; intros acc p items Hb Hp Hnil Hlen; [lia|].
  cbn [list_go]. destruct items as [|x items].
  { rewrite Hnil by done. simpl in Hp. rewrite app_nil_l_str in Hp.
    unfold bindP at 1. rewrite quotedElement_none by (unfold peek; by rewrite Hp).
    cbn [res_bind]. unfold bindP, until, take_while, retP. rewrite Hp. cbn.
    change (mem_byte ",)" ")") with true. cbn. rewrite adv_0. unfold peek. rewrite Hp. cbn. done. }
  assert (∃ u, rest p = print_quoted x +:+ u ∧ tree_follow u ∧
    (items = [] ∧ u = String ")" t ∨
     items ≠ [] ∧ u = "," +:+ (Join (print_quoted <$> items) "," +:+ String ")" t))) as (u & Hpu & Hu & Hcase).
  { destruct items as [|y items].
    - exists (String ")" t). split_and!; [done | right; by exists ")"%char, t | by left].
    - exists ("," +:+ (Join (print_quoted <$> y :: items) "," +:+ String ")" t)).
      rewrite Hp, !fmap_cons, Join_cons, !app_assoc_str.
      split_and!; [done | right; by eexists _, _ | by right]. }
  unfold bindP at 1. rewrite (reads_quotedElement x p u Hb Hpu Hu). cbn [res_bind].
  unfold bindP at 1. unfold retP at 1. cbn [res_bind].
  pose proof (in_bounds_app p _ _ Hb Hpu) as Hb1. pose proof (rest_adv_app p _ _ Hpu) as Hp1.
  destruct Hcase as [[-> ->]|[Hne ->]]; unfold bindP at 1, consume; rewrite Hp1.
  - done.
  - rewrite HasPrefix_app. cbn [res_bind]. rewrite adv_adv, IH with (items := items).
    + rewrite <-app_assoc, adv_adv. destruct items as [|y items]; [done|].
      rewrite !fmap_cons, Join_cons, !len_app. by rewrite Nat.add_assoc.
    + rewrite <-adv_adv. by eapply in_bounds_app.
    + rewrite <-adv_adv. by apply rest_adv_app.
    + done.
    + rewrite <-adv_adv, rest_adv, Hp1, drop_app. rewrite Hpu, len_app, len_print_quoted in Hlen.
      rewrite len_app in Hlen. lia.
Qed.

Lemma reads_list_operand inTree items :
  reads (list_operand inTree) (print_list items) items tree_follow.
Proof.
  unfold list_operand, print_list.
  eapply reads_bind; [apply (reads_consume "(" (λ _, True))| |done]. cbn [negb].
  eapply reads_skip; [apply (reads_skipSpaces (λ t, ends_or (mem_byte ",)()") t ∨ starts (is_byte dquote) t)); auto| |].
  - apply (reads_bind _ _ (Join (print_quoted <$> items) ",") ")" items items
      (λ t, ∃ u, t = String ")" u)).
    + intros p t Hb Hp [u ->]. rewrite (list_go_reads _ [] items p u Hb Hp); [done | done | lia].
    + rewrite <-(app_nil_r_str ")").
      eapply reads_bind; [apply (reads_expect ")" (λ _, True))| |done].
      eapply reads_skip; [apply (reads_skipSpaces tree_follow), tree_follow_no_space
                         | apply reads_ret | done].
    + intros t _. by exists t.
  - intros t _. rewrite app_assoc_str. destruct items as [|x items].
    + left. right. by exists ")"%char, t.
    + right. destruct (Join_quoted_head (x :: items) (")" +:+ t)) as [u ->]; [done|].
      by exists dquote, u.
Qed.

(** ** Operations *)

Lemma ToLower_isValue v : v ∈ isValues.*1 → ToLower v = v ∧ is_Some (table_get isValues v).
Proof.
  intros Hv. split; [|by apply table_get_is_Some]. simpl in Hv. rewrite !elem_of_cons in Hv.
  by destruct Hv as [->|[->|[->|[->|[->|?%elem_of_nil]]]]].
Qed.

Definition is_char (c : ascii) : bool := isASCIILetter c || bool_decide (c = "_"%char).

Lemma isValue_chars v : v ∈ isValues.*1 → all_bytes is_char v = true.
Proof.
  intros Hv. simpl in Hv. rewrite !elem_of_cons in Hv.
  by destruct Hv as [->|[->|[->|[->|[->|?%elem_of_nil]]]]].
Qed.

Lemma modifier_not_letter q l u :
  ends_or (λ c, negb (isASCIILetter c)) ((print_modifier q l +:+ "." +:+ u)).
Proof.
  right. unfold print_modifier. repeat case_bool_decide;
    rewrite ?app_nil_l_str, ?app_assoc_str; by eexists _, _.
Qed.

Lemma reads_operation inTree neg op q l v items :
  wf_cond op q l v items = true →
  reads (operation inTree) (print_operation inTree neg op q l v items)
    (condNode neg op q l v items) (follow inTree).
Proof.
  intros Hw. destruct (operator_word op (wf_cond_operator _ _ _ _ _ Hw)) as (Hl & Hne & Hnot).
  unfold operation, print_operation.
  eapply reads_bind; [apply reads_not| |intros t _; by rewrite !app_assoc_str].
  eapply reads_bind; [by apply reads_take_while| |].
  2:{ intros t _. rewrite !app_assoc_str. apply modifier_not_letter. }
  rewrite (bool_decide_eq_false_2 (op = "")) by done. unfold print_operand. pose proof Hw as Hw'.
  unfold wf_cond in Hw'. case_bool_decide as Hin; [|case_bool_decide as His].
  - bool_simp. subst. apply (reads_bind (expect ".") _ "." (print_list items) tt _ (λ _, True));
      [apply reads_expect| |done].
    apply (reads_weaken _ _ _ tree_follow); [|apply follow_tree].
    apply (reads_bind_ret _ (λ items, condNode neg "in" "" "" "" items)), reads_list_operand.
  - bool_simp. subst. apply (reads_bind (expect ".") _ "." v tt _ (λ _, True));
      [apply reads_expect| |done].
    destruct (ToLower_isValue v) as [Hlow [u Hu]]; [done|].
    rewrite <-(app_nil_r_str v) at 1.
    eapply reads_bind; [apply (reads_take_while is_char); by apply isValue_chars| |].
    + rewrite Hlow, Hu. apply reads_ret.
    + intros t Ht. apply tree_follow_not; [done..|]. by eapply follow_tree.
  - eapply reads_bind; [by eapply reads_modifier| |intros t _; rewrite app_assoc_str; apply starts_dot].
    apply (reads_bind (expect ".") _ "." _ tt _ (λ _, True)); [apply reads_expect| |done].
    replace items with (@nil string).
    2:{ revert Hw'. repeat case_bool_decide; intros; bool_simp; done. }
    apply (reads_bind_ret _ (λ v, condNode neg op q l v [])), reads_operand.
Qed.

End Operations.

(** ** Trees *)

Lemma filterNode_nested_ind (P : filterNode → Prop) :
  (∀ neg lg cs fld op q l v items, Forall P cs → P (mkFilterNode neg lg cs fld op q l v items)) →
  ∀ n, P n.
Proof.
  intros Hstep. fix IH 1. intros [neg lg cs fld op q l v items]. apply Hstep.
  induction cs as [|c cs IHcs]; constructor; [apply IH | exact IHcs].
Qed.

Lemma wf_node_cases levels n :
  wf_node levels n = true →
  (∃ neg fld op q l v items, n = mkFilterNode neg "" [] fld op q l v items ∧
     forallb wf_step (path fld) = true ∧ wf_cond op q l v items = true) ∨
  (∃ levels' neg lg cs, levels = S levels' ∧ n = groupNode neg lg cs ∧ (lg = "AND" ∨ lg = "OR") ∧
     cs ≠ [] ∧ forallb (wf_node levels') cs = true).
Proof.
  destruct n as [neg lg cs fld op q l v items]. destruct levels as [|levels]; simpl.
  - case_bool_decide; [|done]. subst. rewrite !andb_true_iff.
    intros [[Hcs%bool_decide_eq_true Hp] Hw]. apply nil_length_inv in Hcs. subst. left. eauto 10.
  - case_bool_decide as Hlg.
    + subst. rewrite !andb_true_iff.
      intros [[Hcs%bool_decide_eq_true Hp] Hw]. apply nil_length_inv in Hcs. subst. left. eauto 10.
    + intros ?. bool_simp. subst. right. exists levels, neg, lg, cs.
      split_and!; [done | done | set_solver | by intros -> | done].
Qed.

Lemma print_tree_head levels n :
  wf_node levels n = true → ∃ c u, print_tree n = String c u ∧ c ∈ [dquote; "a"; "o"; "n"]%char.
Proof.
  intros [(neg & fld & op & q & l & v & items & -> & _)
         |(lv & neg & lg & cs & _ & -> & Hlg & _)]%wf_node_cases; simpl.
  - unfold print_field. rewrite app_assoc_str, print_quoted_app. eexists _, _. split; [done|set_solver].
  - by destruct neg, Hlg as [-> | ->]; eexists _, _; (split; [done|set_solver]).
Qed.

Lemma Join_tree_head levels n cs t :
  wf_node levels n = true →
  ∃ c u, Join (print_tree <$> n :: cs) "," +:+ t = String c u ∧ c ∈ [dquote; "a"; "o"; "n"]%char.
Proof.
  intros (c & u & Hc & Hin)%print_tree_head.
  destruct cs; simpl; rewrite ?app_assoc_str, Hc; by eexists _, _.
Qed.

Lemma skipSpaces_noop p c u :
  rest p = String c u → c ∈ [dquote; "a"; "o"; "n"]%char → skipSpaces p = Ok (tt, p).
Proof.
  intros Hp Hc. unfold skipSpaces. rewrite Hp. rewrite !elem_of_cons in Hc.
  assert (span (mem_byte (String " " (String "009" (String "013" (String "010" "")))))
    (String c u) = 0) as ->; [|by rewrite adv_0].
  by destruct Hc as [->|[->|[->|[->|?%elem_of_nil]]]].
Qed.

Lemma find_prefix_group neg lg u :
  lg = "AND" ∨ lg = "OR" →
  find_prefix (print_not neg +:+ print_logic lg +:+ String "(" u) =
    Some (print_not neg +:+ print_logic lg +:+ "(", lg, neg).
Proof. by destruct neg; intros [-> | ->]. Qed.

Section Trees.
Context `{Unicode}.

(** [condition] reads the printed form of [n] at group depth [d]. *)
Definition tree_reads (n : filterNode) : Prop := ∀ d fuel p t,
  wf_node (maxFilterDepth - d) n = true → d ≤ maxFilterDepth →
  in_bounds p → rest p = print_tree n +:+ t → tree_follow t →
  len (rest p) + 2 ≤ fuel →
  condition fuel d p = Ok (n, adv (len (print_tree n)) p).

Lemma members_reads cs fuel d acc p t :
  Forall tree_reads cs → forallb (wf_node (maxFilterDepth - d)) cs = true → d ≤ maxFilterDepth →
  cs ≠ [] → in_bounds p → rest p = Join (print_tree <$> cs) "," +:+ String ")" t →
  len (rest p) + 3 ≤ fuel →
  members fuel d acc p = Ok (acc ++ cs, adv (len (Join (print_tree <$> cs) ",")) p).
Proof.
  revert fuel acc p. induction cs as [|n cs IH]; intros fuel acc p Hcs Hw Hd Hne Hb Hp Hfuel; [done|].
  destruct fuel as [|fuel]; [lia|]. cbn [members].
  apply Forall_cons in Hcs as [Hn Hcs]. simpl in Hw. apply andb_true_iff in Hw as [Hwn Hw].
  destruct cs as [|m cs].
  - simpl in Hp. simpl. unfold bindP at 1.
    rewrite (Hn d fuel p (String ")" t)); [|done..| |lia].
    2:{ right. by exists ")"%char, t. }
    cbn [res_bind]. unfold bindP, consume. by rewrite (rest_adv_app p _ _ Hp).
  - rewrite !fmap_cons, Join_cons in Hp |- *. rewrite !app_assoc_str in Hp.
    unfold bindP at 1.
    rewrite (Hn d fuel p _ Hwn Hd Hb Hp); [|right; by eexists _, _|lia].
    cbn [res_bind]. pose proof (in_bounds_app p _ _ Hb Hp) as Hb1.
    pose proof (rest_adv_app p _ _ Hp) as Hp1. set (p1 := adv _ p) in *.
    unfold bindP at 1, consume. rewrite Hp1, HasPrefix_app. cbn [res_bind negb].
    pose proof (in_bounds_app p1 _ _ Hb1 Hp1) as Hb2.
    pose proof (rest_adv_app p1 _ _ Hp1) as Hp2.
    change (len ",") with 1 in *. set (p2 := adv 1 p1) in *.
    assert (skipSpaces p2 = Ok (tt, p2)) as Hskip.
    { simpl in Hw. apply andb_true_iff in Hw as [Hm _].
      destruct (Join_tree_head _ _ cs (String ")" t) Hm) as (c & u & Hc & Hin).
      eapply skipSpaces_noop; [by rewrite Hp2 | done]. }
    unfold bindP at 1. rewrite Hskip. cbn [res_bind].
    rewrite IH; [|done..|].
    + unfold p2, p1. rewrite !adv_adv, <-app_assoc, !len_app. do 3 f_equal; simpl; lia.
    + assert (len (rest p1) = S (len (rest p2))) by by rewrite Hp1, Hp2.
      assert (len (rest p1) ≤ len (rest p)) by (unfold p1; rewrite rest_adv, len_drop; lia).
      lia.
Qed.

Lemma group_reads neg lg cs fuel d p t :
  Forall tree_reads cs → forallb (wf_node (maxFilterDepth - d)) cs = true → d ≤ maxFilterDepth →
  cs ≠ [] → in_bounds p → rest p = print_group cs +:+ t → tree_follow t →
  len (rest p) + 3 ≤ fuel →
  group fuel lg neg d p = Ok (groupNode neg lg cs, adv (len (print_group cs)) p).
Proof.
  intros Hcs Hw Hd Hne Hb Hp Ht Hfuel. destruct fuel as [|fuel]; [lia|]. cbn [group].
  rewrite bool_decide_eq_false_2 by lia. unfold print_group in *.
  rewrite !app_assoc_str in Hp.
  unfold bindP at 1. rewrite (reads_expect "(" (λ _, True) p _ Hb Hp I). cbn [res_bind].
  pose proof (in_bounds_app p _ _ Hb Hp) as Hb1. pose proof (rest_adv_app p _ _ Hp) as Hp1.
  change (len "(") with 1 in *. set (p1 := adv 1 p) in *.
  assert (skipSpaces p1 = Ok (tt, p1)) as Hskip.
  { destruct cs as [|n cs]; [done|]. simpl in Hw. apply andb_true_iff in Hw as [Hn _].
    destruct (Join_tree_head _ _ cs (")" +:+ t) Hn) as (c & u & Hc & Hin).
    eapply skipSpaces_noop; [by rewrite Hp1 | done]. }
  unfold bindP at 1. rewrite Hskip. cbn [res_bind].
  unfold bindP at 1. rewrite (members_reads cs fuel d [] p1 t Hcs Hw Hd Hne Hb1 Hp1).
  2:{ rewrite Hp1. rewrite Hp, len_app in Hfuel. simpl in *. lia. }
  cbn [res_bind app]. pose proof (in_bounds_app p1 _ _ Hb1 Hp1) as Hb2.
  pose proof (rest_adv_app p1 _ _ Hp1) as Hp2. set (p2 := adv _ p1) in *.
  unfold bindP at 1. rewrite (reads_consume ")" (λ _, True) p2 t Hb2 Hp2 I). cbn [res_bind negb].
  pose proof (in_bounds_app p2 ")" t Hb2 Hp2) as Hb3. pose proof (rest_adv_app p2 ")" t Hp2) as Hp3.
  unfold bindP. rewrite (reads_skipSpaces tree_follow (tree_follow_no_space) _ t Hb3 Hp3 Ht).
  cbn [res_bind]. unfold retP, p2, p1. rewrite !adv_adv, !len_app. do 3 f_equal; simpl; lia.
Qed.

(** A condition of a logic tree. *)
Lemma condition_reads neg fld op q l v items fuel d p t :
  forallb wf_step (path fld) = true → wf_cond op q l v items = true →
  in_bounds p → rest p = print_field fld +:+ "." +:+ print_operation true neg op q l v items +:+ t →
  tree_follow t → 0 < fuel →
  condition fuel d p =
    Ok (mkFilterNode neg "" [] fld op q l v items,
        adv (len (print_field fld +:+ "." +:+ print_operation true neg op q l v items)) p).
Proof.
  intros Hpath Hw Hb Hp Ht Hfuel. destruct fuel as [|fuel]; [lia|]. cbn [condition].
  replace (find_prefix (rest p)) with (@None (string * string * bool)).
  2:{ rewrite Hp. unfold print_field. by rewrite app_assoc_str, print_quoted_app. }
  enough (reads (let* col := name in let* path := jsonPath in
    let* _ := expect "." in let* node := operation true in
    retP (with_field node {| column := col; path := path |}))
    (print_field fld +:+ "." +:+ print_operation true neg op q l v items)
    (mkFilterNode neg "" [] fld op q l v items) tree_follow) as Hr.
  { apply (Hr p t); [done | by rewrite !app_assoc_str | done]. }
  clear p t fuel Hb Hp Ht Hfuel.
  unfold print_field. rewrite !app_assoc_str.
  eapply reads_bind; [apply (reads_name _ (λ _, True))| |done].
  eapply reads_bind; [by apply reads_jsonPath| |intros u _; right; apply starts_dot].
  eapply reads_bind; [apply (reads_expect "." (λ _, True))| |done].
  destruct fld as [col pth]. simpl.
  apply (reads_bind_ret _ (λ node, with_field node {| column := col; path := pth |})
           _ (condNode neg op q l v items)).
  apply (reads_weaken _ _ _ (follow true)); [by apply reads_operation | done].
Qed.

Lemma all_tree_reads n : tree_reads n.
Proof.
  induction n as [neg lg cs fld op q l v items IH] using filterNode_nested_ind.
  intros d fuel p t Hw Hd Hb Hp Ht Hfuel.
  destruct (wf_node_cases _ _ Hw) as
    [(neg' & fld' & op' & q' & l' & v' & items' & Hn & Hpath & Hcond)
    |(lv & neg' & lg' & cs' & Hlv & Hn & Hlg & Hne & Hcs)].
  - injection Hn as -> -> -> -> -> -> -> -> ->. simpl in Hp. rewrite !app_assoc_str in Hp.
    simpl. apply condition_reads with (t := t); auto. lia.
  - injection Hn as -> -> -> -> -> -> -> -> ->. simpl in Hp |- *.
    rewrite (bool_decide_eq_false_2 (lg' = "")) in Hp |- * by by destruct Hlg as [-> | ->].
    destruct fuel as [|fuel]; [lia|]. cbn [condition].
    assert (rest p = print_not neg' +:+ print_logic lg' +:+ (print_group cs' +:+ t)) as Hp'.
    { rewrite Hp. unfold print_group. by rewrite !app_assoc_str. }
    assert (find_prefix (rest p) = Some (print_not neg' +:+ print_logic lg' +:+ "(", lg', neg')) as ->.
    { rewrite Hp'. unfold print_group. rewrite app_assoc_str. by apply find_prefix_group. }
    cbv beta iota. set (pre := print_not neg' +:+ print_logic lg').
    assert (len (print_not neg' +:+ print_logic lg' +:+ "(") - 1 = len pre) as ->.
    { unfold pre. rewrite !len_app. simpl. lia. }
    rewrite <-app_assoc_str in Hp'. fold pre in Hp'.
    pose proof (in_bounds_app p _ _ Hb Hp') as Hb1. pose proof (rest_adv_app p _ _ Hp') as Hp1.
    rewrite (group_reads neg' lg' cs' fuel (d + 1) (adv (len pre) p) t); try done.
    + rewrite adv_adv. unfold pre. by rewrite <-len_app, !app_assoc_str.
    + by replace (maxFilterDepth - (d + 1)) with lv by lia.
    + lia.
    + rewrite Hp1. rewrite Hp', len_app in Hfuel.
      assert (2 ≤ len pre); [|lia]. unfold pre. rewrite len_app. destruct Hlg as [-> | ->]; simpl; lia.
Qed.

End Trees.
