(* ===== verification/FilterProps.v ===== *)
(** * FilterProps: the properties of the filter parser as a whole.

    [parseFilter] always returns (its fuel is enough), what it returns is a
    well-formed tree of at most [maxFilterDepth] levels, and it reads every such
    tree back from its printed form. *)

From S2P Require Import Prelude GoStrings GoStringFacts FilterParser FilterParserFacts FilterGrammar FilterRoundTrip.

(** ** The last segment of a key *)

Fixpoint last_char (s : string) : option ascii :=
  match s with
  | EmptyString => None
  | String c EmptyString => Some c
  | String _ s => last_char s
  end.

Lemma last_char_app s t : t ≠ "" → last_char (s +:+ t) = last_char t.
Proof.
  intros Ht. induction s as [|c s IH]; [done|]. rewrite app_cons_str. simpl.
  destruct (s +:+ t) as [|d u] eqn:E; [|done].
  destruct s; simpl in E; [by subst | done].
Qed.

Lemma Join_last_suffix l sep : ∃ w, Join l sep = w +:+ List.last l "".
Proof.
  induction l as [|x [|y l] [w IH]]; [by exists ""..|].
  exists (x +:+ sep +:+ w). rewrite Join_cons, IH. by rewrite !app_assoc_str.
Qed.

Lemma Split_last_suffix s sep : ∃ w, s = w +:+ List.last (Split s sep) "".
Proof. destruct (Join_last_suffix (Split s sep) (String sep "")) as [w Hw]. exists w. by rewrite <-Hw, Join_Split. Qed.

Lemma digits_last s c : all_bytes isDigit (String c s) = true →
  ∃ d, last_char (String c s) = Some d ∧ isDigit d = true.
Proof.
  revert c. induction s as [|d s IH]; intros c; simpl.
  - intros [Hc _]%andb_true_iff. eauto.
  - intros [_ Hs]%andb_true_iff. by apply IH.
Qed.

Definition field_end (c : ascii) : Prop := c = dquote ∨ isDigit c = true.

Lemma print_quoted_last s : last_char (print_quoted s) = Some dquote.
Proof.
  change (last_char (String dquote (escape s) +:+ String dquote "") = Some dquote).
  by rewrite last_char_app.
Qed.

Lemma print_step_last s : ∃ c, last_char (print_step s) = Some c ∧ field_end c ∧ print_step s ≠ "".
Proof.
  unfold print_step. destruct (isIndex s).
  - destruct (Itoa_spec (index s)) as (sg & c & t & -> & Hc & Ht & _).
    destruct (digits_last t c) as (d & Hd & Hdd); [simpl; by rewrite Hc|].
    exists d. rewrite <-app_assoc_str, last_char_app by done. split_and!; [done | by right |].
    by destruct (arrow s), sg.
  - exists dquote. rewrite last_char_app by done. rewrite print_quoted_last.
    split_and!; [done | by left | by destruct (arrow s)].
Qed.

Lemma print_field_last f : ∃ c, last_char (print_field f) = Some c ∧ field_end c.
Proof.
  unfold print_field. destruct (path f) as [|s l].
  - exists dquote. split; [|by left]. change (print_path []) with "".
    by rewrite app_nil_r_str, print_quoted_last.
  - assert (∃ c, last_char (print_path (s :: l)) = Some c ∧ field_end c ∧ print_path (s :: l) ≠ "")
      as (c & Hc & He & Hne).
    { revert s. induction l as [|s' l IH]; intros s; [apply print_step_last|].
      destruct (IH s') as (c & Hc & He & Hne). exists c. rewrite print_path_cons, last_char_app by done.
      split_and!; [done..|]. destruct (print_step_last s) as (_ & _ & _ & Hs). by destruct (print_step s). }
    exists c. by rewrite last_char_app.
Qed.

(** A printed column filter is not taken for a logic tree. *)
Lemma print_field_not_logic f :
  bool_decide (List.last (Split (print_field f) ".") "" = "and") ||
  bool_decide (List.last (Split (print_field f) ".") "" = "or") = false.
Proof.
  destruct (print_field_last f) as (c & Hc & He).
  destruct (Split_last_suffix (print_field f) ".") as [w Hw].
  apply orb_false_iff. split; apply bool_decide_eq_false; intros Hl; rewrite Hl in Hw;
    rewrite Hw, last_char_app in Hc by done; injection Hc as <-; by destruct He.
Qed.

Section Entry.
Context `{Unicode}.

Lemma expectEOF_rest p : in_bounds p → rest p = "" → expectEOF p = Ok (tt, p).
Proof. intros Hb Hp. unfold expectEOF. by rewrite rest_eof. Qed.

Lemma parseFilterKey_print f :
  forallb wf_step (path f) = true → parseFilterKey (print_field f) = Ok f.
Proof.
  intros Hf. unfold parseFilterKey. set (p := {| src := print_field f; pos := 0 |}).
  assert (in_bounds p) as Hb by (unfold in_bounds; simpl; lia).
  assert (rest p = print_quoted (column f) +:+ print_path (path f)) as Hp by done.
  rewrite (reads_name _ (λ _, True) p _ Hb Hp I).
  pose proof (in_bounds_app p _ _ Hb Hp) as Hb1. pose proof (rest_adv_app p _ _ Hp) as Hp1.
  set (p1 := adv _ p) in *.
  rewrite bool_decide_eq_false_2.
  2:{ unfold peek. rewrite Hp1. intros Hdot.
      destruct (print_path_follow (path f) "" Hf (or_introl eq_refl)) as [E|[(c & u & E & _)|E]];
        rewrite app_nil_r_str in E.
      - by rewrite E in Hdot.
      - destruct (path f) as [|s l]; [done|]. simpl in Hf. apply andb_true_iff in Hf as [Hs _].
        unfold wf_step in Hs. apply andb_true_iff in Hs as [Ha%bool_decide_eq_true _].
        rewrite print_path_cons in Hdot. unfold print_step in Hdot.
        rewrite !elem_of_cons in Ha. rewrite app_assoc_str in Hdot.
        by destruct Ha as [Ha|[Ha|?%elem_of_nil]]; [rewrite Ha in Hdot..|].
      - apply HasPrefix_spec in E. by rewrite E in Hdot. }
  rewrite <-(app_nil_r_str (print_path _)) in Hp1.
  rewrite (reads_jsonPath (path f) Hf p1 "" Hb1 Hp1 (or_introl eq_refl)). cbn [res_bind].
  rewrite expectEOF_rest; [by destruct f | by eapply in_bounds_app | by apply rest_adv_app].
Qed.

Lemma parseFilter_group neg lg v :
  lg = "AND" ∨ lg = "OR" →
  parseFilter (print_not neg +:+ print_logic lg) v =
    map_err (BadTree v)
      (let? (node, p) := group (group_fuel v) lg neg 1 {| src := v; pos := 0 |} in
       let? _ := expectEOF p in Ok node).
Proof. by destruct neg; intros [-> | ->]. Qed.

(** C1: every well-formed filter tree, of any shape with at most 32 group levels,
    is read back exactly from its printed query parameter: no name, operand,
    list element, JSON path, modifier or negation is lost or changed. *)
Theorem parseFilter_print n :
  wf_node maxFilterDepth n = true →
  parseFilter (Key (print_filter n)) (Value (print_filter n)) = Ok n.
Proof.
  intros Hw. destruct (wf_node_cases _ _ Hw) as
    [(neg & fld & op & q & l & v & items & -> & Hpath & Hcond)
    |(lv & neg & lg & cs & Hlv & -> & Hlg & Hne & Hcs)]; simpl.
  - unfold parseFilter. rewrite print_field_not_logic, parseFilterKey_print by done. cbn [res_bind].
    set (s := print_operation false neg op q l v items). set (p := {| src := s; pos := 0 |}).
    assert (in_bounds p) as Hb by (unfold in_bounds; simpl; lia).
    assert (rest p = s +:+ "") as Hp by (by rewrite app_nil_r_str).
    rewrite (reads_operation false neg op q l v items Hcond p "" Hb Hp eq_refl). cbn [res_bind].
    by rewrite expectEOF_rest; [|by eapply in_bounds_app|by apply rest_adv_app].
  - rewrite (bool_decide_eq_false_2 (lg = "")) by by destruct Hlg as [-> | ->].
    cbn [Key Value].
    set (p := {| src := print_group cs; pos := 0 |}).
    assert (in_bounds p) as Hb by (unfold in_bounds; simpl; lia).
    assert (rest p = print_group cs +:+ "") as Hp by (by rewrite app_nil_r_str).
    assert (group (group_fuel (print_group cs)) lg neg 1 p =
      Ok (groupNode neg lg cs, adv (len (print_group cs)) p)) as Hg.
    { apply (group_reads neg lg cs _ 1 p ""); try done.
      - apply Forall_forall. intros n _. apply all_tree_reads.
      - injection Hlv as <-. done.
      - unfold maxFilterDepth. lia.
      - by left.
      - rewrite len_rest. unfold group_fuel. simpl. lia. }
    assert (expectEOF (adv (len (print_group cs)) p) = Ok (tt, adv (len (print_group cs)) p)) as He.
    { apply expectEOF_rest; [by eapply in_bounds_app | by apply rest_adv_app]. }
    rewrite parseFilter_group by done. fold p. rewrite Hg. cbn [res_bind]. by rewrite He.
Qed.

(** C31: whatever the client sends, a filter that parses is a well-formed tree:
    at most 32 group levels, every group a non-empty AND or OR, every operator
    one the renderer knows, with only the modifiers that operator takes. *)
Theorem parseFilter_wf k v n : parseFilter k v = Ok n → wf_node maxFilterDepth n = true.
Proof. apply parseFilter_result_wf. Qed.

Lemma initial_in_bounds s : in_bounds {| src := s; pos := 0 |}.
Proof. unfold in_bounds. simpl. lia. Qed.

Definition out_of_fuel (e : filter_error) : Prop :=
  match e with
  | BadKey _ e | BadTree _ e | BadFilter _ e => e = ErrOutOfFuel
  | _ => False
  end.

(** The two ends of an entry point: run [m], then expect the end of the input. *)
Lemma fuel_to_end {A B} (m : parser A) (f : A → B) p e :
  fuel_at p m →
  (let? (a, p') := m p in let? _ := expectEOF p' in Ok (f a)) = Err e → e ≠ ErrOutOfFuel.
Proof.
  unfold fuel_at. intros Hm. destruct (m p) as [[a p']|e']; simpl; [|congruence].
  pose proof (fuel_expectEOF p') as He. unfold fuel_at in He.
  destruct (expectEOF p'); simpl; congruence.
Qed.

Lemma parseFilterKey_fuel k e : parseFilterKey k = Err e → ¬ out_of_fuel e.
Proof.
  unfold parseFilterKey. pose proof (initial_in_bounds k) as Hb.
  pose proof (fuel_name {| src := k; pos := 0 |}) as Hn. unfold fuel_at in Hn.
  destruct (name _) as [[col p1]|e'] eqn:E; [|by intros [= <-]; simpl; congruence].
  case_bool_decide; [by intros [= <-] []|]. step_rest advances_name E.
  intros (e' & He & ->)%map_err_err. simpl.
  eapply (fuel_to_end jsonPath (λ path, {| column := col; path := path |})); [|exact He].
  by apply fuel_jsonPath.
Qed.

(** C37: the parser terminates on every input: the fuel chosen from the length
    of the input (and of each list and path) is never exhausted, so an error is
    always one of the source's own. *)
Theorem parseFilter_terminates k v e : parseFilter k v = Err e → ¬ out_of_fuel e.
Proof.
  unfold parseFilter. pose proof (initial_in_bounds v) as Hb. case_match.
  - case_match; [by intros [= <-] []|]. intros (e' & He & ->)%map_err_err. simpl.
    eapply (fuel_to_end (group _ _ _ _) (λ n, n)); [|exact He].
    destruct (fuel_tree (group_fuel v)) as (Hg & _ & _). apply Hg; [done|].
    rewrite len_rest. unfold group_fuel. simpl. lia.
  - intros [Hk|(fld & _ & Hr)]%res_bind_err; [by eapply parseFilterKey_fuel|].
    apply map_err_err in Hr as (e' & He & ->). simpl.
    eapply (fuel_to_end (operation false) (λ n, with_field n fld)); [|exact He].
    by apply fuel_operation.
Qed.

(** Every operation of the parser keeps the cursor inside the input, so no
    index or slice expression of the parser can panic. *)
Theorem parser_in_bounds fuel lg neg d inTree p n p' :
  in_bounds p → group fuel lg neg d p = Ok (n, p') ∨ operation inTree p = Ok (n, p') →
  src p' = src p ∧ pos p ≤ pos p' ≤ len (src p).
Proof.
  intros Hb [Hg|Ho].
  - destruct (advances_tree fuel) as (Ha & _ & _).
    destruct (Ha _ _ _ _ _ _ Hb Hg) as (Hs & Hk & Hb'). unfold in_bounds in Hb'. rewrite Hs in Hb'.
    split; [done | lia].
  - destruct (advances_operation inTree _ _ _ Hb Ho) as (Hs & Hk & Hb').
    unfold in_bounds in Hb'. rewrite Hs in Hb'. split; [done | lia].
Qed.

End Entry.

(** ** Witnesses *)

(** The tree of [and=...], with the value [sample_text] below. *)
Definition sample_tree : filterNode :=
  groupNode false "AND"
    [ groupNode true "OR"
        [ with_field (condNode false "gte" "" "" "18" []) {| column := "age"; path := [] |};
          with_field (condNode false "like" "ANY" "" "x*" [])
            {| column := "data";
               path := [{| arrow := "->>"; key := "a,b"; index := 0; isIndex := false |}] |} ];
      with_field (condNode true "in" "" "" "" ["1"; "2"]) {| column := "id"; path := [] |} ].

Lemma parseFilter_print_witness :
  wf_node maxFilterDepth sample_tree = true ∧
  parseFilter (H := latin1_unicode) (Key (print_filter sample_tree)) (Value (print_filter sample_tree))
    = Ok sample_tree.
Proof.
  split; [vm_compute; reflexivity|].
  apply (parseFilter_print (H := latin1_unicode) sample_tree). vm_compute. reflexivity.
Defined.

Definition sample_text : string :=
  "(not.or(age.gte.18,data->>" +:+ quote "a,b" +:+ ".like(any).x*),id.not.in.(1,2))".

Lemma parseFilter_wf_witness :
  parseFilter (H := latin1_unicode) "and" sample_text
    = Ok sample_tree ∧ wf_node maxFilterDepth sample_tree = true.
Proof.
  assert (parseFilter (H := latin1_unicode) "and"
    sample_text = Ok sample_tree) as E
    by (vm_compute; reflexivity).
  split; [exact E | exact (parseFilter_wf (H := latin1_unicode) _ _ _ E)].
Defined.

Lemma parseFilter_terminates_witness :
  ∃ e, parseFilter (H := latin1_unicode) "or" "(a.eq.1" = Err e ∧ ¬ out_of_fuel e.
Proof.
  eexists. assert (parseFilter (H := latin1_unicode) "or" "(a.eq.1" =
    Err (BadTree "(a.eq.1" (ErrSyntax ("expected " +:+ quote "," +:+ " or " +:+ quote ")") found_eof))) as E
    by (vm_compute; reflexivity).
  split; [exact E | exact (parseFilter_terminates (H := latin1_unicode) _ _ _ E)].
Defined.

Lemma parser_in_bounds_witness :
  let p := {| src := "in.(1,2)"; pos := 0 |} in
  ∃ n p', operation (H := latin1_unicode) false p = Ok (n, p') ∧ src p' = src p ∧
    pos p ≤ pos p' ≤ len (src p).
Proof.
  simpl. eexists (condNode false "in" "" "" "" ["1"; "2"]), {| src := "in.(1,2)"; pos := 8 |}.
  split; [vm_compute; reflexivity|].
  apply (parser_in_bounds (H := latin1_unicode) 0 "AND" false 0 false
    {| src := "in.(1,2)"; pos := 0 |} (condNode false "in" "" "" "" ["1"; "2"])).
  - apply initial_in_bounds.
  - right. vm_compute. reflexivity.
Defined.
