(* ===== verification/SqlText.v ===== *)
(** * SqlText: reference readings of SQL text.

    The abstract specifications that the query builders are proved against: a
    scanner that finds the bind parameters of a statement outside of quoted
    identifiers and string literals, an evaluator of boolean expressions with
    SQL's precedence and three-valued logic, and the reading rule of quoted
    array-literal elements. *)

From S2P Require Import Prelude GoStrings GoStringFacts.
Local Open Scope Z_scope.

(** ** Bind parameters *)

Inductive mode := Plain | Quoted | Literal | Param.

(** The scanner's mode and the numbers of the parameters seen, newest first. *)
Definition scan_state : Type := mode * list Z.

Definition scan_start (l : list Z) (c : ascii) : scan_state :=
  if bool_decide (c = dquote) then (Quoted, l)
  else if bool_decide (c = "'"%char) then (Literal, l)
  else if bool_decide (c = "$"%char) then (Param, 0 :: l)
  else (Plain, l).

Definition scan_byte (st : scan_state) (c : ascii) : scan_state :=
  match st with
  | (Plain, l) => scan_start l c
  | (Quoted, l) => (if bool_decide (c = dquote) then Plain else Quoted, l)
  | (Literal, l) => (if bool_decide (c = "'"%char) then Plain else Literal, l)
  | (Param, n :: l) => if isDigit c then (Param, 10 * n + digit_val c :: l) else scan_start (n :: l) c
  | (Param, []) => scan_start [] c
  end.

Fixpoint scan (st : scan_state) (s : string) : scan_state :=
  match s with
  | EmptyString => st
  | String c s => scan (scan_byte st c) s
  end.

(** The parameters a statement refers to, from left to right. *)
Definition placeholders (sql : string) : list Z := rev (scan (Plain, []) sql).2.

(** Outside of identifiers and literals the scanner is between tokens. *)
Definition at_boundary (m : mode) : Prop := m = Plain ∨ m = Param.

(** [sql_piece s ids]: wherever a token may start, [s] reads as complete tokens
    that mention exactly the parameters [ids]. *)
Definition sql_piece (s : string) (ids : list Z) : Prop :=
  ∀ l, ∃ m, at_boundary m ∧ scan (Plain, l) s = (m, rev ids ++ l).

(** The text also starts with a character that ends a parameter. *)
Definition sql_delim (s : string) : Prop :=
  ∃ c t, s = String c t ∧ isDigit c = false.

Lemma scan_app st s t : scan st (s +:+ t) = scan (scan st s) t.
Proof. revert st. induction s as [|c s IH]; intros st; [done|]. apply IH. Qed.

Lemma scan_delim l c t : isDigit c = false → scan (Param, l) (String c t) = scan (Plain, l) (String c t).
Proof. intros Hc. simpl. destruct l; [done|]. by rewrite Hc. Qed.

Lemma sql_piece_nil : sql_piece "" [].
Proof. intros l. exists Plain. split; [by left | done]. Qed.

Lemma sql_piece_app s t ids ids' :
  sql_piece s ids → sql_piece t ids' → sql_delim t → sql_piece (s +:+ t) (ids ++ ids').
Proof.
  intros Hs Ht (c & u & -> & Hc) l. destruct (Hs l) as (m & Hm & E).
  rewrite scan_app, E. destruct (Ht (rev ids ++ l)) as (m' & Hm' & E'). exists m'. split; [done|].
  destruct Hm as [-> | ->].
  - by rewrite E', rev_app_distr, app_assoc.
  - by rewrite scan_delim, E', rev_app_distr, app_assoc by done.
Qed.

(** Text that ends outside of a parameter may be followed by anything. *)
Definition sql_closed (s : string) (ids : list Z) : Prop :=
  ∀ l, scan (Plain, l) s = (Plain, rev ids ++ l).

Lemma sql_closed_piece s ids : sql_closed s ids → sql_piece s ids.
Proof. intros Hs l. exists Plain. split; [by left | apply Hs]. Qed.

Lemma sql_closed_app s t ids ids' :
  sql_closed s ids → sql_piece t ids' → sql_piece (s +:+ t) (ids ++ ids').
Proof.
  intros Hs Ht l. rewrite scan_app, Hs. destruct (Ht (rev ids ++ l)) as (m & Hm & E).
  exists m. by rewrite E, rev_app_distr, app_assoc.
Qed.

Lemma sql_closed_app_closed s t ids ids' :
  sql_closed s ids → sql_closed t ids' → sql_closed (s +:+ t) (ids ++ ids').
Proof. intros Hs Ht l. by rewrite scan_app, Hs, Ht, rev_app_distr, app_assoc. Qed.

Lemma sql_piece_close s t ids ids' :
  sql_piece s ids → sql_closed t ids' → sql_delim t → sql_closed (s +:+ t) (ids ++ ids').
Proof.
  intros Hs Ht (c & u & -> & Hc) l. destruct (Hs l) as (m & Hm & E).
  rewrite scan_app, E. destruct Hm as [-> | ->].
  - by rewrite Ht, rev_app_distr, app_assoc.
  - by rewrite scan_delim, Ht, rev_app_distr, app_assoc by done.
Qed.

(** Words and operators hold no quote and no parameter. *)
Definition plain_char (c : ascii) : bool :=
  negb (bool_decide (c = dquote) || bool_decide (c = "'"%char) || bool_decide (c = "$"%char)).

Lemma scan_plain s l : all_bytes plain_char s = true → scan (Plain, l) s = (Plain, l).
Proof.
  induction s as [|c s IH]; [done|]. intros [Hc Hs]%andb_true_iff. cbn [scan scan_byte].
  unfold scan_start. unfold plain_char in Hc. apply negb_true_iff in Hc. bool_simp.
  rewrite !bool_decide_eq_false_2 by done. by apply IH.
Qed.
Lemma sql_closed_plain s : all_bytes plain_char s = true → sql_closed s [].
Proof. intros Hs l. by apply scan_plain. Qed.

Lemma scan_digits n l s v :
  digits_val n s = Some v → scan (Param, n :: l) s = (Param, v :: l).
Proof.
  revert n. induction s as [|c s IH]; intros n; simpl; [by intros [= ->]|].
  destruct (isDigit c); [|done]. apply IH.
Qed.

Lemma sql_piece_param n : 0 ≤ n → sql_piece (String "$" (Itoa n)) [n].
Proof.
  intros Hn l. exists Param. split; [by right|].
  destruct (Itoa_spec n) as (sg & c & s & E & _ & _ & [(_ & -> & Hv)|(? & _)]); [|lia].
  cbn [scan scan_byte]. rewrite E, app_nil_l_str.
  change (scan_start l "$") with (Param, 0 :: l). by rewrite (scan_digits _ _ _ _ Hv).
Qed.

(** Pieces separated by [sep]. *)
Lemma sql_piece_Join (l : list (string * list Z)) sep :
  Forall (λ x, sql_piece x.1 x.2) l → all_bytes plain_char sep = true → sql_delim sep →
  sql_piece (Join l.*1 sep) (concat l.*2).
Proof.
  intros Hl Hp Hd. induction Hl as [|x l Hx Hl IH]; [apply sql_piece_nil|].
  destruct l as [|y l]; [cbn; by rewrite app_nil_r|].
  change (Join (x :: y :: l).*1 sep) with (x.1 +:+ (sep +:+ Join (y :: l).*1 sep)).
  change (concat (x :: y :: l).*2) with (x.2 ++ concat (y :: l).*2).
  apply sql_piece_app; [exact Hx | |].
  - apply (sql_closed_app _ _ []); [by apply sql_closed_plain | exact IH].
  - destruct Hd as (c & t & -> & Hc). by eexists c, _.
Qed.

(** The parameters of numbers [n], [n+1], ... as a list of arguments names them. *)
Definition dollar (i : nat) : string := String "$" (Itoa (Z.of_nat i)).

Lemma dollars_piece n k : sql_piece (Join (dollar <$> seq n k) ", ") (Z.of_nat <$> seq n k).
Proof.
  pose proof (sql_piece_Join ((λ i, (dollar i, [Z.of_nat i])) <$> seq n k) ", ") as H.
  rewrite <-!list_fmap_compose in H.
  replace (Z.of_nat <$> seq n k) with (concat ((λ i, [Z.of_nat i]) <$> seq n k)).
  - apply H; [|done|by eexists _, _]. apply Forall_fmap, Forall_true. intros i. apply sql_piece_param. simpl. lia.
  - clear H. induction (seq n k) as [|i l IH]; [done|]. cbn [fmap list_fmap concat app]. f_equal. exact IH.
Qed.

Lemma sql_piece_placeholders s ids : sql_piece s ids → placeholders s = ids.
Proof.
  intros Hs. destruct (Hs []) as (m & _ & E). unfold placeholders.
  rewrite E. simpl. by rewrite app_nil_r, rev_involutive.
Qed.

Example placeholders_ex :
  placeholders ("SELECT " +:+ quote "a$9" +:+ " FROM t WHERE x = '$8' AND y = $12::int OR z > $3")
  = [12; 3].
Proof. vm_compute. reflexivity. Qed.

(** ** Boolean expressions

    [None] is SQL's NULL. *)
Definition tv := option bool.

Definition tv_not (a : tv) : tv := negb <$> a.
Definition tv_and (a b : tv) : tv :=
  match a, b with
  | Some false, _ | _, Some false => Some false
  | Some true, Some true => Some true
  | _, _ => None
  end.
Definition tv_or (a b : tv) : tv :=
  match a, b with
  | Some true, _ | _, Some true => Some true
  | Some false, Some false => Some false
  | _, _ => None
  end.

(** The tokens of a WHERE clause; an atom is a comparison without boolean
    operators of its own. *)
Inductive wtok := WAtom (text : string) | WNot | WAnd | WOr | WLP | WRP.

Definition wtok_text (t : wtok) : string :=
  match t with
  | WAtom s => s
  | WNot => "NOT "
  | WAnd => " AND "
  | WOr => " OR "
  | WLP => "("
  | WRP => ")"
  end.
Definition wtext (ts : list wtok) : string := foldr (λ t s, wtok_text t +:+ s) "" ts.

Section Where.
Variable ρ : string → tv.   (* the value of each comparison on a row *)

(** The grammar, from the loosest operator to the tightest: OR, AND, NOT, and
    parentheses. The fuel bounds the number of tokens read. *)
Fixpoint eval_or (fuel : nat) (ts : list wtok) : option (tv * list wtok) :=
  match fuel with
  | O => None
  | S fuel =>
      '(a, ts) ← eval_and fuel ts;
      match ts with
      | WOr :: ts => '(b, ts) ← eval_or fuel ts; Some (tv_or a b, ts)
      | _ => Some (a, ts)
      end
  end
with eval_and (fuel : nat) (ts : list wtok) : option (tv * list wtok) :=
  match fuel with
  | O => None
  | S fuel =>
      '(a, ts) ← eval_not fuel ts;
      match ts with
      | WAnd :: ts => '(b, ts) ← eval_and fuel ts; Some (tv_and a b, ts)
      | _ => Some (a, ts)
      end
  end
with eval_not (fuel : nat) (ts : list wtok) : option (tv * list wtok) :=
  match fuel with
  | O => None
  | S fuel =>
      match ts with
      | WNot :: ts => '(a, ts) ← eval_not fuel ts; Some (tv_not a, ts)
      | WLP :: ts =>
          '(a, ts) ← eval_or fuel ts;
          match ts with WRP :: ts => Some (a, ts) | _ => None end
      | WAtom s :: ts => Some (ρ s, ts)
      | _ => None
      end
  end.

(** The truth value of a whole clause; a token needs at most three calls. *)
Definition eval_where (ts : list wtok) : option tv :=
  match eval_or (3 * length ts + 3) ts with
  | Some (v, []) => Some v
  | _ => None
  end.

End Where.

(** ** Array literals whose elements are all quoted *)

Fixpoint read_element (s : string) : option (string * string) :=
  match s with
  | EmptyString => None
  | String c t =>
      if bool_decide (c = "\"%char) then
        match t with
        | EmptyString => None
        | String d t => '(v, rest) ← read_element t; Some (String d v, rest)
        end
      else if bool_decide (c = dquote) then Some ("", t)
      else '(v, rest) ← read_element t; Some (String c v, rest)
  end.

Fixpoint read_elements (fuel : nat) (s : string) : option (list string) :=
  match fuel, s with
  | S fuel, String c t =>
      if bool_decide (c = dquote) then
        '(v, rest) ← read_element t;
        match rest with
        | String d rest =>
            if bool_decide (d = ","%char) then cons v <$> read_elements fuel rest
            else if bool_decide (rest = "") && bool_decide (d = "}"%char) then Some [v] else None
        | EmptyString => None
        end
      else None
  | _, _ => None
  end.

(** [{}] or [{"...","..."}]; a backslash escapes the next character. *)
Definition read_array (s : string) : option (list string) :=
  match s with
  | String "{" "}" => Some []
  | String "{" t => read_elements (len t) t
  | _ => None
  end.
