(* ===== verification/GoAny.v ===== *)
(** * GoAny: dynamically typed Go values, [encoding/json] and [fmt]'s [%v].

    A value of type [any] holds what a decoded JSON body, a query argument or a
    row field can hold. Floating-point numbers are Rocq's executable binary64
    values; how a float prints and parses (the shortest-representation algorithms
    of [strconv]) is an argument, class [GoFloat]. *)

From S2P Require Import Prelude GoStrings.
From Stdlib Require Import SpecFloat.
Local Open Scope Z_scope.

(** ** Values *)

Inductive int_kind := KInt | KInt16 | KInt32 | KInt64.

(** [APtr ty p] is a typed pointer, nil or to a value: an interface that holds a
    nil pointer is not nil. *)
Inductive any :=
| ANil
| ABool (b : bool)
| AInt (k : int_kind) (z : Z)
| AFloat (f : spec_float)
| AStr (s : string)
| AArr (l : list any)
| AObj (m : gmap string any)
| APtr (ty : string) (p : option any).

Definition is_nil (v : any) : bool := match v with ANil => true | _ => false end.

(** ** Integers at their width *)

(** Two's-complement wrap-around to [w] bits. *)
Definition wrap (w z : Z) : Z := (z + 2 ^ (w - 1)) `mod` 2 ^ w - 2 ^ (w - 1).
Definition int64 (z : Z) : Z := wrap 64 z.
Definition in_int64 (z : Z) : bool := in_range (- 2 ^ 63) (2 ^ 63 - 1) z.

(** ** Binary64 *)

Definition prec64 : Z := 53.
Definition emax64 : Z := 1024.

(** [float64(z)], rounded to nearest even. *)
Definition float_of_int (z : Z) : spec_float := binary_normalize prec64 emax64 z 0 false.

(** [int64(f)] for a float in range: truncation toward zero. [None] where the
    language leaves the result to the implementation (NaN, infinities and values
    outside the 64-bit range). *)
Definition trunc_float (f : spec_float) : option Z :=
  match f with
  | S754_zero _ => Some 0
  | S754_finite s m e =>
      let a := if 0 <=? e then Z.pos m * 2 ^ e else Z.pos m / 2 ^ (- e) in
      let v := if s then - a else a in
      if in_int64 v then Some v else None
  | _ => None
  end.

Class GoFloat := {
  format_float : spec_float → string;      (* [strconv.FormatFloat(f, 'g', -1, 64)] as [%v] prints it *)
  json_float : spec_float → string;        (* the number encoding/json writes *)
  ParseFloat : string → option spec_float; (* [strconv.ParseFloat(s, 64)] *)
  float_to_int64 : spec_float → Z          (* [int64(f)] outside the 64-bit range *)
}.

Definition int64_of_float `{GoFloat} (f : spec_float) : Z :=
  match trunc_float f with Some z => z | None => float_to_int64 f end.

(** ** Sorted keys: [slices.Sorted(maps.Keys(m))] *)

(** Byte-wise lexicographic order, Go's [<=] on strings. *)
Fixpoint str_leb (s t : string) : bool :=
  match s, t with
  | EmptyString, _ => true
  | String _ _, EmptyString => false
  | String a s, String b t =>
      (byte_val a <? byte_val b) || ((byte_val a =? byte_val b) && str_leb s t)
  end.
Definition str_le (s t : string) : Prop := str_leb s t = true.
#[export] Instance str_le_dec : RelDecision str_le.
Proof. intros s t. unfold str_le. apply _. Defined.

Definition sort_strings (l : list string) : list string := merge_sort str_le l.
Definition sorted_keys {A} (m : gmap string A) : list string :=
  sort_strings (map_to_list m).*1.

(** The order in which [range] visits a map is up to the runtime. *)
Class GoRange := {
  range {K : Type} `{Countable K} {A : Type} : gmap K A → list (K * A);
  range_perm {K : Type} `{Countable K} {A : Type} (m : gmap K A) : range m ≡ₚ map_to_list m
}.

(** Two orders of visiting one map. *)
Definition range_up : GoRange.
Proof. exact {| range := λ K EqK CK A m, map_to_list m; range_perm := λ K EqK CK A m, reflexivity _ |}. Defined.
Definition range_down : GoRange.
Proof. exact {| range := λ K EqK CK A m, rev (map_to_list m);
                range_perm := λ K EqK CK A m, symmetry (Permutation_rev _) |}. Defined.

(** ** [encoding/json] *)

Definition hex_digit (z : Z) : ascii := if z <? 10 then byte_of (48 + z) else byte_of (87 + z).

(** The escapes of a JSON string with HTML escaping on, as [json.Marshal] writes
    it; invalid UTF-8 becomes the escaped replacement character. *)
Fixpoint json_escape (fuel : nat) (s : string) : string :=
  match fuel, s with
  | S fuel, String c t =>
      let b := byte_val c in
      let u4 h l := "\u00" +:+ String (hex_digit h) (String (hex_digit l) "") in
      if b <? 0x80 then
        (if bool_decide (c = dquote) then String "\" (String dquote "")
         else if bool_decide (c = "\"%char) then "\\"
         else if b =? 8 then "\b" else if b =? 12 then "\f"
         else if b =? 10 then "\n" else if b =? 13 then "\r" else if b =? 9 then "\t"
         else if (b <? 32) || mem_byte "<>&" c then u4 (b / 16) (b `mod` 16)
         else String c "") +:+ json_escape fuel t
      else
        let '(r, w) := DecodeRune s in
        (if (r =? RuneError) && bool_decide (w = 1%nat) then "\ufffd"
         else if r =? 0x2028 then "\u2028" else if r =? 0x2029 then "\u2029"
         else take w s) +:+ json_escape fuel (drop w s)
  | _, _ => ""
  end.
Definition json_string (s : string) : string := quote (json_escape (len s) s).

Definition finite (f : spec_float) : bool :=
  match f with S754_zero _ | S754_finite _ _ _ => true | _ => false end.

(** Key/value pairs in key order. *)
Definition key_le {A} (x y : string * A) : Prop := str_le x.1 y.1.
#[export] Instance key_le_dec {A} : RelDecision (@key_le A).
Proof. intros x y. unfold key_le. apply _. Defined.

Section Encode.
Context `{GoFloat}.

(** [json.Marshal]; [None] is an error (NaN and infinities are unsupported). *)
Fixpoint Marshal (v : any) : option string :=
  match v with
  | ANil => Some "null"
  | ABool b => Some (if b then "true" else "false")
  | AInt _ z => Some (Itoa z)
  | AFloat f => if finite f then Some (json_float f) else None
  | AStr s => Some (json_string s)
  | AArr l =>
      parts ← (fix go l := match l with
                           | [] => Some []
                           | x :: l => y ← Marshal x; ys ← go l; Some (y :: ys)
                           end) l;
      Some ("[" +:+ Join parts "," +:+ "]")
  | AObj m =>
      kvs ← map_fold (λ k x acc, y ← Marshal x; ys ← acc; Some ((k, y) :: ys)) (Some []) m;
      Some ("{" +:+ Join ((λ kv : string * string, json_string kv.1 +:+ ":" +:+ kv.2) <$>
                            merge_sort key_le kvs) "," +:+ "}")
  | APtr _ None => Some "null"
  | APtr _ (Some x) => Marshal x
  end.

(** [fmt.Sprintf("%v", v)]; a pointer prints as an address, which is left out
    (the program prints none). *)
Fixpoint Sprint_v (v : any) : string :=
  match v with
  | ANil => "<nil>"
  | ABool b => if b then "true" else "false"
  | AInt _ z => Itoa z
  | AFloat f => format_float f
  | AStr s => s
  | AArr l => "[" +:+ Join (Sprint_v <$> l) " " +:+ "]"
  | AObj m =>
      "map[" +:+
      Join ((λ kv : string * string, kv.1 +:+ ":" +:+ kv.2) <$>
        merge_sort key_le (map_fold (λ k x acc, (k, Sprint_v x) :: acc) [] m)) " " +:+ "]"
  | APtr ty _ => "*" +:+ ty
  end.

End Encode.

(** Integral floats below 2^53, which print as integers: enough to run the
    model on examples. *)
Definition integral_floats : GoFloat := {|
  format_float f := match trunc_float f with Some z => Itoa z | None => "NaN" end;
  json_float f := match trunc_float f with Some z => Itoa z | None => "NaN" end;
  ParseFloat s := float_of_int <$> ParseInt s 54;
  float_to_int64 _ := - 2 ^ 63
|}.

Example marshal_ex :
  Marshal (H := integral_floats)
    (AObj {[ "b" := AArr [AInt KInt 1; ANil; ABool true]; "a" := AStr "x<y" ]})
  = Some ("{" +:+ quote "a" +:+ ":" +:+ quote "x\u003cy" +:+ "," +:+ quote "b" +:+ ":[1,null,true]}").
Proof. vm_compute. reflexivity. Qed.

Example float_ex :
  trunc_float (float_of_int (-12345)) = Some (-12345) ∧
  trunc_float (float_of_int (2 ^ 63)) = None ∧
  Sprint_v (H := integral_floats) (AArr [AFloat (float_of_int 7); AStr "a"]) = "[7 a]".
Proof. vm_compute. auto. Qed.

(** ** Lemmas *)

#[export] Instance str_le_total : Total str_le.
Proof.
  intros s. unfold str_le. induction s as [|a s IH]; intros [|b t]; simpl; auto.
  destruct (Z.ltb_spec (byte_val a) (byte_val b)); [by left|].
  destruct (Z.eqb_spec (byte_val a) (byte_val b)) as [->|].
  - rewrite Z.ltb_irrefl, Z.eqb_refl. simpl. apply IH.
  - right. by rewrite (proj2 (Z.ltb_lt _ _)) by lia.
Qed.

#[export] Instance str_le_trans : Transitive str_le.
Proof.
  intros s. unfold str_le. induction s as [|a s IH]; intros [|b t] [|c u]; simpl; try done.
  rewrite !orb_true_iff, !andb_true_iff, !Z.ltb_lt, !Z.eqb_eq.
  intros [?|[? ?]] [?|[? ?]]; [left; lia..|]. right. split; [lia|]. by eapply IH.
Qed.

Lemma byte_val_inj a b : byte_val a = byte_val b → a = b.
Proof.
  unfold byte_val. intros E%N2Z.inj. by rewrite <-(ascii_N_embedding a), E, ascii_N_embedding.
Qed.

#[export] Instance str_le_antisymm : AntiSymm (=) str_le.
Proof.
  intros s. unfold str_le. induction s as [|a s IH]; intros [|b t]; simpl; try done.
  rewrite !orb_true_iff, !andb_true_iff, !Z.ltb_lt, !Z.eqb_eq.
  intros [?|[? ?]] [?|[? ?]]; try lia. f_equal; [by apply byte_val_inj | by apply IH].
Qed.

Lemma sort_strings_perm l : sort_strings l ≡ₚ l.
Proof. apply merge_sort_Permutation. Qed.
Lemma sort_strings_sorted l : StronglySorted str_le (sort_strings l).
Proof. apply StronglySorted_merge_sort; apply _. Qed.

(** The sorted form of a list does not depend on the order it came in. *)
Lemma sort_strings_unique l l' : l ≡ₚ l' → sort_strings l = sort_strings l'.
Proof.
  intros Hp. apply (StronglySorted_unique str_le); [apply sort_strings_sorted..|].
  by rewrite !sort_strings_perm.
Qed.

Section Keys.
Context {A : Type}.
Implicit Types m : gmap string A.

Lemma elem_of_keys m k : k ∈ (map_to_list m).*1 ↔ is_Some (m !! k).
Proof.
  rewrite list_elem_of_fmap. split.
  - intros ([k' x] & -> & Hin%elem_of_map_to_list). by exists x.
  - intros [x Hx]. exists (k, x). by rewrite elem_of_map_to_list.
Qed.
Lemma elem_of_sorted_keys m k : k ∈ sorted_keys m ↔ is_Some (m !! k).
Proof. unfold sorted_keys. rewrite sort_strings_perm. apply elem_of_keys. Qed.
Lemma NoDup_sorted_keys m : NoDup (sorted_keys m).
Proof. unfold sorted_keys. rewrite sort_strings_perm. apply NoDup_fst_map_to_list. Qed.
Lemma sorted_keys_nil m : sorted_keys m = [] ↔ m = ∅.
Proof.
  split.
  - intros E. apply map_empty. intros k. destruct (m !! k) as [x|] eqn:Hk; [|done].
    assert (k ∈ sorted_keys m) as Hin by (apply elem_of_sorted_keys; eauto).
    by rewrite E, elem_of_nil in Hin.
  - intros ->. done.
Qed.

End Keys.

Lemma wrap_small w z : 0 < w → - 2 ^ (w - 1) ≤ z < 2 ^ (w - 1) → wrap w z = z.
Proof.
  intros Hw Hz. unfold wrap. rewrite Z.mod_small; [lia|].
  replace w with (Z.succ (w - 1)) at 3 by lia. rewrite Z.pow_succ_r; lia.
Qed.
