(* ===== verification/Schema.v ===== *)
(** * Schema: tables and columns of [pkg/pgx/schema/schema.go].

    The metadata the REST layer reads: tables, columns, foreign keys, and the
    key under which the cache files a table. *)

From S2P Require Import Prelude GoStrings.

(** ** Data *)

Inductive TableType := TypeTable | TypeView | TypeMaterializedView | OtherTableType (s : string).

Definition TableType_of_string (s : string) : TableType :=
  if bool_decide (s = "TABLE") then TypeTable
  else if bool_decide (s = "VIEW") then TypeView
  else if bool_decide (s = "MATERIALIZED VIEW") then TypeMaterializedView
  else OtherTableType s.

(** [pg_type.typtype]; the empty kind is the zero value, of a type not found. *)
Inductive TypeKind :=
| KindNone | KindBase | KindComposite | KindDomain | KindEnum | KindPseudo | KindRange
| KindMultiRange | OtherKind (s : string).

Definition TypeKind_of_string (s : string) : TypeKind :=
  if bool_decide (s = "") then KindNone
  else if bool_decide (s = "b") then KindBase
  else if bool_decide (s = "c") then KindComposite
  else if bool_decide (s = "d") then KindDomain
  else if bool_decide (s = "e") then KindEnum
  else if bool_decide (s = "p") then KindPseudo
  else if bool_decide (s = "r") then KindRange
  else if bool_decide (s = "m") then KindMultiRange
  else OtherKind s.

#[export] Instance TableType_eq_dec : EqDecision TableType.
Proof. solve_decision. Defined.
#[export] Instance TypeKind_eq_dec : EqDecision TypeKind.
Proof. solve_decision. Defined.

Record Column := {
  col_Name : string;
  col_DataType : string;
  col_UDTSchema : string;
  col_UDTName : string;
  col_TypeKind : TypeKind;
  col_ElemKind : TypeKind;
  col_IsNullable : bool;
  col_IsPrimaryKey : bool
}.

Record ForeignKey := {
  fk_Column : string;
  fk_ReferencedTable : string;
  fk_ReferencedColumn : string
}.

Record Table := {
  tbl_Schema : string;
  tbl_Name : string;
  tbl_Type : TableType;
  tbl_Columns : list Column;
  tbl_PrimaryKeys : list string;
  tbl_ForeignKeys : list ForeignKey;
  tbl_ViewQuery : string
}.

(** The zero values a Go [var] declaration starts from. *)
Definition zeroColumn : Column := {|
  col_Name := ""; col_DataType := ""; col_UDTSchema := ""; col_UDTName := "";
  col_TypeKind := KindNone; col_ElemKind := KindNone;
  col_IsNullable := false; col_IsPrimaryKey := false |}.
Definition zeroTable : Table := {|
  tbl_Schema := ""; tbl_Name := ""; tbl_Type := OtherTableType ""; tbl_Columns := [];
  tbl_PrimaryKeys := []; tbl_ForeignKeys := []; tbl_ViewQuery := "" |}.

#[export] Instance Column_eq_dec : EqDecision Column.
Proof. solve_decision. Defined.
#[export] Instance ForeignKey_eq_dec : EqDecision ForeignKey.
Proof. solve_decision. Defined.
#[export] Instance Table_eq_dec : EqDecision Table.
Proof. solve_decision. Defined.

(** ** Operations *)

Definition IsComposite (c : Column) : bool :=
  bool_decide (col_TypeKind c = KindComposite) || bool_decide (col_ElemKind c = KindComposite).

(** [fmt.Sprintf("%s.%s", schema, name)] *)
Definition full_name (schema name : string) : string := schema +:+ "." +:+ name.
Definition fullName (t : Table) : string := full_name (tbl_Schema t) (tbl_Name t).

Definition isSystem (schema : string) : bool :=
  bool_decide (schema ∈ ["information_schema"; "pg_catalog"; "pg_toast"; "pg_temp_1";
                         "pg_toast_temp_1"]).

(** A plain column of a base type, as the examples use it. *)
Definition plain_column (name data_type : string) : Column := {|
  col_Name := name; col_DataType := data_type; col_UDTSchema := "pg_catalog";
  col_UDTName := data_type; col_TypeKind := KindBase; col_ElemKind := KindNone;
  col_IsNullable := true; col_IsPrimaryKey := false |}.
Definition plain_table (schema name : string) (cols : list Column) : Table := {|
  tbl_Schema := schema; tbl_Name := name; tbl_Type := TypeTable; tbl_Columns := cols;
  tbl_PrimaryKeys := []; tbl_ForeignKeys := []; tbl_ViewQuery := "" |}.
