(* ===== verification/FilterSQL.v ===== *)
(** * FilterSQL: rendering filters as SQL, [pkg/rest/filter.go] and [util.go].

    [toSQL] turns a parsed filter tree into a boolean SQL expression and appends
    the bind parameters to the query's argument list; [buildWhereClause] joins
    the filters of a request. How pgx quotes an identifier is an argument
    ([PgxIdentifier]). *)

From S2P Require Import Prelude GoStrings GoAny Schema FilterParser.

(** ** Interfaces and the argument list *)

(** [pgx.Identifier.Sanitize]. *)
Class PgxIdentifier := { Sanitize : list string → string }.

Definition quoteIdent `{PgxIdentifier} (name : string) : string := Sanitize [name].

Definition argList := list any.

(** [add] appends a parameter and returns its placeholder. *)
Definition add (a : argList) (v : any) : string * argList :=
  let a := a ++ [v] in (String "$" (Itoa (Z.of_nat (length a))), a).

Definition findColumn (table : Table) (name : string) : option Column :=
  List.find (λ col, bool_decide (col_Name col = name)) (tbl_Columns table).

(** ** Literals *)

Fixpoint array_escape (s : string) : string :=
  match s with
  | EmptyString => ""
  | String c s =>
      if bool_decide (c = dquote) || bool_decide (c = "\"%char)
      then String "\" (String c (array_escape s))
      else String c (array_escape s)
  end.

(** The loop of [pgArrayLiteral]; [first] is [i == 0]. *)
Fixpoint array_elems (first : bool) (values : list string) : string :=
  match values with
  | [] => ""
  | v :: vs => (if first then "" else ",") +:+ quote (array_escape v) +:+ array_elems false vs
  end.
Definition pgArrayLiteral (values : list string) : string :=
  "{" +:+ array_elems true values +:+ "}".

(** The loop over the parts of the older array shorthand. *)
Definition shorthand_parts (parts : list string) : list string :=
  flat_map (λ part,
    let part := TrimSpace part in
    if bool_decide (part = "") then []
    else [quote (ReplaceAll part (String dquote "") (String "\" (String dquote "")))]) parts.

Definition convertToPostgresArrayOrJSON (val : string) : string :=
  let val := TrimSpace val in
  if Contains val (String dquote "") || HasPrefix val "[" then val else
  let val := if HasPrefix val "{" && HasSuffix val "}"
             then take (len val - 2) (drop 1 val) else val in
  "{" +:+ Join (shorthand_parts (Split val ",")) "," +:+ "}".

(** ** Conditions *)

Section Render.
Context `{PgxIdentifier}.

(** The loop over the steps of a JSON path. *)
Fixpoint path_sql (steps : list jsonPathStep) (args : argList) : string * argList :=
  match steps with
  | [] => ("", args)
  | step :: steps =>
      let '(ph, args) :=
        if isIndex step then
          let '(ph, args) := add args (AInt KInt (index step)) in (ph +:+ "::int", args)
        else
          let '(ph, args) := add args (AStr (key step)) in (ph +:+ "::text", args) in
      let '(tail, args) := path_sql steps args in
      (arrow step +:+ ph +:+ tail, args)
  end.

Definition field_toSQL (f : filterField) (col : Column) (args : argList) : string * argList :=
  let sql := quoteIdent (col_Name col) in
  match path f with
  | [] => (sql, args)
  | steps =>
      let sql := if negb (bool_decide (col_DataType col = "json")) &&
                    negb (bool_decide (col_DataType col = "jsonb"))
                 then "to_jsonb(" +:+ sql +:+ ")" else sql in
      let '(s, args) := path_sql steps args in
      ("(" +:+ sql +:+ s +:+ ")", args)
  end.

(** The value bound for a comparison: the wildcard of the like operators and
    the array shorthand of [cs] and [cd]. *)
Definition bound_value (n : filterNode) (col : Column) : string :=
  let v := value n in
  if bool_decide (operator n ∈ ["like"; "ilike"]) then ReplaceAll v "*" "%"
  else if bool_decide (operator n ∈ ["cs"; "cd"]) then
    match v with
    | String c _ =>
        if bool_decide (col_DataType col = "ARRAY") && negb (mem_byte (String dquote "{[(") c)
        then convertToPostgresArrayOrJSON v else v
    | EmptyString => v
    end
  else v.

(** The operators of [ftsFunctions]: [lang] is added once and used twice. *)
Definition fts_sql (n : filterNode) (col : Column) (tsquery lhs : string) (args : argList)
    : string * argList :=
  let '(lang_sql, args) :=
    if bool_decide (lang n = "") then ("", args)
    else let '(ph, args) := add args (AStr (lang n)) in (ph +:+ "::regconfig, ", args) in
  let lhs := if negb (bool_decide (col_DataType col = "tsvector")) ||
                negb (bool_decide (path (field n) = []))
             then "to_tsvector(" +:+ lang_sql +:+ lhs +:+ ")" else lhs in
  let '(ph, args) := add args (AStr (value n)) in
  (lhs +:+ " @@ " +:+ tsquery +:+ "(" +:+ lang_sql +:+ ph +:+ ")", args).

(** The operators of [sqlOperators]. *)
Definition comparison_sql (n : filterNode) (col : Column) (lhs : string) (args : argList)
    : string * argList :=
  let v := bound_value n col in
  let op := table_str sqlOperators (operator n) in
  let '(ph, args) := add args (AStr v) in
  if negb (bool_decide (quant n = "")) then
    (lhs +:+ " " +:+ op +:+ " " +:+ quant n +:+ "(" +:+ ph +:+ ")", args)
  else (lhs +:+ " " +:+ op +:+ " " +:+ ph, args).

(** [conditionSQL] after its left-hand side. *)
Definition operator_sql (n : filterNode) (col : Column) (lhs : string) (args : argList)
    : string * argList :=
  if bool_decide (operator n = "in") then
    let '(ph, args) := add args (AStr (pgArrayLiteral (list_ n))) in
    (lhs +:+ " = ANY(" +:+ ph +:+ ")", args)
  else if bool_decide (operator n = "is") then
    (lhs +:+ " IS " +:+ table_str isValues (value n), args)
  else if bool_decide (operator n = "isdistinct") then
    let '(ph, args) := add args (AStr (value n)) in
    (lhs +:+ " IS DISTINCT FROM " +:+ ph, args)
  else match table_get ftsFunctions (operator n) with
       | Some tsquery => fts_sql n col tsquery lhs args
       | None => comparison_sql n col lhs args
       end.

Definition conditionSQL (n : filterNode) (table : Table) (args : argList)
    : res filter_error (string * argList) :=
  match findColumn table (column (field n)) with
  | None => Err (NoSuchColumn (tbl_Name table) (column (field n)))
  | Some col =>
      let '(lhs, args) := field_toSQL (field n) col args in
      Ok (operator_sql n col lhs args)
  end.

(** ** Trees *)

Fixpoint toSQL (n : filterNode) (table : Table) (args : argList) {struct n}
    : res filter_error (string * argList) :=
  match n with
  | mkFilterNode neg logic children _ _ _ _ _ _ =>
      let? (sql, args) :=
        if negb (bool_decide (logic = "")) then
          let? (parts, args) :=
            (fix go cs args :=
               match cs with
               | [] => Ok ([], args)
               | c :: cs =>
                   let? (part, args) := toSQL c table args in
                   let? (parts, args) := go cs args in
                   Ok (part :: parts, args)
               end) children args in
          Ok ("(" +:+ Join parts (" " +:+ logic +:+ " ") +:+ ")", args)
        else
          let? (cond, args) := conditionSQL n table args in
          Ok (if neg : bool then "(" +:+ cond +:+ ")" else cond, args) in
      Ok (if neg : bool then "NOT " +:+ sql else sql, args)
  end.

Fixpoint where_conds `{Unicode} (table : Table) (filters : list RawFilter) (args : argList)
    : res filter_error (list string * argList) :=
  match filters with
  | [] => Ok ([], args)
  | f :: fs =>
      let? node := parseFilter (Key f) (Value f) in
      let? (cond, args) := toSQL node table args in
      let? (conds, args) := where_conds table fs args in
      Ok (cond :: conds, args)
  end.

Definition buildWhereClause `{Unicode} (table : Table) (filters : list RawFilter) (args : argList)
    : res filter_error (string * argList) :=
  let? (conds, args) := where_conds table filters args in
  Ok (Join conds " AND ", args).

End Render.

(** ** A concrete identifier quoting, for examples

    pgx puts every part in double quotes, doubles the quotes inside and drops
    NUL bytes. *)
Fixpoint ident_escape (s : string) : string :=
  match s with
  | EmptyString => ""
  | String c s =>
      if bool_decide (c = Ascii.zero) then ident_escape s
      else if bool_decide (c = dquote) then String dquote (String dquote (ident_escape s))
      else String c (ident_escape s)
  end.
Definition quoting_identifier : PgxIdentifier :=
  {| Sanitize parts := Join ((λ p, quote (ident_escape p)) <$> parts) "." |}.
