(* ===== verification/FilterTests.v ===== *)
(** * FilterTests: the test tables of [pkg/rest/filter_test.go], evaluated.

    Every row of [TestBuildWhereClause] and [TestBuildWhereClauseErrors], run through the model. A backquote
    stands for a double quote. *)

From S2P Require Import Prelude GoStrings GoAny Schema FilterParser FilterSQL.

Definition bq (s : string) : string :=
  map_string (λ c, if bool_decide (c = "`"%char) then dquote else c) s.

Definition filterTestTable : Table := plain_table "public" "people" [
  plain_column "id" "integer"; plain_column "wid" "uuid"; plain_column "name" "text";
  plain_column "age" "integer"; plain_column "student" "boolean"; plain_column "tags" "ARRAY";
  plain_column "data" "jsonb"; plain_column "location" "USER-DEFINED";
  plain_column "tsv" "tsvector"; plain_column "period" "daterange";
  plain_column "information.cpe" "text"; plain_column "unit price" "numeric" ].

Definition where_of (key value : string) : res filter_error (string * argList) :=
  buildWhereClause (H := quoting_identifier) (H0 := latin1_unicode) filterTestTable
    [{| Key := bq key; Value := bq value |}] [].

Definition where_tests : list (string * string * string * argList) := [
  ("age", "gte.18", "`age` >= $1", [AStr (bq "18")]);
  ("age", "not.eq.2", "NOT (`age` = $1)", [AStr (bq "2")]);
  ("name", "neq.x", "`name` <> $1", [AStr (bq "x")]);
  ("name", "eq.a,b", "`name` = $1", [AStr (bq "a,b")]);
  ("name", "eq.", "`name` = $1", [AStr (bq "")]);
  ("name", "eq.null", "`name` = $1", [AStr (bq "null")]);
  ("name", "like.*Jo*", "`name` LIKE $1", [AStr (bq "%Jo%")]);
  ("name", "ilike.jo*", "`name` ILIKE $1", [AStr (bq "jo%")]);
  ("name", "match.^J", "`name` ~ $1", [AStr (bq "^J")]);
  ("name", "imatch.^j", "`name` ~* $1", [AStr (bq "^j")]);
  ("name", "isdistinct.x", "`name` IS DISTINCT FROM $1", [AStr (bq "x")]);
  ("name", "like(any).{O*,P*}", "`name` LIKE ANY($1)", [AStr (bq "{O%,P%}")]);
  ("age", "gt(all).{1,2}", "`age` > ALL($1)", [AStr (bq "{1,2}")]);
  ("unit price", "lt.200", "`unit price` < $1", [AStr (bq "200")]);
  ("`information.cpe`", "like.*MS*", "`information.cpe` LIKE $1", [AStr (bq "%MS%")]);
  ("id", "in.(1,2,3)", "`id` = ANY($1)", [AStr (bq "{`1`,`2`,`3`}")]);
  ("name", "in.(`Hebdon,John`,`Williams,Mary`)", "`name` = ANY($1)", [AStr (bq "{`Hebdon,John`,`Williams,Mary`}")]);
  ("name", "in.(`Quote:\``,`Backslash:\\`)", "`name` = ANY($1)", [AStr (bq "{`Quote:\``,`Backslash:\\`}")]);
  ("name", "in.(`a`b,c)", "`name` = ANY($1)", [AStr (bq "{`\`a\`b`,`c`}")]);
  ("id", "in.()", "`id` = ANY($1)", [AStr (bq "{}")]);
  ("id", "not.in.(1,2)", "NOT (`id` = ANY($1))", [AStr (bq "{`1`,`2`}")]);
  ("id", "in.1,2", "`id` = ANY($1)", [AStr (bq "{`1`,`2`}")]);
  ("wid", "is.null", "`wid` IS NULL", []);
  ("wid", "not.is.null", "NOT (`wid` IS NULL)", []);
  ("wid", "is.not_null", "`wid` IS NOT NULL", []);
  ("student", "is.TRUE", "`student` IS TRUE", []);
  ("student", "is.false", "`student` IS FALSE", []);
  ("student", "is.unknown", "`student` IS UNKNOWN", []);
  ("tags", "cs.{a,b}", "`tags` @> $1", [AStr (bq "{a,b}")]);
  ("tags", "cs.a,b", "`tags` @> $1", [AStr (bq "{`a`,`b`}")]);
  ("tags", "cd.{1,2,3}", "`tags` <@ $1", [AStr (bq "{1,2,3}")]);
  ("tags", "ov.{1,3}", "`tags` && $1", [AStr (bq "{1,3}")]);
  ("data", "cs.{`a`:1}", "`data` @> $1", [AStr (bq "{`a`:1}")]);
  ("data", "cs.1", "`data` @> $1", [AStr (bq "1")]);
  ("period", "ov.[2017-01-01,2017-06-30]", "`period` && $1", [AStr (bq "[2017-01-01,2017-06-30]")]);
  ("period", "sl.(1,10)", "`period` << $1", [AStr (bq "(1,10)")]);
  ("period", "sr.(1,10)", "`period` >> $1", [AStr (bq "(1,10)")]);
  ("period", "nxr.(1,10)", "`period` &< $1", [AStr (bq "(1,10)")]);
  ("period", "nxl.(1,10)", "`period` &> $1", [AStr (bq "(1,10)")]);
  ("period", "adj.(1,10)", "`period` -|- $1", [AStr (bq "(1,10)")]);
  ("tsv", "fts(french).amusant", "`tsv` @@ to_tsquery($1::regconfig, $2)", [AStr (bq "french"); AStr (bq "amusant")]);
  ("tsv", "plfts.The Fat Cats", "`tsv` @@ plainto_tsquery($1)", [AStr (bq "The Fat Cats")]);
  ("tsv", "not.phfts(english).The Fat Cats", "NOT (`tsv` @@ phraseto_tsquery($1::regconfig, $2))", [AStr (bq "english"); AStr (bq "The Fat Cats")]);
  ("tsv", "wfts.amusant", "`tsv` @@ websearch_to_tsquery($1)", [AStr (bq "amusant")]);
  ("name", "fts(french).amusant", "to_tsvector($1::regconfig, `name`) @@ to_tsquery($1::regconfig, $2)", [AStr (bq "french"); AStr (bq "amusant")]);
  ("data", "fts.cat", "to_tsvector(`data`) @@ to_tsquery($1)", [AStr (bq "cat")]);
  ("data->>blood_type", "eq.A-", "(`data`->>$1::text) = $2", [AStr (bq "blood_type"); AStr (bq "A-")]);
  ("data->age", "gt.20", "(`data`->$1::text) > $2", [AStr (bq "age"); AStr (bq "20")]);
  ("data->phones->0->>number", "eq.1", "(`data`->$1::text->$2::int->>$3::text) = $4", [AStr (bq "phones"); AInt KInt (0); AStr (bq "number"); AStr (bq "1")]);
  ("data->-1", "eq.1", "(`data`->$1::int) = $2", [AInt KInt (-1); AStr (bq "1")]);
  ("data->2fa", "is.true", "(`data`->$1::text) IS TRUE", [AStr (bq "2fa")]);
  ("data->`a.b`", "eq.1", "(`data`->$1::text) = $2", [AStr (bq "a.b"); AStr (bq "1")]);
  ("location->lat", "gte.19", "(to_jsonb(`location`)->$1::text) >= $2", [AStr (bq "lat"); AStr (bq "19")]);
  ("or", "(age.lt.18,age.gt.21)", "(`age` < $1 OR `age` > $2)", [AStr (bq "18"); AStr (bq "21")]);
  ("and", "(age.gte.11,age.lte.17)", "(`age` >= $1 AND `age` <= $2)", [AStr (bq "11"); AStr (bq "17")]);
  ("not.and", "(age.gte.0,age.lte.100)", "NOT (`age` >= $1 AND `age` <= $2)", [AStr (bq "0"); AStr (bq "100")]);
  ("not.or", "(age.eq.1)", "NOT (`age` = $1)", [AStr (bq "1")]);
  ("or", "(age.eq.14,not.and(age.gte.11,age.lte.17))", "(`age` = $1 OR NOT (`age` >= $2 AND `age` <= $3))", [AStr (bq "14"); AStr (bq "11"); AStr (bq "17")]);
  ("or", "(age.not.eq.1,name.is.null)", "(NOT (`age` = $1) OR `name` IS NULL)", [AStr (bq "1")]);
  ("or", "(age.lt.18, age.gt.21)", "(`age` < $1 OR `age` > $2)", [AStr (bq "18"); AStr (bq "21")]);
  ("or", "(name.eq.`Hebdon, John`,name.like.*son)", "(`name` = $1 OR `name` LIKE $2)", [AStr (bq "Hebdon, John"); AStr (bq "%son")]);
  ("or", "(name.eq.`a\`b`,name.eq.`c)`)", "(`name` = $1 OR `name` = $2)", [AStr (bq "a`b"); AStr (bq "c)")]);
  ("or", "(name.eq.`unterminated)", "(`name` = $1)", [AStr (bq "`unterminated")]);
  ("or", "(name.eq.a.b@c.com,name.eq.)", "(`name` = $1 OR `name` = $2)", [AStr (bq "a.b@c.com"); AStr (bq "")]);
  ("or", "(tags.cs.{a,b},id.in.(1,2),wid.is.null)", "(`tags` @> $1 OR `id` = ANY($2) OR `wid` IS NULL)", [AStr (bq "{a,b}"); AStr (bq "{`1`,`2`}")]);
  ("or", "(period.adj.`[18,21)`,period.cs.`[30,35]`)", "(`period` -|- $1 OR `period` @> $2)", [AStr (bq "[18,21)"); AStr (bq "[30,35]")]);
  ("or", "(data->>a.eq.1,data->0.eq.2)", "((`data`->>$1::text) = $2 OR (`data`->$3::int) = $4)", [AStr (bq "a"); AStr (bq "1"); AInt KInt (0); AStr (bq "2")]);
  ("or", "(tsv.fts(english).cat,name.not.ilike.*x*)", "(`tsv` @@ to_tsquery($1::regconfig, $2) OR NOT (`name` ILIKE $3))", [AStr (bq "english"); AStr (bq "cat"); AStr (bq "%x%")]);
  ("or", "(name.like(any).{a*,b*},and(age.gt.1,or(student.is.true,wid.is.null)))", "(`name` LIKE ANY($1) OR (`age` > $2 AND (`student` IS TRUE OR `wid` IS NULL)))", [AStr (bq "{a%,b%}"); AStr (bq "1")]) ].

Definition error_tests : list (string * string) := [
  ("age", "gtt.18");
  ("age", "18");
  ("age", "");
  ("age", "eq");
  ("age", "neq(any).{1}");
  ("age", "eq(some).{1}");
  ("age", "in.(1,2");
  ("age", "in.(1,2)x");
  ("age", "in.");
  ("wid", "is.nul");
  ("wid", "is.nullx");
  ("tsv", "fts().x");
  ("nope", "eq.1");
  ("", "eq.1");
  ("data->", "eq.1");
  ("age::text", "eq.1");
  ("child.name", "eq.x");
  ("child.or", "(a.eq.1)");
  ("or", "(nope.eq.1)");
  ("or", "(a.b.eq.1)");
  ("or", "(email.eq.a.b@c.com)");
  ("or", "");
  ("or", "age.eq.1");
  ("or", "(age.eq.1");
  ("or", "(age.eq.1))");
  ("or", "()");
  ("or", "(age.eq.1,)");
  ("or", "(age.eqq.1)");
  ("or", "(age.eq)");
  ("or", "(id.in.1,2)");
  ("or", "(tags.cs.{a,b}x)") ].

Example where_tests_pass :
  (λ t, where_of t.1.1.1 t.1.1.2) <$> where_tests = (λ t, Ok (bq t.1.2, t.2)) <$> where_tests.
Proof. vm_compute. reflexivity. Qed.

Example error_tests_pass :
  forallb (λ t, negb (is_ok (where_of t.1 t.2))) error_tests = true.
Proof. vm_compute. reflexivity. Qed.

Definition deep_tree (n : nat) : string :=
  "(" +:+ repeat_string "or(" n +:+ "age.eq.1" +:+ repeat_string ")" (S n).

Example depth_tests_pass :
  is_ok (where_of "or" (deep_tree 31)) = true ∧
  where_of "or" (deep_tree 32) = Err (BadTree (deep_tree 32) ErrDepth) ∧
  where_of "or" (deep_tree 40) = Err (BadTree (deep_tree 40) ErrDepth).
Proof. vm_compute. auto. Qed.
