(* ===== verification/FilterSQLFacts.v ===== *)
(** * FilterSQLFacts: what rendering a filter appends and what its text depends on.

    The equations of [toSQL], the exact list of parameters a tree binds, and the
    fact that the SQL text is a function of the tree's shape: the tree with every
    value the client chose blanked out. *)

From S2P Require Import Prelude GoStrings GoAny Schema FilterParser FilterRoundTrip FilterSQL.

(** ** Equations *)

Section Facts.
Context `{PgxIdentifier}.
Implicit Types (table : Table) (n : filterNode) (a b : argList).

Fixpoint children_sql table (cs : list filterNode) a : res filter_error (list string * argList) :=
  match cs with
  | [] => Ok ([], a)
  | c :: cs =>
      let? (part, a) := toSQL c table a in
      let? (parts, a) := children_sql table cs a in
      Ok (part :: parts, a)
  end.

Lemma toSQL_group neg lg cs fld op q l v items table a :
  lg ≠ "" →
  toSQL (mkFilterNode neg lg cs fld op q l v items) table a =
  (let? (parts, a) := children_sql table cs a in
   let sql := "(" +:+ Join parts (" " +:+ lg +:+ " ") +:+ ")" in
   Ok (if neg then "NOT " +:+ sql else sql, a)).
Proof.
  intros Hlg. cbn [toSQL]. rewrite bool_decide_eq_false_2 by done. cbn [negb].
  match goal with |- context [?f cs a] => assert (∀ cs a, f cs a = children_sql table cs a) as E end.
  { clear. intros cs. induction cs as [|c cs IH]; intros a; [done|]. cbn [children_sql].
    destruct (toSQL c table a) as [[part a1]|]; cbn [res_bind]; [|done]. by rewrite IH. }
  rewrite E. destruct (children_sql table cs a) as [[parts a1]|]; done.
Qed.

Lemma toSQL_cond n table a :
  logic n = "" →
  toSQL n table a =
  (let? (cond, a) := conditionSQL n table a in
   Ok (if negate n then "NOT (" +:+ cond +:+ ")" else cond, a)).
Proof.
  destruct n as [neg lg cs fld op q l v items]. simpl logic. intros ->. cbn [toSQL negate].
  rewrite bool_decide_eq_true_2 by done. cbn [negb].
  destruct (conditionSQL _ table a) as [[cond a1]|]; cbn [res_bind]; [by destruct neg | done].
Qed.

(** ** The parameters a tree binds *)

Definition step_arg (s : jsonPathStep) : any :=
  if isIndex s then AInt KInt (index s) else AStr (key s).

(** The parameters after those of the path. *)
Definition operator_args (col : Column) n : argList :=
  if bool_decide (operator n = "in") then [AStr (pgArrayLiteral (list_ n))]
  else if bool_decide (operator n = "is") then []
  else if bool_decide (operator n = "isdistinct") then [AStr (value n)]
  else match table_get ftsFunctions (operator n) with
       | Some _ => (if bool_decide (lang n = "") then [] else [AStr (lang n)]) ++ [AStr (value n)]
       | None => [AStr (bound_value n col)]
       end.

Definition cond_args (col : Column) n : argList :=
  (step_arg <$> path (field n)) ++ operator_args col n.

Fixpoint node_args table n : argList :=
  match n with
  | mkFilterNode _ lg cs fld _ _ _ _ _ =>
      if bool_decide (lg = "") then
        match findColumn table (column fld) with Some col => cond_args col n | None => [] end
      else concat (node_args table <$> cs)
  end.

Lemma path_sql_cons s steps a :
  path_sql (s :: steps) a =
  (arrow s +:+ (add a (step_arg s)).1 +:+ (if isIndex s then "::int" else "::text") +:+
     (path_sql steps (a ++ [step_arg s])).1,
   (path_sql steps (a ++ [step_arg s])).2).
Proof.
  unfold step_arg. cbn [path_sql add].
  destruct (isIndex s); cbn [fst snd add]; destruct (path_sql steps _); simpl;
    by rewrite ?app_cons_str, ?app_assoc_str.
Qed.

Lemma path_sql_args steps a : (path_sql steps a).2 = a ++ (step_arg <$> steps).
Proof.
  revert a. induction steps as [|s steps IH]; intros a; [by rewrite app_nil_r|].
  rewrite path_sql_cons. cbn [snd]. by rewrite IH, <-app_assoc.
Qed.
Definition path_base (col : Column) : string :=
  let sql := quoteIdent (col_Name col) in
  if negb (bool_decide (col_DataType col = "json")) && negb (bool_decide (col_DataType col = "jsonb"))
  then "to_jsonb(" +:+ sql +:+ ")" else sql.

Lemma field_toSQL_eq f col a :
  field_toSQL f col a =
  (if bool_decide (path f = []) then quoteIdent (col_Name col)
   else "(" +:+ path_base col +:+ (path_sql (path f) a).1 +:+ ")", (path_sql (path f) a).2).
Proof.
  unfold field_toSQL, path_base. destruct (path f) as [|s l] eqn:E; [done|].
  rewrite (bool_decide_eq_false_2 (s :: l = [])) by done. by destruct (path_sql (s :: l) a).
Qed.
Lemma field_toSQL_args f col a : (field_toSQL f col a).2 = a ++ (step_arg <$> path f).
Proof. rewrite field_toSQL_eq. apply path_sql_args. Qed.

Lemma operator_sql_args n col lhs a : (operator_sql n col lhs a).2 = a ++ operator_args col n.
Proof.
  unfold operator_sql, operator_args, fts_sql, comparison_sql, add.
  destruct (bool_decide (operator n = "in")); [done|].
  destruct (bool_decide (operator n = "is")); [by rewrite app_nil_r|].
  destruct (bool_decide (operator n = "isdistinct")); [done|].
  destruct (table_get ftsFunctions (operator n)).
  - destruct (bool_decide (lang n = "")); [done|]. simpl. by rewrite <-app_assoc.
  - by destruct (bool_decide (quant n = "")).
Qed.

Lemma conditionSQL_eq n table a :
  conditionSQL n table a =
  match findColumn table (column (field n)) with
  | None => Err (NoSuchColumn (tbl_Name table) (column (field n)))
  | Some col => Ok (operator_sql n col (field_toSQL (field n) col a).1 (field_toSQL (field n) col a).2)
  end.
Proof.
  unfold conditionSQL. destruct (findColumn _ _) as [col|]; [|done].
  by destruct (field_toSQL (field n) col a).
Qed.

Lemma conditionSQL_args n table a s b :
  conditionSQL n table a = Ok (s, b) →
  ∃ col, findColumn table (column (field n)) = Some col ∧ b = a ++ cond_args col n.
Proof.
  rewrite conditionSQL_eq. destruct (findColumn _ _) as [col|]; [|done]. intros [= Hc].
  exists col. split; [done|]. unfold cond_args.
  apply (f_equal snd) in Hc. rewrite operator_sql_args, field_toSQL_args in Hc.
  simpl in Hc. by rewrite <-Hc, <-app_assoc.
Qed.

Lemma toSQL_args n table a s b :
  toSQL n table a = Ok (s, b) → b = a ++ node_args table n.
Proof.
  revert a s b. induction n as [neg lg cs fld op q l v items IH] using filterNode_nested_ind.
  intros a s b. cbn [node_args]. case_bool_decide as Hlg.
  - rewrite toSQL_cond by done. intros ([cond a1] & Hc & [= _ <-])%res_bind_ok.
    apply conditionSQL_args in Hc as (col & Hcol & ->). cbn [field] in Hcol. by rewrite Hcol.
  - rewrite toSQL_group by done. intros ([parts a1] & Hc & [= _ <-])%res_bind_ok.
    revert a parts a1 Hc. induction IH as [|c cs Hn _ IH]; intros a parts a1; cbn [children_sql].
    { intros [= _ <-]. by rewrite app_nil_r. }
    intros ([part a2] & Hp%Hn & ([parts' a3] & Hps & [= _ <-])%res_bind_ok)%res_bind_ok.
    apply IH in Hps. subst. cbn [fmap list_fmap concat]. by rewrite app_assoc.
Qed.

(** ** Shapes *)

Definition blank_step (s : jsonPathStep) : jsonPathStep :=
  {| arrow := arrow s; key := ""; index := 0; isIndex := isIndex s |}.
Definition blank_field (f : filterField) : filterField :=
  {| column := column f; path := blank_step <$> path f |}.

(** The tree without the values the client sends: operands, list elements,
    JSON keys and indexes, and the name of a text search configuration. *)
Fixpoint shape n : filterNode :=
  match n with
  | mkFilterNode neg lg cs fld op q l v items =>
      mkFilterNode neg lg (shape <$> cs) (blank_field fld) op q
        (if bool_decide (l = "") then "" else "x")
        (if bool_decide (op = "is") then v else "") []
  end.

(** Two results with the same text and the same number of parameters. *)
Definition same_text {E A} (r r' : res E (A * argList)) : Prop :=
  match r, r' with
  | Ok (s, b), Ok (s', b') => s = s' ∧ length b = length b'
  | Err e, Err e' => e = e'
  | _, _ => False
  end.

Lemma same_text_bind {E A B} (r r' : res E (A * argList))
    (k k' : A * argList → res E (B * argList)) :
  same_text r r' →
  (∀ s b b', length b = length b' → same_text (k (s, b)) (k' (s, b'))) →
  same_text (res_bind r k) (res_bind r' k').
Proof.
  intros Hr Hk. destruct r as [[s b]|], r' as [[s' b']|]; simpl in *; try done.
  destruct Hr as [-> ?]. by apply Hk.
Qed.

Lemma add_text a b v v' :
  length a = length b → (add a v).1 = (add b v').1 ∧ length (add a v).2 = length (add b v').2.
Proof. intros E. unfold add. simpl. rewrite !length_app. simpl. by rewrite E. Qed.

Lemma path_sql_text steps a b :
  length a = length b →
  (path_sql steps a).1 = (path_sql (blank_step <$> steps) b).1 ∧
  length (path_sql steps a).2 = length (path_sql (blank_step <$> steps) b).2.
Proof.
  revert a b. induction steps as [|s steps IH]; intros a b Hab; [done|].
  change (blank_step <$> (s :: steps)) with (blank_step s :: (blank_step <$> steps)).
  rewrite !path_sql_cons. cbn [fst snd].
  destruct (IH (a ++ [step_arg s]) (b ++ [step_arg (blank_step s)])) as [E1 E2].
  { rewrite !length_app. simpl. lia. }
  destruct (add_text a b (step_arg s) (step_arg (blank_step s)) Hab) as [E3 _].
  by rewrite E1, E2, E3.
Qed.

Lemma field_toSQL_text f col a b :
  length a = length b →
  (field_toSQL f col a).1 = (field_toSQL (blank_field f) col b).1 ∧
  length (field_toSQL f col a).2 = length (field_toSQL (blank_field f) col b).2.
Proof.
  intros Hab. rewrite !field_toSQL_eq. cbn [fst snd path blank_field].
  destruct (path_sql_text (path f) a b Hab) as [-> ->]. split; [|done].
  by destruct (path f).
Qed.

Lemma shape_op n : operator (shape n) = operator n.
Proof. by destruct n. Qed.
Lemma shape_field n : field (shape n) = blank_field (field n).
Proof. by destruct n. Qed.

Lemma operator_sql_text n col lhs a b :
  length a = length b →
  (operator_sql n col lhs a).1 = (operator_sql (shape n) col lhs b).1 ∧
  length (operator_sql n col lhs a).2 = length (operator_sql (shape n) col lhs b).2.
Proof.
  intros Hab. unfold operator_sql, fts_sql, comparison_sql, add. rewrite shape_op, shape_field.
  assert (∀ x y : any, length (a ++ [x]) = length (b ++ [y])) as Hl.
  { intros. rewrite !length_app. simpl. lia. }
  assert (∀ x y z t : any, length ((a ++ [x]) ++ [z]) = length ((b ++ [y]) ++ [t])) as Hl2.
  { intros. rewrite !length_app. simpl. lia. }
  destruct (bool_decide (operator n = "in")); [simpl; split; [by erewrite Hl | apply Hl]|].
  destruct n as [neg lg cs fld op q l v items]. cbn [operator lang quant value shape blank_field path].
  destruct (bool_decide (op = "is")); [done|].
  destruct (bool_decide (op = "isdistinct")); [simpl; split; [by erewrite Hl | apply Hl]|].
  destruct (table_get ftsFunctions op).
  - destruct (bool_decide (l = "")).
    + simpl. split; [|apply Hl].
      erewrite Hl. by destruct (path fld).
    + simpl. split; [|apply Hl2].
      erewrite Hl2, Hl. by destruct (path fld).
  - destruct (bool_decide (q = "")); simpl; (split; [by erewrite Hl | apply Hl]).
Qed.

Lemma conditionSQL_text n table a b :
  length a = length b → same_text (conditionSQL n table a) (conditionSQL (shape n) table b).
Proof.
  intros Hab. rewrite !conditionSQL_eq, shape_field. cbn [column blank_field].
  destruct (findColumn table (column (field n))) as [col|]; [|done].
  destruct (field_toSQL_text (field n) col a b Hab) as [E1 E2]. rewrite <-E1.
  destruct (operator_sql_text n col (field_toSQL (field n) col a).1 _ _ E2) as [E3 E4].
  unfold same_text. destruct (operator_sql _ _ _ _), (operator_sql _ _ _ _). done.
Qed.

Lemma toSQL_text n table a b :
  length a = length b → same_text (toSQL n table a) (toSQL (shape n) table b).
Proof.
  revert a b. induction n as [neg lg cs fld op q l v items IH] using filterNode_nested_ind.
  intros a b Hab. destruct (decide (lg = "")) as [->|Hlg].
  - rewrite !toSQL_cond by done. eapply same_text_bind; [by apply conditionSQL_text|].
    intros s b1 b2 ?. by destruct neg.
  - cbn [shape]. rewrite !toSQL_group by done. eapply same_text_bind.
    2:{ intros s b1 b2 ?. by destruct neg. }
    revert a b Hab. induction IH as [|c cs Hn _ IH]; intros a b Hab; [done|].
    cbn [children_sql fmap list_fmap]. eapply same_text_bind; [by apply Hn|].
    intros part b1 b2 Hb. eapply same_text_bind; [by apply IH|]. by intros.
Qed.

Lemma same_text_trans {E A} (r1 r2 r3 : res E (A * argList)) :
  same_text r1 r2 → same_text r3 r2 → same_text r1 r3.
Proof.
  destruct r1 as [[? ?]|], r2 as [[? ?]|], r3 as [[? ?]|]; simpl; try done; intuition congruence.
Qed.

(** Trees of one shape have one SQL text. *)
Lemma toSQL_shape n n' table a b :
  shape n = shape n' → length a = length b → same_text (toSQL n table a) (toSQL n' table b).
Proof.
  intros Hs Hab. eapply same_text_trans; [by apply (toSQL_text n table a b)|].
  rewrite Hs. by apply toSQL_text.
Qed.

Lemma children_same_text ns ns' table a b :
  shape <$> ns = shape <$> ns' → length a = length b →
  same_text (children_sql table ns a) (children_sql table ns' b).
Proof.
  revert ns' a b. induction ns as [|n ns IH]; intros [|n' ns'] a b Hs Hab; simplify_eq/=; [done|].
  eapply same_text_bind; [by apply toSQL_shape|]. intros s c c' Hc.
  eapply same_text_bind; [by apply IH|]. by intros.
Qed.

(** ** Requests *)

Definition parses `{UC : Unicode} (filters : list RawFilter) (nodes : list filterNode) : Prop :=
  Forall2 (λ f n, parseFilter (Key f) (Value f) = Ok n) filters nodes.

Lemma parses_fun `{Unicode} filters nodes nodes' :
  parses filters nodes → parses filters nodes' → nodes = nodes'.
Proof.
  intros Hp. revert nodes'. induction Hp as [|f n fs ns E _ IH]; intros nodes' Hp';
    inversion Hp'; subst; [done|]. f_equal; [congruence | by apply IH].
Qed.

Lemma where_conds_children `{Unicode} table filters nodes a :
  parses filters nodes → where_conds table filters a = children_sql table nodes a.
Proof.
  intros Hp. revert a. induction Hp as [|f n fs ns E _ IH]; intros a; [done|].
  cbn [where_conds children_sql]. rewrite E. cbn [res_bind].
  destruct (toSQL n table a) as [[cond a1]|]; [|done]. cbn [res_bind]. by rewrite IH.
Qed.

Lemma where_conds_parses `{Unicode} table filters a r :
  where_conds table filters a = Ok r → ∃ nodes, parses filters nodes.
Proof.
  revert a r. induction filters as [|f fs IH]; intros a r; cbn [where_conds].
  { exists []. constructor. }
  intros (n & Hn & ([cond a1] & _ & ([cs a2] & Hcs & _)%res_bind_ok)%res_bind_ok)%res_bind_ok.
  apply IH in Hcs as [nodes Hp]. exists (n :: nodes). by constructor.
Qed.

Lemma where_same_text `{Unicode} table filters filters' nodes nodes' a b :
  parses filters nodes → parses filters' nodes' → shape <$> nodes = shape <$> nodes' →
  length a = length b →
  same_text (buildWhereClause table filters a) (buildWhereClause table filters' b).
Proof.
  intros Hp Hp' Hs Hab. unfold buildWhereClause.
  rewrite (where_conds_children _ _ _ _ Hp), (where_conds_children _ _ _ _ Hp').
  eapply same_text_bind; [by apply children_same_text|]. intros s c c' Hc. done.
Qed.

End Facts.
