(* ===== verification/FilterBinds.v ===== *)
(** * FilterBinds: the bind parameters a rendered filter refers to.

    [binds s a b]: the text [s] is made of complete SQL tokens and refers to
    exactly the parameters added between the argument lists [a] and [b]. The
    lemmas follow the rendering functions; [Sanitize] enters through the law
    that its result is made of complete quoted identifiers. *)

From S2P Require Import Prelude GoStrings GoStringFacts SqlText GoAny Schema FilterParser FilterGrammar.
From S2P Require Import FilterRoundTrip FilterSQL FilterSQLFacts.

(** What the builders rely on of [pgx.Identifier.Sanitize]: the result is made of
    complete quoted identifiers. *)
Class PgxIdentifierLaw `{PgxIdentifier} := {
  sanitize_closed parts : sql_closed (Sanitize parts) [];
  sanitize_delim p parts : sql_delim (Sanitize (p :: parts))
}.

(** ** The laws hold of pgx's quoting *)

Lemma scan_ident_escape s t l :
  scan (Quoted, l) (ident_escape s +:+ String dquote t) = scan (Plain, l) t.
Proof.
  induction s as [|c s IH]; [done|]. simpl.
  case_bool_decide; [done|]. case_bool_decide as Hq; [done|]. rewrite app_cons_str.
  cbn [scan scan_byte]. by rewrite bool_decide_eq_false_2.
Qed.

Lemma quoted_ident_closed s : sql_closed (quote (ident_escape s)) [].
Proof. intros l. unfold quote. exact (scan_ident_escape s "" l). Qed.

Lemma sql_closed_join l sep :
  Forall (λ s, sql_closed s []) l → sql_closed sep [] → sql_closed (Join l sep) [].
Proof.
  intros Hl Hsep. induction Hl as [|s l Hs Hl IH]; [done|]. destruct l as [|s' l]; [done|].
  rewrite Join_cons. by repeat apply (sql_closed_app_closed _ _ [] []).
Qed.

Lemma quoting_identifier_law : PgxIdentifierLaw (H := quoting_identifier).
Proof.
  split.
  - intros parts. simpl. apply sql_closed_join; [|done].
    apply Forall_fmap, Forall_true. intros s. apply quoted_ident_closed.
  - intros p parts. destruct parts; eexists dquote, _; done.
Qed.

(** ** Pieces of SQL *)

(** [ids] are the parameters after the first [k], up to the [k']-th. *)
Definition covers (k k' : nat) (ids : list Z) : Prop :=
  ∀ i, i ∈ ids ↔ (Z.of_nat k < i ≤ Z.of_nat k')%Z.

Lemma covers_nil k : covers k k [].
Proof. intros i. rewrite elem_of_nil. lia. Qed.
Lemma covers_one k : covers k (S k) [Z.of_nat (S k)].
Proof. intros i. rewrite list_elem_of_singleton. lia. Qed.
Lemma covers_app k k' k'' ids ids' :
  k ≤ k' → k' ≤ k'' → covers k k' ids → covers k' k'' ids' → covers k k'' (ids ++ ids').
Proof. intros ? ? H1 H2 i. rewrite elem_of_app, (H1 i), (H2 i). lia. Qed.

(** [s] is SQL that mentions exactly the parameters added between [a] and [b]. *)
Definition binds (s : string) (a b : argList) : Prop :=
  ∃ ids, sql_piece s ids ∧ covers (length a) (length b) ids.
Definition binds_closed (s : string) (a b : argList) : Prop :=
  ∃ ids, sql_closed s ids ∧ covers (length a) (length b) ids.

Lemma binds_plain s a : all_bytes plain_char s = true → binds_closed s a a.
Proof. intros Hs. exists []. split; [by apply sql_closed_plain | apply covers_nil]. Qed.
Lemma binds_closed_binds s a b : binds_closed s a b → binds s a b.
Proof. intros (ids & Hs & Hc). exists ids. split; [by apply sql_closed_piece | done]. Qed.
Lemma binds_add a v : binds (add a v).1 a (add a v).2.
Proof.
  exists [Z.of_nat (length (a ++ [v]))]. split; [apply sql_piece_param; lia|].
  simpl. rewrite length_app, Nat.add_comm. apply covers_one.
Qed.

Section Binds.
Context (a b c : argList) (s t : string).
Context (Hab : length a ≤ length b) (Hbc : length b ≤ length c).

Lemma binds_app : binds s a b → binds t b c → sql_delim t → binds (s +:+ t) a c.
Proof.
  intros (ids & Hs & Hi) (ids' & Ht & Hi') Hd. exists (ids ++ ids').
  split; [by apply sql_piece_app | by eapply covers_app].
Qed.
Lemma binds_app_closed : binds_closed s a b → binds t b c → binds (s +:+ t) a c.
Proof.
  intros (ids & Hs & Hi) (ids' & Ht & Hi'). exists (ids ++ ids').
  split; [by apply sql_closed_app | by eapply covers_app].
Qed.
Lemma binds_close : binds s a b → binds_closed t b c → sql_delim t → binds_closed (s +:+ t) a c.
Proof.
  intros (ids & Hs & Hi) (ids' & Ht & Hi') Hd. exists (ids ++ ids').
  split; [by apply sql_piece_close | by eapply covers_app].
Qed.
Lemma binds_closed_app : binds_closed s a b → binds_closed t b c → binds_closed (s +:+ t) a c.
Proof.
  intros (ids & Hs & Hi) (ids' & Ht & Hi'). exists (ids ++ ids').
  split; [by apply sql_closed_app_closed | by eapply covers_app].
Qed.

End Binds.

Lemma delim_char c t : isDigit c = false → sql_delim (String c t).
Proof. by exists c, t. Qed.

(** Vocabulary around a piece. *)
Lemma binds_pre w s a b :
  all_bytes plain_char w = true → length a ≤ length b → binds s a b → binds (w +:+ s) a b.
Proof. intros Hw Hl Hs. eapply (binds_app_closed a a b); try done. by apply binds_plain. Qed.
Lemma binds_pre_closed w s a b :
  all_bytes plain_char w = true → length a ≤ length b → binds_closed s a b → binds_closed (w +:+ s) a b.
Proof. intros Hw Hl Hs. eapply (binds_closed_app a a b); try done. by apply binds_plain. Qed.
Lemma binds_post w s a b :
  all_bytes plain_char w = true → sql_delim w → length a ≤ length b →
  binds s a b → binds_closed (s +:+ w) a b.
Proof. intros Hw Hd Hl Hs. eapply (binds_close a b b); try done. by apply binds_plain. Qed.

Lemma length_add a v : length a ≤ length (add a v).2.
Proof. simpl. rewrite length_app. lia. Qed.

(** Two pieces whose parameters together are those between [c] and [d]. *)
Lemma binds_union s t a b a' b' c d :
  binds_closed s a b → binds_closed t a' b' →
  (∀ i, length a < i ≤ length b ∨ length a' < i ≤ length b' ↔ length c < i ≤ length d) →
  binds_closed (s +:+ t) c d.
Proof.
  intros (ids & Hs & Hi) (ids' & Ht & Hi') Hu. exists (ids ++ ids').
  split; [by apply sql_closed_app_closed|]. intros i. rewrite elem_of_app, (Hi i), (Hi' i).
  specialize (Hu (Z.to_nat i)). lia.
Qed.

Lemma table_str_plain t k :
  forallb (λ kv, all_bytes plain_char kv.2) t = true → all_bytes plain_char (table_str t k) = true.
Proof.
  intros Ht. unfold table_str. destruct (table_get t k) as [v|] eqn:E; [|done].
  apply table_get_Some, list_elem_of_In in E. rewrite forallb_forall in Ht. by apply (Ht (k, v)).
Qed.

Lemma all_bytes_app f s t : all_bytes f (s +:+ t) = all_bytes f s && all_bytes f t.
Proof. induction s as [|c s IH]; [done|]. rewrite app_cons_str. simpl. by rewrite IH, andb_assoc. Qed.

(** ** Placeholders of a rendered filter *)

Section Placeholders.
Context `{PgxIdentifierLaw}.
Implicit Types (n : filterNode) (col : Column) (a b : argList).

Lemma path_length steps a : length a ≤ length (path_sql steps a).2.
Proof. rewrite path_sql_args, length_app. lia. Qed.

Lemma path_binds steps a :
  forallb wf_step steps = true →
  binds_closed (path_sql steps a).1 a (path_sql steps a).2 ∧
  (steps ≠ [] → sql_delim (path_sql steps a).1).
Proof.
  revert a. induction steps as [|s steps IH]; intros a; [split; [by apply (binds_plain "")|done]|].
  intros [[Ha _]%andb_true_iff Hw]%andb_true_iff. apply bool_decide_eq_true in Ha.
  rewrite path_sql_cons. cbn [fst snd]. pose proof (length_add a (step_arg s)) as Hl.
  destruct (IH (a ++ [step_arg s]) Hw) as [Ht _].
  pose proof (path_length steps (a ++ [step_arg s])) as Hl'.
  assert (all_bytes plain_char (arrow s) = true ∧ ∀ u, sql_delim (arrow s +:+ u)) as [Hap Had].
  { rewrite !elem_of_cons, elem_of_nil in Ha.
    destruct Ha as [->|[->|[]]]; (split; [done | intros u; by apply delim_char]). }
  split; [|done]. apply binds_pre_closed; [done | simpl in *; lia|].
  eapply (binds_close a (a ++ [step_arg s])); [done | done | apply binds_add | |].
  - apply binds_pre_closed; [by destruct (isIndex s) | done | done].
  - by destruct (isIndex s); apply delim_char.
Qed.

Lemma ident_binds name a : binds_closed (quoteIdent name) a a.
Proof. exists []. split; [apply sanitize_closed | apply covers_nil]. Qed.

Lemma closed_post w s a b :
  all_bytes plain_char w = true → length a ≤ length b → binds_closed s a b → binds_closed (s +:+ w) a b.
Proof. intros Hw Hl Hs. eapply (binds_closed_app a b b); try done. by apply binds_plain. Qed.

Lemma field_length f col a : length a ≤ length (field_toSQL f col a).2.
Proof. rewrite field_toSQL_eq. apply path_length. Qed.

Lemma field_binds f col a :
  forallb wf_step (path f) = true →
  binds_closed (field_toSQL f col a).1 a (field_toSQL f col a).2.
Proof.
  intros Hw. rewrite field_toSQL_eq. cbn [fst snd]. case_bool_decide as Hp.
  - rewrite Hp. apply ident_binds.
  - destruct (path_binds (path f) a Hw) as [Hb Hd]. pose proof (path_length (path f) a).
    apply binds_pre_closed; [done..|].
    eapply (binds_closed_app a a); [done | done | |by apply closed_post].
    unfold path_base. destruct (_ && _); [|apply ident_binds].
    apply binds_pre_closed; [done..|]. apply closed_post; [done | done | apply ident_binds].
Qed.

(** The left-hand side, the words of an operator, and its parameter. *)
Lemma lhs_param lhs w w' v a a1 :
  binds_closed lhs a a1 → length a ≤ length a1 →
  all_bytes plain_char w = true → all_bytes plain_char w' = true → (w' = "" ∨ sql_delim w') →
  binds (lhs +:+ w +:+ (add a1 v).1 +:+ w') a (add a1 v).2.
Proof.
  intros Hl Hlen Hw Hw' Hd. pose proof (length_add a1 v).
  eapply (binds_app_closed a a1); [done | done | done |].
  apply binds_pre; [done..|]. destruct Hd as [->|Hd].
  - rewrite app_nil_r_str. apply binds_add.
  - apply binds_closed_binds, binds_post; [done..|apply binds_add].
Qed.

Lemma fts_binds n col tsquery lhs a a1 :
  binds_closed lhs a a1 → length a ≤ length a1 → all_bytes plain_char tsquery = true →
  binds (fts_sql n col tsquery lhs a1).1 a (fts_sql n col tsquery lhs a1).2.
Proof.
  intros Hl Hlen Hq. unfold fts_sql.
  assert (∃ ls a2, (if bool_decide (lang n = "") then ("", a1)
      else let '(ph, args) := add a1 (AStr (lang n)) in (ph +:+ "::regconfig, ", args)) = (ls, a2) ∧
      length a1 ≤ length a2 ∧ binds_closed ls a1 a2) as (ls & a2 & -> & Hl2 & Hls).
  { case_bool_decide; (eexists _, _; split; [reflexivity|]).
    - split; [done|]. by apply (binds_plain "").
    - split; [apply (length_add a1)|]. apply binds_post; [done | by apply delim_char | |].
      + apply (length_add a1).
      + apply (binds_add a1). }
  cbv zeta beta iota.
  set (lhs' := if negb (bool_decide (col_DataType col = "tsvector")) ||
    negb (bool_decide (path (field n) = [])) then "to_tsvector(" +:+ ls +:+ lhs +:+ ")" else lhs).
  assert (binds_closed lhs' a a2 ∨ lhs' = lhs) as Hl'.
  { unfold lhs'. destruct (_ || _); [left | by right]. apply binds_pre_closed; [done | lia|].
    rewrite <-app_assoc_str. apply closed_post; [done | lia|].
    eapply (binds_union ls lhs); [exact Hls | exact Hl | lia]. }
  assert (binds_closed (lhs' +:+ " @@ " +:+ tsquery +:+ "(" +:+ ls) a a2) as Hpre.
  { assert (binds_closed (" @@ " +:+ tsquery +:+ "(" +:+ ls) a1 a2) as Hr.
    { repeat (apply binds_pre_closed; [done..|]). done. }
    destruct Hl' as [Hl'| ->].
    - eapply (binds_union lhs'); [exact Hl' | exact Hr | lia].
    - by eapply (binds_closed_app a a1). }
  simpl. pose proof (length_add a2 (AStr (value n))) as Hl3. simpl in Hl3.
  assert (binds ((lhs' +:+ " @@ " +:+ tsquery +:+ "(" +:+ ls) +:+ (add a2 (AStr (value n))).1 +:+ ")")
    a (a2 ++ [AStr (value n)])) as Hall.
  { eapply (binds_app_closed a a2); [lia | done | done |]. apply binds_closed_binds, binds_post;
      [done | by apply delim_char | done | apply (binds_add a2)]. }
  by rewrite !app_assoc_str in Hall.
Qed.

Lemma operator_binds n col lhs a a1 :
  wf_cond (operator n) (quant n) (lang n) (value n) (list_ n) = true →
  binds_closed lhs a a1 → length a ≤ length a1 →
  binds (operator_sql n col lhs a1).1 a (operator_sql n col lhs a1).2.
Proof.
  intros Hw Hl Hlen. unfold operator_sql. case_bool_decide as Hin.
  { apply (lhs_param lhs " = ANY(" ")"); try done. right. by apply delim_char. }
  case_bool_decide as His.
  { apply binds_closed_binds. rewrite <-app_assoc_str. apply closed_post.
    - by apply table_str_plain.
    - done.
    - by apply closed_post. }
  case_bool_decide as Hd.
  { pose proof (lhs_param lhs " IS DISTINCT FROM " "" (AStr (value n)) a a1) as E.
    rewrite app_nil_r_str in E. apply E; try done. by left. }
  destruct (table_get ftsFunctions (operator n)) as [f|] eqn:Ef.
  { apply fts_binds; [done..|]. assert (table_str ftsFunctions (operator n) = f) as <-.
    { unfold table_str. by rewrite Ef. }
    by apply table_str_plain. }
  unfold comparison_sql. set (op := table_str sqlOperators (operator n)).
  assert (all_bytes plain_char op = true) as Hop by by apply table_str_plain.
  destruct (bool_decide (quant n = "")) eqn:Hqe; cbn [negb].
  - pose proof (lhs_param lhs (" " +:+ op +:+ " ") "" (AStr (bound_value n col)) a a1) as E.
    rewrite app_nil_r_str, !app_assoc_str in E. apply E; try done; [|by left].
    by rewrite !all_bytes_app, Hop.
  - apply bool_decide_eq_false in Hqe.
    assert (all_bytes plain_char (quant n) = true) as Hqp.
    { unfold wf_cond in Hw. rewrite !bool_decide_eq_false_2 in Hw by done.
      destruct (bool_decide (operator n ∈ ftsFunctions.*1)); bool_simp; [done|].
      match goal with Hor : _ || _ = true |- _ => apply orb_true_iff in Hor; destruct Hor as [Hor|Hor] end;
        bool_simp; [done|].
      match goal with Hin' : quant n ∈ _ |- _ =>
        rewrite !elem_of_cons, elem_of_nil in Hin'; destruct Hin' as [-> |[-> |[]]] end; done. }
    pose proof (lhs_param lhs (" " +:+ op +:+ " " +:+ quant n +:+ "(") ")" (AStr (bound_value n col)) a a1) as E.
    rewrite !app_assoc_str in E. apply E; try done.
    + by rewrite !all_bytes_app, Hop, Hqp.
    + right. by apply delim_char.
Qed.

Lemma condition_binds n table a s b :
  wf_cond (operator n) (quant n) (lang n) (value n) (list_ n) = true →
  forallb wf_step (path (field n)) = true →
  conditionSQL n table a = Ok (s, b) → binds s a b.
Proof.
  intros Hw Hp. rewrite conditionSQL_eq. destruct (findColumn _ _) as [col|]; [|done].
  intros [= E]. pose proof (field_length (field n) col a) as Hl.
  pose proof (operator_binds n col _ a _ Hw (field_binds (field n) col a Hp) Hl) as Hb.
  by rewrite E in Hb.
Qed.

(** A list of pieces, each with its own parameters, joined by a connective. *)
Inductive binds_list : list string → argList → argList → Prop :=
| binds_list_nil a : binds_list [] a a
| binds_list_cons s l a b c :
    length a ≤ length b → length b ≤ length c →
    binds s a b → binds_list l b c → binds_list (s :: l) a c.

Lemma binds_list_length l a b : binds_list l a b → length a ≤ length b.
Proof. induction 1; lia. Qed.

Lemma binds_join l sep a b :
  binds_list l a b → all_bytes plain_char sep = true → sql_delim sep → binds (Join l sep) a b.
Proof.
  intros Hl Hsep Hd. induction Hl as [a|s l a b c Hab Hbc Hs Hl IH]; [by apply binds_closed_binds, (binds_plain "")|].
  destruct l as [|s' l].
  - inversion Hl; subst. done.
  - rewrite Join_cons. eapply (binds_app a b c); [done | done | done | |].
    + by apply binds_pre.
    + destruct Hd as (ch & u & -> & Hc). by apply delim_char.
Qed.

Lemma toSQL_length n table a s b : toSQL n table a = Ok (s, b) → length a ≤ length b.
Proof. intros ->%toSQL_args. rewrite length_app. lia. Qed.

Lemma toSQL_binds levels n table a s b :
  wf_node levels n = true → toSQL n table a = Ok (s, b) → binds s a b.
Proof.
  revert levels a s b. induction n as [neg lg cs fld op q l v items IH] using filterNode_nested_ind.
  intros levels a s b Hw Hs. pose proof (toSQL_length _ _ _ _ _ Hs) as Hlen. revert Hs.
  destruct (wf_node_cases _ _ Hw) as
    [(neg' & fld' & op' & q' & l' & v' & items' & Hn & Hpath & Hcond)
    |(lv & neg' & lg' & cs' & Hlv & Hn & Hlg & Hne & Hcs)];
    injection Hn as -> -> -> -> -> -> -> -> ->; clear Hw Hlen.
  - rewrite toSQL_cond by done. intros ([cond a1] & Hc & [= <- <-])%res_bind_ok.
    assert (length a ≤ length a1) as Hl1.
    { apply conditionSQL_args in Hc as (? & _ & ->). rewrite length_app. lia. }
    apply condition_binds in Hc; [|done..]. simpl. destruct neg'; [|done].
    apply binds_pre; [done..|]. apply binds_closed_binds, binds_post; [done | by apply delim_char | done..].
  - rewrite toSQL_group by (by destruct Hlg as [-> | ->]).
    intros ([parts a1] & Hc & [= <- <-])%res_bind_ok.
    assert (binds_list parts a a1) as Hb.
    { clear Hne. revert a parts a1 Hc Hcs.
      induction IH as [|c cs' Hn _ IH]; intros a parts a1; cbn [children_sql].
      { intros [= <- <-] _. constructor. }
      intros ([part a2] & Hp & ([parts' a3] & Hps & [= <- <-])%res_bind_ok)%res_bind_ok
        [Hwc Hwcs]%andb_true_iff.
      pose proof (toSQL_length _ _ _ _ _ Hp). specialize (IH _ _ _ Hps Hwcs).
      econstructor; [done | by eapply binds_list_length | by eapply Hn | done]. }
    assert (length a ≤ length a1) as Hl1 by by eapply binds_list_length.
    assert (binds ("(" +:+ Join parts (" " +:+ lg' +:+ " ") +:+ ")") a a1) as Hg.
    { apply binds_pre; [done..|]. apply binds_closed_binds, binds_post;
        [done | by apply delim_char | done |]. apply binds_join; [done| |by apply delim_char].
      by destruct Hlg as [-> | ->]. }
    destruct neg'; [|done]. by apply binds_pre.
Qed.

(** ** Whole clauses *)

Lemma where_conds_ok `{Unicode} table filters a conds b :
  where_conds table filters a = Ok (conds, b) ↔
  ∃ nodes, parses filters nodes ∧ children_sql table nodes a = Ok (conds, b).
Proof.
  split.
  - intros Hc. destruct (where_conds_parses _ _ _ _ Hc) as [nodes Hp]. exists nodes.
    split; [done|]. by rewrite <-(where_conds_children _ _ _ _ Hp).
  - intros (nodes & Hp & Hc). by rewrite (where_conds_children _ _ _ _ Hp).
Qed.

Lemma children_binds table nodes a parts b :
  Forall (λ n, wf_node maxFilterDepth n = true) nodes →
  children_sql table nodes a = Ok (parts, b) → binds_list parts a b.
Proof.
  intros Hw. revert a parts b. induction Hw as [|n ns Hn _ IH]; intros a parts b; cbn [children_sql].
  { intros [= <- <-]. constructor. }
  intros ([part a2] & Hp & ([parts' a3] & Hps & [= <- <-])%res_bind_ok)%res_bind_ok.
  apply IH in Hps. econstructor; [by eapply toSQL_length | by eapply binds_list_length |
    by eapply toSQL_binds | done].
Qed.

Lemma parsed_wf `{Unicode} filters nodes :
  parses filters nodes →
  Forall (λ n, wf_node maxFilterDepth n = true) nodes.
Proof. induction 1 as [|f n fs ns Hp _ IH]; constructor; [|done]. by eapply parseFilter_result_wf. Qed.

Lemma buildWhereClause_ok `{Unicode} table filters a sql b :
  buildWhereClause table filters a = Ok (sql, b) →
  ∃ nodes conds, parses filters nodes ∧
    children_sql table nodes a = Ok (conds, b) ∧ sql = Join conds " AND ".
Proof.
  unfold buildWhereClause. intros ([conds a1] & Hc & [= <- <-])%res_bind_ok.
  apply where_conds_ok in Hc as (nodes & Hn & Hc). eauto 10.
Qed.

Lemma where_binds `{Unicode} table filters a sql b :
  buildWhereClause table filters a = Ok (sql, b) → binds sql a b ∧ length a ≤ length b.
Proof.
  intros (nodes & conds & Hn & Hc & ->)%buildWhereClause_ok.
  pose proof (children_binds _ _ _ _ _ (parsed_wf _ _ Hn) Hc) as Hb.
  split; [|by eapply binds_list_length]. apply binds_join; [done | done | by apply delim_char].
Qed.

End Placeholders.
