(* ===== verification/FilterMeaning.v ===== *)
(** * FilterMeaning: a rendered filter, read by SQL's rules, is the filter.

    [meaning] is the intended truth value of a filter tree, given the values of
    its conditions; [renders] relates a rendered tree to a list of SQL tokens
    whose evaluation with SQL's precedence gives that value. *)

From S2P Require Import Prelude GoStrings GoStringFacts SqlText GoAny Schema FilterParser FilterGrammar.
From S2P Require Import FilterRoundTrip FilterSQL FilterSQLFacts FilterBinds.

(** ** The specification *)

(** The conditions of a tree, in order. *)
Fixpoint leaves (n : filterNode) : list filterNode :=
  match n with
  | mkFilterNode _ lg cs _ _ _ _ _ _ =>
      if bool_decide (lg = "") then [n] else concat (leaves <$> cs)
  end.

(** The truth value of a tree whose conditions have the values [vals], and the
    values left over. *)
Fixpoint meaning (n : filterNode) (vals : list tv) : tv * list tv :=
  match n with
  | mkFilterNode neg lg cs _ _ _ _ _ _ =>
      let '(v, rest) :=
        if bool_decide (lg = "") then (default None (head vals), tail vals)
        else
          (fix go cs vals :=
             match cs with
             | [] => (Some (bool_decide (lg = "AND")), vals)
             | c :: cs =>
                 let '(v, vals) := meaning c vals in
                 let '(w, vals) := go cs vals in
                 ((if bool_decide (lg = "AND") then tv_and else tv_or) v w, vals)
             end) cs vals in
      (if neg : bool then tv_not v else v, rest)
  end.

(** A list of trees joined by AND or OR. *)
Fixpoint meanings (conj : bool) (ns : list filterNode) (vals : list tv) : tv * list tv :=
  match ns with
  | [] => (Some conj, vals)
  | n :: ns =>
      let '(v, vals) := meaning n vals in
      let '(w, vals) := meanings conj ns vals in
      ((if conj then tv_and else tv_or) v w, vals)
  end.

Lemma meaning_group neg lg cs fld op q l v items vals :
  lg ≠ "" →
  meaning (mkFilterNode neg lg cs fld op q l v items) vals =
  let '(v, rest) := meanings (bool_decide (lg = "AND")) cs vals in
  (if neg then tv_not v else v, rest).
Proof.
  intros Hlg. cbn [meaning]. rewrite (bool_decide_eq_false_2 (lg = "")) by done.
  match goal with |- context [?f cs vals] =>
    assert (∀ cs vals, f cs vals = meanings (bool_decide (lg = "AND")) cs vals) as E end.
  { clear. intros cs. induction cs as [|c cs IH]; intros vals; [done|]. cbn [meanings].
    destruct (meaning c vals) as [x vals1]. by rewrite IH. }
  by rewrite E.
Qed.

Lemma tv_and_true v : tv_and v (Some true) = v.
Proof. by destruct v as [[]|]. Qed.
Lemma tv_or_false v : tv_or v (Some false) = v.
Proof. by destruct v as [[]|]. Qed.

Lemma wtext_app ts ts' : wtext (ts ++ ts') = wtext ts +:+ wtext ts'.
Proof. induction ts as [|t ts IH]; [done|]. simpl. by rewrite IH, app_assoc_str. Qed.

(** ** Evaluating token lists *)

Section Eval.
Context (ρ : string → tv).

(** [ts] is a complete operand of NOT, AND and OR with value [v]. *)
Definition operand_of (ts : list wtok) (v : tv) : Prop :=
  ∀ rest fuel, 3 * length ts ≤ fuel → eval_not ρ fuel (ts ++ rest) = Some (v, rest).

Definition no_and (rest : list wtok) : Prop := ∀ t, rest ≠ WAnd :: t.
Definition no_or (rest : list wtok) : Prop := ∀ t, rest ≠ WOr :: t.

(** Tokens of a non-empty sequence of operands with a connective between. *)
Fixpoint sep_tokens (sep : wtok) (tss : list (list wtok)) : list wtok :=
  match tss with
  | [] => []
  | [ts] => ts
  | ts :: tss => ts ++ sep :: sep_tokens sep tss
  end.

Lemma eval_and_seq tss vs rest fuel :
  Forall2 operand_of tss vs → tss ≠ [] → no_and rest →
  3 * length (sep_tokens WAnd tss) + 1 ≤ fuel →
  eval_and ρ fuel (sep_tokens WAnd tss ++ rest) = Some (foldr tv_and (Some true) vs, rest).
Proof.
  intros Hops Hne Hr. revert fuel. induction Hops as [|ts v tss vs Hop Hops IH]; [done|].
  intros fuel Hf. destruct fuel as [|fuel]; [lia|]. destruct tss as [|ts' tss].
  - inversion Hops; subst. cbn [sep_tokens foldr] in *. cbn [eval_and]. rewrite Hop by lia.
    cbn [mbind option_bind]. rewrite tv_and_true. destruct rest as [|[] rest]; try done.
    by destruct (Hr rest).
  - change (sep_tokens WAnd (ts :: ts' :: tss)) with (ts ++ WAnd :: sep_tokens WAnd (ts' :: tss)) in *.
    rewrite length_app in Hf. cbn [length] in Hf. rewrite <-app_assoc. cbn [eval_and].
    rewrite Hop by lia. cbn [mbind option_bind app]. rewrite IH by (done || lia). done.
Qed.

Lemma eval_or_and fuel ts v rest :
  eval_and ρ fuel (ts ++ rest) = Some (v, rest) → no_or rest →
  eval_or ρ (S fuel) (ts ++ rest) = Some (v, rest).
Proof.
  intros E Hr. cbn [eval_or]. rewrite E. cbn [mbind option_bind].
  destruct rest as [|[] rest]; try done. by destruct (Hr rest).
Qed.

Lemma eval_or_seq tss vs rest fuel :
  Forall2 operand_of tss vs → tss ≠ [] → no_and rest → no_or rest →
  3 * length (sep_tokens WOr tss) + 2 ≤ fuel →
  eval_or ρ fuel (sep_tokens WOr tss ++ rest) = Some (foldr tv_or (Some false) vs, rest).
Proof.
  intros Hops Hne Hr Hro. revert fuel. induction Hops as [|ts v tss vs Hop Hops IH]; [done|].
  intros fuel Hf. destruct fuel as [|fuel]; [lia|]. destruct tss as [|ts' tss].
  - inversion Hops; subst. cbn [sep_tokens foldr] in *. rewrite tv_or_false.
    apply eval_or_and; [|done].
    rewrite <-(tv_and_true v). apply (eval_and_seq [ts] [v]); [by constructor | done | done | cbn [sep_tokens]; lia].
  - change (sep_tokens WOr (ts :: ts' :: tss)) with (ts ++ WOr :: sep_tokens WOr (ts' :: tss)) in *.
    rewrite length_app in Hf. cbn [length] in Hf. rewrite <-app_assoc. cbn [eval_or].
    assert (eval_and ρ fuel (ts ++ (WOr :: sep_tokens WOr (ts' :: tss)) ++ rest)
      = Some (v, (WOr :: sep_tokens WOr (ts' :: tss)) ++ rest)) as ->.
    { rewrite <-(tv_and_true v) at 1.
      apply (eval_and_seq [ts] [v]); [by constructor | done | done | cbn [sep_tokens]; lia]. }
    cbn [mbind option_bind app]. rewrite IH by (done || lia). done.
Qed.

Lemma operand_atom s : operand_of [WAtom s] (ρ s).
Proof. intros rest fuel Hf. simpl in Hf. destruct fuel; [lia | done]. Qed.

Lemma operand_not ts v : operand_of ts v → operand_of (WNot :: ts) (tv_not v).
Proof.
  intros Hop rest fuel Hf. simpl in Hf. destruct fuel as [|fuel]; [lia|].
  cbn [app eval_not]. rewrite Hop by lia. done.
Qed.

Lemma operand_paren ts v :
  (∀ rest fuel, 3 * length ts + 2 ≤ fuel → eval_or ρ fuel (ts ++ WRP :: rest) = Some (v, WRP :: rest)) →
  operand_of (WLP :: ts ++ [WRP]) v.
Proof.
  intros Hop rest fuel Hf. simpl in Hf. rewrite length_app in Hf. simpl in Hf.
  destruct fuel as [|fuel]; [lia|]. cbn [app eval_not]. rewrite <-app_assoc.
  change ([WRP] ++ rest) with (WRP :: rest). rewrite Hop by lia. done.
Qed.

Lemma operand_group conj tss vs :
  Forall2 operand_of tss vs → tss ≠ [] →
  operand_of (WLP :: sep_tokens (if conj : bool then WAnd else WOr) tss ++ [WRP])
    (if conj then foldr tv_and (Some true) vs else foldr tv_or (Some false) vs).
Proof.
  intros Hops Hne. apply operand_paren. intros rest fuel Hf.
  assert (no_and (WRP :: rest)) by done. assert (no_or (WRP :: rest)) by done.
  destruct conj; [|by apply eval_or_seq].
  destruct fuel as [|fuel]; [lia|]. apply eval_or_and; [|done]. apply eval_and_seq; try done. lia.
Qed.

Lemma eval_where_and tss vs :
  Forall2 operand_of tss vs → tss ≠ [] →
  eval_where ρ (sep_tokens WAnd tss) = Some (foldr tv_and (Some true) vs).
Proof.
  intros Hops Hne. unfold eval_where. set (ts := sep_tokens WAnd tss).
  assert (eval_or ρ (S (3 * length ts + 2)) (ts ++ []) = Some (foldr tv_and (Some true) vs, [])) as E.
  { apply eval_or_and; [|done]. apply eval_and_seq; try done. unfold ts. lia. }
  rewrite app_nil_r in E. replace (3 * length ts + 3) with (S (3 * length ts + 2)) by lia.
  by rewrite E.
Qed.

End Eval.

Lemma sep_tokens_text sep tss :
  wtext (sep_tokens sep tss) = Join (wtext <$> tss) (wtok_text sep).
Proof.
  induction tss as [|ts [|ts' tss] IH]; [done | done|].
  change (sep_tokens sep (ts :: ts' :: tss)) with (ts ++ sep :: sep_tokens sep (ts' :: tss)).
  rewrite wtext_app. cbn [wtext foldr]. fold (wtext (sep_tokens sep (ts' :: tss))). by rewrite IH.
Qed.

(** ** Rendered trees *)

Section Renders.
Context `{PgxIdentifier}.

(** The texts of the conditions of a rendered tree. *)
Definition condition_text (table : Table) (n : filterNode) (text : string) : Prop :=
  ∃ a b, conditionSQL n table a = Ok (text, b).

(** [s] is the text of tokens that mean the tree, whatever its conditions are on
    a row. *)
Definition renders (table : Table) (n : filterNode) (s : string) : Prop :=
  ∃ ts texts, wtext ts = s ∧ Forall2 (condition_text table) (leaves n) texts ∧
    ∀ ρ more, ∃ v, meaning n ((ρ <$> texts) ++ more) = (v, more) ∧ operand_of ρ ts v.

Inductive renders_list (table : Table) : list filterNode → list string → Prop :=
| renders_nil : renders_list table [] []
| renders_cons n ns s ss :
    renders table n s → renders_list table ns ss → renders_list table (n :: ns) (s :: ss).

Lemma renders_list_tokens table ns ss :
  renders_list table ns ss →
  ∃ tss texts, wtext <$> tss = ss ∧ Forall2 (condition_text table) (concat (leaves <$> ns)) texts ∧
    length tss = length ns ∧
    ∀ conj ρ more, ∃ vs, Forall2 (operand_of ρ) tss vs ∧
      meanings conj ns ((ρ <$> texts) ++ more) =
        (if conj then foldr tv_and (Some true) vs else foldr tv_or (Some false) vs, more).
Proof.
  induction 1 as [|n ns s ss (ts & texts & Hs & Hl & Hm) _ (tss & texts' & Hss & Hls & Hlen & Hms)].
  - exists [], []. split_and!; [done | constructor | done|]. intros conj ρ more. exists [].
    split; [constructor | by destruct conj].
  - exists (ts :: tss), (texts ++ texts'). split_and!.
    + cbn. by rewrite Hs, <-Hss.
    + cbn [fmap list_fmap concat]. by apply Forall2_app.
    + simpl. by rewrite Hlen.
    + intros conj ρ more. destruct (Hms conj ρ more) as (vs & Hvs & Ems).
      destruct (Hm ρ ((ρ <$> texts') ++ more)) as (v & Em & Hv).
      exists (v :: vs). split; [by constructor|]. cbn [meanings].
      rewrite fmap_app, <-app_assoc, Em, Ems. by destruct conj.
Qed.

Lemma renders_cond table neg fld op q l v items text :
  let n := mkFilterNode neg "" [] fld op q l v items in
  condition_text table n text → renders table n (if neg then "NOT (" +:+ text +:+ ")" else text).
Proof.
  intros n Ht. exists (if neg then [WNot; WLP; WAtom text; WRP] else [WAtom text]), [text].
  split_and!.
  - destruct neg; cbn; by rewrite ?app_nil_r_str.
  - by repeat constructor.
  - intros ρ more. exists (if neg then tv_not (ρ text) else ρ text). split; [by destruct neg|].
    destruct neg; [|apply operand_atom].
    change [WNot; WLP; WAtom text; WRP] with (WNot :: WLP :: [WAtom text] ++ [WRP]).
    apply operand_not, operand_paren. intros rest fuel Hf.
    rewrite <-(tv_or_false (ρ text)). apply (eval_or_seq ρ [[WAtom text]] [ρ text]); try done.
    repeat constructor. apply operand_atom.
Qed.

Lemma toSQL_renders levels n table a s b :
  wf_node levels n = true → toSQL n table a = Ok (s, b) → renders table n s.
Proof.
  revert levels a s b. induction n as [neg lg cs fld op q l v items IH] using filterNode_nested_ind.
  intros levels a s b Hw Hs. revert Hs.
  destruct (wf_node_cases _ _ Hw) as
    [(neg' & fld' & op' & q' & l' & v' & items' & Hn & Hpath & Hcond)
    |(lv & neg' & lg' & cs' & Hlv & Hn & Hlg & Hne & Hcs)];
    injection Hn as -> -> -> -> -> -> -> -> ->; clear Hw.
  - rewrite toSQL_cond by done. intros ([cond a1] & Hc & [= <- <-])%res_bind_ok. simpl.
    apply renders_cond. by exists a, a1.
  - assert (lg' ≠ "") as Hlg' by by destruct Hlg as [-> | ->].
    rewrite toSQL_group by done. intros ([parts a1] & Hc & [= <- <-])%res_bind_ok.
    assert (renders_list table cs' parts) as Hr.
    { clear Hne. revert a parts a1 Hc Hcs.
      induction IH as [|c cs' Hn _ IH]; intros a parts a1; cbn [children_sql].
      { intros [= <- <-] _. constructor. }
      intros ([part a2] & Hp & ([parts' a3] & Hps & [= <- <-])%res_bind_ok)%res_bind_ok
        [Hwc Hwcs]%andb_true_iff. constructor; [by eapply Hn | by eapply IH]. }
    destruct (renders_list_tokens _ _ _ Hr) as (tss & texts & Htss & Hl & Hlen & Hm).
    set (conj := bool_decide (lg' = "AND")).
    assert (wtok_text (if conj then WAnd else WOr) = " " +:+ lg' +:+ " ") as Hsep.
    { unfold conj. by destruct Hlg as [-> | ->]. }
    exists ((if neg' then [WNot] else []) ++
      (WLP :: sep_tokens (if conj then WAnd else WOr) tss ++ [WRP])), texts. split_and!.
    + rewrite <-Htss, wtext_app. cbn [wtext foldr wtok_text].
      fold (wtext (sep_tokens (if conj then WAnd else WOr) tss ++ [WRP])).
      rewrite wtext_app, sep_tokens_text, Hsep. by destruct neg'.
    + cbn [leaves]. by rewrite bool_decide_eq_false_2.
    + intros ρ more. destruct (Hm conj ρ more) as (vs & Hvs & Ems).
      rewrite meaning_group by done. fold conj. rewrite Ems. eexists. split; [reflexivity|].
      assert (tss ≠ []) as Htne by (destruct cs', tss; done).
      pose proof (operand_group ρ conj tss vs Hvs Htne) as Hg.
      destruct neg'; [by apply operand_not | done].
Qed.

Lemma children_renders table nodes a parts b :
  Forall (λ n, wf_node maxFilterDepth n = true) nodes →
  children_sql table nodes a = Ok (parts, b) → renders_list table nodes parts.
Proof.
  intros Hw. revert a parts b. induction Hw as [|n ns Hn _ IH]; intros a parts b; cbn [children_sql].
  { intros [= <- <-]. constructor. }
  intros ([part a2] & Hp & ([parts' a3] & Hps & [= <- <-])%res_bind_ok)%res_bind_ok.
  constructor; [by eapply toSQL_renders | by eapply IH].
Qed.

(** ** Columns *)

Definition column_exists (table : Table) (n : filterNode) : bool :=
  match findColumn table (column (field n)) with Some _ => true | None => false end.

Lemma children_ok table cs a (f : filterNode → bool) :
  Forall (λ c, ∀ a, is_ok (toSQL c table a) = f c) cs →
  is_ok (children_sql table cs a) = forallb f cs.
Proof.
  intros Hc. revert a. induction Hc as [|c cs Hc _ IH]; intros a; [done|]. cbn [children_sql forallb].
  rewrite <-(Hc a). destruct (toSQL c table a) as [[part a1]|]; [|done]. cbn [res_bind].
  rewrite <-(IH a1). by destruct (children_sql table cs a1) as [[parts a2]|].
Qed.

Lemma forallb_concat {A B} (f : B → bool) (g : A → list B) l :
  forallb f (concat (g <$> l)) = forallb (λ x, forallb f (g x)) l.
Proof. induction l as [|x l IH]; [done|]. cbn. by rewrite forallb_app, IH. Qed.

(** Rendering succeeds exactly when the table has every column named. *)
Lemma toSQL_is_ok n table a : is_ok (toSQL n table a) = forallb (column_exists table) (leaves n).
Proof.
  revert a. induction n as [neg lg cs fld op q l v items IH] using filterNode_nested_ind. intros a.
  destruct (decide (lg = "")) as [->|Hlg].
  - rewrite toSQL_cond, conditionSQL_eq by done. cbn [leaves]. rewrite bool_decide_eq_true_2 by done.
    cbn [forallb column_exists field]. unfold column_exists. cbn [field column].
    destruct (findColumn table (column fld)) as [col|]; [|done]. cbn [res_bind].
    by destruct (operator_sql _ _ _ _).
  - rewrite toSQL_group by done. cbn [leaves]. rewrite bool_decide_eq_false_2, forallb_concat by done.
    rewrite <-(children_ok table cs a); [by destruct (children_sql table cs a) as [[parts a1]|]|].
    done.
Qed.

End Renders.
