(* ===== verification/FilterSQLProps.v ===== *)
(** * FilterSQLProps: the WHERE clause of a request is right.

    The text of the clause depends only on the shape of the filters, so no value
    of the client can change the statement; the values are bound as parameters,
    in order, each referred to and none missing; a filter on a column the table
    does not have is an error and no filter is dropped; and the clause, read with
    SQL's precedence and three-valued logic, means what the filter tree means. *)

From S2P Require Import Prelude GoStrings GoStringFacts SqlText GoAny Schema FilterParser FilterGrammar.
From S2P Require Import FilterRoundTrip FilterSQL FilterTests FilterSQLFacts FilterBinds FilterMeaning.

(** ** Array literals *)

Lemma read_element_escape v t :
  read_element (array_escape v +:+ String dquote t) = Some (v, t).
Proof.
  induction v as [|c v IH]; [done|]. cbn [array_escape].
  destruct (bool_decide (c = dquote) || bool_decide (c = "\"%char)) eqn:Hc.
  - rewrite !app_cons_str. cbn [read_element]. rewrite bool_decide_eq_true_2 by done. by rewrite IH.
  - apply orb_false_iff in Hc as [Hq Hb]. rewrite app_cons_str. cbn [read_element].
    rewrite Hb, Hq. by rewrite IH.
Qed.

Lemma array_elems_cons v vs : array_elems true (v :: vs) = quote (array_escape v) +:+ array_elems false vs.
Proof. done. Qed.

Lemma read_elements_spec v vs fuel :
  len (array_elems true (v :: vs) +:+ "}") ≤ fuel →
  read_elements fuel (array_elems true (v :: vs) +:+ "}") = Some (v :: vs).
Proof.
  revert v fuel. induction vs as [|w vs IH]; intros v fuel Hf;
    rewrite array_elems_cons in *; unfold quote in *; rewrite !app_cons_str, !app_assoc_str in *;
    (destruct fuel as [|fuel]; [simpl in Hf; lia|]); cbn [read_elements];
    rewrite bool_decide_eq_true_2 by done; rewrite app_cons_str, read_element_escape; [done|].
  cbn [mbind option_bind].
  change ("" +:+ array_elems false (w :: vs) +:+ "}") with (String "," (array_elems true (w :: vs) +:+ "}")).
  cbv iota. rewrite bool_decide_eq_true_2, IH; [done| |done]. revert Hf.
  change (String dquote "" +:+ array_elems false (w :: vs) +:+ "}")
    with (String dquote (String "," (array_elems true (w :: vs) +:+ "}"))).
  cbn [String.length]. rewrite len_app. cbn [String.length]. lia.
Qed.

Lemma read_array_brace t :
  t ≠ "}" → read_array ("{" +:+ t) = read_elements (len t) t.
Proof.
  intros Ht. change ("{" +:+ t) with (String "{" t). unfold read_array.
  destruct t as [|c [|d t]]; [done| |by destruct c as [[] [] [] [] [] [] [] []]].
  by destruct c as [[] [] [] [] [] [] [] []].
Qed.

(** The array parameter of an [in] filter reads back as exactly the list the
    client sent: commas, quotes, backslashes, braces and empty elements survive. *)
Theorem pgArrayLiteral_read vs : read_array (pgArrayLiteral vs) = Some vs.
Proof.
  destruct vs as [|v vs]; [done|]. unfold pgArrayLiteral. rewrite read_array_brace; [|done].
  by apply read_elements_spec.
Qed.

(** An element the shorthand can carry: not empty, no surrounding spaces, none
    of the characters the shorthand or an array literal gives a meaning. *)
Definition plain_element (v : string) : Prop :=
  v ≠ "" ∧ TrimSpace v = v ∧ mem_byte v "," = false ∧ mem_byte v dquote = false ∧
  mem_byte v "\" = false.

Lemma replace_free v new : mem_byte v dquote = false → ReplaceAll v (String dquote "") new = v.
Proof.
  unfold ReplaceAll, mem_byte. intros Hv%bool_decide_eq_false.
  induction v as [|c v IH]; [done|]. simpl in Hv. apply not_elem_of_cons in Hv as [Hc Hv].
  cbn [replace_go HasPrefix]. rewrite bool_decide_eq_false_2 by done. simpl. by rewrite IH.
Qed.
Lemma array_escape_free v :
  mem_byte v dquote = false → mem_byte v "\" = false → array_escape v = v.
Proof.
  unfold mem_byte. intros Hq%bool_decide_eq_false Hb%bool_decide_eq_false.
  induction v as [|c v IH]; [done|]. simpl in Hq, Hb.
  apply not_elem_of_cons in Hq as [Hcq Hq]. apply not_elem_of_cons in Hb as [Hcb Hb].
  cbn [array_escape]. rewrite !bool_decide_eq_false_2 by done. simpl. by rewrite IH.
Qed.

Lemma shorthand_parts_plain vs :
  Forall plain_element vs → shorthand_parts vs = (λ v, quote (array_escape v)) <$> vs.
Proof.
  induction 1 as [|v vs (Hne & Ht & _ & Hq & Hb) _ IH]; [done|]. cbn [shorthand_parts flat_map].
  rewrite Ht, bool_decide_eq_false_2, replace_free by done.
  cbn [fmap list_fmap app]. f_equal; [|exact IH]. by rewrite array_escape_free.
Qed.

Lemma array_elems_join vs : array_elems true vs = Join ((λ v, quote (array_escape v)) <$> vs) ",".
Proof.
  induction vs as [|v [|w vs] IH]; [done | cbn; by rewrite app_nil_r_str|].
  rewrite array_elems_cons. cbn [fmap list_fmap]. rewrite Join_cons.
  change (array_elems false (w :: vs)) with ("," +:+ array_elems true (w :: vs)). by rewrite IH.
Qed.

Lemma mem_byte_cons d s c : mem_byte (String d s) c = bool_decide (c = d) || mem_byte s c.
Proof.
  unfold mem_byte. simpl. destruct (bool_decide (c = d)) eqn:Hd.
  - apply bool_decide_eq_true in Hd as ->. by apply bool_decide_eq_true_2, elem_of_cons; left.
  - apply bool_decide_eq_false in Hd. apply bool_decide_ext. rewrite elem_of_cons. naive_solver.
Qed.
Lemma Contains_byte s c : Contains s (String c "") = mem_byte s c.
Proof.
  induction s as [|d s IH]; [done|]. cbn [Contains HasPrefix].
  rewrite IH, andb_true_r, mem_byte_cons. f_equal.
Qed.

Lemma mem_byte_join vs sep c :
  Forall (λ v, mem_byte v c = false) vs → mem_byte sep c = false → mem_byte (Join vs sep) c = false.
Proof.
  intros Hv Hs. induction Hv as [|v [|w vs] Hv Hvs IH]; [done..|].
  by rewrite Join_cons, !mem_byte_app, Hv, Hs, IH.
Qed.

(** The older shorthand for array columns, [cs.a,b], binds the same array
    literal as the list of its elements. *)
Theorem shorthand_array vs s :
  vs ≠ [] → Forall plain_element vs → s = Join vs "," →
  TrimSpace s = s → HasPrefix s "[" = false → HasPrefix s "{" = false →
  convertToPostgresArrayOrJSON s = pgArrayLiteral vs.
Proof.
  intros Hne Hvs Hs Ht Hb Hc.
  assert (Contains s (String dquote "") = false) as Hq.
  { rewrite Contains_byte, Hs. apply mem_byte_join; [|done].
    eapply Forall_impl; [exact Hvs|]. by intros v (_ & _ & _ & ? & _). }
  unfold convertToPostgresArrayOrJSON. rewrite Ht, Hq, Hb, Hc. cbn [andb orb].
  unfold pgArrayLiteral. rewrite array_elems_join, Hs.
  rewrite Split_Join; [by rewrite shorthand_parts_plain | done |].
  eapply Forall_impl; [exact Hvs|]. by intros v (_ & _ & ? & _).
Qed.

(** ** The clause of a request *)

Section Clause.
Context `{PI : PgxIdentifier} `{PL : !PgxIdentifierLaw} `{UC : Unicode}.
Implicit Types (table : Table) (filters : list RawFilter) (a b : argList).

(** The clause refers to exactly the parameters it appended: every one of
    them, and none before or after. *)
Theorem where_placeholders table filters a sql b :
  buildWhereClause table filters a = Ok (sql, b) →
  ∀ i, i ∈ placeholders sql ↔ (Z.of_nat (length a) < i ≤ Z.of_nat (length b))%Z.
Proof.
  intros [(ids & Hp & Hc) _]%where_binds. by rewrite (sql_piece_placeholders _ _ Hp).
Qed.

(** The parameters appended are the client's values, in the order of the
    request and of each tree: JSON keys and indexes, operands, lists. *)
Theorem where_args table filters a sql b :
  buildWhereClause table filters a = Ok (sql, b) →
  ∃ nodes, parses filters nodes ∧ b = a ++ concat (node_args table <$> nodes).
Proof.
  intros (nodes & conds & Hn & Hc & ->)%buildWhereClause_ok. exists nodes. split; [done|].
  clear Hn. revert a conds b Hc. induction nodes as [|n ns IH]; intros a conds b; cbn [children_sql].
  { intros [= _ <-]. by rewrite app_nil_r. }
  intros ([part a1] & Hp%toSQL_args & ([parts a2] & Hps%IH & [= _ <-])%res_bind_ok)%res_bind_ok.
  subst. cbn [fmap list_fmap concat]. by rewrite app_assoc.
Qed.

(** No value can change the statement: two requests whose filters have the
    same shape (columns, operators, connectives, lengths of JSON paths) give the
    same SQL text, whatever operands, list elements, JSON keys and languages
    they carry. *)
Theorem where_injection_free table filters filters' nodes nodes' a b sql a' :
  parses filters nodes → parses filters' nodes' → shape <$> nodes = shape <$> nodes' →
  length a = length b →
  buildWhereClause table filters a = Ok (sql, a') →
  ∃ b', buildWhereClause table filters' b = Ok (sql, b') ∧ length b' = length a'.
Proof.
  intros Hp Hp' Hs Hab Hw.
  pose proof (where_same_text table filters filters' nodes nodes' a b Hp Hp' Hs Hab) as Ht.
  rewrite Hw in Ht. destruct (buildWhereClause table filters' b) as [[sql' b']|]; [|done].
  destruct Ht as [<- ?]. by exists b'.
Qed.

(** C38: a filter is applied or the request fails: the clause is built exactly
    when every filter parses and every column it names, at any depth, is a
    column of the table. *)
Theorem where_complete table filters a :
  is_ok (buildWhereClause table filters a) = true ↔
  ∃ nodes, parses filters nodes ∧
    Forall (λ leaf, column_exists table leaf = true) (concat (leaves <$> nodes)).
Proof.
  assert (∀ nodes a, is_ok (children_sql table nodes a) = forallb (column_exists table) (concat (leaves <$> nodes))) as E.
  { clear. intros nodes a. rewrite forallb_concat. apply children_ok, Forall_true. intros n a'. apply toSQL_is_ok. }
  split.
  - destruct (buildWhereClause table filters a) as [[sql b]|] eqn:Hb; [|done]. intros _.
    apply buildWhereClause_ok in Hb as (nodes & conds & Hp & Hc & _). exists nodes. split; [done|].
    specialize (E nodes a). rewrite Hc in E. symmetry in E. rewrite forallb_forall in E.
    apply Forall_forall. intros leaf Hl. apply E. by apply list_elem_of_In.
  - intros (nodes & Hp & Hl). specialize (E nodes a).
    assert (forallb (column_exists table) (concat (leaves <$> nodes)) = true) as E'.
    { apply forallb_forall. intros leaf Hin. rewrite Forall_forall in Hl. by apply Hl, list_elem_of_In. }
    rewrite E' in E. destruct (children_sql table nodes a) as [[conds b]|] eqn:Hc; [|done].
    unfold buildWhereClause. assert (where_conds table filters a = Ok (conds, b)) as -> by (apply where_conds_ok; eauto).
    done.
Qed.

(** C2: read with SQL's precedence (NOT, then AND, then OR) and three-valued
    logic, the clause is the conjunction of the filters and every tree inside
    it means what its groups and negations say. *)
Theorem where_meaning table filters a sql b :
  filters ≠ [] →
  buildWhereClause table filters a = Ok (sql, b) →
  ∃ nodes ts texts, parses filters nodes ∧ wtext ts = sql ∧
    Forall2 (condition_text table) (concat (leaves <$> nodes)) texts ∧
    ∀ ρ, eval_where ρ ts = Some (meanings true nodes (ρ <$> texts)).1.
Proof.
  intros Hne (nodes & conds & Hp & Hc & ->)%buildWhereClause_ok.
  pose proof (children_renders _ _ _ _ _ (parsed_wf _ _ Hp) Hc) as Hr.
  destruct (renders_list_tokens _ _ _ Hr) as (tss & texts & Htss & Hl & Hlen & Hm).
  exists nodes, (sep_tokens WAnd tss), texts. split_and!; [done | | done |].
  - by rewrite sep_tokens_text, Htss.
  - intros ρ. destruct (Hm true ρ []) as (vs & Hvs & E). rewrite app_nil_r in E. rewrite E.
    apply eval_where_and; [done|]. intros ->. by destruct Hp.
Qed.

End Clause.

(** ** Witnesses *)

Definition sample_filters : list RawFilter :=
  [ {| Key := "age"; Value := "gte.18" |};
    {| Key := "or"; Value := "(name.not.like.a*,data->>k.in.(1,2))" |} ].

(** The same shape with hostile values. *)
Definition hostile_filters : list RawFilter :=
  [ {| Key := "age"; Value := "gte.0) OR 1=1; --" |};
    {| Key := "or"; Value := bq "(name.not.like.`' OR $9`,data->>`x'; DROP`.in.(`')`,`\``))" |} ].

Lemma pgArrayLiteral_read_witness :
  pgArrayLiteral ["a,b"; "" ; "}\"] = bq "{`a,b`,``,`}\\`}" ∧
  read_array (pgArrayLiteral ["a,b"; "" ; "}\"]) = Some ["a,b"; "" ; "}\"].
Proof. split; [vm_compute; reflexivity | exact (pgArrayLiteral_read ["a,b"; "" ; "}\"])]. Defined.

Lemma shorthand_array_witness :
  "a,b c" = Join ["a"; "b c"] "," ∧ convertToPostgresArrayOrJSON "a,b c" = pgArrayLiteral ["a"; "b c"].
Proof.
  assert (Forall plain_element ["a"; "b c"]) as Hp
    by (repeat constructor; try done; vm_compute; reflexivity).
  assert ("a,b c" = Join ["a"; "b c"] ",") as E by reflexivity. split; [exact E|].
  refine (shorthand_array ["a"; "b c"] "a,b c" _ Hp E _ _ _); [done|vm_compute; reflexivity..].
Defined.

Lemma where_placeholders_witness :
  ∃ sql b, buildWhereClause (H := quoting_identifier) (H0 := latin1_unicode)
      filterTestTable sample_filters [ANil] = Ok (sql, b) ∧
    placeholders sql = [2; 3; 4; 5]%Z ∧
    ∀ i, i ∈ placeholders sql ↔ (Z.of_nat (length [ANil]) < i ≤ Z.of_nat (length b))%Z.
Proof.
  eexists _, _. assert (buildWhereClause (H := quoting_identifier) (H0 := latin1_unicode)
      filterTestTable sample_filters [ANil] = Ok (bq "`age` >= $2 AND (NOT (`name` LIKE $3) OR (`data`->>$4::text) = ANY($5))",
      [ANil; AStr "18"; AStr "a%"; AStr "k"; AStr (bq "{`1`,`2`}")])) as E by (vm_compute; reflexivity).
  split; [exact E|]. split; [vm_compute; reflexivity|].
  exact (where_placeholders (PL := quoting_identifier_law) (UC := latin1_unicode) _ _ _ _ _ E).
Defined.

Lemma where_args_witness :
  ∃ sql b nodes, buildWhereClause (H := quoting_identifier) (H0 := latin1_unicode)
      filterTestTable sample_filters [ANil] = Ok (sql, b) ∧
    parses (UC := latin1_unicode) sample_filters nodes ∧
    b = [ANil] ++ concat (node_args filterTestTable <$> nodes).
Proof.
  assert (∃ r, buildWhereClause (H := quoting_identifier) (H0 := latin1_unicode)
      filterTestTable sample_filters [ANil] = Ok r) as [[sql b] E] by (eexists; vm_compute; reflexivity).
  destruct (where_args (PI := quoting_identifier) (UC := latin1_unicode) _ _ _ _ _ E) as (nodes & Hp & Hb).
  exists sql, b, nodes. split; [exact E | split; assumption].
Defined.

(** The nodes of a list of filters, computed. *)
Definition parse_all (filters : list RawFilter) : res filter_error (list filterNode) :=
  mapM_res (λ f, parseFilter (H := latin1_unicode) (Key f) (Value f)) filters.

Lemma where_injection_free_witness :
  ∃ sql a' b', buildWhereClause (H := quoting_identifier) (H0 := latin1_unicode)
      filterTestTable sample_filters [] = Ok (sql, a') ∧
    buildWhereClause (H := quoting_identifier) (H0 := latin1_unicode)
      filterTestTable hostile_filters [] = Ok (sql, b') ∧ a' ≠ b'.
Proof.
  assert (∃ nodes nodes', parse_all sample_filters = Ok nodes ∧ parse_all hostile_filters = Ok nodes' ∧
    shape <$> nodes = shape <$> nodes') as (nodes & nodes' & Hn & Hn' & Hs)
    by (eexists _, _; split; [vm_compute; reflexivity|]; split; vm_compute; reflexivity).
  apply mapM_res_ok in Hn, Hn'.
  assert (∃ r, buildWhereClause (H := quoting_identifier) (H0 := latin1_unicode)
      filterTestTable sample_filters [] = Ok r) as [[sql a'] E] by (eexists; vm_compute; reflexivity).
  destruct (where_injection_free (PI := quoting_identifier) (UC := latin1_unicode)
    _ _ _ _ _ [] [] _ _ Hn Hn' Hs eq_refl E) as (b' & E' & Hl).
  exists sql, a', b'. split; [exact E|]. split; [exact E'|]. clear Hl Hs Hn Hn'. intros ->.
  rewrite <-E in E'. revert E'. vm_compute. discriminate.
Defined.

Lemma where_meaning_witness :
  ∃ sql b nodes ts texts, buildWhereClause (H := quoting_identifier) (H0 := latin1_unicode)
      filterTestTable sample_filters [] = Ok (sql, b) ∧
    parses (UC := latin1_unicode) sample_filters nodes ∧ wtext ts = sql ∧
    Forall2 (condition_text (H := quoting_identifier) filterTestTable) (concat (leaves <$> nodes)) texts ∧
    ∀ ρ, eval_where ρ ts = Some (meanings true nodes (ρ <$> texts)).1.
Proof.
  assert (∃ r, buildWhereClause (H := quoting_identifier) (H0 := latin1_unicode)
      filterTestTable sample_filters [] = Ok r) as [[sql b] E] by (eexists; vm_compute; reflexivity).
  assert (sample_filters ≠ []) as Hne by discriminate.
  destruct (where_meaning (PI := quoting_identifier) (UC := latin1_unicode) _ _ _ _ _ Hne E)
    as (nodes & ts & texts & Hp & Ht & Hf & Hm).
  exists sql, b, nodes, ts, texts. split; [exact E|]. split; [exact Hp|]. split; [exact Ht|].
  split; [exact Hf | exact Hm].
Defined.
