(* ===== verification/Headers.v ===== *)
(** * Headers: the Prefer header, [pkg/rest/http_headers.go]. *)

From S2P Require Import Prelude GoStrings.

(** ** Data *)

Record Prefer := {
  Return_ : string;   (* the source's Return: minimal, representation, headers-only *)
  Count : string      (* exact, planned, estimated, or empty *)
}.

Record Headers := { Prefer_ : option Prefer }.

(** ** Parsing *)

Section Parse.
Context `{UC : Unicode}.

Definition isValidReturn (s : string) : bool :=
  bool_decide (ToLower s ∈ ["minimal"; "representation"; "headers-only"]).
Definition isValidCount (s : string) : bool :=
  bool_decide (ToLower s ∈ ["exact"; "planned"; "estimated"]).

(** [parseKeyValPairs header fn]; the callback mutates a variable [st] of its
    caller. *)
Definition parseKeyValPairs {S} (header : string) (fn : S → string → string → S) (st : S) : S :=
  foldl (λ st pref,
    match Cut (TrimSpace pref) "=" with
    | Some (key, value) =>
        fn st (TrimSpace (ToLower key)) (Trim (TrimSpace value) (String dquote ""))
    | None => st
    end) st (Split header ",").

Definition prefer_directive (p : Prefer) (key value : string) : Prefer :=
  if bool_decide (key = "return") then
    if isValidReturn value then {| Return_ := value; Count := Count p |} else p
  else if bool_decide (key = "count") then
    if isValidCount value then {| Return_ := Return_ p; Count := value |} else p
  else p.

(** [parsePrefer]; the argument is [r.Header.Get("Prefer")]. *)
Definition parsePrefer (header : string) : option Prefer :=
  if bool_decide (header = "") then None
  else Some (parseKeyValPairs header prefer_directive {| Return_ := "minimal"; Count := "" |}).

Definition parseHeaders (header : string) : Headers := {| Prefer_ := parsePrefer header |}.

(** ** Queries; the receiver may be nil *)

Definition WantsRepresentation (p : option Prefer) : bool :=
  match p with Some p => bool_decide (Return_ p = "representation") | None => false end.
Definition WantsHeadersOnly (p : option Prefer) : bool :=
  match p with Some p => bool_decide (Return_ p = "headers-only") | None => false end.
Definition WantsCountExact (p : option Prefer) : bool :=
  match p with Some p => bool_decide (ToLower (Count p) = "exact") | None => false end.
Definition WantsCountEstimated (p : option Prefer) : bool :=
  match p with Some p => bool_decide (ToLower (Count p) = "estimated") | None => false end.
Definition WantsCountPlanned (p : option Prefer) : bool :=
  match p with Some p => bool_decide (ToLower (Count p) = "planned") | None => false end.

(** [headers != nil && headers.Prefer != nil && headers.Prefer.WantsRepresentation()] *)
Definition wants_returning (h : option Headers) : bool :=
  match h with Some h => WantsRepresentation (Prefer_ h) | None => false end.

End Parse.

Example prefer_ex :
  parsePrefer (UC := latin1_unicode) "Return=representation, count=EXACT,foo" =
  Some {| Return_ := "representation"; Count := "EXACT" |}.
Proof. vm_compute. reflexivity. Qed.
