(* ===== verification/OrderBy.v ===== *)
(** * OrderBy: the order parameter, [pkg/rest/order_by.go]. *)

From S2P Require Import Prelude GoStrings.
Local Open Scope Z_scope.

(** ** Data *)

Record OrderParam := {
  ord_Column : string;
  ord_Direction : string;
  ord_NullsPosition : string;
  ord_Similarity : string
}.

(** ** The similarity pattern *)

(** [\s] of package [regexp]. *)
Definition regex_space (c : ascii) : bool :=
  mem_byte (String " " (String "009" (String "010" (String "012" (String "013" ""))))) c.

(** The groups of the pattern after its opening text: a run up to the first
    comma, spaces, a run up to the first closing parenthesis. Each run is not
    empty, so the spaces give one back when nothing else is left. *)
Definition match_similarity_args (s : string) : option (string * string) :=
  let n := span (λ c, negb (bool_decide (c = ","%char))) s in
  match n, drop n s with
  | S _, String _ r =>
      let m := span (λ c, negb (bool_decide (c = ")"%char))) r in
      match m, drop m r with
      | S m', String _ _ =>
          let w := Nat.min (span regex_space r) m' in
          Some (take n s, take (m - w) (drop w r))
      | _, _ => None
      end
  | _, _ => None
  end.

(** [FindStringSubmatch] of the similarity pattern: the leftmost match. *)
Fixpoint find_similarity (s : string) : option (string * string) :=
  match (if HasPrefix s "similarity(" then match_similarity_args (drop 11 s) else None) with
  | Some r => Some r
  | None => match s with EmptyString => None | String _ s => find_similarity s end
  end.

(** ** Splitting at the top-level commas *)

(** One rune of the loop: the finished parts, the current part, the depth. *)
Definition split_rune (st : list string * string * Z) (r : Z) : list string * string * Z :=
  let '(parts, current, depth) := st in
  if r =? 40 then (parts, current +:+ EncodeRune r, depth + 1)
  else if r =? 41 then (parts, current +:+ EncodeRune r, depth - 1)
  else if r =? 44 then
    if depth =? 0 then (parts ++ [current], "", depth)
    else (parts, current +:+ EncodeRune r, depth)
  else (parts, current +:+ EncodeRune r, depth).

Definition splitOrderParamString (order : string) : list string :=
  let '(parts, current, _) := foldl split_rune ([], "", 0) (runes order) in
  if bool_decide (current = "") then parts else parts ++ [current].

(** ** One ordering *)

(** The nulls suffix of a column: the column without it, and the position. *)
Definition nulls_suffix (columnName : string) : string * string :=
  if HasSuffix columnName ".nullsfirst" then (TrimSuffix columnName ".nullsfirst", "first")
  else if HasSuffix columnName ".nullslast" then (TrimSuffix columnName ".nullslast", "last")
  else (columnName, "last").

(** The direction suffix. *)
Definition direction_suffix (part : string) : string * string :=
  if HasSuffix part ".desc" then (TrimSuffix part ".desc", "desc")
  else if HasSuffix part ".asc" then (TrimSuffix part ".asc", "asc")
  else (part, "asc").

(** The body of the loop; [None] is [continue]. *)
Definition order_part (part : string) : option OrderParam :=
  let part := TrimSpace part in
  if bool_decide (part = "") then None else
  let '(columnName, direction, similarity) :=
    match find_similarity part with
    | Some (m1, m2) =>
        let direction := if HasSuffix part ".desc" then "desc"
                         else if HasSuffix part ".asc" then "asc" else "desc" in
        (TrimSpace m1, direction, Trim (TrimSpace m2) (String "'" (String dquote "")))
    | None =>
        let '(columnName, direction) := direction_suffix part in
        (columnName, direction, "")
    end in
  let '(columnName, nullsPosition) := nulls_suffix columnName in
  Some {| ord_Column := columnName; ord_Direction := direction;
          ord_NullsPosition := nullsPosition; ord_Similarity := similarity |}.

Definition parseOrderParam (order : string) : list OrderParam :=
  omap order_part (splitOrderParamString order).

Definition ord (c d n s : string) : OrderParam :=
  {| ord_Column := c; ord_Direction := d; ord_NullsPosition := n; ord_Similarity := s |}.

Example order_ex :
  parseOrderParam "age.desc, name.nullsfirst.asc,x,,similarity(id, 'O''Brien'),similarity(a,b).asc" =
  [ord "age" "desc" "last" ""; ord "name" "asc" "first" ""; ord "x" "asc" "last" "";
   ord "id" "desc" "last" "O''Brien"; ord "a" "asc" "last" "b"].
Proof. vm_compute. reflexivity. Qed.
