(* ===== verification/Query.v ===== *)
(** * Query: request parameters and SQL statements, [pkg/rest/query.go]. *)

From S2P Require Import Prelude GoStrings GoAny Schema FilterParser FilterSQL Headers OrderBy.
Local Open Scope Z_scope.

(** ** Data *)

Record JoinParam := { join_Table : string; join_JoinType : string; join_On : string }.

Record QueryParams := {
  Select : list string;
  Order : list OrderParam;
  Limit : Z;
  Offset : Z;
  Filters : list RawFilter;
  EmbedJoins : list JoinParam
}.

(** [url.Values]; [Get] is the first value of a key, or the empty string. *)
Definition Values := gmap string (list string).
Definition Get (q : Values) (k : string) : string :=
  match q !! k with Some (v :: _) => v | _ => "" end.

Inductive query_error :=
| QFilter (e : filter_error)
| QNoColumn (table column : string)
| QOrdering (column : string)
| QNoInsertColumns
| QNoUpdateColumns
| QMarshal (column : string).

(** ** Request parameters *)

Definition parseSelectParam (select_ : string) : list string := Split select_ ",".

Definition parseIntParam (value : string) (defaultValue : Z) : Z :=
  default defaultValue (Sscanf_d value).

Definition isReservedParam (name : string) : bool :=
  bool_decide (name ∈ ["select"; "order"; "limit"; "offset"; "columns"; "on_conflict"]).

(** The loop over the sorted keys. *)
Definition request_filters (q : Values) : list RawFilter :=
  flat_map (λ key, if isReservedParam key then []
                   else (λ value, {| Key := key; Value := value |}) <$> default [] (q !! key))
    (sorted_keys q).

Definition parseQueryParams (q : Values) : QueryParams := {|
  Select := let s := Get q "select" in if bool_decide (s = "") then [] else parseSelectParam s;
  Order := let s := Get q "order" in if bool_decide (s = "") then [] else parseOrderParam s;
  Limit := let s := Get q "limit" in if bool_decide (s = "") then 100 else parseIntParam s 100;
  Offset := let s := Get q "offset" in if bool_decide (s = "") then 0 else parseIntParam s 0;
  Filters := request_filters q;
  EmbedJoins := []
|}.

(** ** Statements *)

Definition orderDirections : list (string * string) := [("asc", "ASC"); ("desc", "DESC")].
Definition nullsPositions : list (string * string) :=
  [("first", "NULLS FIRST"); ("last", "NULLS LAST")].

Section Build.
Context `{PI : PgxIdentifier} `{UC : Unicode} `{GF : GoFloat}.

Definition columnCastExpression (col : Column) : string :=
  let ident := quoteIdent (col_Name col) in
  if IsComposite col then "to_jsonb(" +:+ ident +:+ ") AS " +:+ ident
  else if bool_decide (col_DataType col ∈ ["uuid"; "date"; "time without time zone"])
  then ident +:+ "::TEXT AS " +:+ ident
  else ident.

Definition selected_columns (table : Table) (selected : list string) : list string :=
  flat_map (λ name,
    if bool_decide (name = "*") then columnCastExpression <$> tbl_Columns table
    else match findColumn table name with
         | Some col => [columnCastExpression col]
         | None => []
         end) selected.

Definition selectList (table : Table) (selected : list string) : string :=
  if bool_decide (selected = []) && bool_decide (length (tbl_Columns table) = 0%nat) then "*"
  else Join (selected_columns table (if bool_decide (selected = []) then ["*"] else selected)) ", ".

Definition returningList (table : Table) : string :=
  Join (columnCastExpression <$> tbl_Columns table) ", ".

Definition order_clause (table : Table) (o : OrderParam) (args : argList)
    : res query_error (string * argList) :=
  match findColumn table (ord_Column o) with
  | None => Err (QNoColumn (tbl_Name table) (ord_Column o))
  | Some col =>
      match table_get orderDirections (ToLower (ord_Direction o)),
            table_get nullsPositions (ToLower (ord_NullsPosition o)) with
      | Some direction, Some nulls =>
          let expr := quoteIdent (col_Name col) in
          let '(expr, args) :=
            if negb (bool_decide (ord_Similarity o = "")) then
              let '(ph, args) := add args (AStr (ord_Similarity o)) in
              ("similarity(" +:+ expr +:+ ", " +:+ ph +:+ ")", args)
            else (expr, args) in
          Ok (expr +:+ " " +:+ direction +:+ " " +:+ nulls, args)
      | _, _ => Err (QOrdering (ord_Column o))
      end
  end.

Fixpoint order_clauses (table : Table) (order : list OrderParam) (args : argList)
    : res query_error (list string * argList) :=
  match order with
  | [] => Ok ([], args)
  | o :: os =>
      let? (clause, args) := order_clause table o args in
      let? (clauses, args) := order_clauses table os args in
      Ok (clause :: clauses, args)
  end.

Definition buildOrderByClause (table : Table) (order : list OrderParam) (args : argList)
    : res query_error (string * argList) :=
  let? (clauses, args) := order_clauses table order args in
  Ok (Join clauses ", ", args).

(** [if where != "" { query.WriteString(kw); query.WriteString(where) }] *)
Definition optional (kw clause : string) : string :=
  if bool_decide (clause = "") then "" else kw +:+ clause.

Definition limit_clause (kw : string) (n : Z) (args : argList) : string * argList :=
  if 0 <? n then let '(ph, args) := add args (AInt KInt n) in (kw +:+ ph, args) else ("", args).

Definition buildSelectQuery (table : Table) (params : QueryParams)
    : res query_error (string * argList) :=
  let? (where_, args) := map_err QFilter (buildWhereClause table (Filters params) []) in
  let? (orderBy, args) := buildOrderByClause table (Order params) args in
  let '(limit, args) := limit_clause " LIMIT " (Limit params) args in
  let '(offset, args) := limit_clause " OFFSET " (Offset params) args in
  Ok ("SELECT " +:+ selectList table (Select params) +:+ " FROM " +:+
      Sanitize [tbl_Schema table; tbl_Name table] +:+ optional " WHERE " where_ +:+
      optional " ORDER BY " orderBy +:+ limit +:+ offset, args).

Definition columnValueExpression (col : Column) (value : any) (args : argList)
    : res query_error (string * argList) :=
  if is_nil value || negb (bool_decide (col_TypeKind col = KindComposite)) then Ok (add args value)
  else match value with
  | AStr _ => Ok (add args value)
  | _ =>
      match Marshal value with
      | None => Err (QMarshal (col_Name col))
      | Some encoded =>
          let composite := Sanitize [col_UDTSchema col; col_UDTName col] in
          let '(ph, args) := add args (AStr encoded) in
          Ok ("jsonb_populate_record(NULL::" +:+ composite +:+ ", " +:+ ph +:+ "::jsonb)", args)
      end
  end.

(** The loop over the sorted keys of a body: the quoted columns and the values. *)
Fixpoint column_values (table : Table) (data : gmap string any) (keys : list string)
    (args : argList) : res query_error (list (string * string) * argList) :=
  match keys with
  | [] => Ok ([], args)
  | key :: keys =>
      match findColumn table key with
      | None => Err (QNoColumn (tbl_Name table) key)
      | Some col =>
          let? (value, args) := columnValueExpression col (default ANil (data !! key)) args in
          let? (rest, args) := column_values table data keys args in
          Ok ((quoteIdent (col_Name col), value) :: rest, args)
      end
  end.

Definition returning_clause (table : Table) (headers : option Headers) : string :=
  if wants_returning headers then " RETURNING " +:+ returningList table else "".

Definition buildInsertQuery (table : Table) (data : gmap string any) (headers : option Headers)
    : res query_error (string * argList) :=
  let? (cvs, args) := column_values table data (sorted_keys data) [] in
  if bool_decide (length cvs = 0%nat) then Err QNoInsertColumns else
  Ok ("INSERT INTO " +:+ Sanitize [tbl_Schema table; tbl_Name table] +:+ " (" +:+
      Join cvs.*1 ", " +:+ ") VALUES (" +:+ Join cvs.*2 ", " +:+ ")" +:+
      returning_clause table headers, args).

Definition buildUpdateQuery (table : Table) (data : gmap string any) (params : QueryParams)
    (headers : option Headers) : res query_error (string * argList) :=
  let? (cvs, args) := column_values table data (sorted_keys data) [] in
  if bool_decide (length cvs = 0%nat) then Err QNoUpdateColumns else
  let? (where_, args) := map_err QFilter (buildWhereClause table (Filters params) args) in
  Ok ("UPDATE " +:+ Sanitize [tbl_Schema table; tbl_Name table] +:+ " SET " +:+
      Join ((λ cv, cv.1 +:+ " = " +:+ cv.2) <$> cvs) ", " +:+ optional " WHERE " where_ +:+
      returning_clause table headers, args).

Definition buildDeleteQuery (table : Table) (params : QueryParams) (headers : option Headers)
    : res query_error (string * argList) :=
  let? (where_, args) := map_err QFilter (buildWhereClause table (Filters params) []) in
  Ok ("DELETE FROM " +:+ Sanitize [tbl_Schema table; tbl_Name table] +:+
      optional " WHERE " where_ +:+ returning_clause table headers, args).

End Build.

(** ** Rows *)

(** One row of a result: the values, or the error of decoding them. *)
Definition row : Type := list (string * any).

(** [rows.Next], [rows.Values] and [rows.Err]: the rows read so far, then the
    end or an error. *)
Inductive row_stream (E : Type) :=
| RowsEnd
| RowsErr (e : E)
| RowsNext (r : row) (rest : row_stream E).
Arguments RowsEnd {E}.
Arguments RowsErr {E} e.
Arguments RowsNext {E} r rest.

(** The map of one row, without the NULLs; a later column of the same name wins. *)
Definition row_map_omit_null (r : row) : gmap string any :=
  foldl (λ m cv, if is_nil cv.2 then m else <[cv.1 := cv.2]> m) ∅ r.

Fixpoint collectRowsOmitNull {E} (rows : row_stream E) : res E (list (gmap string any)) :=
  match rows with
  | RowsEnd => Ok []
  | RowsErr e => Err e
  | RowsNext r rest => let? results := collectRowsOmitNull rest in Ok (row_map_omit_null r :: results)
  end.
