(* ===== verification/QueryTests.v ===== *)
(** * QueryTests: the statement tests of [pkg/rest/filter_test.go], evaluated.

    [TestParseQueryParamsFilters], [TestBuildSelectQuery] and
    [TestMutationsUseSameFilters]. The expected column aliases are written with
    an upper-case AS, as the code writes them; the test file has a lower-case
    one, which the code does not produce. *)

From S2P Require Import Prelude GoStrings GoAny Schema FilterParser FilterSQL FilterTests Headers.
From S2P Require Import OrderBy Query.
Local Open Scope Z_scope.

Definition tradesTable : Table := plain_table "pair_eur_bdt" "trades" [
  plain_column "id" "uuid"; plain_column "taker_wid" "uuid"; plain_column "maker_wid" "uuid";
  plain_column "price" "numeric"; plain_column "created_at" "timestamp with time zone" ].

Definition params_of (q : list (string * list string)) : QueryParams :=
  parseQueryParams (list_to_map (map (λ kv : string * list string, (kv.1, map bq kv.2)) q)).

Definition select_of (q : list (string * list string)) : res query_error (string * argList) :=
  buildSelectQuery (PI := quoting_identifier) (UC := latin1_unicode) tradesTable (params_of q).

Definition allCols : string :=
  "`id`::TEXT AS `id`, `taker_wid`::TEXT AS `taker_wid`, `maker_wid`::TEXT AS `maker_wid`, `price`, `created_at`".
Definition wid : string := "1ff2974a-bec1-4d3f-9ad4-53709789ad4b".

Example filters_test :
  Filters (params_of [("select", ["id"]); ("age", ["lte.65"; "gte.18"]); ("or", ["(a.eq.1)"]);
                      ("limit", ["5"]); ("columns", ["x"]); ("on_conflict", ["id"])]) =
  [ {| Key := "age"; Value := "lte.65" |}; {| Key := "age"; Value := "gte.18" |};
    {| Key := "or"; Value := "(a.eq.1)" |} ].
Proof. vm_compute. reflexivity. Qed.

Example select_test_1 :
  select_of [("or", ["(taker_wid.eq." +:+ wid +:+ ",maker_wid.eq." +:+ wid +:+ ")"])] =
  Ok (bq ("SELECT " +:+ allCols +:+ " FROM `pair_eur_bdt`.`trades` WHERE (`taker_wid` = $1 OR `maker_wid` = $2) LIMIT $3"),
      [AStr wid; AStr wid; AInt KInt 100]).
Proof. vm_compute. reflexivity. Qed.

Example select_test_2 :
  select_of [("select", ["*"]); ("price", ["gt.100"]); ("order", ["created_at.desc"]);
             ("or", ["(taker_wid.eq." +:+ wid +:+ ",maker_wid.eq." +:+ wid +:+ ")"]);
             ("limit", ["10"]); ("offset", ["20"])] =
  Ok (bq ("SELECT " +:+ allCols +:+ " FROM `pair_eur_bdt`.`trades` WHERE (`taker_wid` = $1 OR `maker_wid` = $2) AND `price` > $3 ORDER BY `created_at` DESC NULLS LAST LIMIT $4 OFFSET $5"),
      [AStr wid; AStr wid; AStr "100"; AInt KInt 10; AInt KInt 20]).
Proof. vm_compute. reflexivity. Qed.

Example select_test_3 :
  select_of [("select", ["id,price"])] =
  Ok (bq "SELECT `id`::TEXT AS `id`, `price` FROM `pair_eur_bdt`.`trades` LIMIT $1", [AInt KInt 100]).
Proof. vm_compute. reflexivity. Qed.

Example select_test_4 :
  select_of [("select", ["price"]); ("id", ["eq.x"]); ("order", ["similarity(id,'O''Brien')"])] =
  Ok (bq "SELECT `price` FROM `pair_eur_bdt`.`trades` WHERE `id` = $1 ORDER BY similarity(`id`, $2) DESC NULLS LAST LIMIT $3",
      [AStr "x"; AStr "O''Brien"; AInt KInt 100]).
Proof. vm_compute. reflexivity. Qed.

Example select_errors_test :
  forallb (λ q, negb (is_ok (select_of q)))
    [[("order", ["nope.desc"])]; [("or", ["(nope.eq.1)"])]; [("price", ["100"])]] = true.
Proof. vm_compute. reflexivity. Qed.

Definition mutation_params : QueryParams :=
  params_of [("or", ["(taker_wid.eq.a,maker_wid.eq.a)"]); ("price", ["lt.5"])].

Definition update_of (data : gmap string any) (p : QueryParams) (h : option Headers) :=
  buildUpdateQuery (PI := quoting_identifier) (UC := latin1_unicode) (GF := integral_floats)
    tradesTable data p h.
Definition delete_of (p : QueryParams) (h : option Headers) :=
  buildDeleteQuery (PI := quoting_identifier) (UC := latin1_unicode) tradesTable p h.
Definition insert_of (table : Table) (data : gmap string any) (h : option Headers) :=
  buildInsertQuery (PI := quoting_identifier) (GF := integral_floats) table data h.

Example update_test :
  update_of {["price" := AInt KInt 7]} mutation_params None =
  Ok (bq "UPDATE `pair_eur_bdt`.`trades` SET `price` = $1 WHERE (`taker_wid` = $2 OR `maker_wid` = $3) AND `price` < $4",
      [AInt KInt 7; AStr "a"; AStr "a"; AStr "5"]).
Proof. vm_compute. reflexivity. Qed.

Example delete_test :
  delete_of mutation_params None =
  Ok (bq "DELETE FROM `pair_eur_bdt`.`trades` WHERE (`taker_wid` = $1 OR `maker_wid` = $2) AND `price` < $3",
      [AStr "a"; AStr "a"; AStr "5"]).
Proof. vm_compute. reflexivity. Qed.

Example mutation_errors_test :
  forallb (λ q, negb (is_ok (delete_of (params_of q) None)) &&
                negb (is_ok (update_of {["price" := AInt KInt 1]} (params_of q) None)))
    [[("nope", ["eq.1"])]; [("or", ["(nope.eq.1)"])]; [("id", ["eqq.1"])]] = true.
Proof. vm_compute. reflexivity. Qed.

(** A table with a composite column. *)
Definition places : Table := plain_table "public" "places" [
  plain_column "id" "uuid";
  {| col_Name := "at"; col_DataType := "USER-DEFINED"; col_UDTSchema := "public";
     col_UDTName := "point2"; col_TypeKind := KindComposite; col_ElemKind := KindNone;
     col_IsNullable := true; col_IsPrimaryKey := false |} ].

Definition representation : option Headers :=
  Some {| Prefer_ := Some {| Return_ := "representation"; Count := "" |} |}.

Example insert_composite_test :
  insert_of places (list_to_map [("id", AStr "a"); ("at", AObj {["x" := AFloat (float_of_int 1)]})])
    representation =
  Ok (bq "INSERT INTO `public`.`places` (`at`, `id`) VALUES (jsonb_populate_record(NULL::`public`.`point2`, $1::jsonb), $2) RETURNING `id`::TEXT AS `id`, to_jsonb(`at`) AS `at`",
      [AStr (bq "{`x`:1}"); AStr "a"]).
Proof. vm_compute. reflexivity. Qed.
