(* ===== verification/QueryFacts.v ===== *)
(** * QueryFacts: parameters and text of whole statements.

    [binds] (the parameters a text refers to) and [same_text] (what a text
    depends on) lifted from filters to select lists, orderings, values and
    statements. *)

From S2P Require Import Prelude GoStrings GoStringFacts SqlText GoAny Schema FilterParser FilterGrammar.
From S2P Require Import FilterRoundTrip FilterSQL FilterSQLFacts FilterBinds Headers OrderBy Query.

Lemma binds_nil_inv a b : binds "" a b → length b ≤ length a.
Proof.
  intros (ids & Hp & Hc). destruct (Hp []) as (m & _ & E). simpl in E.
  injection E as _ E. rewrite app_nil_r in E. apply (f_equal (@rev Z)) in E.
  rewrite rev_involutive in E. simpl in E. subst ids.
  destruct (decide (length b ≤ length a)) as [|Hn]; [done|].
  assert (Z.of_nat (length b) ∈ ([] : list Z)) as Hin by (apply Hc; lia).
  by apply elem_of_nil in Hin.
Qed.

Lemma binds_length s a b a' b' :
  length a = length a' → length b = length b' → binds s a b → binds s a' b'.
Proof. intros E E' (ids & Hp & Hc). exists ids. split; [done|]. intros i. rewrite <-E, <-E'. apply Hc. Qed.

(** A piece followed by an optional one. *)
Lemma binds_app_opt s t a b c :
  length a ≤ length b → length b ≤ length c →
  binds s a b → binds t b c → t = "" ∨ sql_delim t → binds (s +:+ t) a c.
Proof.
  intros Hab Hbc Hs Ht [->|Hd]; [|by eapply (binds_app a b c)].
  rewrite app_nil_r_str. apply binds_nil_inv in Ht. eapply (binds_length _ a b); [done | lia | done].
Qed.

Lemma binds_refl a : binds "" a a.
Proof. apply binds_closed_binds. by apply (binds_plain ""). Qed.

(** An optional clause that starts with a space. *)
Definition clause_start (s : string) : Prop := s = "" ∨ sql_delim s.

Lemma clause_start_app s t : clause_start s → clause_start t → clause_start (s +:+ t).
Proof. intros [->|(c & u & -> & Hc)] Ht; [done|]. right. by apply delim_char. Qed.

Lemma binds_optional kw w a b :
  all_bytes plain_char kw = true → length a ≤ length b → binds w a b → binds (optional kw w) a b.
Proof.
  intros Hk Hl Hw. unfold optional. case_bool_decide as E; [|by apply binds_pre].
  subst. done.
Qed.
Lemma optional_start w kw c t : kw = String c t → isDigit c = false → clause_start (optional kw w).
Proof. intros -> Hc. unfold optional. case_bool_decide; [by left | right; by apply delim_char]. Qed.

Lemma binds_join_closed (l : list string) sep a :
  Forall (λ s, binds_closed s a a) l → all_bytes plain_char sep = true → binds_closed (Join l sep) a a.
Proof.
  intros Hl Hs. induction Hl as [|s l Hsc Hl IH]; [by apply (binds_plain "")|].
  destruct l as [|s' l]; [done|]. rewrite Join_cons.
  eapply (binds_closed_app a a a); [done | done | done |]. by apply binds_pre_closed.
Qed.

Section Binding.
Context `{PI : PgxIdentifier} `{PL : !PgxIdentifierLaw} `{UC : Unicode} `{GF : GoFloat}.
Implicit Types (table : Table) (col : Column) (a b : argList).

Lemma sanitize_binds parts a : binds_closed (Sanitize parts) a a.
Proof. exists []. split; [apply sanitize_closed | apply covers_nil]. Qed.

Lemma cast_binds col a : binds_closed (columnCastExpression col) a a.
Proof.
  unfold columnCastExpression. pose proof (ident_binds (col_Name col) a) as Hi.
  destruct (IsComposite col); [|destruct (bool_decide _); [|done]].
  - apply binds_pre_closed; [done..|]. eapply (binds_closed_app a a a); [done | done | done |].
    by apply binds_pre_closed.
  - eapply (binds_closed_app a a a); [done | done | done |]. by apply binds_pre_closed.
Qed.

Lemma selectList_binds table selected a : binds_closed (selectList table selected) a a.
Proof.
  unfold selectList. destruct (_ && _); [by apply (binds_plain "*")|].
  apply binds_join_closed; [|done]. apply Forall_forall. intros s Hs.
  unfold selected_columns in Hs. apply list_elem_of_In, in_flat_map in Hs as (name & _ & Hs).
  apply list_elem_of_In in Hs. destruct (bool_decide (name = "*")).
  - apply list_elem_of_fmap in Hs as (col & -> & _). apply cast_binds.
  - destruct (findColumn table name) as [col|]; [|by apply elem_of_nil in Hs].
    apply list_elem_of_singleton in Hs as ->. apply cast_binds.
Qed.

Lemma returning_binds table h a : binds_closed (returning_clause table h) a a.
Proof.
  unfold returning_clause. destruct (wants_returning h); [|by apply (binds_plain "")].
  apply binds_pre_closed; [done..|]. apply binds_join_closed; [|done].
  apply Forall_fmap, Forall_true. intros col. apply cast_binds.
Qed.
Lemma returning_start table h : clause_start (returning_clause table h).
Proof. unfold returning_clause. destruct (wants_returning h); [right; by apply delim_char | by left]. Qed.

(** ** Orderings *)

Lemma order_clause_length table o a s b : order_clause table o a = Ok (s, b) → length a ≤ length b.
Proof.
  unfold order_clause, add. destruct (findColumn _ _); [|done].
  destruct (table_get orderDirections _); [|done]. destruct (table_get nullsPositions _); [|done].
  destruct (bool_decide (ord_Similarity o = "")); intros [= _ <-]; rewrite ?length_app; lia.
Qed.

Lemma order_clause_binds table o a s b : order_clause table o a = Ok (s, b) → binds s a b.
Proof.
  unfold order_clause. destruct (findColumn _ _) as [col|]; [|done].
  destruct (table_get orderDirections _) as [d|] eqn:Ed; [|done].
  destruct (table_get nullsPositions _) as [n|] eqn:En; [|done].
  assert (all_bytes plain_char (" " +:+ d +:+ " " +:+ n) = true) as Hdn.
  { apply table_get_Some in Ed, En. unfold orderDirections, nullsPositions in *. rewrite !elem_of_cons, elem_of_nil in Ed, En.
    destruct Ed as [[= _ ->]|[[= _ ->]|[]]], En as [[= _ ->]|[[= _ ->]|[]]]; done. }
  destruct (bool_decide (ord_Similarity o = "")); cbn [negb].
  - intros [= <- <-]. apply binds_closed_binds, closed_post; [done | done | apply ident_binds].
  - unfold add. intros [= <- <-]. set (b := a ++ _).
    assert (length a ≤ length b) as Hl by (unfold b; rewrite length_app; lia).
    apply binds_closed_binds, closed_post; [done | done|]. apply binds_pre_closed; [done..|].
    eapply (binds_closed_app a a b); [done | done | apply ident_binds |].
    apply binds_pre_closed; [done..|]. apply binds_post; [done | by apply delim_char | done |].
    apply (binds_add a (AStr (ord_Similarity o))).
Qed.

Lemma order_binds table order a s b :
  buildOrderByClause table order a = Ok (s, b) → binds s a b ∧ length a ≤ length b.
Proof.
  unfold buildOrderByClause. intros ([clauses a1] & Hc & [= <- <-])%res_bind_ok.
  assert (binds_list clauses a a1) as Hb.
  { revert a clauses a1 Hc. induction order as [|o os IH]; intros a clauses a1; cbn [order_clauses].
    { intros [= <- <-]. constructor. }
    intros ([cl a2] & Ho & ([cls a3] & Hos & [= <- <-])%res_bind_ok)%res_bind_ok.
    apply IH in Hos. econstructor; [by eapply order_clause_length | by eapply binds_list_length |
      by eapply order_clause_binds | done]. }
  split; [|by eapply binds_list_length]. apply binds_join; [done | done | by apply delim_char].
Qed.

Lemma limit_binds kw n a :
  all_bytes plain_char kw = true →
  binds (limit_clause kw n a).1 a (limit_clause kw n a).2 ∧ length a ≤ length (limit_clause kw n a).2.
Proof.
  intros Hk. unfold limit_clause. destruct (0 <? n)%Z; [|split; [apply binds_refl | done]].
  split; [|apply (length_add a)]. apply binds_pre; [done | apply (length_add a) | apply (binds_add a)].
Qed.
Lemma limit_start kw n a c t : kw = String c t → isDigit c = false → clause_start (limit_clause kw n a).1.
Proof.
  intros -> Hc. unfold limit_clause. destruct (0 <? n)%Z; [right; by apply delim_char | by left].
Qed.

(** ** Values *)

Lemma value_binds col v a s b :
  columnValueExpression col v a = Ok (s, b) → binds s a b ∧ length a ≤ length b.
Proof.
  unfold columnValueExpression. intros Hv.
  assert (∀ x, Ok (E := query_error) (add a x) = Ok (s, b) →
    binds s a b ∧ length a ≤ length b) as Hadd.
  { intros x [= <- <-]. split; [apply (binds_add a x) | apply (length_add a x)]. }
  destruct (_ || _); [by eapply Hadd|].
  assert (∀ e, Marshal v = Some e → Ok (let '(ph, args) := add a (AStr e) in
      ("jsonb_populate_record(NULL::" +:+ Sanitize [col_UDTSchema col; col_UDTName col] +:+ ", " +:+ ph +:+ "::jsonb)", args))
      = Ok (E := query_error) (s, b) → binds s a b ∧ length a ≤ length b) as Hj.
  { intros e _ [= <- <-]. pose proof (length_add a (AStr e)) as Hl. unfold add in Hl. cbn [snd] in Hl. split; [|exact Hl].
    apply binds_pre; [done..|]. eapply (binds_app_closed a a); [done | done | apply sanitize_binds |].
    apply binds_pre; [done..|]. apply binds_closed_binds, binds_post; [done | by apply delim_char | done|].
    apply (binds_add a). }
  destruct v; try (by eapply Hadd);
    (destruct (Marshal _) as [e|] eqn:He; [by eapply (Hj e) | done]).
Qed.

(** The values of a body, as pieces [f (column, value)]. *)
Lemma values_binds table data keys a cvs b (f : string * string → string) :
  (∀ name s a b, length a ≤ length b → binds s a b → binds (f (quoteIdent name, s)) a b) →
  column_values table data keys a = Ok (cvs, b) → binds_list (f <$> cvs) a b.
Proof.
  intros Hf. revert a cvs b. induction keys as [|k ks IH]; intros a cvs b; cbn [column_values].
  { intros [= <- <-]. constructor. }
  destruct (findColumn table k) as [col|]; [|done].
  intros ([v a1] & Hv & ([rest a2] & Hr & [= <- <-])%res_bind_ok)%res_bind_ok.
  apply value_binds in Hv as [Hv Hl]. apply IH in Hr. cbn [fmap list_fmap].
  econstructor; [done | by eapply binds_list_length | by apply Hf | done].
Qed.

Lemma columns_closed table data keys a cvs b c :
  column_values table data keys a = Ok (cvs, b) → Forall (λ s, binds_closed s c c) cvs.*1.
Proof.
  revert a cvs b. induction keys as [|k ks IH]; intros a cvs b; cbn [column_values].
  { intros [= <- <-]. constructor. }
  destruct (findColumn table k) as [col|]; [|done].
  intros ([v a1] & Hv & ([rest a2] & Hr & [= <- <-])%res_bind_ok)%res_bind_ok.
  cbn [fmap list_fmap]. constructor; [apply ident_binds | by eapply IH].
Qed.

(** ** Statements *)

Lemma select_binds table params sql args :
  buildSelectQuery table params = Ok (sql, args) → binds sql [] args.
Proof.
  unfold buildSelectQuery.
  intros ([w a1] & Hw%map_err_ok & ([o a2] & Ho & Hr)%res_bind_ok)%res_bind_ok.
  apply where_binds in Hw as [Hw Hl1]. apply order_binds in Ho as [Ho Hl2].
  destruct (limit_clause " LIMIT " (Limit params) a2) as [li a3] eqn:Eli.
  destruct (limit_clause " OFFSET " (Offset params) a3) as [off a4] eqn:Eoff. injection Hr as <- <-.
  destruct (limit_binds " LIMIT " (Limit params) a2 eq_refl) as [Hli Hl3].
  destruct (limit_binds " OFFSET " (Offset params) a3 eq_refl) as [Hof Hl4].
  pose proof (limit_start " LIMIT " (Limit params) a2 _ _ eq_refl eq_refl) as Sli.
  pose proof (limit_start " OFFSET " (Offset params) a3 _ _ eq_refl eq_refl) as Sof.
  rewrite Eli in Hli, Hl3, Sli. rewrite Eoff in Hof, Hl4, Sof. cbn [fst snd] in *.
  apply binds_pre; [done | simpl; lia|].
  eapply (binds_app_closed [] []); [done | simpl; lia | apply selectList_binds|].
  apply binds_pre; [done | simpl; lia|].
  eapply (binds_app_closed [] []); [done | simpl; lia | apply sanitize_binds|].
  eapply (binds_app_opt _ _ [] a1); [simpl; lia | lia | by apply binds_optional | |].
  2:{ repeat apply clause_start_app; try done. by eapply optional_start. }
  eapply (binds_app_opt _ _ a1 a2); [lia | lia | by apply binds_optional | |by apply clause_start_app].
  by eapply (binds_app_opt _ _ a2 a3).
Qed.

Lemma delete_binds table params h sql args :
  buildDeleteQuery table params h = Ok (sql, args) → binds sql [] args.
Proof.
  unfold buildDeleteQuery. intros ([w a1] & Hw%map_err_ok & [= <- <-])%res_bind_ok.
  apply where_binds in Hw as [Hw Hl]. apply binds_pre; [done..|].
  eapply (binds_app_closed [] []); [done | done | apply sanitize_binds|].
  eapply (binds_app_opt _ _ [] a1); [done | done | by apply binds_optional | | apply returning_start].
  apply binds_closed_binds, returning_binds.
Qed.

Lemma update_binds table data params h sql args :
  buildUpdateQuery table data params h = Ok (sql, args) → binds sql [] args.
Proof.
  unfold buildUpdateQuery. intros ([cvs a1] & Hc & Hr)%res_bind_ok.
  case_bool_decide; [done|]. apply res_bind_ok in Hr as ([w a2] & Hw%map_err_ok & [= <- <-]).
  apply where_binds in Hw as [Hw Hl]. set (f := λ cv : string * string, cv.1 +:+ " = " +:+ cv.2).
  assert (binds_list (f <$> cvs) [] a1) as Hb.
  { eapply values_binds; [|exact Hc]. intros name s a b Hab Hs. unfold f. cbn [fst snd].
    eapply (binds_app_closed a a b); [done | done | apply ident_binds | by apply binds_pre]. }
  pose proof (binds_list_length _ _ _ Hb) as Hl1.
  apply binds_pre; [done | simpl; lia|].
  eapply (binds_app_closed [] []); [done | simpl; lia | apply sanitize_binds|].
  apply binds_pre; [done | simpl; lia|].
  eapply (binds_app_opt _ _ [] a1); [done | lia | by apply (binds_join _ ", "), delim_char | |].
  2:{ apply clause_start_app; [by eapply optional_start | apply returning_start]. }
  eapply (binds_app_opt _ _ a1 a2); [lia | done | by apply binds_optional | | apply returning_start].
  apply binds_closed_binds, returning_binds.
Qed.

Lemma insert_binds table data h sql args :
  buildInsertQuery table data h = Ok (sql, args) → binds sql [] args.
Proof.
  unfold buildInsertQuery. intros ([cvs a1] & Hc & Hr)%res_bind_ok.
  case_bool_decide; [done|]. injection Hr as <- <-.
  assert (binds_list cvs.*2 [] a1) as Hb.
  { eapply (values_binds _ _ _ _ _ _ snd); [|exact Hc]. done. }
  pose proof (binds_list_length _ _ _ Hb) as Hl1.
  apply binds_pre; [done..|].
  eapply (binds_app_closed [] []); [done | done | apply sanitize_binds|].
  apply binds_pre; [done..|].
  eapply (binds_app_closed [] []); [done | done | apply binds_join_closed; [by eapply columns_closed | done]|].
  apply binds_pre; [done..|]. rewrite <-app_assoc_str.
  apply binds_closed_binds. eapply (binds_closed_app [] a1 a1); [done | done | | apply returning_binds].
  apply binds_post; [done | by apply delim_char | done|]. by apply (binds_join _ ", "), delim_char.
Qed.

End Binding.
