(* ===== verification/QueryText.v ===== *)
(** * QueryText: what the text of a statement depends on, and what it holds.

    The text of orderings and of column values depends only on their shape; the
    clause of a request with filters is never empty; the parameters of a body
    are its values in key order. *)

From S2P Require Import Prelude GoStrings GoStringFacts SqlText GoAny Schema FilterParser FilterRoundTrip.
From S2P Require Import FilterSQL FilterSQLFacts FilterBinds FilterMeaning Headers OrderBy Query QueryFacts.

Section Text.
Context `{PI : PgxIdentifier} `{UC : Unicode} `{GF : GoFloat}.
Implicit Types (table : Table) (col : Column) (a b : argList).

(** ** Orderings *)

Definition order_shape (o : OrderParam) : OrderParam :=
  ord (ord_Column o) (ord_Direction o) (ord_NullsPosition o)
    (if bool_decide (ord_Similarity o = "") then "" else "x").

Lemma order_clause_text table o o' a b :
  order_shape o = order_shape o' → length a = length b →
  same_text (order_clause table o a) (order_clause table o' b).
Proof.
  destruct o as [c d n s], o' as [c' d' n' s']. unfold order_shape, ord. simpl.
  intros [= <- <- <- Hs] Hab. unfold order_clause, add. simpl.
  destruct (findColumn table c); [|done].
  destruct (table_get orderDirections (ToLower d)); [|done].
  destruct (table_get nullsPositions (ToLower n)); [|done].
  destruct (bool_decide (s = "")), (bool_decide (s' = "")); simplify_eq/=; [done|].
  rewrite !length_app. simpl. by rewrite Hab.
Qed.

Lemma order_text table os os' a b :
  order_shape <$> os = order_shape <$> os' → length a = length b →
  same_text (buildOrderByClause table os a) (buildOrderByClause table os' b).
Proof.
  intros Hs Hab. unfold buildOrderByClause.
  eapply same_text_bind with (r' := order_clauses table os' b); [|by intros s c c' Hc].
  revert os' a b Hs Hab. induction os as [|o os IH]; intros [|o' os'] a b Hs Hab; try done.
  rewrite !fmap_cons in Hs. assert (order_shape o = order_shape o') as Ho by congruence.
  assert (order_shape <$> os = order_shape <$> os') as Hos by congruence. cbn [order_clauses].
  eapply same_text_bind; [by apply (order_clause_text table o o')|]. intros s c c' Hc.
  eapply same_text_bind; [by apply IH|]. by intros.
Qed.

Lemma limit_text kw n n' a b :
  (0 <? n)%Z = (0 <? n')%Z → length a = length b →
  (limit_clause kw n a).1 = (limit_clause kw n' b).1 ∧
  length (limit_clause kw n a).2 = length (limit_clause kw n' b).2.
Proof.
  intros Hn Hab. unfold limit_clause. rewrite Hn. destruct (0 <? n')%Z; [|done].
  unfold add. simpl. rewrite !length_app. simpl. by rewrite Hab.
Qed.

Lemma map_err_same_text {E F A} (f : E → F) (r r' : res E (A * argList)) :
  same_text r r' → same_text (map_err f r) (map_err f r').
Proof. destruct r as [[s b]|], r' as [[s' b']|]; simpl; [done..|by intros ->]. Qed.

(** ** Values *)

(** What the text of a value depends on: null, a string, or something else. *)
Inductive kind := KNull | KString | KOther.
Definition value_kind (v : any) : kind :=
  match v with ANil => KNull | AStr _ => KString | _ => KOther end.

Lemma value_text col v v' a b s s' a' b' :
  value_kind v = value_kind v' → length a = length b →
  columnValueExpression col v a = Ok (s, a') → columnValueExpression col v' b = Ok (s', b') →
  s = s' ∧ length a' = length b'.
Proof.
  intros Hk Hab. unfold columnValueExpression, add.
  assert (is_nil v = is_nil v') as -> by (by destruct v, v').
  destruct (is_nil v' || _).
  { intros [= <- <-] [= <- <-]. rewrite !length_app, Hab. done. }
  destruct v, v'; try discriminate Hk; intros E1 E2;
    repeat match goal with
    | H : match Marshal ?x with _ => _ end = _ |- _ => destruct (Marshal x); [|discriminate H]
    end; simplify_eq; rewrite !length_app, Hab; done.
Qed.

Lemma column_values_text table data data' keys a b cvs cvs' a' b' :
  (∀ k, k ∈ keys → value_kind (default ANil (data !! k)) = value_kind (default ANil (data' !! k))) →
  length a = length b →
  column_values table data keys a = Ok (cvs, a') → column_values table data' keys b = Ok (cvs', b') →
  cvs = cvs' ∧ length a' = length b'.
Proof.
  revert a b cvs cvs' a' b'. induction keys as [|k ks IH]; intros a b cvs cvs' a' b' Hk Hab;
    cbn [column_values]; [by intros [= <- <-] [= <- <-]|].
  destruct (findColumn table k) as [col|]; [|done].
  intros ([v a1] & Hv & ([rest a2] & Hr & [= <- <-])%res_bind_ok)%res_bind_ok
    ([v' b1] & Hv' & ([rest' b2] & Hr' & [= <- <-])%res_bind_ok)%res_bind_ok.
  destruct (value_text _ _ _ _ _ _ _ _ _ (Hk k ltac:(constructor)) Hab Hv Hv') as [<- Hl].
  destruct (IH _ _ _ _ _ _ (λ k' Hin, Hk k' ltac:(by constructor)) Hl Hr Hr') as [<- ?]. done.
Qed.

(** The parameter bound for a value. *)
Definition value_arg (col : Column) (v : any) : option any :=
  if is_nil v || negb (bool_decide (col_TypeKind col = KindComposite)) then Some v
  else match v with AStr _ => Some v | _ => AStr <$> Marshal v end.

Lemma value_expression_arg col v a s b :
  columnValueExpression col v a = Ok (s, b) → ∃ x, value_arg col v = Some x ∧ b = a ++ [x].
Proof.
  unfold columnValueExpression, value_arg, add. destruct (_ || _); [intros [= _ <-]; eauto|].
  destruct v; try (intros [= _ <-]; by eauto);
    (destruct (Marshal _) as [e|]; [intros [= _ <-]; by eauto | done]).
Qed.

Lemma value_expression_ok col v a : is_ok (columnValueExpression col v a) = bool_decide (is_Some (value_arg col v)).
Proof.
  unfold columnValueExpression, value_arg, add. destruct (_ || _); [by rewrite bool_decide_eq_true_2|].
  destruct v; try (by rewrite bool_decide_eq_true_2);
    (destruct (Marshal _) as [e|]; [by rewrite bool_decide_eq_true_2 by eauto | by rewrite bool_decide_eq_false_2 by (by intros [? ?])]).
Qed.

(** The values of a body in the order of its keys. *)
Definition body_args table (data : gmap string any) (keys : list string) : list (option any) :=
  (λ k, col ← findColumn table k; value_arg col (default ANil (data !! k))) <$> keys.

Lemma findColumn_name table k col : findColumn table k = Some col → col_Name col = k.
Proof. unfold findColumn. intros [_ Hk]%List.find_some. by apply bool_decide_eq_true in Hk. Qed.

Lemma column_values_spec table data keys a cvs b :
  column_values table data keys a = Ok (cvs, b) →
  cvs.*1 = quoteIdent <$> keys ∧ ∃ xs, body_args table data keys = Some <$> xs ∧ b = a ++ xs.
Proof.
  revert a cvs b. induction keys as [|k ks IH]; intros a cvs b; cbn [column_values].
  { intros [= <- <-]. split; [done|]. exists []. by rewrite app_nil_r. }
  destruct (findColumn table k) as [col|] eqn:Hk; [|done].
  intros ([v a1] & Hv & ([rest a2] & Hr & [= <- <-])%res_bind_ok)%res_bind_ok.
  apply value_expression_arg in Hv as (x & Hx & ->). apply IH in Hr as (Hc & xs & Hxs & ->).
  split; [rewrite !fmap_cons, Hc; by rewrite (findColumn_name _ _ _ Hk)|]. exists (x :: xs).
  unfold body_args in *. rewrite !fmap_cons, Hxs, Hk, <-app_assoc. cbn [mbind option_bind]. by rewrite Hx.
Qed.

Lemma column_values_ok table data keys a :
  is_ok (column_values table data keys a) = true ↔ Forall is_Some (body_args table data keys).
Proof.
  revert a. induction keys as [|k ks IH]; intros a; cbn [column_values].
  { split; [constructor | done]. }
  unfold body_args in *. rewrite fmap_cons, Forall_cons.
  destruct (findColumn table k) as [col|]; cbn [mbind option_bind]; [|split; [done | by intros [[? ?] _]]].
  pose proof (value_expression_ok col (default ANil (data !! k)) a) as Hv.
  destruct (columnValueExpression col _ a) as [[v a1]|]; cbn [res_bind].
  - symmetry in Hv. apply bool_decide_eq_true in Hv. rewrite <-(IH a1).
    destruct (column_values table data ks a1) as [[rest a2]|]; cbn [res_bind]; naive_solver.
  - symmetry in Hv. apply bool_decide_eq_false in Hv. naive_solver.
Qed.

(** ** Clauses are not empty *)

Lemma app_nonempty_r s t : t ≠ "" → s +:+ t ≠ "".
Proof. by destruct s. Qed.

Lemma operator_sql_nonempty n col lhs a : (operator_sql n col lhs a).1 ≠ "".
Proof.
  unfold operator_sql, fts_sql, comparison_sql, add.
  repeat (match goal with |- context [if bool_decide ?P then _ else _] => destruct (bool_decide P) end);
    try destruct (table_get ftsFunctions _); try destruct (bool_decide (lang n = ""));
    try destruct (bool_decide (quant n = "")); cbn [fst negb]; by apply app_nonempty_r.
Qed.

Lemma toSQL_nonempty n table a s b : toSQL n table a = Ok (s, b) → s ≠ "".
Proof.
  destruct n as [neg lg cs fld op q l v items]. destruct (decide (lg = "")) as [->|Hlg].
  - rewrite toSQL_cond, conditionSQL_eq by done. destruct (findColumn _ _) as [col|]; [|done].
    cbn [res_bind]. destruct (operator_sql _ _ _ _) as [c a1] eqn:E. intros [= <- _].
    pose proof (operator_sql_nonempty (mkFilterNode neg "" cs fld op q l v items) col) as Hne.
    simpl. destruct neg; [done|]. by rewrite <-(f_equal fst E : _ = c).
  - rewrite toSQL_group by done. intros ([parts a1] & _ & [= <- _])%res_bind_ok. by destruct neg.
Qed.

Lemma where_nonempty table filters a w b :
  filters ≠ [] → buildWhereClause table filters a = Ok (w, b) → w ≠ "".
Proof.
  intros Hne (nodes & conds & Hp & Hc & ->)%buildWhereClause_ok. destruct Hp as [|f n fs ns _ _]; [done|].
  cbn [children_sql] in Hc. apply res_bind_ok in Hc as ([s a1] & Hs%toSQL_nonempty & Hc).
  apply res_bind_ok in Hc as ([ss a2] & _ & [= <- _]). destruct ss; [done|]. rewrite Join_cons.
  by destruct s.
Qed.

End Text.
