(* ===== verification/QueryProps.v ===== *)
(** * QueryProps: the statements of a request are right.

    Every statement refers to exactly the parameters it passes, its text does
    not depend on the values a client sends, UPDATE and DELETE keep every filter,
    INSERT binds the body, and the request parameters are read as written. *)

From S2P Require Import Prelude GoStrings GoStringFacts SqlText GoAny Schema FilterParser FilterRoundTrip.
From S2P Require Import FilterSQL FilterTests FilterSQLFacts FilterBinds FilterMeaning Headers OrderBy Query.
From S2P Require Import QueryTests QueryFacts QueryText.

(** ** Helper lemmas *)

Section Lists.
Context {A B : Type}.

Lemma filter_all (P : B → Prop) `{!∀ x, Decision (P x)} (l : list B) :
  (∀ x, x ∈ l → P x) → filter P l = l.
Proof.
  induction l as [|x l IH]; intros Hl; [done|]. rewrite filter_cons_True by (apply Hl; constructor).
  f_equal. apply IH. intros y Hy. apply Hl. by constructor.
Qed.
Lemma filter_none (P : B → Prop) `{!∀ x, Decision (P x)} (l : list B) :
  (∀ x, x ∈ l → ¬ P x) → filter P l = [].
Proof.
  induction l as [|x l IH]; intros Hl; [done|]. rewrite filter_cons_False by (apply Hl; constructor).
  apply IH. intros y Hy. apply Hl. by constructor.
Qed.

(** One block of a [flat_map] whose blocks satisfy disjoint predicates. *)
Lemma filter_flat_map (P : B → Prop) `{!∀ x, Decision (P x)} (f : A → list B) (l : list A) a :
  NoDup l → a ∈ l → (∀ x, x ∈ f a → P x) → (∀ b x, b ≠ a → x ∈ f b → ¬ P x) →
  filter P (flat_map f l) = f a.
Proof.
  intros Hnd Hin Ha Hb. induction Hnd as [|b l Hnot Hnd IH]; [by apply elem_of_nil in Hin|].
  simpl. rewrite filter_app. apply elem_of_cons in Hin as [<-|Hin].
  - rewrite (filter_all P (f a)) by done.
    rewrite (filter_none P (flat_map f l)); [by rewrite app_nil_r|].
    intros x Hx. apply list_elem_of_In, in_flat_map in Hx as (b & Hbl & Hx).
    apply list_elem_of_In in Hbl, Hx. apply (Hb b); [by intros -> | done].
  - rewrite (filter_none P (f b)); [by apply IH|]. intros x Hx. apply (Hb b); [by intros -> | done].
Qed.

End Lists.

Lemma flat_map_sorted {A} (R : A → A → Prop) (K : string → list A) (keys : list string) :
  (∀ k k' x y, str_le k k' → x ∈ K k → y ∈ K k' → R x y) →
  StronglySorted str_le keys → StronglySorted R (flat_map K keys).
Proof.
  intros HR. induction 1 as [|k keys Hs IH Hk]; [constructor|]. simpl.
  assert (∀ l, (∀ x, x ∈ l → x ∈ K k) → StronglySorted R (l ++ flat_map K keys)) as Happ.
  { induction l as [|x l IHl]; intros Hl; [done|]. cbn [app]. constructor.
    - apply IHl. intros y Hy. apply Hl. by constructor.
    - apply Forall_forall. intros y [Hy|Hy]%elem_of_app.
      + eapply (HR k k); [by destruct (str_le_total k k) | apply Hl; constructor | apply Hl; by constructor].
      + apply list_elem_of_In, in_flat_map in Hy as (k' & Hk' & Hy). apply list_elem_of_In in Hk', Hy.
        rewrite Forall_forall in Hk. eapply (HR k k'); [by apply Hk | apply Hl; constructor | done]. }
  by apply Happ.
Qed.

(** ** Statements *)

Section Statements.
Context `{PI : PgxIdentifier} `{PL : !PgxIdentifierLaw} `{UC : Unicode} `{GF : GoFloat}.
Implicit Types (table : Table) (params : QueryParams) (h : option Headers) (data : gmap string any).

(** The statements the server sends for a table. *)
Inductive statement table : string → argList → Prop :=
| st_select params sql args :
    buildSelectQuery table params = Ok (sql, args) → statement table sql args
| st_insert data h sql args :
    buildInsertQuery table data h = Ok (sql, args) → statement table sql args
| st_update data params h sql args :
    buildUpdateQuery table data params h = Ok (sql, args) → statement table sql args
| st_delete params h sql args :
    buildDeleteQuery table params h = Ok (sql, args) → statement table sql args.

(** C3: a SELECT, INSERT, UPDATE or DELETE mentions the parameters [$1] to
    [$n], each at least once, where [n] is the number of arguments it passes. *)
Theorem statement_placeholders table sql args :
  statement table sql args →
  ∀ i, i ∈ placeholders sql ↔ (1 ≤ i ≤ Z.of_nat (length args))%Z.
Proof.
  intros Hs. assert (binds sql [] args) as (ids & Hp & Hc).
  { destruct Hs; [by eapply select_binds | by eapply insert_binds | by eapply update_binds
                 | by eapply delete_binds]. }
  intros i. rewrite (sql_piece_placeholders _ _ Hp), (Hc i). simpl. lia.
Qed.

(** C4: the text of a SELECT depends on the columns selected, the shape of the
    filters and of the orderings, and on whether there is a limit and an offset:
    no operand, search string or number of the request can change it. *)
Theorem select_injection_free table params params' nodes nodes' sql args sql' args' :
  parses (Filters params) nodes → parses (Filters params') nodes' →
  shape <$> nodes = shape <$> nodes' → Select params = Select params' →
  order_shape <$> Order params = order_shape <$> Order params' →
  (0 <? Limit params)%Z = (0 <? Limit params')%Z → (0 <? Offset params)%Z = (0 <? Offset params')%Z →
  buildSelectQuery table params = Ok (sql, args) → buildSelectQuery table params' = Ok (sql', args') →
  sql = sql' ∧ length args = length args'.
Proof.
  intros Hp Hp' Hs Hsel Hord Hlim Hoff E E'.
  assert (same_text (buildSelectQuery table params) (buildSelectQuery table params')) as Ht.
  { unfold buildSelectQuery.
    eapply same_text_bind; [by eapply map_err_same_text, where_same_text|]. intros w a1 b1 H1.
    eapply same_text_bind; [by apply order_text|]. intros o a2 b2 H2.
    destruct (limit_text " LIMIT " _ _ a2 b2 Hlim H2) as [L1 L2].
    destruct (limit_clause " LIMIT " (Limit params) a2) as [l a3], (limit_clause " LIMIT " (Limit params') b2) as [l' b3].
    destruct (limit_text " OFFSET " _ _ a3 b3 Hoff L2) as [O1 O2].
    destruct (limit_clause " OFFSET " (Offset params) a3) as [f a4], (limit_clause " OFFSET " (Offset params') b3) as [f' b4].
    simpl in *. subst. by rewrite Hsel. }
  rewrite E, E' in Ht. done.
Qed.

Definition same_kinds data data' : Prop :=
  ∀ k, value_kind <$> data !! k = value_kind <$> data' !! k.

Lemma same_kinds_keys data data' : same_kinds data data' → sorted_keys data = sorted_keys data'.
Proof.
  intros Hk. apply sort_strings_unique, list.NoDup_Permutation; [apply NoDup_fst_map_to_list..|].
  intros k. rewrite !elem_of_keys.
  rewrite <-(fmap_is_Some value_kind (data !! k)), Hk. by rewrite fmap_is_Some.
Qed.

Lemma same_kinds_columns table data data' cvs cvs' a b :
  same_kinds data data' →
  column_values table data (sorted_keys data) [] = Ok (cvs, a) →
  column_values table data' (sorted_keys data') [] = Ok (cvs', b) → cvs = cvs' ∧ length a = length b.
Proof.
  intros Hk. rewrite <-(same_kinds_keys _ _ Hk). apply column_values_text; [|done].
  intros k _. specialize (Hk k). destruct (data !! k), (data' !! k); by simplify_eq/=.
Qed.

(** C5: the same of INSERT and UPDATE: the text depends on the keys of the
    body, on whether each value is null, a string or something else, and on the
    shape of the filters, never on the values. *)
Theorem mutation_injection_free table data data' params params' nodes nodes' h sql args sql' args' :
  same_kinds data data' →
  (buildInsertQuery table data h = Ok (sql, args) → buildInsertQuery table data' h = Ok (sql', args') →
   sql = sql') ∧
  (parses (Filters params) nodes → parses (Filters params') nodes' → shape <$> nodes = shape <$> nodes' →
   buildUpdateQuery table data params h = Ok (sql, args) →
   buildUpdateQuery table data' params' h = Ok (sql', args') → sql = sql').
Proof.
  intros Hk. split.
  - unfold buildInsertQuery. intros ([cvs a] & Hc & Hr)%res_bind_ok ([cvs' a'] & Hc' & Hr')%res_bind_ok.
    destruct (same_kinds_columns _ _ _ _ _ _ _ Hk Hc Hc') as [<- Hl].
    destruct (bool_decide _); [done|]. congruence.
  - intros Hp Hp' Hs. unfold buildUpdateQuery.
    intros ([cvs a] & Hc & Hr)%res_bind_ok ([cvs' a'] & Hc' & Hr')%res_bind_ok.
    destruct (same_kinds_columns _ _ _ _ _ _ _ Hk Hc Hc') as [<- Hl].
    destruct (bool_decide _); [done|].
    pose proof (where_same_text table _ _ _ _ a a' Hp Hp' Hs Hl) as Ht.
    apply res_bind_ok in Hr as ([w b] & Hw%map_err_ok & [= <- _]).
    apply res_bind_ok in Hr' as ([w' b'] & Hw'%map_err_ok & [= <- _]).
    rewrite Hw, Hw' in Ht. by destruct Ht as [-> _].
Qed.

(** C6: a mutation never loses its filters: if the request has a filter, the
    DELETE or UPDATE built from it has a WHERE clause, and it is the clause of
    all the filters that a GET with the same parameters uses. *)
Theorem mutations_keep_filters table data params h sql args :
  Filters params ≠ [] →
  (buildDeleteQuery table params h = Ok (sql, args) →
   ∃ w, w ≠ "" ∧ buildWhereClause table (Filters params) [] = Ok (w, args) ∧
     sql = "DELETE FROM " +:+ Sanitize [tbl_Schema table; tbl_Name table] +:+ " WHERE " +:+ w +:+
           returning_clause table h) ∧
  (buildUpdateQuery table data params h = Ok (sql, args) →
   ∃ sets args0 w, w ≠ "" ∧ buildWhereClause table (Filters params) args0 = Ok (w, args) ∧
     length args0 = length (sorted_keys data) ∧
     sql = "UPDATE " +:+ Sanitize [tbl_Schema table; tbl_Name table] +:+ " SET " +:+ sets +:+
           " WHERE " +:+ w +:+ returning_clause table h).
Proof.
  intros Hne. split.
  - unfold buildDeleteQuery. intros ([w b] & Hw%map_err_ok & [= <- <-])%res_bind_ok.
    pose proof (where_nonempty _ _ _ _ _ Hne Hw) as Hwne. exists w. split; [done|]. split; [done|].
    unfold optional. rewrite bool_decide_eq_false_2 by done. by rewrite !app_assoc_str.
  - unfold buildUpdateQuery. intros ([cvs a] & Hc & Hr)%res_bind_ok.
    destruct (bool_decide _); [done|]. apply res_bind_ok in Hr as ([w b] & Hw%map_err_ok & [= <- <-]).
    pose proof (where_nonempty _ _ _ _ _ Hne Hw) as Hwne.
    exists (Join ((λ cv, cv.1 +:+ " = " +:+ cv.2) <$> cvs) ", "), a, w.
    split; [done|]. split; [done|]. split.
    + apply column_values_spec in Hc as (_ & xs & Hxs & ->). simpl.
      apply (f_equal length) in Hxs. unfold body_args in Hxs. by rewrite !length_fmap in Hxs.
    + unfold optional. rewrite bool_decide_eq_false_2 by done. by rewrite !app_assoc_str.
Qed.

(** An INSERT succeeds exactly when the body has a key and every key is a
    column whose value can be encoded; it then names every key once, in order,
    and binds the value of each. *)
Theorem insert_body table data h :
  (is_ok (buildInsertQuery table data h) = true ↔
   data ≠ ∅ ∧ ∀ k v, data !! k = Some v →
     ∃ col x, findColumn table k = Some col ∧ value_arg col v = Some x) ∧
  ∀ sql args, buildInsertQuery table data h = Ok (sql, args) →
    body_args table data (sorted_keys data) = Some <$> args ∧
    ∃ values, length values = length args ∧
      sql = "INSERT INTO " +:+ Sanitize [tbl_Schema table; tbl_Name table] +:+ " (" +:+
            Join (quoteIdent <$> sorted_keys data) ", " +:+ ") VALUES (" +:+ Join values ", " +:+ ")" +:+
            returning_clause table h.
Proof.
  assert (∀ cvs a, column_values table data (sorted_keys data) [] = Ok (cvs, a) →
    length cvs = length (sorted_keys data)) as Hlen.
  { intros cvs a (Hc & _)%column_values_spec. apply (f_equal length) in Hc. by rewrite !length_fmap in Hc. }
  split.
  - rewrite <-(sorted_keys_nil data).
    assert (is_ok (buildInsertQuery table data h) = true ↔ sorted_keys data ≠ [] ∧
      Forall is_Some (body_args table data (sorted_keys data))) as ->.
    { rewrite <-(column_values_ok table data (sorted_keys data) []). unfold buildInsertQuery.
      destruct (column_values _ _ _ _) as [[cvs a]|] eqn:E; cbn [res_bind]; [|naive_solver].
      specialize (Hlen _ _ eq_refl). case_bool_decide as Hl; destruct (sorted_keys data); simpl in *; naive_solver lia. }
    apply and_iff_compat_l. unfold body_args. rewrite Forall_fmap, Forall_forall. split.
    + intros Hk k v Hkv. specialize (Hk k ltac:(by apply elem_of_sorted_keys; eauto)). simpl in Hk.
      rewrite Hkv in Hk. destruct (findColumn table k) as [col|]; [|by destruct Hk].
      destruct Hk as [x Hx]. eauto.
    + intros Hk k [v Hkv]%elem_of_sorted_keys. simpl. rewrite Hkv.
      destruct (Hk k v Hkv) as (col & x & -> & Hx). by exists x.
  - intros sql args. unfold buildInsertQuery. intros ([cvs a] & Hc & Hr)%res_bind_ok.
    specialize (Hlen _ _ Hc). destruct (bool_decide _); [done|]. injection Hr as <- <-.
    apply column_values_spec in Hc as (Hc & xs & Hxs & ->). split; [done|].
    exists cvs.*2. split; [|by rewrite Hc]. apply (f_equal length) in Hxs. unfold body_args in Hxs.
    rewrite !length_fmap in *. simpl. lia.
Qed.

End Statements.

(** ** Witnesses *)

Lemma statement_placeholders_witness :
  ∃ sql args, statement (PI := quoting_identifier) (UC := latin1_unicode) (GF := integral_floats)
      tradesTable sql args ∧ length args = 4 ∧
    ∀ i, i ∈ placeholders sql ↔ (1 ≤ i ≤ Z.of_nat (length args))%Z.
Proof.
  eexists _, _. assert (statement (PI := quoting_identifier) (UC := latin1_unicode) (GF := integral_floats)
      tradesTable (bq "UPDATE `pair_eur_bdt`.`trades` SET `price` = $1 WHERE (`taker_wid` = $2 OR `maker_wid` = $3) AND `price` < $4")
      [AInt KInt 7; AStr "a"; AStr "a"; AStr "5"]) as Hs.
  { eapply st_update with (data := {["price" := AInt KInt 7]}) (params := mutation_params) (h := None).
    vm_compute. reflexivity. }
  split; [exact Hs|]. split; [reflexivity|].
  exact (statement_placeholders (PL := quoting_identifier_law) (UC := latin1_unicode) (GF := integral_floats) _ _ _ Hs).
Defined.

(** Two requests for the same rows of other people. *)
Definition page_1 : QueryParams :=
  params_of [("id", ["eq.a"]); ("order", ["similarity(id,x)"]); ("limit", ["5"])].
Definition page_2 : QueryParams :=
  params_of [("id", ["eq.b' OR $2"]); ("order", ["similarity(id,'$1; --')"]); ("limit", ["50"])].

Definition parse_nodes (filters : list RawFilter) : res filter_error (list filterNode) :=
  mapM_res (λ f, parseFilter (H := latin1_unicode) (Key f) (Value f)) filters.

Lemma select_injection_free_witness :
  ∃ sql args args', buildSelectQuery (PI := quoting_identifier) (UC := latin1_unicode) tradesTable page_1 = Ok (sql, args) ∧
    buildSelectQuery (PI := quoting_identifier) (UC := latin1_unicode) tradesTable page_2 = Ok (sql, args') ∧
    length args = length args'.
Proof.
  assert (∃ n n', parse_nodes (Filters page_1) = Ok n ∧ parse_nodes (Filters page_2) = Ok n' ∧
    shape <$> n = shape <$> n') as (n & n' & Hn & Hn' & Hs)
    by (eexists _, _; split; [vm_compute; reflexivity|]; split; vm_compute; reflexivity).
  apply mapM_res_ok in Hn, Hn'.
  assert (∃ r, buildSelectQuery (PI := quoting_identifier) (UC := latin1_unicode) tradesTable page_1 = Ok r)
    as [[sql args] E] by (eexists; vm_compute; reflexivity).
  assert (∃ r, buildSelectQuery (PI := quoting_identifier) (UC := latin1_unicode) tradesTable page_2 = Ok r)
    as [[sql' args'] E'] by (eexists; vm_compute; reflexivity).
  assert (order_shape <$> Order page_1 = order_shape <$> Order page_2) as Ho by (vm_compute; reflexivity).
  destruct (select_injection_free (PI := quoting_identifier) (UC := latin1_unicode)
    tradesTable page_1 page_2 _ _ _ _ _ _ Hn Hn' Hs eq_refl Ho eq_refl eq_refl E E') as [<- Hl].
  exists sql, args, args'. split; [exact E|]. split; [exact E' | exact Hl].
Defined.

Lemma mutation_injection_free_witness :
  let d := {["price" := AInt KInt 7]} : gmap string any in
  let d' := {["price" := AFloat (float_of_int 9)]} : gmap string any in
  ∃ sql args args', update_of d mutation_params None = Ok (sql, args) ∧
    update_of d' mutation_params None = Ok (sql, args').
Proof.
  intros d d'. assert (same_kinds d d') as Hk.
  { intros k. unfold d, d'. destruct (decide (k = "price")) as [->|Hne];
      [vm_compute; reflexivity | rewrite !lookup_singleton_ne by congruence; reflexivity]. }
  assert (∃ r, update_of d mutation_params None = Ok r) as [[sql args] E] by (eexists; vm_compute; reflexivity).
  assert (∃ r, update_of d' mutation_params None = Ok r) as [[sql' args'] E'] by (eexists; vm_compute; reflexivity).
  assert (∃ n, parse_nodes (Filters mutation_params) = Ok n) as [n Hn] by (eexists; vm_compute; reflexivity).
  apply mapM_res_ok in Hn.
  destruct (mutation_injection_free (PI := quoting_identifier) (UC := latin1_unicode) (GF := integral_floats)
    tradesTable d d' mutation_params mutation_params n n None sql args sql' args' Hk) as [_ Hu].
  specialize (Hu Hn Hn eq_refl E E'). subst sql'.
  exists sql, args, args'. split; [exact E | exact E'].
Defined.

Lemma mutations_keep_filters_witness :
  ∃ sql args w, delete_of mutation_params None = Ok (sql, args) ∧ w ≠ "" ∧
    sql = bq "DELETE FROM `pair_eur_bdt`.`trades`" +:+ " WHERE " +:+ w +:+ "".
Proof.
  assert (∃ r, delete_of mutation_params None = Ok r) as [[sql args] E] by (eexists; vm_compute; reflexivity).
  assert (Filters mutation_params ≠ []) as Hne by (vm_compute; discriminate).
  destruct (mutations_keep_filters (PI := quoting_identifier) (UC := latin1_unicode) (GF := integral_floats)
    tradesTable ∅ mutation_params None sql args Hne) as [Hd _].
  destruct (Hd E) as (w & Hw & _ & Hs). exists sql, args, w. split; [exact E|]. split; [exact Hw | exact Hs].
Defined.
