(* ===== verification/RequestProps.v ===== *)
(** * RequestProps: reading the parameters and headers of a request.

    The filters of a request are all its non-reserved parameters, the limit and
    offset become the clauses of the statement, an order parameter is read back
    from its printed form, and the preferences of the Prefer header are valid. *)

From S2P Require Import Prelude GoStrings GoStringFacts SqlText GoAny Schema FilterParser FilterSQL.
From S2P Require Import FilterTests FilterSQLFacts Headers OrderBy Query QueryText QueryProps.

(** ** Words: ASCII letters, digits, underscores and dots *)

Definition word_char (c : ascii) : bool :=
  isASCIILetter c || isASCIIDigit c || bool_decide (c = "_"%char) || bool_decide (c = "."%char).
Definition word (s : string) : bool := all_bytes word_char s.

Lemma word_char_range c : word_char c = true → (46 ≤ byte_val c ≤ 122)%Z.
Proof.
  unfold word_char, isASCIILetter, isASCIIDigit, in_range.
  rewrite !orb_true_iff, !andb_true_iff, !Z.leb_le, !bool_decide_eq_true.
  intros [[[[?|?]|?]|E]|E]; [lia..|by rewrite E|by rewrite E].
Qed.

Lemma word_not_space c : word_char c = true → IsSpace (byte_val c) = false.
Proof.
  intros H%word_char_range. unfold IsSpace, in_range.
  repeat (apply orb_false_iff; split); try (apply Z.eqb_neq; lia);
    apply andb_false_iff; (left + right); apply Z.leb_gt; lia.
Qed.

Lemma word_decode c s : word_char c = true → DecodeRune (String c s) = (byte_val c, 1).
Proof. intros H%word_char_range. apply DecodeRune_ascii. lia. Qed.

Lemma word_trim_left s fuel : word s = true → trim_left_space fuel s = s.
Proof.
  destruct fuel as [|fuel], s as [|c s]; try done. intros [Hc _]%andb_true_iff.
  cbn [trim_left_space]. rewrite (word_decode c s Hc). by rewrite word_not_space.
Qed.

Lemma word_last s : word s = true → s ≠ "" →
  ∃ c, drop (len s - 1) s = String c "" ∧ word_char c = true.
Proof.
  induction s as [|c [|d s] IH]; intros Hw Hne; [done| |].
  - exists c. by apply andb_true_iff in Hw as [? _].
  - apply andb_true_iff in Hw as [_ Hw]. destruct (IH Hw) as (e & Hd & He); [done|]. exists e.
    split; [|done]. rewrite <-Hd. simpl. by rewrite Nat.sub_0_r.
Qed.

Lemma word_trim_right s fuel : word s = true → trim_right_space fuel s = s.
Proof.
  destruct fuel as [|fuel]; [done|]. intros Hw. cbn [trim_right_space].
  destruct s as [|c s]; [done|]. destruct (word_last (String c s)) as (d & Hd & Hwd); [done..|].
  unfold DecodeLastRune. change (len (String c s)) with (S (len s)) in *.
  cbv zeta beta iota. rewrite Nat.sub_1_r in Hd. cbn [pred] in Hd. rewrite Hd.
  pose proof (word_char_range d Hwd). rewrite (proj2 (Z.ltb_lt _ _)) by lia.
  by rewrite word_not_space.
Qed.

Lemma word_trim s : word s = true → TrimSpace s = s.
Proof. intros Hw. unfold TrimSpace. by rewrite word_trim_left, word_trim_right. Qed.

(** Decoding and encoding ASCII runes. *)
Lemma encode_ascii c : (byte_val c < 128)%Z → EncodeRune (byte_val c) = String c "".
Proof.
  intros Hc. unfold EncodeRune, in_range. assert (0 ≤ byte_val c)%Z by (unfold byte_val; lia).
  rewrite (proj2 (Z.leb_le 0 _)), (proj2 (Z.leb_le (byte_val c) _)) by lia.
  rewrite (proj2 (Z.leb_gt 55296 _)) by lia. cbn [andb negb].
  rewrite (proj2 (Z.ltb_lt _ 128)) by lia. f_equal. unfold byte_of, byte_val.
  by rewrite N2Z.id, ascii_N_embedding.
Qed.

Lemma runes_go_ascii fuel s :
  len s ≤ fuel → all_bytes (λ c, byte_val c <? 128)%Z s = true →
  runes_go fuel s = byte_val <$> String.list_ascii_of_string s.
Proof.
  revert s. induction fuel as [|fuel IH]; intros [|c s] Hl Hs; try done; [simpl in Hl; lia|].
  apply andb_true_iff in Hs as [Hc%Z.ltb_lt Hs]. cbn [runes_go]. rewrite DecodeRune_ascii by done.
  change (drop 1 (String c s)) with s. simpl. f_equal. apply IH; [simpl in Hl; lia | done].
Qed.


(** ** Orderings *)

(** The orderings a client can write with a plain column name. *)
Definition plain_order (o : OrderParam) : Prop :=
  word (ord_Column o) = true ∧ ord_Direction o ∈ ["asc"; "desc"] ∧ ord_NullsPosition o ∈ ["first"; "last"] ∧ ord_Similarity o = "".

Definition print_ordering (o : OrderParam) : string :=
  ord_Column o +:+ ".nulls" +:+ ord_NullsPosition o +:+ "." +:+ ord_Direction o.

Lemma HasSuffix_app s t : HasSuffix (s +:+ t) t = true.
Proof.
  unfold HasSuffix. rewrite len_app. replace (len s + len t - len t) with (len s) by lia.
  rewrite drop_app, (bool_decide_eq_true_2 (len t ≤ len s + len t)) by lia.
  by apply bool_decide_eq_true_2.
Qed.
Lemma TrimSuffix_app s t : TrimSuffix (s +:+ t) t = s.
Proof.
  unfold TrimSuffix. rewrite HasSuffix_app, len_app.
  replace (len s + len t - len t) with (len s) by lia. apply take_app.
Qed.
(** A shorter text decides whether a longer one ends with a suffix. *)
Lemma HasSuffix_longer s t u : len u ≤ len t → HasSuffix (s +:+ t) u = HasSuffix t u.
Proof.
  intros Hl. unfold HasSuffix. rewrite len_app.
  rewrite (bool_decide_eq_true_2 (len u ≤ len s + len t)), (bool_decide_eq_true_2 (len u ≤ len t)) by lia.
  cbn [andb].
  replace (len s + len t - len u) with (len s + (len t - len u)) by lia.
  by rewrite drop_add, drop_app.
Qed.

Lemma word_app s t : word (s +:+ t) = word s && word t.
Proof. unfold word. induction s as [|c s IH]; [done|]. rewrite app_cons_str. simpl. by rewrite IH, andb_assoc. Qed.

Lemma find_similarity_word s : word s = true → find_similarity s = None.
Proof.
  induction s as [|c s IH]; intros Hw; [done|]. pose proof Hw as Hw'.
  apply andb_true_iff in Hw' as [_ Hs].
  cbn [find_similarity]. destruct (HasPrefix (String c s) "similarity(") eqn:Hp; [|by apply IH].
  apply HasPrefix_spec in Hp. rewrite Hp, word_app in Hw. by apply andb_true_iff in Hw as [? _].
Qed.

Lemma print_ordering_word o : plain_order o → word (print_ordering o) = true.
Proof.
  intros (Hc & Hd & Hn & _). unfold print_ordering. rewrite !word_app, Hc.
  rewrite !elem_of_cons, elem_of_nil in Hd, Hn.
  by destruct Hd as [->|[->|[]]], Hn as [->|[->|[]]].
Qed.

(** Reading a suffix of known text. *)
Lemma direction_print c n d :
  d ∈ ["asc"; "desc"] → n ∈ ["first"; "last"] →
  direction_suffix (c +:+ ".nulls" +:+ n +:+ "." +:+ d) = (c +:+ ".nulls" +:+ n, d).
Proof.
  intros Hd Hn. rewrite !elem_of_cons, elem_of_nil in Hd, Hn. unfold direction_suffix.
  destruct Hd as [->|[->|[]]]; rewrite (HasSuffix_longer c) by (destruct Hn as [->|[->|[]]]; simpl; lia).
  - assert (HasSuffix (".nulls" +:+ n +:+ "." +:+ "asc") ".desc" = false) as ->
      by (by destruct Hn as [->|[->|[]]]).
    rewrite <-!app_assoc_str, (app_assoc_str _ "." "asc").
    change ("." +:+ "asc") with ".asc". by rewrite HasSuffix_app, TrimSuffix_app.
  - assert (HasSuffix (".nulls" +:+ n +:+ "." +:+ "desc") ".desc" = true) as ->
      by (by destruct Hn as [->|[->|[]]]).
    rewrite <-!app_assoc_str, (app_assoc_str _ "." "desc").
    change ("." +:+ "desc") with ".desc". by rewrite TrimSuffix_app.
Qed.

Lemma nulls_print c n :
  n ∈ ["first"; "last"] → nulls_suffix (c +:+ ".nulls" +:+ n) = (c, n).
Proof.
  intros Hn. rewrite !elem_of_cons, elem_of_nil in Hn. unfold nulls_suffix.
  destruct Hn as [->|[->|[]]].
  - change (".nulls" +:+ "first") with ".nullsfirst".
    by rewrite (HasSuffix_app c ".nullsfirst"), (TrimSuffix_app c ".nullsfirst").
  - change (".nulls" +:+ "last") with ".nullslast".
    rewrite (HasSuffix_app c ".nullslast"), (TrimSuffix_app c ".nullslast").
    destruct (HasSuffix _ ".nullsfirst") eqn:E; [|done]. exfalso.
    unfold HasSuffix in E. apply andb_true_iff in E as [Hl%bool_decide_eq_true Hd%bool_decide_eq_true].
    rewrite len_app in *. simpl in Hl, Hd.
    destruct (le_lt_dec 1 (len c)) as [Hc|Hc]; [|lia].
    apply (f_equal (λ s, drop 1 s)) in Hd. rewrite <-drop_add in Hd.
    replace (len c + 10 - 11 + 1) with (len c) in Hd by lia. by rewrite drop_app in Hd.
Qed.

Lemma order_part_print o : plain_order o → order_part (print_ordering o) = Some o.
Proof.
  intros Ho. pose proof (print_ordering_word o Ho) as Hw. unfold order_part.
  rewrite word_trim, find_similarity_word by done.
  destruct o as [c d n s], Ho as (Hc & Hd & Hn & Hs). unfold print_ordering in *. simpl in Hd, Hn, Hs.
  cbn [ord_Column ord_Direction ord_NullsPosition]. subst s.
  rewrite bool_decide_eq_false_2 by by destruct c.
  by rewrite direction_print, nulls_print.
Qed.

(** Splitting words at commas. *)
Lemma split_word parts current s :
  word s = true →
  foldl split_rune (parts, current, 0%Z) (byte_val <$> String.list_ascii_of_string s) =
  (parts, current +:+ s, 0%Z).
Proof.
  revert current. induction s as [|c s IH]; intros current Hw; [by rewrite app_nil_r_str|].
  apply andb_true_iff in Hw as [Hc Hw]. pose proof (word_char_range c Hc).
  cbn [String.list_ascii_of_string fmap list_fmap foldl split_rune].
  rewrite !(proj2 (Z.eqb_neq (byte_val c) _)) by lia. rewrite encode_ascii by lia.
  fold (byte_val <$> String.list_ascii_of_string s). rewrite IH by done. by rewrite app_assoc_str.
Qed.

Lemma split_words parts ws :
  ws ≠ [] → Forall (λ w, word w = true) ws →
  foldl split_rune (parts, "", 0%Z) (byte_val <$> String.list_ascii_of_string (Join ws ",")) =
  (parts ++ removelast ws, List.last ws "", 0%Z).
Proof.
  intros Hne Hws. revert parts. induction Hws as [|w ws Hw Hws IH]; intros parts; [done|].
  destruct ws as [|w' ws].
  - cbn [Join]. rewrite split_word by done. simpl. by rewrite app_nil_r.
  - rewrite Join_cons, !chars_app, !fmap_app, !foldl_app, split_word by done.
    cbn [String.list_ascii_of_string fmap list_fmap foldl].
    change (split_rune (parts, "" +:+ w, 0%Z) (byte_val ",")) with (parts ++ ["" +:+ w], "", 0%Z).
    rewrite IH by done. rewrite <-app_assoc. done.
Qed.

Lemma word_ascii s : word s = true → all_bytes (λ c, byte_val c <? 128)%Z s = true.
Proof.
  unfold word. induction s as [|c s IH]; [done|]. intros [Hc Hs]%andb_true_iff. cbn [all_bytes].
  pose proof (word_char_range c Hc). rewrite (proj2 (Z.ltb_lt _ _)) by lia. by apply IH.
Qed.

Lemma Join_ascii ws :
  Forall (λ w, word w = true) ws → all_bytes (λ c, byte_val c <? 128)%Z (Join ws ",") = true.
Proof.
  assert (∀ s t, all_bytes (λ c, byte_val c <? 128)%Z (s +:+ t) =
    all_bytes (λ c, byte_val c <? 128)%Z s && all_bytes (λ c, byte_val c <? 128)%Z t) as Happ.
  { intros s t. induction s as [|c s IH]; [done|]. rewrite app_cons_str. cbn [all_bytes]. by rewrite IH, andb_assoc. }
  induction 1 as [|w [|w' ws] Hw Hws IH]; [done | by apply word_ascii|].
  rewrite Join_cons, !Happ, IH. by rewrite (word_ascii w Hw).
Qed.

Lemma splitOrder_words ws :
  Forall (λ w, word w = true ∧ w ≠ "") ws → splitOrderParamString (Join ws ",") = ws.
Proof.
  intros Hws. unfold splitOrderParamString, runes. destruct ws as [|w ws]; [done|].
  assert (Forall (λ w, word w = true) (w :: ws)) as Hw by (eapply Forall_impl; [done|]; naive_solver).
  rewrite runes_go_ascii by (done || by apply Join_ascii). rewrite split_words by done. cbn [app].
  assert (List.last (w :: ws) "" ≠ "") as Hne.
  { clear Hw. revert w Hws. induction ws as [|w' ws IH]; intros w [[_ Hw] Hws]%Forall_cons; [done|].
    by apply (IH w'). }
  rewrite bool_decide_eq_false_2 by done. symmetry. by apply app_removelast_last.
Qed.

(** An order parameter is read back from its printed form: any list of
    plain columns, each with a direction and a position for nulls. *)
Theorem parseOrderParam_print os :
  Forall plain_order os → parseOrderParam (Join (print_ordering <$> os) ",") = os.
Proof.
  intros Hos. unfold parseOrderParam. rewrite splitOrder_words.
  - induction Hos as [|o os Ho _ IH]; [done|]. cbn [fmap list_fmap omap list_omap].
    rewrite order_part_print by done. by f_equal.
  - apply Forall_fmap. eapply Forall_impl; [exact Hos|]. intros o Ho. simpl.
    split; [by apply print_ordering_word|]. unfold print_ordering. by destruct (ord_Column o).
Qed.

Lemma order_part_valid s o :
  order_part s = Some o → ord_Direction o ∈ ["asc"; "desc"] ∧ ord_NullsPosition o ∈ ["first"; "last"].
Proof.
  unfold order_part, direction_suffix, nulls_suffix.
  destruct (bool_decide (TrimSpace s = "")); [done|].
  destruct (find_similarity (TrimSpace s)) as [[m1 m2]|];
    repeat match goal with |- context [if ?b then _ else _] => destruct b end;
    intros [= <-]; simpl; set_solver.
Qed.

(** ** Filters of a request *)

Definition block (q : Values) (key : string) : list RawFilter :=
  if isReservedParam key then []
  else (λ value, {| Key := key; Value := value |}) <$> default [] (q !! key).

Lemma block_key q k f : f ∈ block q k → Key f = k ∧ isReservedParam k = false ∧ Value f ∈ default [] (q !! k).
Proof.
  unfold block. destruct (isReservedParam k); [by intros ?%elem_of_nil|].
  intros (v & -> & Hv)%list_elem_of_fmap. done.
Qed.

(** The filters of a request are exactly its parameters that are not
    reserved: every value of a repeated key, in order, with the keys sorted. *)
Theorem request_filters_spec q :
  (∀ f, f ∈ Filters (parseQueryParams q) ↔
     isReservedParam (Key f) = false ∧ ∃ vs, q !! Key f = Some vs ∧ Value f ∈ vs) ∧
  (∀ k, isReservedParam k = false →
     Value <$> filter (λ f, Key f = k) (Filters (parseQueryParams q)) = default [] (q !! k)) ∧
  StronglySorted (λ f g, str_le (Key f) (Key g)) (Filters (parseQueryParams q)).
Proof.
  cbn [Filters parseQueryParams]. unfold request_filters.
  change (flat_map _ (sorted_keys q)) with (flat_map (block q) (sorted_keys q)). split_and!.
  - intros f. rewrite list_elem_of_In, in_flat_map. split.
    + intros (k & _ & Hf%list_elem_of_In%block_key). destruct Hf as (-> & Hr & Hv). split; [done|].
      destruct (q !! k) as [vs|]; [by exists vs | by apply elem_of_nil in Hv].
    + intros (Hr & vs & Hq & Hv). exists (Key f). split; [apply list_elem_of_In, elem_of_sorted_keys; eauto|].
      apply list_elem_of_In. unfold block. rewrite Hr, Hq. apply list_elem_of_fmap. exists (Value f).
      split; [by destruct f | done].
  - intros k Hr. destruct (q !! k) as [vs|] eqn:Hq.
    + rewrite (filter_flat_map (λ f, Key f = k) (block q) (sorted_keys q) k).
      * unfold block. rewrite Hr, Hq. simpl. rewrite <-list_fmap_compose. apply list_fmap_id.
      * apply NoDup_sorted_keys.
      * apply elem_of_sorted_keys. eauto.
      * intros f Hf. by apply block_key in Hf as [? _].
      * intros k' f Hne (-> & _)%block_key. done.
    + rewrite filter_none; [done|]. intros f Hf Hk. apply list_elem_of_In, in_flat_map in Hf as (k' & _ & Hf).
      apply list_elem_of_In, block_key in Hf as (E & _ & Hv). subst k'. rewrite Hk, Hq in Hv.
      by apply elem_of_nil in Hv.
  - apply flat_map_sorted; [|apply sort_strings_sorted].
    intros k k' f g Hk (-> & _)%block_key (-> & _)%block_key. done.
Qed.

(** ** Limit and offset *)

Lemma digit_range c : isDigit c = true → (48 ≤ byte_val c ≤ 57)%Z.
Proof. unfold isDigit, in_range. rewrite andb_true_iff, !Z.leb_le. done. Qed.

Lemma scan_skip_nothing fuel c s :
  isDigit c = true ∨ c = "-"%char → scan_skip_space fuel (String c s) = Some (String c s).
Proof.
  intros Hc. assert (45 ≤ byte_val c ≤ 57)%Z as Hr.
  { destruct Hc as [Hc| ->]; [apply digit_range in Hc; lia|]. vm_compute. split; discriminate. }
  destruct fuel as [|fuel]; [done|]. cbn [scan_skip_space].
  assert (IsSpace (byte_val c) = false) as Hs.
  { unfold IsSpace, in_range. repeat (apply orb_false_iff; split); try (apply Z.eqb_neq; lia);
      apply andb_false_iff; (left + right); apply Z.leb_gt; lia. }
  assert ((let '(r, w) := DecodeRune (String c s) in
           if IsSpace r then scan_skip_space fuel (drop w (String c s)) else Some (String c s))
          = Some (String c s)) as E.
  { rewrite DecodeRune_ascii by lia. by rewrite Hs. }
  clear Hs. destruct c as [[] [] [] [] [] [] [] []]; try exact E; exfalso; destruct Hr as [Hr _]; vm_compute in Hr; exact (Hr eq_refl).
Qed.

Lemma Sscanf_Itoa z : in_int64 z = true → Sscanf_d (Itoa z) = Some z.
Proof.
  unfold in_int64, in_range. intros [Hlo%Z.leb_le Hhi%Z.leb_le]%andb_true_iff.
  destruct (Itoa_spec z) as (sg & c & s & -> & Hc & Hs & Hcase). unfold Sscanf_d.
  assert (span isDigit (String c s) = S (len s)) as Hsp.
  { cbn [span]. rewrite Hc. f_equal. rewrite <-(app_nil_r_str s) at 1. by apply span_app. }
  destruct Hcase as [(Hz & -> & Hv)|(Hz & -> & Hv)].
  - rewrite app_nil_l_str, scan_skip_nothing by by left. cbn [mbind option_bind].
    assert (span (mem_byte "+-") (take 1 (String c s)) = 0) as ->.
    { cbn [take]. assert (mem_byte "+-" c = false) as Hm.
      { unfold mem_byte. apply bool_decide_eq_false. cbn. rewrite !elem_of_cons, elem_of_nil.
        intros [->|[->|[]]]; by vm_compute in Hc. }
      destruct s; cbn [span]; by rewrite Hm. }
    rewrite drop_0, Hsp, Nat.add_0_l.
    assert (take (S (len s)) (String c s) = String c s) as ->
      by (pose proof (take_app (String c s) "") as E; by rewrite app_nil_r_str in E).
    pose proof (ParseInt_digits c s false z 64 Hc Hv) as E. rewrite app_nil_l_str in E. rewrite E.
    by rewrite (proj2 (Z.ltb_lt _ _)) by lia.
  - change ("-" +:+ String c s) with (String "-" (String c s)).
    rewrite scan_skip_nothing by by right. cbn [mbind option_bind].
    change (span (mem_byte "+-") (take 1 (String "-" (String c s)))) with 1.
    change (drop 1 (String "-" (String c s))) with (String c s). rewrite Hsp.
    assert (take (1 + S (len s)) (String "-" (String c s)) = String "-" (String c s)) as ->
      by (pose proof (take_app (String "-" (String c s)) "") as E; by rewrite app_nil_r_str in E).
    pose proof (ParseInt_digits c s true (- z) 64 Hc Hv) as E.
    change ((if true then "-" else "") +:+ String c s) with (String "-" (String c s)) in E. rewrite E.
    rewrite (proj2 (Z.leb_le _ _)) by lia. f_equal. lia.
Qed.

Section Page.
Context `{PI : PgxIdentifier} `{UC : Unicode} `{GF : GoFloat}.

(** The page a request asks for, 100 rows from the first one unless it says
    otherwise in decimal. *)
Definition asks (q : Values) (key : string) (dflt n : Z) : Prop :=
  Get q key = "" ∧ n = dflt ∨ Get q key = Itoa n ∧ in_int64 n = true.

(** The SELECT of a request ends with the page it asks for, as parameters:
    LIMIT when the limit is positive and OFFSET when the offset is. *)
Theorem select_page table q limit offset sql args :
  asks q "limit" 100 limit → asks q "offset" 0 offset →
  buildSelectQuery table (parseQueryParams q) = Ok (sql, args) →
  ∃ head args0 args1,
    sql = head +:+ (if (0 <? limit)%Z then " LIMIT " +:+ (add args0 (AInt KInt limit)).1 else "") +:+
          (if (0 <? offset)%Z then " OFFSET " +:+ (add args1 (AInt KInt offset)).1 else "") ∧
    args1 = args0 ++ (if (0 <? limit)%Z then [AInt KInt limit] else []) ∧
    args = args1 ++ (if (0 <? offset)%Z then [AInt KInt offset] else []).
Proof.
  assert (∀ key dflt n, asks q key dflt n →
    (if bool_decide (Get q key = "") then dflt else parseIntParam (Get q key) dflt) = n) as Hasks.
  { intros key dflt n [[-> ->]|[-> Hn]]; [done|]. rewrite bool_decide_eq_false_2.
    - unfold parseIntParam. by rewrite Sscanf_Itoa.
    - destruct (Itoa_spec n) as (sg & c & s & -> & _). by destruct sg. }
  intros Hl%Hasks Ho%Hasks. unfold buildSelectQuery. cbn [Limit Offset parseQueryParams Select Order].
  rewrite Hl, Ho. intros ([w a1] & _ & ([o a2] & _ & Hr)%res_bind_ok)%res_bind_ok.
  unfold limit_clause in Hr. set (a3 := a2 ++ (if (0 <? limit)%Z then [AInt KInt limit] else [])).
  match type of Hr with context [selectList table ?sel] =>
    exists ("SELECT " +:+ selectList table sel +:+ " FROM " +:+ Sanitize [tbl_Schema table; tbl_Name table] +:+
      optional " WHERE " w +:+ optional " ORDER BY " o), a2, a3 end.
  rewrite !app_assoc_str. unfold add in *.
  destruct (0 <? limit)%Z, (0 <? offset)%Z; injection Hr as <- <-; unfold a3; simpl;
    rewrite ?app_nil_r, ?app_nil_r_str, <-?app_assoc; done.
Qed.

(** A SELECT for a parsed order parameter fails only for a bad filter or an
    unknown column: the directions and null positions the parser produces are
    always ones the builder knows. *)
Theorem select_errors table q e :
  buildSelectQuery table (parseQueryParams q) = Err e →
  (∃ f, e = QFilter f) ∨ ∃ c, e = QNoColumn (tbl_Name table) c ∧ findColumn table c = None.
Proof.
  unfold buildSelectQuery. intros [(f & _ & ->)%map_err_err|([w a1] & _ & Ho)]%res_bind_err; [by left; eauto|].
  right. apply res_bind_err in Ho as [Ho|([o a2] & _ & Hr)].
  2:{ by destruct (limit_clause " LIMIT " _ a2) as [l a3], (limit_clause " OFFSET " _ a3). }
  assert (Forall (λ o, ord_Direction o ∈ ["asc"; "desc"] ∧ ord_NullsPosition o ∈ ["first"; "last"])
    (Order (parseQueryParams q))) as Hv.
  { simpl. case_bool_decide; [constructor|]. unfold parseOrderParam. apply Forall_forall. intros o.
    intros (s & _ & Hs)%list_elem_of_omap. by eapply order_part_valid. }
  unfold buildOrderByClause in Ho. apply res_bind_err in Ho as [Ho|([? ?] & _ & ?)]; [|done].
  revert a1 Ho. induction Hv as [|o os [Hd Hn] _ IH]; intros a1; cbn [order_clauses]; [done|].
  intros [Hc|([? a2] & _ & [Hc|([? ?] & _ & ?)]%res_bind_err)]%res_bind_err; [|by eapply IH|done].
  unfold order_clause in Hc. destruct (findColumn table (ord_Column o)) eqn:Hf.
  - exfalso. rewrite !elem_of_cons, elem_of_nil in Hd, Hn. unfold add in Hc.
    assert (is_Some (table_get orderDirections (ToLower (ord_Direction o)))) as [d Ed]
      by (destruct Hd as [->|[->|[]]]; vm_compute; eauto).
    assert (is_Some (table_get nullsPositions (ToLower (ord_NullsPosition o)))) as [n En]
      by (destruct Hn as [->|[->|[]]]; vm_compute; eauto).
    rewrite Ed, En in Hc. by destruct (bool_decide (ord_Similarity o = "")).
  - injection Hc as <-. eauto.
Qed.

End Page.

(** ** Rows *)

Lemma row_map_spec (r : row) (m : gmap string any) k v :
  NoDup r.*1 → (∀ c, c ∈ r.*1 → m !! c = None) →
  foldl (λ m cv, if is_nil cv.2 then m else <[cv.1 := cv.2]> m) m r !! k = Some v ↔
  m !! k = Some v ∨ ((k, v) ∈ r ∧ v ≠ ANil).
Proof.
  revert m. induction r as [|[c x] r IH]; intros m Hnd Hm; cbn [foldl].
  { rewrite elem_of_nil. naive_solver. }
  cbn [fmap list_fmap fst] in Hnd, Hm. apply NoDup_cons in Hnd as [Hc Hnd].
  assert (m !! c = None) as Hmc by (apply Hm; constructor).
  rewrite IH; [|done|].
  - rewrite elem_of_cons. cbn [fst snd]. destruct (is_nil x) eqn:Hx.
    + destruct x; try done. split; [naive_solver|]. intros [?|[[[= -> ->]|?] ?]]; [by left | done | by right].
    + assert (x ≠ ANil) by (by intros ->). destruct (decide (k = c)) as [->|Hk].
      * rewrite lookup_insert_eq, Hmc. split; [intros [[= <-]|[? ?]]; right; naive_solver|].
        intros [?|[[[= ->]|?] ?]]; [done | by left | by right].
      * rewrite lookup_insert_ne by done. naive_solver.
  - intros c' Hc'. cbn [fst snd]. assert (c ≠ c') by (by intros ->).
    destruct (is_nil x); [apply Hm; by constructor|].
    rewrite lookup_insert_ne by done. apply Hm. by constructor.
Qed.

(** With nulls omitted, each row of a result becomes the map of its non-null
    columns, and an error while reading discards the rows read. *)
Theorem collectRowsOmitNull_spec {E} (rs : list row) (e : E) :
  Forall (λ r, NoDup r.*1) rs →
  (∃ results, collectRowsOmitNull (E := E) (foldr RowsNext RowsEnd rs) = Ok results ∧
     Forall2 (λ r (m : gmap string any), ∀ k v, m !! k = Some v ↔ (k, v) ∈ r ∧ v ≠ ANil) rs results) ∧
  collectRowsOmitNull (foldr RowsNext (RowsErr e) rs) = Err e.
Proof.
  induction 1 as [|r rs Hr _ [(results & Hok & Hall) Herr]]; cbn [foldr collectRowsOmitNull].
  { split; [exists []; by constructor | done]. }
  rewrite Hok, Herr. split; [|done]. exists (row_map_omit_null r :: results). split; [done|].
  constructor; [|done]. intros k v. unfold row_map_omit_null.
  rewrite row_map_spec by (done || (intros; apply lookup_empty)). rewrite lookup_empty. naive_solver.
Qed.

(** ** Headers *)

Section Prefer.
Context `{UC : Unicode}.

Lemma prefer_fold_valid l p :
  isValidReturn (Return_ p) = true ∧ (Count p = "" ∨ isValidCount (Count p) = true) →
  let p' := foldl (λ st pref,
    match Cut (TrimSpace pref) "=" with
    | Some (key, value) =>
        prefer_directive st (TrimSpace (ToLower key)) (Trim (TrimSpace value) (String dquote ""))
    | None => st
    end) p l in
  isValidReturn (Return_ p') = true ∧ (Count p' = "" ∨ isValidCount (Count p') = true).
Proof.
  revert p. induction l as [|x l IH]; intros p Hp; [done|]. cbn [foldl]. apply IH.
  destruct (Cut (TrimSpace x) "=") as [[k v]|]; [|done]. unfold prefer_directive.
  set (w := Trim _ _). clearbody w. destruct Hp as [Hr Hc].
  destruct (bool_decide (_ = "return")); [destruct (isValidReturn w) eqn:Hw; by split|].
  destruct (bool_decide (_ = "count")); [|by split].
  destruct (isValidCount w) eqn:Hw; [split; [done | by right] | by split].
Qed.

(** Whatever the Prefer header holds, the preferences kept are valid ones. *)
Theorem parsePrefer_valid header p :
  parsePrefer header = Some p →
  isValidReturn (Return_ p) = true ∧ (Count p = "" ∨ isValidCount (Count p) = true).
Proof.
  unfold parsePrefer. case_bool_decide; [done|]. intros [= <-]. apply prefer_fold_valid.
  split; [vm_compute; done | by left].
Qed.

(** A mutation answers with the rows when the last valid return preference
    of the header is spelled in lower case; another valid spelling is accepted
    and then not recognised. *)
Theorem prefer_representation_case s :
  ToLower s = "representation" → s ≠ "representation" →
  isValidReturn s = true ∧
  WantsRepresentation (Some {| Return_ := s; Count := "" |}) = false.
Proof.
  intros Hl Hs. split; [|by apply bool_decide_eq_false_2].
  unfold isValidReturn. by rewrite Hl.
Qed.

End Prefer.

(** ** Witnesses *)

Definition sample_orders : list OrderParam :=
  [ord "created_at" "desc" "first" ""; ord "a.b" "asc" "last" ""].

Lemma sample_orders_plain : Forall plain_order sample_orders.
Proof.
  repeat constructor; cbn [ord ord_Column ord_Direction ord_NullsPosition ord_Similarity];
    first [reflexivity | rewrite !elem_of_cons; tauto].
Qed.

Lemma parseOrderParam_print_witness :
  Join (print_ordering <$> sample_orders) "," = "created_at.nullsfirst.desc,a.b.nullslast.asc" ∧
  parseOrderParam (Join (print_ordering <$> sample_orders) ",") = sample_orders.
Proof.
  split; [vm_compute; reflexivity | exact (parseOrderParam_print sample_orders sample_orders_plain)].
Defined.

Definition sample_query : Values := {["limit" := ["5"]]}.

Lemma select_page_witness :
  ∃ sql args head args0 args1,
    buildSelectQuery (PI := quoting_identifier) (UC := latin1_unicode) filterTestTable
      (parseQueryParams sample_query) = Ok (sql, args) ∧
    sql = head +:+ (" LIMIT " +:+ (add args0 (AInt KInt 5)).1) +:+ "" ∧
    args1 = args0 ++ [AInt KInt 5] ∧ args = args1 ++ [].
Proof.
  assert (∃ r, buildSelectQuery (PI := quoting_identifier) (UC := latin1_unicode) filterTestTable
      (parseQueryParams sample_query) = Ok r) as [[sql args] E] by (eexists; vm_compute; reflexivity).
  assert (asks sample_query "limit" 100 5) as Hl by (right; split; vm_compute; reflexivity).
  assert (asks sample_query "offset" 0 0) as Ho by (left; split; vm_compute; reflexivity).
  destruct (select_page (PI := quoting_identifier) (UC := latin1_unicode) _ _ _ _ _ _ Hl Ho E)
    as (head & args0 & args1 & Hs & H1 & H2).
  exists sql, args, head, args0, args1. split; [exact E|]. split; [exact Hs|]. split; [exact H1 | exact H2].
Defined.

Lemma select_errors_witness :
  let q := {["order" := ["nope.desc"]]} : Values in
  buildSelectQuery (PI := quoting_identifier) (UC := latin1_unicode) filterTestTable (parseQueryParams q)
    = Err (QNoColumn "people" "nope") ∧
  ((∃ f, QNoColumn "people" "nope" = QFilter f) ∨
   ∃ c, QNoColumn "people" "nope" = QNoColumn (tbl_Name filterTestTable) c ∧ findColumn filterTestTable c = None).
Proof.
  intros q. assert (buildSelectQuery (PI := quoting_identifier) (UC := latin1_unicode) filterTestTable
    (parseQueryParams q) = Err (QNoColumn "people" "nope")) as E by (vm_compute; reflexivity).
  split; [exact E | exact (select_errors (PI := quoting_identifier) (UC := latin1_unicode) _ _ _ E)].
Defined.

Lemma collectRowsOmitNull_spec_witness :
  ∃ results, collectRowsOmitNull (E := unit)
      (RowsNext [("a", AInt KInt 1); ("b", ANil)] (RowsNext [("a", ANil)] RowsEnd)) = Ok results ∧
    Forall2 (λ r (m : gmap string any), ∀ k v, m !! k = Some v ↔ (k, v) ∈ r ∧ v ≠ ANil)
      [[("a", AInt KInt 1); ("b", ANil)]; [("a", ANil)]] results.
Proof.
  assert (Forall (λ r : row, NoDup r.*1) [[("a", AInt KInt 1); ("b", ANil)]; [("a", ANil)]]) as Hn.
  { repeat constructor; set_solver. }
  exact (proj1 (collectRowsOmitNull_spec _ tt Hn)).
Defined.

Lemma parsePrefer_valid_witness :
  parsePrefer (UC := latin1_unicode) "return=everything, count=exact" =
    Some {| Return_ := "minimal"; Count := "exact" |} ∧
  isValidReturn (UC := latin1_unicode) "minimal" = true ∧
  ("exact" = "" ∨ isValidCount (UC := latin1_unicode) "exact" = true).
Proof.
  assert (parsePrefer (UC := latin1_unicode) "return=everything, count=exact" =
    Some {| Return_ := "minimal"; Count := "exact" |}) as E by (vm_compute; reflexivity).
  split; [exact E | exact (parsePrefer_valid (UC := latin1_unicode) _ _ E)].
Defined.

Lemma prefer_representation_case_witness :
  isValidReturn (UC := latin1_unicode) "Representation" = true ∧
  WantsRepresentation (Some {| Return_ := "Representation"; Count := "" |}) = false.
Proof.
  apply (prefer_representation_case (UC := latin1_unicode) "Representation");
    [vm_compute; reflexivity | discriminate].
Defined.
