(* ===== verification/SchemaCache.v ===== *)
(** * SchemaCache: loading the catalog and keeping it fresh,
    [pkg/pgx/schema/schema.go].

    The catalog queries are arguments (class [Catalog]): what PostgreSQL answers
    at one moment. [loadAll] folds them into the table map. The cache itself is
    a state machine: its reader side ([Snapshot], [Watch]) and its updating
    goroutine ([handleUpdates], [listen], [reconnectWithBackoff]) run in steps
    that interleave with changes of the database. *)

From S2P Require Import Prelude GoStrings Schema.
Local Open Scope Z_scope.

(** ** Query results *)

(** The rows of a query as [Next] and [Scan] deliver them, then [rows.Err()]. *)
Record result (E A : Type) := { scanned : list (res E A); rows_err : option E }.
Arguments scanned {E A}.
Arguments rows_err {E A}.

Definition rows_end {E} (err : option E) : res E () :=
  match err with None => Ok () | Some e => Err e end.

(** One row of [information_schema.columns] as the query selects it; a kind is
    null when the type is not in [pg_type]. *)
Record column_row := {
  cr_name : string; cr_data_type : string; cr_udt_schema : string; cr_udt_name : string;
  cr_kind : option string; cr_elem_kind : option string; cr_nullable : bool; cr_pk : bool
}.

Class Catalog (E : Type) := {
  cat_schemata : res E (result E string);
  cat_relations : string → res E (result E (string * string * string));
  cat_view_definition : string → string → res E (option string);
  cat_matview_definition : string → string → res E (option string);
  cat_columns : string → string → res E (result E column_row);
  cat_foreign_keys : string → string → res E (result E ForeignKey)
}.

Inductive load_error (E : Type) :=
| LSchemas (e : E)
| LSchema (schema : string) (e : load_error E)
| LQuery (e : E)
| LViewDef (schema name : string) (e : E)
| LMatViewDef (schema name : string) (e : E)
| LColumns (schema name : string) (e : E)
| LForeignKeys (schema name : string) (e : E).
Arguments LSchemas {E}. Arguments LSchema {E}. Arguments LQuery {E}. Arguments LViewDef {E}.
Arguments LMatViewDef {E}. Arguments LColumns {E}. Arguments LForeignKeys {E}.

(** ** Loading *)

Section Load.
Context {E : Type} `{C : Catalog E}.

Definition querySchemas : res E (list string) :=
  let? r := cat_schemata in
  let? schemas := mapM_res id (scanned r) in
  let? _ := rows_end (rows_err r) in
  Ok schemas.

(** The loop body of [queryColumns]. *)
Definition column_of_row (r : column_row) : Column := {|
  col_Name := cr_name r; col_DataType := cr_data_type r; col_UDTSchema := cr_udt_schema r;
  col_UDTName := cr_udt_name r;
  col_TypeKind := match cr_kind r with Some k => TypeKind_of_string k | None => KindNone end;
  col_ElemKind := match cr_elem_kind r with Some k => TypeKind_of_string k | None => KindNone end;
  col_IsNullable := cr_nullable r; col_IsPrimaryKey := cr_pk r |}.

Definition queryColumns (schema table : string) : res E (list Column * list string) :=
  let? r := cat_columns schema table in
  let? (cols, pkeys) :=
    foldM_res (λ acc row,
      let? row := row in
      let col := column_of_row row in
      let '(cols, pkeys) := acc in
      Ok (cols ++ [col], if col_IsPrimaryKey col then pkeys ++ [col_Name col] else pkeys))
      ([], []) (scanned r) in
  let? _ := rows_end (rows_err r) in
  Ok (cols, pkeys).

Definition queryForeignKeys (schema table : string) : res E (list ForeignKey) :=
  let? r := cat_foreign_keys schema table in
  let? fkeys := mapM_res id (scanned r) in
  let? _ := rows_end (rows_err r) in
  Ok fkeys.

(** The loop body of [loadSchema]: one relation. *)
Definition load_relation (rel : string * string * string) : res (load_error E) Table :=
  let '(schema, name, type_str) := rel in
  let type := TableType_of_string type_str in
  let? view_query :=
    match type with
    | TypeView =>
        let? def := map_err (LViewDef schema name) (cat_view_definition schema name) in
        Ok (default "" def)
    | TypeMaterializedView =>
        let? def := map_err (LMatViewDef schema name) (cat_matview_definition schema name) in
        Ok (default "" def)
    | _ => Ok ""
    end in
  let? (cols, pkeys) := map_err (LColumns schema name) (queryColumns schema name) in
  let? fkeys :=
    match type with
    | TypeTable => map_err (LForeignKeys schema name) (queryForeignKeys schema name)
    | _ => Ok []
    end in
  Ok {| tbl_Schema := schema; tbl_Name := name; tbl_Type := type; tbl_Columns := cols;
        tbl_PrimaryKeys := pkeys; tbl_ForeignKeys := fkeys; tbl_ViewQuery := view_query |}.

Definition loadSchema (schema : string) : res (load_error E) (gmap string Table) :=
  let? r := map_err LQuery (cat_relations schema) in
  let? tables :=
    foldM_res (λ tables row,
      let? rel := map_err LQuery row in
      let? t := load_relation rel in
      Ok (<[fullName t := t]> tables)) ∅ (scanned r) in
  let? _ := map_err LQuery (rows_end (rows_err r)) in
  Ok tables.

(** [maps.Copy(tables, schemaTables)]: the source wins. *)
Definition maps_copy {A} (dst src : gmap string A) : gmap string A := src ∪ dst.

Definition loadAll : res (load_error E) (gmap string Table) :=
  let? schemas := map_err LSchemas querySchemas in
  foldM_res (λ tables schema,
    if isSystem schema then Ok tables else
    let? schemaTables := map_err (LSchema schema) (loadSchema schema) in
    Ok (maps_copy tables schemaTables)) ∅ schemas.

End Load.
Arguments loadAll {E} C.
Arguments loadSchema {E} C schema.

(** ** Reconnecting *)

Definition second : Z := 1000000000.
Definition maxBackoff : Z := 120 * second.

(** [min(backoff*2, maxBackoff)] *)
Definition next_backoff (backoff : Z) : Z := Z.min (backoff * 2) maxBackoff.

(** The backoff before the [n]-th attempt of one [reconnectWithBackoff]. *)
Fixpoint backoff_at (n : nat) : Z :=
  match n with O => second | S n => next_backoff (backoff_at n) end.

(** ** The cache as a state machine

    [DB] is a state of the database, [load] what [loadAll] makes of it. *)
Inductive phase :=
| Loaded                   (* initial load or reconnect done, LISTEN not yet issued *)
| Listening                (* inside [listen], waiting for a notification *)
| Sending (next : phase)   (* [c.watch <- c.Snapshot()], possibly blocked *)
| Backoff (b : Z)          (* in [reconnectWithBackoff], before an attempt *)
| Stopped.

Definition tables_map := gmap string Table.

Record Cache (DB : Type) := {
  c_db : DB;                       (* the database *)
  c_tables : tables_map;           (* Cache.tables *)
  c_watch : list tables_map;       (* the buffered channel, capacity 1 *)
  c_seen : list tables_map;        (* what the reader of Watch has received *)
  c_loads : list tables_map;       (* every successful reload, oldest first *)
  c_conn : nat;                    (* Cache.conn: the hijacked connection *)
  c_open : list nat;               (* the connections that are open *)
  c_next : nat;                    (* the next connection the pool hands out *)
  c_pending : nat;                 (* notifications sent to the connection *)
  c_missed : bool;                 (* a change was notified while nobody listened *)
  c_phase : phase
}.
Arguments c_db {DB}. Arguments c_tables {DB}. Arguments c_watch {DB}. Arguments c_seen {DB}.
Arguments c_loads {DB}. Arguments c_conn {DB}. Arguments c_open {DB}. Arguments c_next {DB}.
Arguments c_pending {DB}. Arguments c_missed {DB}. Arguments c_phase {DB}.

Definition watch_capacity : nat := 1.

Section Machine.
Context {DB E : Type} (load : DB → res E tables_map).

(** [Snapshot]: a copy of the map, under the read lock. *)
Definition Snapshot (c : Cache DB) : tables_map := c_tables c.

(** A successful [reload] up to its send: the new map replaces the old one. *)
Definition reloaded (c : Cache DB) (tables : tables_map) (next : phase) : Cache DB :=
  {| c_db := c_db c; c_tables := tables; c_watch := c_watch c; c_seen := c_seen c;
     c_loads := c_loads c ++ [tables]; c_conn := c_conn c; c_open := c_open c;
     c_next := c_next c; c_pending := c_pending c; c_missed := false;
     c_phase := Sending next |}.

Definition set_phase (c : Cache DB) (p : phase) : Cache DB :=
  {| c_db := c_db c; c_tables := c_tables c; c_watch := c_watch c; c_seen := c_seen c;
     c_loads := c_loads c; c_conn := c_conn c; c_open := c_open c; c_next := c_next c;
     c_pending := c_pending c; c_missed := c_missed c; c_phase := p |}.

Definition set_pending (c : Cache DB) (n : nat) : Cache DB :=
  {| c_db := c_db c; c_tables := c_tables c; c_watch := c_watch c; c_seen := c_seen c;
     c_loads := c_loads c; c_conn := c_conn c; c_open := c_open c; c_next := c_next c;
     c_pending := n; c_missed := c_missed c; c_phase := c_phase c |}.

(** The send of [reload] and the receive of a reader. *)
Definition sent (c : Cache DB) (next : phase) : Cache DB :=
  {| c_db := c_db c; c_tables := c_tables c; c_watch := c_watch c ++ [Snapshot c];
     c_seen := c_seen c; c_loads := c_loads c; c_conn := c_conn c; c_open := c_open c;
     c_next := c_next c; c_pending := c_pending c; c_missed := c_missed c; c_phase := next |}.
Definition received (c : Cache DB) (t : tables_map) (ts : list tables_map) : Cache DB :=
  {| c_db := c_db c; c_tables := c_tables c; c_watch := ts; c_seen := c_seen c ++ [t];
     c_loads := c_loads c; c_conn := c_conn c; c_open := c_open c; c_next := c_next c;
     c_pending := c_pending c; c_missed := c_missed c; c_phase := c_phase c |}.

(** The database commits a change and notifies the channel: the notification
    is queued for a connection that listens, and lost otherwise. *)
Definition listens (p : phase) : bool :=
  match p with Listening | Sending Listening => true | _ => false end.
Definition changed (c : Cache DB) (db : DB) : Cache DB :=
  {| c_db := db; c_tables := c_tables c; c_watch := c_watch c; c_seen := c_seen c;
     c_loads := c_loads c; c_conn := c_conn c; c_open := c_open c; c_next := c_next c;
     c_pending := if listens (c_phase c) then S (c_pending c) else c_pending c;
     c_missed := if listens (c_phase c) then c_missed c else true;
     c_phase := c_phase c |}.

(** [reconnect] after [Acquire]: swap the connection, close the old one. *)
Definition reconnected (c : Cache DB) : Cache DB :=
  {| c_db := c_db c; c_tables := c_tables c; c_watch := c_watch c; c_seen := c_seen c;
     c_loads := c_loads c; c_conn := c_next c;
     c_open := c_next c :: List.remove Nat.eq_dec (c_conn c) (c_open c);
     c_next := S (c_next c); c_pending := 0; c_missed := c_missed c; c_phase := c_phase c |}.

(** [NewCache], then [Init] up to the end of its load. *)
Definition init (db : DB) (tables : tables_map) : Cache DB :=
  {| c_db := db; c_tables := tables; c_watch := []; c_seen := []; c_loads := [tables];
     c_conn := 0; c_open := [0%nat]; c_next := 1; c_pending := 0; c_missed := false;
     c_phase := Sending Loaded |}.

Inductive step : Cache DB → Cache DB → Prop :=
(* the updating goroutine *)
| step_send c next :
    c_phase c = Sending next → (length (c_watch c) < watch_capacity)%nat → step c (sent c next)
| step_listen c :
    c_phase c = Loaded → step c (set_phase c Listening)
| step_notified c tables :
    c_phase c = Listening → (0 < c_pending c)%nat → load (c_db c) = Ok tables →
    step c (reloaded (set_pending c (pred (c_pending c))) tables Listening)
| step_notified_err c e :     (* the error is printed and the loop goes on *)
    c_phase c = Listening → (0 < c_pending c)%nat → load (c_db c) = Err e →
    step c (set_pending c (pred (c_pending c)))
| step_conn_lost c :
    c_phase c = Listening ∨ c_phase c = Loaded → step c (set_phase c (Backoff second))
| step_reconnect c b tables :
    c_phase c = Backoff b → load (c_db c) = Ok tables →
    step c (reloaded (reconnected c) tables Loaded)
| step_acquire_err c b :
    c_phase c = Backoff b → step c (set_phase c (Backoff (next_backoff b)))
| step_reconnect_err c b e :
    c_phase c = Backoff b → load (c_db c) = Err e →
    step c (set_phase (reconnected c) (Backoff (next_backoff b)))
| step_cancel c :
    (∀ next, c_phase c ≠ Sending next) → step c (set_phase c Stopped)
(* the reader of Watch, and the database *)
| step_receive c t ts :
    c_watch c = t :: ts → step c (received c t ts)
| step_change c db :
    step c (changed c db).

Inductive reachable : Cache DB → Prop :=
| reach_init db tables : load db = Ok tables → reachable (init db tables)
| reach_step c c' : reachable c → step c c' → reachable c'.

End Machine.
