(* ===== verification/SchemaCacheProps.v ===== *)
(** * SchemaCacheProps: what the cache holds and when it is fresh.

    The table map holds exactly the relations of the non-system schemas, each
    under its own name; readers of [Watch] receive every load in order; exactly
    one dedicated connection is open at a time; the backoff stays between a
    second and two minutes; and the map is the database's unless a change was
    notified while the connection was not listening, which the order of the
    load and the LISTEN allows. *)

From S2P Require Import Prelude GoStrings Schema SchemaCache.
Local Open Scope Z_scope.

(** ** Loading *)

Lemma foldM_res_inv {E S A} (f : S → A → res E S) (P : S → Prop) l s s' :
  (∀ s x s', x ∈ l → P s → f s x = Ok s' → P s') → P s → foldM_res f s l = Ok s' → P s'.
Proof.
  revert s. induction l as [|x l IH]; intros s Hf Hs; cbn [foldM_res]; [by intros [= <-]|].
  intros (s1 & H1 & H2)%res_bind_ok. eapply IH; [|by eapply Hf; [constructor|..]|done].
  intros s2 y s3 Hy. apply Hf. by constructor.
Qed.

(** Every element leaves a trace in the final state that later ones keep. *)
Lemma foldM_res_all {E S A} (f : S → A → res E S) (Q : A → S → Prop) l s s' :
  (∀ s x s', x ∈ l → f s x = Ok s' → Q x s') →
  (∀ s x y s', x ∈ l → Q y s → f s x = Ok s' → Q y s') →
  foldM_res f s l = Ok s' → ∀ x, x ∈ l → Q x s'.
Proof.
  revert s. induction l as [|x l IH]; intros s Hnew Hkeep; cbn [foldM_res]; [by intros _ x ?%elem_of_nil|].
  intros (s1 & H1 & H2)%res_bind_ok y Hy. apply elem_of_cons in Hy as [Hy|Hy].
  - subst y. eapply (foldM_res_inv f (Q x)); [|eapply Hnew; [constructor | exact H1]|exact H2].
    intros s2 z s3 Hz Hq. eapply Hkeep; [by constructor | exact Hq].
  - apply (IH s1); [| |done|done].
    + intros s2 z s3 Hz. apply Hnew. by constructor.
    + intros s2 z w s3 Hz. apply Hkeep. by constructor.
Qed.

Section Load.
Context {E : Type} `{C : Catalog E}.

(** The columns of a table are its catalog rows, in order, and its primary
    keys are the names of the columns that are flagged as such. *)
Theorem queryColumns_spec schema table cols pkeys :
  queryColumns schema table = Ok (cols, pkeys) →
  ∃ r rows, cat_columns schema table = Ok r ∧ scanned r = Ok <$> rows ∧ rows_err r = None ∧
    cols = column_of_row <$> rows ∧
    pkeys = col_Name <$> filter (λ c, col_IsPrimaryKey c = true) cols.
Proof.
  unfold queryColumns. intros (r & Hr & ([cols' pkeys'] & Hf & Hend)%res_bind_ok)%res_bind_ok.
  apply res_bind_ok in Hend as ([] & Hend & [= <- <-]).
  assert (rows_err r = None) as Hnone by (by destruct (rows_err r)).
  set (f := λ (acc : list Column * list string) (row : res E column_row),
      let? row := row in let col := column_of_row row in let '(cols, pkeys) := acc in
      Ok (cols ++ [col], if col_IsPrimaryKey col then pkeys ++ [col_Name col] else pkeys)) in Hf.
  assert (∀ l cs ps cs' ps', ps = col_Name <$> filter (λ c, col_IsPrimaryKey c = true) cs →
    foldM_res f (cs, ps) l = Ok (cs', ps') →
    ∃ rows, l = Ok <$> rows ∧ cs' = cs ++ (column_of_row <$> rows) ∧
      ps' = col_Name <$> filter (λ c, col_IsPrimaryKey c = true) cs') as Hall.
  { clear. induction l as [|x l IH]; intros cs ps cs' ps' Hps; cbn [foldM_res].
    { intros [= <- <-]. exists []. by rewrite app_nil_r. }
    intros ([cs1 ps1] & H1 & H2)%res_bind_ok. unfold f in H1. destruct x as [row|]; [|done].
    cbn [res_bind] in H1. injection H1 as <- <-. apply IH in H2 as (rows & -> & -> & Hp).
    - rewrite <-app_assoc in Hp |- *. exists (row :: rows). by split_and!.
    - rewrite filter_app, fmap_app, <-Hps.
      destruct (col_IsPrimaryKey (column_of_row row)) eqn:Hk.
      + rewrite filter_cons_True by done. simpl in Hk. by rewrite Hk.
      + rewrite filter_cons_False by (by rewrite Hk). simpl in Hk. by rewrite Hk, app_nil_r. }
  apply Hall in Hf as (rows & Hs & -> & Hp); [|done]. exists r, rows. by rewrite app_nil_l in Hp |- *.
Qed.

Lemma load_relation_name schema name ty t :
  load_relation (schema, name, ty) = Ok t → tbl_Schema t = schema ∧ tbl_Name t = name.
Proof.
  unfold load_relation. intros (v & _ & ([cols pkeys] & _ & (fk & _ & [= <-])%res_bind_ok)%res_bind_ok)%res_bind_ok.
  done.
Qed.

(** The relations the catalog lists in a schema. *)
Definition lists_relation (schema : string) (rel : string * string * string) : Prop :=
  ∃ r, cat_relations schema = Ok r ∧ Ok rel ∈ scanned r.

Lemma loadSchema_spec schema tables :
  loadSchema C schema = Ok tables →
  (∀ k t, tables !! k = Some t → k = fullName t ∧
     ∃ rel, lists_relation schema rel ∧ load_relation rel = Ok t) ∧
  (∀ rel, lists_relation schema rel → is_Some (tables !! full_name rel.1.1 rel.1.2)).
Proof.
  unfold loadSchema. intros (r & Hr%map_err_ok & (tabs & Hf & ([] & _ & [= <-])%res_bind_ok)%res_bind_ok)%res_bind_ok.
  split.
  - eapply (foldM_res_inv _ (λ tabs, ∀ k t, tabs !! k = Some t → k = fullName t ∧
      ∃ rel, lists_relation schema rel ∧ load_relation rel = Ok t)); [|by intros k t ?%lookup_empty_Some|exact Hf].
    intros s x s' Hx Hs (rel & Hrel%map_err_ok & (t & Ht & [= <-])%res_bind_ok)%res_bind_ok k t'.
    rewrite lookup_insert_Some. intros [[<- <-]|[_ Hk]]; [|by apply Hs].
    split; [done|]. exists rel. split; [|done]. exists r. split; [done|]. by rewrite <-Hrel.
  - intros rel (r' & Hr' & Hrel). rewrite Hr in Hr'. injection Hr' as <-.
    eapply (foldM_res_all _ (λ x (tabs : gmap string Table), ∀ rel, x = Ok rel →
      is_Some (tabs !! full_name rel.1.1 rel.1.2)) (scanned r) ∅ tabs); [| |exact Hf|exact Hrel|done].
    + intros s x s' _ (rel' & Hrel'%map_err_ok & (t & Ht & [= <-])%res_bind_ok)%res_bind_ok rel'' ->.
      injection Hrel' as ->. destruct rel' as [[sc nm] ty]. apply load_relation_name in Ht as [<- <-].
      exists t. apply lookup_insert_eq.
    + intros s x y s' _ Hs (rel' & _ & (t & Ht & [= <-])%res_bind_ok)%res_bind_ok rel'' Hy.
      apply lookup_insert_is_Some'. right. by apply Hs.
Qed.

(** The table map holds exactly the relations of the schemas that are not
    the system's, each under "schema.name", with the table loaded for one of
    the relations of that name. *)
Theorem loadAll_spec tables :
  loadAll C = Ok tables →
  ∃ schemas, querySchemas = Ok schemas ∧
    (∀ k t, tables !! k = Some t → k = fullName t ∧
       ∃ schema rel, schema ∈ schemas ∧ isSystem schema = false ∧
         lists_relation schema rel ∧ load_relation rel = Ok t) ∧
    (∀ schema rel, schema ∈ schemas → isSystem schema = false → lists_relation schema rel →
       is_Some (tables !! full_name rel.1.1 rel.1.2)).
Proof.
  unfold loadAll. intros (schemas & Hs%map_err_ok & Hf)%res_bind_ok. exists schemas. split; [done|]. split.
  - eapply (foldM_res_inv _ (λ tables : gmap string Table, ∀ k t, tables !! k = Some t → k = fullName t ∧
      ∃ schema rel, schema ∈ schemas ∧ isSystem schema = false ∧ lists_relation schema rel ∧
        load_relation rel = Ok t)); [|by intros k t ?%lookup_empty_Some|exact Hf].
    intros s schema s' Hin Hinv. cbv beta. destruct (isSystem schema) eqn:Hsys; [by intros [= <-]|].
    intros (st & Hst%map_err_ok & [= <-])%res_bind_ok k t Hk.
    apply lookup_union_Some_raw in Hk as [Hk|[_ Hk]]; [|by apply Hinv].
    apply loadSchema_spec in Hst as [Hst _]. destruct (Hst k t Hk) as (-> & rel & ? & ?).
    split; [done|]. by exists schema, rel.
  - intros schema rel Hin Hsys Hrel.
    eapply (foldM_res_all _ (λ schema (tables : gmap string Table), isSystem schema = false →
      ∀ rel, lists_relation schema rel → is_Some (tables !! full_name rel.1.1 rel.1.2)) schemas ∅ tables);
      [| |exact Hf|exact Hin|done|done].
    + intros s x s' _ Hx Hsx rel' Hrel'. cbv beta in Hx. rewrite Hsx in Hx.
      apply res_bind_ok in Hx as (st & Hst%map_err_ok & [= <-]). apply loadSchema_spec in Hst as [_ Hst].
      unfold maps_copy. apply lookup_union_is_Some. left. by apply Hst.
    + intros s x y s' _ Hy Hx Hsy rel' Hrel'. cbv beta in Hx. specialize (Hy Hsy rel' Hrel').
      destruct (isSystem x); [by injection Hx as <-|].
      apply res_bind_ok in Hx as (st & _ & [= <-]). apply lookup_union_is_Some. by right.
Qed.

End Load.

(** ** Backoff *)

(** The wait before the n-th attempt to reconnect doubles from one second
    up to two minutes, and never overflows. *)
Theorem backoff_at_spec n :
  backoff_at n = Z.min (2 ^ Z.of_nat n * second) maxBackoff ∧
  second ≤ backoff_at n ≤ maxBackoff ∧ backoff_at n * 2 < 2 ^ 63.
Proof.
  assert (backoff_at n = Z.min (2 ^ Z.of_nat n * second) maxBackoff) as E.
  { induction n as [|n IH]; [done|]. cbn [backoff_at]. unfold next_backoff. rewrite IH.
    rewrite Nat2Z.inj_succ, Z.pow_succ_r by lia. unfold maxBackoff, second. lia. }
  assert (0 < 2 ^ Z.of_nat n) by (apply Z.pow_pos_nonneg; lia).
  unfold maxBackoff, second in *. split; [done|]. rewrite E. lia.
Qed.

(** ** The machine *)

Section Machine.
Context {DB E : Type} (load : DB → res E tables_map).
Local Notation step := (step load).
Local Notation reachable := (reachable load).

Definition sending (p : phase) (c : Cache DB) : list tables_map :=
  match p with Sending _ => [c_tables c] | _ => [] end.

Lemma sending_next c next :
  reachable c → c_phase c = Sending next → next = Loaded ∨ next = Listening.
Proof.
  intros Hr. revert next. induction Hr as [db tables Hl|c c' Hr IH Hs]; [intros next [= <-]; auto|].
  intros next Hn. destruct Hs; simpl in Hn; try discriminate Hn; try (injection Hn as <-; by auto);
    try (by apply IH). subst. edestruct IH as [E'|E']; [eassumption|discriminate E'..].
Qed.

Lemma not_sending p c : (∀ next, p ≠ Sending next) → sending p c = [].
Proof. intros Hp. destruct p; try done. by edestruct Hp. Qed.

Lemma reachable_deliveries c : reachable c →
  c_seen c ++ c_watch c ++ sending (c_phase c) c = c_loads c ∧
  (length (c_watch c) ≤ watch_capacity)%nat ∧ ∃ l, c_loads c = l ++ [c_tables c].
Proof.
  induction 1 as [db tables Hl|c c' Hr (Hd & Hw & l & Hlast) Hs];
    [split_and!; [done | unfold watch_capacity; simpl; lia | by exists []]|].
  assert (∀ p, (∀ next, p ≠ Sending next) → sending p c = []) as Hno by (intros; by apply not_sending).
  destruct Hs as [c next Hp Hlen|c Hp|c tables Hp Hn Hl|c e Hp Hn Hl|c Hp|c b tables Hp Hl|c b Hp|c b e Hp Hl
    |c Hp|c t ts Hw'|c db]; cbn [c_seen c_watch c_loads c_tables c_phase sent received changed set_phase
      set_pending reloaded reconnected]; (split; [|split; [|by eauto]]); try done;
    try (rewrite Hp in Hd; cbn [sending] in *; rewrite ?app_nil_r in *; by rewrite ?app_assoc, Hd).
  - rewrite Hp in Hd. cbn [sending] in Hd. destruct (sending_next c next Hr Hp) as [-> | ->];
      cbn [sending]; by rewrite app_nil_r.
  - rewrite length_app. unfold watch_capacity in *. simpl. lia.
  - rewrite Hno in Hd; [by rewrite app_nil_r in Hd |-*|]. intros next. destruct Hp; congruence.
  - rewrite Hno in Hd; [by rewrite app_nil_r in Hd |- *|done].
  - rewrite Hw' in Hd. cbn [app] in Hd. rewrite <-app_assoc. exact Hd.
  - rewrite Hw' in Hw. simpl in Hw. lia.
Qed.

(** C39: readers of [Watch] receive every successful load, in order and without
    a gap: what they have seen, what is in the channel and what is being sent
    are together the loads so far, and [Snapshot] is the last of them. *)
Theorem watch_delivers_loads c :
  reachable c →
  c_seen c ++ c_watch c ++ sending (c_phase c) c = c_loads c ∧
  (length (c_watch c) ≤ watch_capacity)%nat ∧ List.last (c_loads c) ∅ = Snapshot c.
Proof.
  intros (Hd & Hw & l & Hl)%reachable_deliveries. split; [done|]. split; [done|].
  by rewrite Hl, List.last_last.
Qed.

(** A load waits for the reader: once the channel is full, the goroutine
    that updates the cache neither reloads, reconnects nor stops until a value
    is received. *)
Theorem full_channel_blocks c c' next :
  c_phase c = Sending next → (length (c_watch c) = watch_capacity)%nat → step c c' →
  c_phase c' = Sending next ∧ c_tables c' = c_tables c ∧ c_conn c' = c_conn c ∧
  (c_watch c' = c_watch c ∨ ∃ t, c_watch c = t :: c_watch c').
Proof.
  intros Hp Hw Hs. destruct Hs as [c next' Hp' Hlen|c Hp'|c tables Hp' Hn Hl|c e Hp' Hn Hl|c Hp'
    |c b tables Hp' Hl|c b Hp'|c b e Hp' Hl|c Hno|c t ts Hw'|c db]; try congruence.
  - lia.
  - destruct Hp'; congruence.
  - split_and!; try done. right. eauto.
  - split_and!; try done. by left.
Qed.

(** The cache holds exactly one open dedicated connection at any time, so
    reconnecting neither leaks nor shares one. *)
Theorem one_connection c : reachable c → c_open c = [c_conn c] ∧ (c_conn c < c_next c)%nat.
Proof.
  induction 1 as [db tables Hl|c c' Hr [Ho Hn] Hs]; [split; [done | simpl; lia]|].
  destruct Hs; simpl; try done; rewrite Ho; simpl; (destruct (Nat.eq_dec _ _); [|done]); split; auto with lia.
Qed.

(** In any run the backoff is one of the waits of [backoff_at]. *)
Theorem reachable_backoff c b : reachable c → c_phase c = Backoff b → ∃ n, b = backoff_at n.
Proof.
  intros Hr. revert b. induction Hr as [db tables Hl|c c' Hr IH Hs]; [done|].
  intros b' Hb. destruct Hs as [c next Hp Hlen|c Hp|c tables Hp Hn Hl|c e Hp Hn Hl|c Hp
    |c b tables Hp Hl|c b Hp|c b e Hp Hl|c Hno|c t ts Hw'|c db]; simpl in Hb; try discriminate Hb;
    try (by apply IH).
  - destruct (sending_next c next Hr Hp) as [E'|E']; congruence.
  - injection Hb as <-. by exists 0%nat.
  - injection Hb as <-. destruct (IH b Hp) as [n ->]. by exists (S n).
  - injection Hb as <-. destruct (IH b Hp) as [n ->]. by exists (S n).
Qed.

(** When the catalog can be loaded, the cached map is the one of the current
    database unless a notification is waiting or a change fell into a moment
    when the connection was not listening. *)
Theorem cache_fresh c :
  (∀ db, ∃ tables, load db = Ok tables) →
  reachable c → c_missed c = false → c_pending c = 0%nat → load (c_db c) = Ok (Snapshot c).
Proof.
  intros Htotal. induction 1 as [db tables Hl|c c' Hr IH Hs]; [done|]. unfold Snapshot in *.
  destruct Hs; simpl in *; try done; try (by apply IH).
  - intros. destruct (Htotal (c_db c)) as [??]. congruence.
  - intros. destruct (Htotal (c_db c)) as [??]. congruence.
  - destruct (listens (c_phase c)); done.
Qed.

End Machine.

(** A database that gains a table. *)
Definition toggled (db : bool) : res unit tables_map :=
  Ok (if db then <["public.t" := zeroTable]> ∅ else ∅).

(** The load comes before the LISTEN, both at the start and after a
    reconnect: a change in between is never seen, and the cache then waits for
    notifications with the old tables although nothing is pending. *)
Theorem missed_change_is_stale :
  ∃ c : Cache bool,
    reachable (E := unit) toggled c ∧
    c_phase c = Listening ∧ c_pending c = 0%nat ∧ c_watch c = [] ∧
    c_db c = true ∧ Snapshot c = ∅.
Proof.
  set (c0 := init false (∅ : tables_map)).
  set (c1 := sent c0 Loaded). set (c2 := received c1 ∅ []). set (c3 := changed c2 true).
  exists (set_phase c3 Listening). split_and!; try done.
  apply reach_step with c3; [|by apply step_listen].
  apply reach_step with c2; [|apply step_change].
  apply reach_step with c1; [|by apply step_receive].
  apply reach_step with c0; [by apply reach_init | apply step_send; simpl; [done | unfold watch_capacity; lia]].
Qed.

(** ** Witnesses *)

(** A catalog with one view of two columns in the schema app. *)
Definition one_row {A} (x : A) : result string A := {| scanned := [Ok x]; rows_err := None |}.
Definition id_row (name : string) (pk : bool) : column_row := {|
  cr_name := name; cr_data_type := "integer"; cr_udt_schema := "pg_catalog"; cr_udt_name := "int4";
  cr_kind := Some "b"; cr_elem_kind := None; cr_nullable := negb pk; cr_pk := pk |}.
Definition app_catalog : Catalog string := {|
  cat_schemata := Ok {| scanned := [Ok "pg_catalog"; Ok "app"]; rows_err := None |};
  cat_relations := λ schema,
    if bool_decide (schema = "app") then Ok (one_row ("app", "users", "VIEW")) else Err "denied";
  cat_view_definition := λ _ _, Ok (Some "SELECT 1");
  cat_matview_definition := λ _ _, Err "none";
  cat_columns := λ _ _, Ok {| scanned := [Ok (id_row "id" true); Ok (id_row "age" false)]; rows_err := None |};
  cat_foreign_keys := λ _ _, Err "none" |}.

Lemma queryColumns_spec_witness :
  ∃ cols pkeys, queryColumns (C := app_catalog) "app" "users" = Ok (cols, pkeys) ∧
    pkeys = col_Name <$> filter (λ c, col_IsPrimaryKey c = true) cols ∧ pkeys = ["id"].
Proof.
  assert (∃ p, queryColumns (C := app_catalog) "app" "users" = Ok p) as [[cols pkeys] H]
    by (eexists; vm_compute; reflexivity).
  exists cols, pkeys. split; [exact H|].
  destruct (queryColumns_spec (C := app_catalog) _ _ _ _ H) as (r & rows & _ & _ & _ & _ & Hp).
  split; [exact Hp|]. injection H as _ <-. reflexivity.
Defined.

Lemma loadAll_spec_witness :
  ∃ tables t, loadAll app_catalog = Ok tables ∧ tables !! "app.users" = Some t ∧ fullName t = "app.users".
Proof.
  assert (∃ tables, loadAll app_catalog = Ok tables) as [tables H] by (eexists; vm_compute; reflexivity).
  destruct (loadAll_spec (C := app_catalog) _ H) as (schemas & Hs & Hsound & Hcomplete).
  injection Hs as <-.
  destruct (Hcomplete "app" ("app", "users", "VIEW")) as [t Ht].
  - apply list_elem_of_lookup. by exists 1%nat.
  - reflexivity.
  - exists (one_row ("app", "users", "VIEW")). split; [reflexivity | constructor].
  - exists tables, t. split; [exact H|]. split; [exact Ht|]. symmetry. apply (Hsound _ _ Ht).
Defined.

(** A run: a change is notified after the LISTEN, and loaded. *)
Definition run_0 : Cache bool := init false ∅.
Definition run_1 : Cache bool := received (sent run_0 Loaded) ∅ [].
Definition run_2 : Cache bool := changed (set_phase run_1 Listening) true.
Definition run_3 : Cache bool :=
  reloaded (set_pending run_2 0) {["public.t" := zeroTable]} Listening.

Lemma run_3_reachable : reachable (E := unit) toggled run_3.
Proof.
  apply reach_step with run_2; [|by apply step_notified; [| simpl; lia |]].
  apply reach_step with (set_phase run_1 Listening); [|apply step_change].
  apply reach_step with run_1; [|by apply step_listen].
  apply reach_step with (sent run_0 Loaded); [|by apply step_receive].
  apply reach_step with run_0; [by apply reach_init | apply step_send; simpl; [done | unfold watch_capacity; lia]].
Qed.

Lemma watch_delivers_loads_witness :
  c_phase run_3 = Sending Listening ∧
  c_seen run_3 ++ c_watch run_3 ++ sending (c_phase run_3) run_3 = c_loads run_3.
Proof. split; [reflexivity|]. apply (watch_delivers_loads toggled run_3 run_3_reachable). Defined.

Lemma full_channel_blocks_witness :
  let c := reloaded (sent run_3 Listening) ∅ Listening in
  length (c_watch c) = watch_capacity ∧ c_phase (changed c false) = Sending Listening.
Proof.
  intros c. split; [reflexivity|].
  apply (full_channel_blocks (E := unit) toggled c (changed c false) Listening); [reflexivity..|apply step_change].
Defined.

Lemma one_connection_witness : c_open run_3 = [c_conn run_3].
Proof. apply (one_connection toggled run_3 run_3_reachable). Defined.

(** After a lost connection and one failed attempt. *)
Definition run_lost : Cache bool := set_phase (set_phase run_1 (Backoff second)) (Backoff (next_backoff second)).
Lemma reachable_backoff_witness : ∃ n, next_backoff second = backoff_at n.
Proof.
  apply (reachable_backoff (E := unit) toggled run_lost); [|reflexivity].
  apply reach_step with (set_phase run_1 (Backoff second)); [|by apply (step_acquire_err _ (set_phase run_1 _))].
  apply reach_step with run_1; [|apply step_conn_lost; by right].
  apply reach_step with (sent run_0 Loaded); [|by apply step_receive].
  apply reach_step with run_0; [by apply reach_init | apply step_send; simpl; [done | unfold watch_capacity; lia]].
Defined.

Lemma cache_fresh_witness : c_db run_3 = true ∧ toggled (c_db run_3) = Ok (Snapshot run_3).
Proof.
  split; [reflexivity|]. apply (cache_fresh (E := unit) toggled run_3); [|exact run_3_reachable | reflexivity..].
  intros db. unfold toggled. eauto.
Defined.
