(* ===== verification/Http.v ===== *)
(** * Http: requests, responses and the request's database connection,
    [pkg/httputil/context.go] and [postgres.go].

    A handler is a function on the state of one request ([World]): the pooled
    connections acquired for it and given back, the statements it has run, and
    what it has written to the client. What the database answers is an argument
    (class [Database]); an answer may depend on the statements run before. *)

From S2P Require Import Prelude GoStrings GoAny FilterSQL Query.
Local Open Scope Z_scope.

(** ** Requests *)

(** The values middleware stores in the request's context. A pooled connection
    is known by its number: the order in which the request acquired it. *)
Record Ctx := {
  ctx_OIDCUser : option (gmap string any);
  ctx_BasicAuth : option string;
  ctx_PgConn : option nat;
  ctx_OIDCRoleClaim : option string;
  ctx_RequestID : option string;
  ctx_LogEntry : bool               (* a logger is present *)
}.

(** The context a request arrives with. *)
Definition background : Ctx :=
  {| ctx_OIDCUser := None; ctx_BasicAuth := None; ctx_PgConn := None; ctx_OIDCRoleClaim := None;
     ctx_RequestID := None; ctx_LogEntry := false |}.

(** A request body as the JSON decoder sees it: a value, or an error. *)
Record Request := {
  req_Method : string;
  req_Path : string;
  req_Query : Values;
  req_Header : gmap string string;  (* the first value of each header *)
  req_Ctx : Ctx;
  req_Body : string;
  req_ContentLength : Z
}.

(** [r.Header.Get(key)] *)
Definition Header_Get (r : Request) (key : string) : string := default "" (req_Header r !! key).
Definition req_Prefer (r : Request) : string := Header_Get r "Prefer".
(** [r.WithContext(ctx)] *)
Definition WithContext (r : Request) (c : Ctx) : Request :=
  {| req_Method := req_Method r; req_Path := req_Path r; req_Query := req_Query r;
     req_Header := req_Header r; req_Ctx := c; req_Body := req_Body r;
     req_ContentLength := req_ContentLength r |}.

(** The environment variables the package reads; an unset variable is [None]. *)
Record Env := { env_anon_role : option string; env_jwt_claims : option string }.

(** ** Responses *)

Inductive body := BJSON (v : any) | BHTML (s : string) | BText (s : string) | BNone.

(** One [WriteHeader] with its body. *)
Record response := { rsp_status : Z; rsp_headers : gmap string (list string); rsp_body : body }.

(** A line of the request log: its level and its attributes. *)
Record log_entry := { log_Level : Z; log_Attrs : list (string * string) }.

Record World := {
  w_acquired : nat;                        (* connections acquired *)
  w_released : list nat;                   (* connections given back *)
  w_sql : list (string * argList);         (* statements, oldest first *)
  w_headers : gmap string (list string);   (* w.Header() *)
  w_written : list response;               (* responses written *)
  w_log : list log_entry
}.

(** The state when a request arrives. *)
Definition initial_world : World :=
  {| w_acquired := 0; w_released := []; w_sql := []; w_headers := ∅; w_written := []; w_log := [] |}.

Definition with_headers (h : gmap string (list string)) (w : World) : World :=
  {| w_acquired := w_acquired w; w_released := w_released w; w_sql := w_sql w; w_headers := h;
     w_written := w_written w; w_log := w_log w |}.
(** [w.Header().Set(k, v)] and [w.Header().Add(k, v)] *)
Definition set_header (k v : string) (w : World) : World := with_headers (<[k := [v]]> (w_headers w)) w.
Definition add_header (k v : string) (w : World) : World :=
  with_headers (<[k := default [] (w_headers w !! k) ++ [v]]> (w_headers w)) w.

Definition run_sql (sql : string) (args : argList) (w : World) : World :=
  {| w_acquired := w_acquired w; w_released := w_released w; w_sql := w_sql w ++ [(sql, args)];
     w_headers := w_headers w; w_written := w_written w; w_log := w_log w |}.
(** A connection taken out of the pool: the next number. *)
Definition acquired (w : World) : World :=
  {| w_acquired := S (w_acquired w); w_released := w_released w; w_sql := w_sql w;
     w_headers := w_headers w; w_written := w_written w; w_log := w_log w |}.
Definition log_line (e : log_entry) (w : World) : World :=
  {| w_acquired := w_acquired w; w_released := w_released w; w_sql := w_sql w;
     w_headers := w_headers w; w_written := w_written w; w_log := w_log w ++ [e] |}.
(** [conn.Release]; a second call does nothing. *)
Definition release (conn : nat) (w : World) : World :=
  {| w_acquired := w_acquired w;
     w_released := if bool_decide (conn ∈ w_released w) then w_released w else w_released w ++ [conn];
     w_sql := w_sql w; w_headers := w_headers w; w_written := w_written w; w_log := w_log w |}.
Definition write (status : Z) (b : body) (w : World) : World :=
  {| w_acquired := w_acquired w; w_released := w_released w; w_sql := w_sql w; w_headers := w_headers w;
     w_written := w_written w ++ [{| rsp_status := status; rsp_headers := w_headers w; rsp_body := b |}]; w_log := w_log w |}.

(** [httputil.Error] *)
Definition error_body (status : Z) (message : string) : any :=
  AObj (list_to_map [("code", AInt KInt status); ("message", AStr message)]).
Definition Error (status : Z) (message : string) (w : World) : World :=
  write status (BJSON (error_body status message)) (set_header "Content-Type" "application/json" w).

(** [httputil.JSON]: a value that cannot be encoded is an error response. *)
Definition JSON `{GoFloat} (status : Z) (v : any) (w : World) : World :=
  match Marshal v with
  | None => Error 500 "failed to marshal response" w
  | Some _ => write status (BJSON v) (set_header "Content-Type" "application/json" w)
  end.

Definition HTML (status : Z) (html : string) (w : World) : World :=
  write status (BHTML html) (set_header "Content-Type" "text/html; charset=utf-8" w).

(** ** The connection of a request *)

(** An error the program makes up has no severity. *)
Record PgError := { pg_Severity : string; pg_Code : string; pg_Message : string }.
Definition new_PgError (code message : string) : PgError :=
  {| pg_Severity := ""; pg_Code := code; pg_Message := message |}.

Class Database := {
  (* [conn.Exec] of a statement without parameters: [None] is success; an error
     may be one of PostgreSQL's or another one *)
  db_exec : list (string * argList) → string → option (option PgError);
  (* [conn.QueryRow(...).Scan(&n)] *)
  db_query_int : list (string * argList) → string → argList → res string Z;
  (* [conn.Query]; the rows may end in an error *)
  db_query : list (string * argList) → string → argList → res string (row_stream string);
  (* [pgx.CollectRows(rows, pgx.RowToMap)] *)
  pgx_CollectRows : row_stream string → res string (list (gmap string any))
}.

(** A non-empty string in the context. *)
Definition nonempty (o : option string) : option string :=
  match o with Some s => if bool_decide (s = "") then None else Some s | None => None end.

Definition Conn (r : Request) : res PgError (gmap string any * nat) :=
  let c := req_Ctx r in
  let? user :=
    match ctx_OIDCUser c with
    | Some user => Ok user
    | None =>
        match nonempty (ctx_BasicAuth c) with
        | Some basicUser =>
            Ok (list_to_map [("sub", AStr basicUser); ("username", AStr basicUser)])
        | None =>
            match nonempty (ctx_OIDCRoleClaim c) with
            | None => Err (new_PgError "28000" "User not found in context and anonymous role not configured")
            | Some anonRole => Ok (list_to_map [("sub", AStr "anon"); ("role", AStr anonRole)])
            end
        end
    end in
  match ctx_PgConn c with
  | Some conn => Ok (user, conn)
  | None => Err (new_PgError "08003" "Failed to get connection from context")
  end.

Definition request_role (env : Env) (c : Ctx) : option string :=
  match nonempty (ctx_OIDCRoleClaim c) with
  | Some role => Some role
  | None => match nonempty (ctx_BasicAuth c) with
            | Some basicUser => Some basicUser
            | None => nonempty (env_anon_role env)
            end
  end.

(** The two statements [ConnWithRole] sends in one string. *)
Definition role_query (env : Env) (role claimsJSON : string) : string :=
  let escapedClaimsJSON := ReplaceAll claimsJSON "'" "''" in
  let reqClaims := default "request.jwt.claims" (env_jwt_claims env) in
  ("SET ROLE " +:+ role +:+ ";") +:+ ("SET " +:+ reqClaims +:+ " TO '" +:+ escapedClaimsJSON +:+ "';").

Section Conn.
Context `{GF : GoFloat} `{DB : Database}.

Definition ConnWithRole (env : Env) (r : Request) (w : World)
    : res PgError (gmap string any * nat) * World :=
  match Conn r with
  | Err e => (Err e, w)
  | Ok (user, conn) =>
      match request_role env (req_Ctx r) with
      | None => (Err (new_PgError "28000" "Role not found in context"), w)
      | Some role =>
          match Marshal (AObj user) with
          | None => (Err (new_PgError "28000" "Failed to marshal claims"), w)
          | Some claimsJSON =>
              let q := role_query env role claimsJSON in
              match db_exec (w_sql w) q with
              | None => (Ok (user, conn), run_sql q [] w)
              | Some e =>
                  (Err (default (new_PgError "P0000" "Failed to set role and claims") e),
                   release conn w)
              end
          end
      end
  end.

End Conn.

(** [pgErr.Error()] of pgx. *)
Definition PgError_text (e : PgError) : string :=
  pg_Severity e +:+ ": " +:+ pg_Message e +:+ " (SQLSTATE " +:+ pg_Code e +:+ ")".
