(* ===== verification/Server.v ===== *)
(** * Server: the table handlers of [pkg/rest/server.go].

    From a request to statements on its connection and one response: routing a
    path to a table of the schema cache, the four methods, the count for
    Content-Range, and the release of the connection. *)

From S2P Require Import Prelude GoStrings GoAny Schema FilterParser FilterSQL Headers OrderBy.
From S2P Require Import Query Http.
Local Open Scope Z_scope.

(** What the handlers read of the [Server] value: the base path, whether nulls
    are omitted, and the snapshot of the schema cache at each call. *)
Record Server := {
  srv_basePath : string;
  srv_omitempty : bool;
  srv_snapshot : gmap string Table
}.

Definition docs_html (basePath : string) : string :=
  "<!doctype html>" +:+ String "010" "" +:+
  "<html><head><title>API Docs</title></head><body>" +:+ String "010" "" +:+
  "<script id=" +:+ quote "api-reference" +:+ " data-url=" +:+ quote (basePath +:+ "/openapi.json") +:+
  "></script>" +:+ String "010" "" +:+
  "<script src=" +:+ quote "https://cdn.jsdelivr.net/npm/@scalar/api-reference" +:+ "></script>" +:+
  String "010" "" +:+ "</body></html>".

(** The schema and the name a path selects; [Split] never returns an empty
    list, so the length check of the source always passes. *)
Definition path_target (path : string) : string * string :=
  match Split (Trim path "/") "/" with
  | schema :: table :: _ => (schema, table)
  | [table] => ("public", table)
  | [] => ("public", "")
  end.

Definition tableFromPath (s : Server) (path : string) : res string Table :=
  let '(schemaName, tableName) := path_target path in
  let tableKey := full_name schemaName tableName in
  match srv_snapshot s !! tableKey with
  | Some t => Ok t
  | None => Err ("table " +:+ tableKey +:+ " not found or unauthorized")
  end.

(** The Content-Range of a page of [n] rows in total; the arithmetic is on
    64-bit integers. *)
Definition content_range (params : QueryParams) (n : Z) : string :=
  if 0 <? Limit params then
    let start := int64 (Offset params) in
    let end_ := int64 (int64 (start + Limit params) - 1) in
    let end_ := if n <=? end_ then int64 (n - 1) else end_ in
    if n <=? start then "*/" +:+ Itoa n
    else Itoa start +:+ "-" +:+ Itoa end_ +:+ "/" +:+ Itoa n
  else "*/" +:+ Itoa n.

Section Handlers.
Context `{PI : PgxIdentifier} `{UC : Unicode} `{GF : GoFloat} `{DB : Database}.
(** How a builder error reads to the client. *)
Context (error_text : query_error → string).
Context (env : Env) (s : Server).

Definition count_params (p : QueryParams) : QueryParams :=
  {| Select := Select p; Order := Order p; Limit := 0; Offset := 0; Filters := Filters p;
     EmbedJoins := EmbedJoins p |}.

(** The block under WantsCountExact: [None] is an early return. *)
Definition exact_count (r : Request) (params : QueryParams) (w : World) : option World * World :=
  match tableFromPath s (TrimPrefix (req_Path r) (srv_basePath s)) with
  | Err e => (None, Error 404 e w)
  | Ok table =>
      match buildSelectQuery table (count_params params) with
      | Err e => (None, Error 500 ("count query build error: " +:+ error_text e) w)
      | Ok (sql, args) =>
          let countQuery := "SELECT COUNT(*) FROM (" +:+ sql +:+ ") AS count_query" in
          let answer := db_query_int (w_sql w) countQuery args in
          let w := run_sql countQuery args w in
          match answer with
          | Err e => (None, Error 500 ("count error: " +:+ e) w)
          | Ok n =>
              let w := set_header "Content-Range" (content_range params n) w in
              (Some w, w)
          end
      end
  end.

(** The rows as the response holds them: a Go slice that was never appended to
    is nil, and nil encodes as null. *)
Definition results_value (results : list (gmap string any)) : any :=
  if srv_omitempty s && bool_decide (length results = 0%nat) then ANil else AArr (AObj <$> results).

Definition collect (rows : row_stream string) : res string (list (gmap string any)) :=
  if srv_omitempty s then collectRowsOmitNull rows else pgx_CollectRows rows.

(** [executeQuery]; the deferred [Release] runs at every return after it. *)
Definition executeQuery (r : Request) (params : QueryParams) (sql : string) (args : argList) (w : World)
    : World :=
  match ConnWithRole env r w with
  | (Err e, w) => Error 500 (PgError_text e) w
  | (Ok (_, conn), w) =>
      match nonempty (ctx_OIDCRoleClaim (req_Ctx r)) with
      | None => Error 401 "pgrole not found in OIDC claims" w
      | Some pgRole =>
          release conn
            (let '(go_on, w) :=
               if WantsCountExact (Prefer_ (parseHeaders (req_Prefer r)))
               then exact_count r params w else (Some w, w) in
             match go_on with
             | None => w
             | Some w =>
                 let answer := db_query (w_sql w) sql args in
                 let w := run_sql sql args w in
                 match answer with
                 | Err e => Error 500 (e +:+ " pgrole: " +:+ pgRole) w
                 | Ok rows =>
                     match collect rows with
                     | Err e => Error 500 (e +:+ " pgrole: " +:+ pgRole) w
                     | Ok results =>
                         let status := if bool_decide (req_Method r = "POST") then 201 else 200 in
                         JSON status (results_value results) w
                     end
                 end
             end)
      end
  end.

(** [httputil.Bind(r, &data)] into a map: only the first MiB of the body can be
    read, and JSON null leaves the map nil. The decoder of [encoding/json], which
    reads the first value of a stream, is an argument. *)
Context (json_decode : string → option any).
Definition defaultMaxBodyBytes : nat := 2 ^ 20.
Definition Bind (r : Request) : option (gmap string any) :=
  match json_decode (take defaultMaxBodyBytes (req_Body r)) with
  | Some (AObj m) => Some m
  | Some ANil => Some ∅
  | _ => None
  end.

Definition handleGet (r : Request) (table : Table) (w : World) : World :=
  let params := parseQueryParams (req_Query r) in
  match buildSelectQuery table params with
  | Err e => Error 400 (error_text e) w
  | Ok (sql, args) => executeQuery r params sql args w
  end.

Definition handlePost (r : Request) (table : Table) (w : World) : World :=
  match Bind r with
  | None => Error 400 "Invalid JSON body" w
  | Some data =>
      match buildInsertQuery table data (Some (parseHeaders (req_Prefer r))) with
      | Err e => Error 400 (error_text e) w
      | Ok (sql, args) => executeQuery r (parseQueryParams (req_Query r)) sql args w
      end
  end.

Definition handlePatch (r : Request) (table : Table) (w : World) : World :=
  let params := parseQueryParams (req_Query r) in
  match Bind r with
  | None => Error 400 "Invalid JSON body" w
  | Some data =>
      match buildUpdateQuery table data params (Some (parseHeaders (req_Prefer r))) with
      | Err e => Error 400 (error_text e) w
      | Ok (sql, args) => executeQuery r params sql args w
      end
  end.

Definition handleDelete (r : Request) (table : Table) (w : World) : World :=
  let params := parseQueryParams (req_Query r) in
  match buildDeleteQuery table params (Some (parseHeaders (req_Prefer r))) with
  | Err e => Error 400 (error_text e) w
  | Ok (sql, args) => executeQuery r params sql args w
  end.

Definition handleRequest (r : Request) (w : World) : World :=
  match ConnWithRole env r w with
  | (Err e, w) => Error 500 (PgError_text e) w
  | (Ok (_, conn), w) =>
      release conn
        (let path := TrimPrefix (req_Path r) (srv_basePath s) in
         if bool_decide (path = "") || bool_decide (path = "/") then
           HTML 200 (docs_html (srv_basePath s)) w
         else match tableFromPath s path with
         | Err e => Error 404 e w
         | Ok table =>
             if bool_decide (req_Method r = "GET") then handleGet r table w
             else if bool_decide (req_Method r = "POST") then handlePost r table w
             else if bool_decide (req_Method r = "PATCH") then handlePatch r table w
             else if bool_decide (req_Method r = "DELETE") then handleDelete r table w
             else Error 405 "Method not allowed" w
         end)
  end.

End Handlers.
