(* ===== verification/ServerProps.v ===== *)
(** * ServerProps: what a request does.

    One response per request; the connection is released once a role is set;
    every statement runs under the role of the request; a request runs a beginning
    of its plan, all of it when it succeeds; and the Content-Range is the page. *)

From S2P Require Import Prelude GoStrings GoStringFacts SqlText GoAny Schema FilterParser FilterSQL.
From S2P Require Import FilterTests Headers OrderBy Query QueryTests Http Server.
Local Open Scope Z_scope.

(** ** The session statements *)

Lemma replace_quote_cons d s :
  ReplaceAll (String d s) "'" "''" =
  (if bool_decide (d = "'"%char) then "''" else String d "") +:+ ReplaceAll s "'" "''".
Proof.
  unfold ReplaceAll. cbn [replace_go HasPrefix String.length pred]. rewrite andb_true_r.
  case_bool_decide as E; case_bool_decide as E'; [done | by destruct E' | by destruct E | done].
Qed.

Lemma scan_literal s t l :
  scan (Literal, l) (ReplaceAll s "'" "''" +:+ String "'" t) = scan (Plain, l) t.
Proof.
  induction s as [|d s IH]; [done|]. rewrite replace_quote_cons, app_assoc_str.
  case_bool_decide as Hd; [exact IH|]. rewrite app_cons_str. cbn [scan scan_byte].
  rewrite bool_decide_eq_false_2 by done. exact IH.
Qed.


(** ** Content-Range *)

(** C12: for a page inside the 64-bit range the header names the rows that the
    page holds, from the offset to the last row of the page or of the result,
    and no rows when the offset is past the end. *)
Theorem content_range_spec params n :
  0 ≤ Offset params → Offset params + Limit params < 2 ^ 63 → 0 ≤ n < 2 ^ 63 →
  content_range params n =
    (if (0 <? Limit params) && (Offset params <? n)
     then Itoa (Offset params) +:+ "-" +:+ Itoa (Z.min (Offset params + Limit params) n - 1) +:+ "/" +:+ Itoa n
     else "*/" +:+ Itoa n) ∧
  (0 < Limit params → Offset params < n →
   Offset params ≤ Z.min (Offset params + Limit params) n - 1 < n).
Proof.
  intros Ho Hl Hn. split; [|lia]. unfold content_range.
  destruct (Z.ltb_spec 0 (Limit params)) as [Hlim|Hlim]; [|done]. cbn [andb].
  assert (∀ z, - 2 ^ 63 ≤ z < 2 ^ 63 → int64 z = z) as Hw by (intros z Hz; apply wrap_small; lia).
  rewrite (Hw (Offset params)), (Hw (Offset params + Limit params)), (Hw (_ - 1)) by lia.
  rewrite (Hw (n - 1)) by lia.
  destruct (Z.ltb_spec (Offset params) n) as [Hlt|Hge].
  - rewrite (proj2 (Z.leb_gt n (Offset params))) by lia. do 2 f_equal.
    destruct (Z.leb_spec n (Offset params + Limit params - 1)); do 2 f_equal; lia.
  - by rewrite (proj2 (Z.leb_le n (Offset params))) by lia.
Qed.

(** A negative offset and an overflowing page give ranges that are none. *)
Definition page_params (limit offset : Z) : QueryParams :=
  {| Select := []; Order := []; Limit := limit; Offset := offset; Filters := []; EmbedJoins := [] |}.
Example content_range_bad :
  content_range (page_params 10 (-5)) 3 = "-5-2/3" ∧
  content_range (page_params (2 ^ 63 - 1) 2) 5 = "2--9223372036854775808/5".
Proof. vm_compute. auto. Qed.

(** ** Paths *)

(** ** Requests *)

Section Requests.
Context `{PI : PgxIdentifier} `{UC : Unicode} `{GF : GoFloat} `{DB : Database}.
Context (error_text : query_error → string) (env : Env) (s : Server) (json_decode : string → option any).
Local Notation handleRequest := (handleRequest error_text env s json_decode).
Local Notation executeQuery := (executeQuery error_text env s).
Implicit Types (r : Request) (w : World).

(** [extends w w' n]: from [w] to [w'] exactly [n] responses were written. *)
Definition responds (w w' : World) : Prop := length (w_written w') = S (length (w_written w)).

Lemma Error_responds status msg w w0 : w_written w0 = w_written w → responds w (Error status msg w0).
Proof. unfold responds, Error. simpl. intros ->. rewrite length_app. simpl. lia. Qed.
Lemma JSON_responds status v w w0 : w_written w0 = w_written w → responds w (JSON status v w0).
Proof.
  unfold JSON. intros Hw. destruct (Marshal v); [|by apply Error_responds].
  unfold responds. simpl. rewrite Hw, length_app. simpl. lia.
Qed.

Lemma ConnWithRole_written r w res w' : ConnWithRole env r w = (res, w') → w_written w' = w_written w.
Proof. unfold ConnWithRole. intros E. repeat case_match; by simplify_eq. Qed.

Lemma exact_count_written r params w o w' :
  exact_count error_text s r params w = (o, w') →
  match o with Some w1 => w_written w1 = w_written w ∧ w1 = w' | None => responds w w' end.
Proof.
  unfold exact_count. intros E.
  destruct (tableFromPath s _) as [table|]; [|injection E as <- <-; by apply Error_responds].
  destruct (buildSelectQuery table _) as [[sql args]|]; [|injection E as <- <-; by apply Error_responds].
  destruct (db_query_int _ _ _); injection E as <- <-; [done | by apply Error_responds].
Qed.

Lemma executeQuery_responds r params sql args w : responds w (executeQuery r params sql args w).
Proof.
  unfold Server.executeQuery. destruct (ConnWithRole env r w) as [[[u conn]|e] w1] eqn:Ec;
    apply ConnWithRole_written in Ec; [|by apply Error_responds].
  destruct (nonempty _) as [role|]; [|by apply Error_responds].
  destruct (if WantsCountExact _ then _ else _) as [o w2] eqn:Ex.
  assert (match o with Some w1' => w_written w1' = w_written w | None => responds w w2 end) as Ho.
  { destruct (WantsCountExact _); [|by injection Ex as <- <-].
    apply exact_count_written in Ex. unfold responds in *. rewrite <-Ec. destruct o; [by destruct Ex | done]. }
  destruct o as [w3|]; [|exact Ho].
  destruct (db_query _ _ _) as [rows|]; [|by apply (Error_responds _ _ _ (run_sql _ _ w3))].
  destruct (collect s rows); [by apply (JSON_responds _ _ _ (run_sql _ _ w3))
                             | by apply (Error_responds _ _ _ (run_sql _ _ w3))].
Qed.

(** A request gets exactly one response, whatever the path, the method, the
    body and the answers of the database. *)
Theorem one_response r w : length (w_written (handleRequest r w)) = S (length (w_written w)).
Proof.
  change (responds w (handleRequest r w)). unfold Server.handleRequest.
  destruct (ConnWithRole env r w) as [[[u conn]|e] w1] eqn:Ec;
    apply ConnWithRole_written in Ec; [|by apply Error_responds].
  assert (∀ status msg, responds w (Error status msg w1)) as He by (intros; by apply Error_responds).
  assert (∀ params sql args, responds w (executeQuery r params sql args w1)) as Hx.
  { intros. unfold responds. rewrite <-Ec. apply executeQuery_responds. }
  unfold responds in *. cbn [release w_written].
  destruct (_ || _); [simpl; rewrite Ec, length_app; simpl; lia|].
  destruct (tableFromPath s _) as [table|]; [|apply He].
  unfold handleGet, handlePost, handlePatch, handleDelete.
  destruct (bool_decide (req_Method r = "GET"));
    [destruct (buildSelectQuery _ _) as [[sql args]|]; [apply Hx | apply He]|].
  destruct (bool_decide (req_Method r = "POST")); [destruct (Bind json_decode r) as [data|]; [|apply He];
    destruct (buildInsertQuery _ _ _) as [[sql args]|]; [apply Hx | apply He]|].
  destruct (bool_decide (req_Method r = "PATCH")); [destruct (Bind json_decode r) as [data|]; [|apply He];
    destruct (buildUpdateQuery _ _ _ _) as [[sql args]|]; [apply Hx | apply He]|].
  destruct (bool_decide (req_Method r = "DELETE"));
    [destruct (buildDeleteQuery _ _ _) as [[sql args]|]; [apply Hx | apply He]|apply He].
Qed.

(** ** The connection and its statements *)

Lemma release_in conn w : conn ∈ w_released (release conn w).
Proof. simpl. case_bool_decide; [done|]. apply elem_of_app. right. by apply list_elem_of_singleton. Qed.

(** From [w] to [w'] statements were run and no connection was acquired. *)
Definition extends w w' : Prop := w_acquired w' = w_acquired w ∧ ∃ rest, w_sql w' = w_sql w ++ rest.

Lemma extends_refl w w' : w_acquired w' = w_acquired w → w_sql w' = w_sql w → extends w w'.
Proof. split; [done|]. exists []. by rewrite app_nil_r. Qed.
Lemma extends_trans w w1 w' : extends w w1 → extends w1 w' → extends w w'.
Proof. intros [Ha [l E]] [Ha' [l' E']]. split; [congruence|]. exists (l ++ l'). by rewrite E', E, app_assoc. Qed.
Lemma extends_run w sql args : extends w (run_sql sql args w).
Proof. split; [done|]. by exists [(sql, args)]. Qed.

Lemma ConnWithRole_extends r w res w' : ConnWithRole env r w = (res, w') → extends w w'.
Proof.
  unfold ConnWithRole. intros E. repeat case_match; simplify_eq;
    first [by apply extends_refl | apply extends_run].
Qed.

Lemma executeQuery_extends r params sql args w : extends w (executeQuery r params sql args w).
Proof.
  unfold Server.executeQuery. destruct (ConnWithRole env r w) as [res w1] eqn:Ec.
  pose proof (ConnWithRole_extends _ _ _ _ Ec) as Hw1.
  destruct res as [[u conn]|e]; [|exact Hw1]. destruct (nonempty _) as [role|]; [|exact Hw1].
  destruct (if WantsCountExact _ then _ else _) as [o w2] eqn:Ex.
  assert (extends w w2 ∧ ∀ w', o = Some w' → w' = w2) as [Hw2 Ho].
  { destruct (WantsCountExact _); [|injection Ex as <- <-; split; [done | naive_solver]].
    unfold exact_count in Ex. destruct (tableFromPath s _) as [table|]; [|injection Ex as <- <-; split; done].
    destruct (buildSelectQuery _ _) as [[sql' args']|]; [|injection Ex as <- <-; split; done].
    assert (extends w (run_sql ("SELECT COUNT(*) FROM (" +:+ sql' +:+ ") AS count_query") args' w1))
      as Hr by (eapply extends_trans; [done | apply extends_run]).
    destruct (db_query_int _ _ _); injection Ex as <- <-; (split; [exact Hr | naive_solver]). }
  destruct o as [w3|]; [|exact Hw2]. rewrite (Ho w3 eq_refl). clear Ho.
  assert (extends w (run_sql sql args w2)) as Hr by (eapply extends_trans; [done | apply extends_run]).
  destruct (db_query _ _ _) as [rows|]; [|exact Hr].
  destruct (collect s rows) as [results|]; [|exact Hr]. unfold JSON. destruct (Marshal _); exact Hr.
Qed.

Lemma handlers_extend r table w w' :
  w' ∈ [handleGet error_text env s r table w; handlePost error_text env s json_decode r table w;
        handlePatch error_text env s json_decode r table w; handleDelete error_text env s r table w;
        Error 405 "Method not allowed" w] → extends w w'.
Proof.
  unfold handleGet, handlePost, handlePatch, handleDelete.
  rewrite !elem_of_cons, elem_of_nil. intros [->|[->|[->|[->|[->|[]]]]]].
  - destruct (buildSelectQuery _ _) as [[sql args]|]; [apply executeQuery_extends | by apply extends_refl].
  - destruct (Bind json_decode r) as [data|]; [|by apply extends_refl].
    destruct (buildInsertQuery _ _ _) as [[sql args]|]; [apply executeQuery_extends | by apply extends_refl].
  - destruct (Bind json_decode r) as [data|]; [|by apply extends_refl].
    destruct (buildUpdateQuery _ _ _ _) as [[sql args]|]; [apply executeQuery_extends | by apply extends_refl].
  - destruct (buildDeleteQuery _ _ _) as [[sql args]|]; [apply executeQuery_extends | by apply extends_refl].
  - by apply extends_refl.
Qed.

Lemma Conn_conn r u conn : Conn r = Ok (u, conn) → ctx_PgConn (req_Ctx r) = Some conn.
Proof.
  unfold Conn. intros (u' & _ & E)%res_bind_ok.
  destruct (ctx_PgConn (req_Ctx r)); [by injection E as _ -> | done].
Qed.

Lemma ConnWithRole_cases r w :
  (∃ e, ConnWithRole env r w = (Err e, w) ∨ ∃ conn, ConnWithRole env r w = (Err e, release conn w)) ∨
  ∃ u conn role claims, ctx_PgConn (req_Ctx r) = Some conn ∧ request_role env (req_Ctx r) = Some role ∧
    ConnWithRole env r w = (Ok (u, conn), run_sql (role_query env role claims) [] w).
Proof.
  unfold ConnWithRole. destruct (Conn r) as [[u conn]|e] eqn:Hu; [|eauto].
  destruct (request_role env (req_Ctx r)) as [role|] eqn:Hr; [|eauto].
  destruct (Marshal (AObj u)) as [claims|]; [|eauto].
  apply Conn_conn in Hu. destruct (db_exec _ _) as [e|]; [left; eauto | right; eauto 10].
Qed.

(** No statement runs before the session has taken the role and the claims
    of the request, and its connection goes back to the pool: if the first
    statement is refused or cannot be formed, nothing is run and the client gets
    a 500. *)
Theorem session_first r w :
  w_acquired (handleRequest r w) = w_acquired w ∧
  ((∃ conn role claims rest, ctx_PgConn (req_Ctx r) = Some conn ∧ request_role env (req_Ctx r) = Some role ∧
      w_sql (handleRequest r w) = w_sql w ++ (role_query env role claims, []) :: rest ∧
      conn ∈ w_released (handleRequest r w)) ∨
   (w_sql (handleRequest r w) = w_sql w ∧
    rsp_status <$> w_written (handleRequest r w) = (rsp_status <$> w_written w) ++ [500])).
Proof.
  unfold Server.handleRequest.
  destruct (ConnWithRole_cases r w)
    as [(e & [-> | (conn & ->)])|(u & conn & role & claims & Hc & Hr & ->)];
    [split; [done|]; right; split; [done|]; simpl; by rewrite fmap_app..|].
  set (w1 := run_sql (role_query env role claims) [] w). cbn [release w_sql w_acquired w_released].
  match goal with |- context [w_sql ?w' = _ ++ _] =>
    assert (extends w1 w') as [Ha [rest E]] end.
  { destruct (_ || _); [by apply extends_refl|].
    destruct (tableFromPath s _) as [table|]; [|by apply extends_refl].
    repeat case_bool_decide; eapply (handlers_extend r table); rewrite !elem_of_cons; eauto 10. }
  split; [exact Ha|]. left. exists conn, role, claims, rest. split_and!; try done; [|apply release_in].
  rewrite E. simpl. by rewrite <-app_assoc.
Qed.

(** The connection of a request goes back to the pool on every path once
    the user, a role and the claims are known, even when the database refuses
    the role. *)
Theorem connection_released r w user conn role claims :
  Conn r = Ok (user, conn) → request_role env (req_Ctx r) = Some role → Marshal (AObj user) = Some claims →
  conn ∈ w_released (handleRequest r w).
Proof.
  intros Hc Hr Hm. unfold Server.handleRequest, ConnWithRole. rewrite Hc, Hr, Hm.
  destruct (db_exec _ _); apply release_in.
Qed.

(** ** The plan of a request *)

Definition session_statement r (st : string * argList) : Prop :=
  ∃ role claims, request_role env (req_Ctx r) = Some role ∧ st = (role_query env role claims, []).

(** The session is taken with the same statement whenever it is taken. *)
Lemma ConnWithRole_again r w w' u conn role claims :
  ConnWithRole env r w = (Ok (u, conn), run_sql (role_query env role claims) [] w) →
  (∃ e, ConnWithRole env r w' = (Err e, release conn w')) ∨
  ConnWithRole env r w' = (Ok (u, conn), run_sql (role_query env role claims) [] w').
Proof.
  unfold ConnWithRole. destruct (Conn r) as [[u1 conn1]|]; [|done]. destruct (request_role env _) as [role1|]; [|done].
  destruct (Marshal _) as [claims1|]; [|done]. destruct (db_exec (w_sql w) _) as [|]; [done|].
  intros H. assert ((u1, conn1) = (u, conn)) as [= -> ->] by congruence.
  apply (f_equal (λ x, w_sql x.2)) in H. apply app_inj_2 in H as [_ H]; [|done].
  assert (role_query env role1 claims1 = role_query env role claims) as -> by congruence.
  destruct (db_exec (w_sql w') _); [left; eauto | by right].
Qed.

Definition statuses w : list Z := rsp_status <$> w_written w.
Lemma statuses_Error status msg w : statuses (Error status msg w) = statuses w ++ [status].
Proof. unfold statuses, Error. simpl. by rewrite fmap_app. Qed.
Lemma statuses_JSON status v w :
  (statuses (JSON status v w) = statuses w ++ [status] ∨ statuses (JSON status v w) = statuses w ++ [500]) ∧
  w_sql (JSON status v w) = w_sql w.
Proof.
  unfold JSON, statuses.
  destruct (Marshal _); (split; [simpl; rewrite fmap_app; by (left + right) | done]).
Qed.

(** The one statement that a request means for its table: that of its method, for
    the values of its own body and the filters of its own query. *)
Definition request_statement r (table : Table) : option (string * argList) :=
  let params := parseQueryParams (req_Query r) in
  let headers := Some (parseHeaders (req_Prefer r)) in
  match
    (if bool_decide (req_Method r = "GET") then Some (buildSelectQuery table params)
     else if bool_decide (req_Method r = "POST") then (λ data, buildInsertQuery table data headers) <$> Bind json_decode r
     else if bool_decide (req_Method r = "PATCH") then (λ data, buildUpdateQuery table data params headers) <$> Bind json_decode r
     else if bool_decide (req_Method r = "DELETE") then Some (buildDeleteQuery table params headers)
     else None)
  with Some (Ok st) => Some st | _ => None end.

(** The counting statement, for a request that prefers an exact count and no
    other; [None] when it cannot be built. *)
Definition count_statements r (table : Table) : option (list (string * argList)) :=
  if WantsCountExact (Prefer_ (parseHeaders (req_Prefer r))) then
    match buildSelectQuery table (count_params (parseQueryParams (req_Query r))) with
    | Ok (sql, args) => Some [("SELECT COUNT(*) FROM (" +:+ sql +:+ ") AS count_query", args)]
    | Err _ => None
    end
  else Some [].

Definition success r : Z := if bool_decide (req_Method r = "POST") then 201 else 200.
(** One response was added, that of an error. *)
Definition refused w w' : Prop := ∃ status, 400 ≤ status ∧ statuses w' = statuses w ++ [status].

Lemma refused_Error status msg w : 400 ≤ status → refused w (Error status msg w).
Proof. intros ?. exists status. split; [done | apply statuses_Error]. Qed.

(** What [l] adds to the statements of [w] is a beginning of the plan [st], count,
    [main]: all of it when the request succeeds. *)
Definition follows r table (st main : string * argList) w w' : Prop :=
  w_sql w' = w_sql w ∧ refused w w' ∨
  match count_statements r table with
  | Some cs => ∃ l, w_sql w' = w_sql w ++ l ∧ l `prefix_of` st :: cs ++ [main] ∧
      (refused w w' ∨ l = st :: cs ++ [main] ∧ statuses w' = statuses w ++ [success r])
  | None => w_sql w' = w_sql w ++ [st] ∧ refused w w'
  end.

Lemma follows_release r table st main w w' conn : follows r table st main w w' → follows r table st main w (release conn w').
Proof. done. Qed.

(** The main statement and its answer, after all that comes before it. *)
Lemma query_follows r table (cs : list (string * argList)) sql args w w0 st :
  count_statements r table = Some cs → w_sql w = w_sql w0 ++ st :: cs → statuses w = statuses w0 →
  follows r table st (sql, args) w0
    (match db_query (w_sql w) sql args with
     | Err e => Error 500 (e +:+ " pgrole: " +:+ default "" (nonempty (ctx_OIDCRoleClaim (req_Ctx r)))) (run_sql sql args w)
     | Ok rows =>
         match collect s rows with
         | Err e => Error 500 (e +:+ " pgrole: " +:+ default "" (nonempty (ctx_OIDCRoleClaim (req_Ctx r)))) (run_sql sql args w)
         | Ok results => JSON (success r) (results_value s results) (run_sql sql args w)
         end
     end).
Proof.
  intros Hc Hs Hst. right. rewrite Hc. exists (st :: cs ++ [(sql, args)]).
  assert (statuses (run_sql sql args w) = statuses w0) as Hst' by done.
  assert (w_sql (run_sql sql args w) = w_sql w0 ++ st :: cs ++ [(sql, args)]) as Hs'
    by (cbn [run_sql w_sql]; by rewrite Hs, <-app_assoc).
  assert (∀ msg, refused w0 (Error 500 msg (run_sql sql args w))) as Hr.
  { intros msg. exists 500. split; [lia|]. by rewrite statuses_Error, Hst'. }
  destruct (db_query _ _ _) as [rows|]; [|by eauto]. destruct (collect s rows) as [results|]; [|by eauto].
  destruct (statuses_JSON (success r) (results_value s results) (run_sql sql args w)) as [Hj ->].
  split_and!; [done..|]. rewrite Hst' in Hj. destruct Hj as [Hj|Hj]; [by right|]. left. exists 500. split; [lia | exact Hj].
Qed.

Lemma executeQuery_follows r table sql args w w0 u conn role claims :
  ConnWithRole env r w0 = (Ok (u, conn), run_sql (role_query env role claims) [] w0) →
  tableFromPath s (TrimPrefix (req_Path r) (srv_basePath s)) = Ok table →
  follows r table (role_query env role claims, []) (sql, args) w
    (executeQuery r (parseQueryParams (req_Query r)) sql args w).
Proof.
  intros H0 Ht. unfold Server.executeQuery.
  destruct (ConnWithRole_again r w0 w u conn role claims H0) as [(e & ->)| ->].
  { left. split; [done|]. exists 500. split; [lia|]. apply (statuses_Error 500 _ (release conn w)). }
  set (st := (role_query env role claims, [] : argList)). set (w1 := run_sql (role_query env role claims) [] w).
  assert (w_sql w1 = w_sql w ++ [st]) as Hs1 by done.
  assert (∀ msg status, 400 ≤ status → refused w (Error status msg w1)) as He1.
  { intros msg status ?. exists status. split; [done|]. apply (statuses_Error status msg w1). }
  destruct (nonempty (ctx_OIDCRoleClaim (req_Ctx r))) as [role'|] eqn:Hrole.
  2:{ right. destruct (count_statements r table) as [cs|]; [|split; [done|by apply He1]].
      exists [st]. split_and!; [done|by eexists|left; by apply He1]. }
  apply follows_release. unfold exact_count. rewrite Ht.
  destruct (WantsCountExact _) eqn:Hw.
  2:{ pose proof (query_follows r table [] sql args w1 w st) as Hq. rewrite Hrole in Hq. apply Hq; [|done..].
      unfold count_statements. by rewrite Hw. }
  destruct (buildSelectQuery table (count_params _)) as [[sql' args']|e] eqn:Hb.
  2:{ right. unfold count_statements. rewrite Hw, Hb. split; [done|]. by apply He1. }
  set (cq := "SELECT COUNT(*) FROM (" +:+ sql' +:+ ") AS count_query").
  assert (count_statements r table = Some [(cq, args')]) as Hc by (unfold count_statements; by rewrite Hw, Hb).
  set (w2 := run_sql cq args' w1).
  assert (w_sql w2 = w_sql w ++ [st; (cq, args')]) as Hs2 by (unfold w2, w1; cbn [run_sql w_sql]; by rewrite <-app_assoc).
  destruct (db_query_int _ _ _) as [n|e].
  - pose proof (query_follows r table [(cq, args')] sql args
      (set_header "Content-Range" (content_range (parseQueryParams (req_Query r)) n) w2) w st Hc) as Hq.
    rewrite Hrole in Hq. by apply Hq.
  - right. rewrite Hc. exists [st; (cq, args')]. split_and!; [exact Hs2|by eexists|].
    left. exists 500. split; [lia|]. apply (statuses_Error 500 _ w2).
Qed.

Lemma handlers_follow r table w w0 u conn role claims :
  ConnWithRole env r w0 = (Ok (u, conn), run_sql (role_query env role claims) [] w0) →
  tableFromPath s (TrimPrefix (req_Path r) (srv_basePath s)) = Ok table →
  let w' := if bool_decide (req_Method r = "GET") then handleGet error_text env s r table w
            else if bool_decide (req_Method r = "POST") then handlePost error_text env s json_decode r table w
            else if bool_decide (req_Method r = "PATCH") then handlePatch error_text env s json_decode r table w
            else if bool_decide (req_Method r = "DELETE") then handleDelete error_text env s r table w
            else Error 405 "Method not allowed" w in
  match request_statement r table with
  | Some main => follows r table (role_query env role claims, []) main w w'
  | None => w_sql w' = w_sql w ∧ refused w w'
  end.
Proof.
  intros H0 Ht. cbn zeta. unfold request_statement, handleGet, handlePost, handlePatch, handleDelete.
  assert (∀ status msg, 400 ≤ status → w_sql (Error status msg w) = w_sql w ∧ refused w (Error status msg w)) as He
    by (intros; split; [done | by apply refused_Error]).
  assert (∀ main : string * argList, follows r table (role_query env role claims, []) main w
    (executeQuery r (parseQueryParams (req_Query r)) main.1 main.2 w)) as Hx
    by (intros [sql args]; by eapply executeQuery_follows).
  repeat case_bool_decide; try (by apply He).
  1: destruct (buildSelectQuery _ _) as [[sql args]|]; [apply (Hx (sql, args)) | by apply He].
  3: destruct (buildDeleteQuery _ _ _) as [[sql args]|]; [apply (Hx (sql, args)) | by apply He].
  all: destruct (Bind json_decode r) as [data|]; cbn [fmap option_fmap option_map]; [|by apply He].
  - destruct (buildInsertQuery _ _ _) as [[sql args]|]; [apply (Hx (sql, args)) | by apply He].
  - destruct (buildUpdateQuery _ _ _ _) as [[sql args]|]; [apply (Hx (sql, args)) | by apply He].
Qed.

(** C10: what a request runs. Nothing, when no session can be taken; the session
    statement alone, for the page of documentation and for what is refused; or,
    for a table and a request that means a statement for it, a beginning of this
    plan: the session statement, once by the handler and once by the query, the
    count when the request prefers an exact one, and the one statement of its
    method, for the values of its own body. A request that is answered with
    success has run the whole plan, each statement once; any other is answered
    with an error status. *)
Theorem statements_planned r :
  let w := handleRequest r initial_world in
  let path := TrimPrefix (req_Path r) (srv_basePath s) in
  (w_sql w = [] ∧ statuses w = [500]) ∨
  ∃ st, session_statement r st ∧
    ((path = "" ∨ path = "/") ∧ w_sql w = [st] ∧ statuses w = [200] ∨
     w_sql w = [st] ∧ refused initial_world w ∨
     ∃ table main, path ≠ "" ∧ path ≠ "/" ∧ tableFromPath s path = Ok table ∧ request_statement r table = Some main ∧
       match count_statements r table with
       | Some cs => w_sql w `prefix_of` st :: st :: cs ++ [main] ∧
           (refused initial_world w ∨ w_sql w = st :: st :: cs ++ [main] ∧ statuses w = [success r])
       | None => w_sql w = [st; st] ∧ refused initial_world w
       end).
Proof.
  cbn zeta. unfold Server.handleRequest.
  destruct (ConnWithRole_cases r initial_world) as [(e & [-> | (conn & ->)])|(u & conn & role & claims & _ & Hr & HC)];
    [by left..|].
  right. rewrite HC. set (st := (role_query env role claims, [] : argList)).
  set (w1 := run_sql (role_query env role claims) [] initial_world). set (path := TrimPrefix _ _).
  exists st. split; [by exists role, claims|].
  destruct (bool_decide (path = "") || bool_decide (path = "/")) eqn:Hd.
  { left. split; [|done]. by apply orb_true_iff in Hd as [?%bool_decide_eq_true|?%bool_decide_eq_true]; [left|right]. }
  apply orb_false_iff in Hd as [Hd1%bool_decide_eq_false Hd2%bool_decide_eq_false]. right.
  destruct (tableFromPath s path) as [table|e] eqn:Ht.
  2:{ left. split; [done|]. by exists 404. }
  pose proof (handlers_follow r table w1 initial_world u conn role claims HC Ht) as Hf. cbn zeta in Hf.
  match goal with |- context [release conn ?x] => set (w2 := x) in * end.
  change (w_sql (release conn w2)) with (w_sql w2).
  change (refused initial_world (release conn w2)) with (refused w1 w2).
  change (statuses (release conn w2)) with (statuses w2).
  destruct (request_statement r table) as [main|] eqn:Hm; [|left; by destruct Hf].
  destruct Hf as [Hf|Hf]; [by left|]. right. exists table, main. split_and!; [done..|].
  destruct (count_statements r table) as [cs|]; [|done].
  destruct Hf as (l & -> & Hl & Hf). split; [by apply prefix_cons|].
  destruct Hf as [Hf|[-> Hf]]; [by left | right; by split].
Qed.

(** A request whose context has no role claim, or an empty one, runs no statement
    but the session's: no table is read or changed. *)
Lemma no_role_no_statement r w :
  nonempty (ctx_OIDCRoleClaim (req_Ctx r)) = None →
  ∃ l, w_sql (handleRequest r w) = w_sql w ++ l ∧ Forall (session_statement r) l.
Proof.
  intros Hn.
  assert (∀ params sql args w, ∃ l, w_sql (executeQuery r params sql args w) = w_sql w ++ l ∧ Forall (session_statement r) l)
    as Hx.
  { intros params sql args w1. unfold Server.executeQuery. rewrite Hn.
    destruct (ConnWithRole_cases r w1) as [(e & [-> | (conn & ->)])|(u & conn & role & claims & _ & Hr & ->)];
      [exists []; by rewrite app_nil_r..|].
    exists [(role_query env role claims, [])]. split; [done|]. constructor; [by exists role, claims | constructor]. }
  unfold Server.handleRequest.
  destruct (ConnWithRole_cases r w) as [(e & [-> | (conn & ->)])|(u & conn & role & claims & _ & Hr & ->)];
    [exists []; by rewrite app_nil_r..|].
  set (w1 := run_sql (role_query env role claims) [] w). cbn [release w_sql].
  match goal with |- context [w_sql ?x = w_sql w ++ _] =>
    assert (∃ l, w_sql x = w_sql w1 ++ l ∧ Forall (session_statement r) l) as (l & -> & Hl) end.
  { assert (∀ w2, w_sql w2 = w_sql w1 → ∃ l, w_sql w2 = w_sql w1 ++ l ∧ Forall (session_statement r) l) as He
      by (intros w2 ->; exists []; by rewrite app_nil_r).
    unfold handleGet, handlePost, handlePatch, handleDelete.
    repeat case_match; first [apply Hx | by apply He]. }
  exists ((role_query env role claims, []) :: l). split; [unfold w1; cbn [run_sql w_sql]; by rewrite <-app_assoc|].
  constructor; [by exists role, claims | done].
Qed.

End Requests.

(** A user with an empty role claim holds a connection that no path releases. *)
Definition leaking_request : Request := {|
  req_Method := "GET"; req_Path := "/people"; req_Query := ∅; req_Header := ∅;
  req_Ctx := {| ctx_OIDCUser := Some {["sub" := AStr "u"]}; ctx_BasicAuth := None;
                ctx_PgConn := Some 0%nat; ctx_OIDCRoleClaim := Some ""; ctx_RequestID := None; ctx_LogEntry := false |};
  req_Body := ""; req_ContentLength := 0 |}.

Definition no_env : Env := {| env_anon_role := None; env_jwt_claims := None |}.
Definition people_server : Server :=
  {| srv_basePath := ""; srv_omitempty := true; srv_snapshot := {["public.people" := filterTestTable]} |}.

(** The connection is not released when the role is missing: an
    authenticated user whose role claim is the empty string keeps the connection
    the middleware acquired for the request. *)
Theorem empty_role_leaks_connection `{PI : PgxIdentifier} `{UC : Unicode} `{GF : GoFloat} `{DB : Database}
    error_text json_decode :
  let w := handleRequest error_text no_env people_server json_decode leaking_request initial_world in
  ctx_PgConn (req_Ctx leaking_request) = Some 0%nat ∧ w_released w = [] ∧ rsp_status <$> w_written w = [500].
Proof. done. Qed.

(** ** Witnesses *)

(** A database that refuses every role but one, and answers with no rows. *)
Definition refusing_database : Database := {|
  db_exec := λ _ sql, if HasPrefix sql "SET ROLE web;" then None else Some (Some (new_PgError "42501" "permission denied"));
  db_query_int := λ _ _ _, Ok 0;
  db_query := λ _ _ _, Err "no rows";
  pgx_CollectRows := λ _, Ok [] |}.


Lemma content_range_spec_witness :
  content_range (page_params 10 20) 25 = "20-24/25" ∧ 20 ≤ Z.min (20 + 10) 25 - 1 < 25.
Proof.
  destruct (content_range_spec (page_params 10 20) 25) as [E H]; [simpl; lia..|].
  split; [exact E | apply H; simpl; lia].
Defined.

Definition known_request (role : string) : Request := {|
  req_Method := "DELETE"; req_Path := "/people"; req_Query := ∅; req_Header := ∅;
  req_Ctx := {| ctx_OIDCUser := Some {["sub" := AStr "u"]}; ctx_BasicAuth := None;
                ctx_PgConn := Some 0%nat; ctx_OIDCRoleClaim := Some role; ctx_RequestID := None; ctx_LogEntry := false |};
  req_Body := ""; req_ContentLength := 0 |}.

(** The connection goes back even when the database refuses the role. *)
Lemma connection_released_witness :
  let w := handleRequest (PI := quoting_identifier) (UC := latin1_unicode) (GF := integral_floats)
    (DB := refusing_database) (λ _, "error") no_env people_server (λ _, None) (known_request "guest") initial_world in
  0%nat ∈ w_released w ∧ w_sql w = [].
Proof.
  split.
  - apply (connection_released (PI := quoting_identifier) (UC := latin1_unicode) (GF := integral_floats)
      (DB := refusing_database) (λ _, "error") no_env people_server (λ _, None) (known_request "guest") initial_world
      {["sub" := AStr "u"]} 0%nat "guest" (bq "{`sub`:`u`}")); vm_compute; reflexivity.
  - vm_compute. reflexivity.
Defined.

(** A database that knows the role and answers with no rows. *)
Definition answering_database : Database := {|
  db_exec := λ _ sql, if HasPrefix sql "SET ROLE web;" then None else Some (Some (new_PgError "42501" "permission denied"));
  db_query_int := λ _ _ _, Ok 0; db_query := λ _ _ _, Ok RowsEnd; pgx_CollectRows := λ _, Ok [] |}.

(** A DELETE that succeeds has run the session's statement twice and its own once. *)
Lemma statements_planned_witness :
  let w := handleRequest (PI := quoting_identifier) (UC := latin1_unicode) (GF := integral_floats)
    (DB := answering_database) (λ _, "error") no_env people_server (λ _, None) (known_request "web") initial_world in
  statuses w = [200] ∧
  ∃ st table main, session_statement no_env (known_request "web") st ∧
    request_statement (PI := quoting_identifier) (UC := latin1_unicode) (GF := integral_floats) (λ _, None)
      (known_request "web") table = Some main ∧
    w_sql w = [st; st; main].
Proof.
  cbv zeta. set (w := handleRequest _ _ _ _ _ _).
  assert (statuses w = [200]) as Hs by (vm_compute; reflexivity). split; [exact Hs|].
  assert (length (w_sql w) = 3%nat) as Hl by (vm_compute; reflexivity).
  destruct (statements_planned (PI := quoting_identifier) (UC := latin1_unicode) (GF := integral_floats)
    (DB := answering_database) (λ _, "error") no_env people_server (λ _, None) (known_request "web"))
    as [[E _]|(st & Hst & [(_ & E & _)|[[E _]|(table & main & _ & _ & _ & Hm & H)]])];
    fold w in E || fold w in H; try (rewrite E in Hl; discriminate Hl).
  exists st, table, main. split; [exact Hst|]. split; [exact Hm|].
  change (count_statements (PI := quoting_identifier) (UC := latin1_unicode) (known_request "web") table)
    with (Some (@nil (string * argList))) in H. destruct H as [_ [(status & Hle & E)|[E _]]]; [|exact E].
  rewrite Hs in E. clearbody w. injection E as <-. lia.
Defined.
