(* ===== verification/Base64.v ===== *)
(** * Base64: [base64.StdEncoding] of [encoding/base64].

    Basic authentication reads its credentials with it. The decoder is the
    standard one: line breaks are skipped, padding is required, and the unused
    bits of the last group are not looked at. *)

From S2P Require Import Prelude GoStrings GoStringFacts.
Local Open Scope Z_scope.

(** The value of a character of the alphabet. *)
Definition b64_value (c : ascii) : option Z :=
  let b := byte_val c in
  if in_range 65 90 b then Some (b - 65)
  else if in_range 97 122 b then Some (b - 71)
  else if in_range 48 57 b then Some (b + 4)
  else if b =? 43 then Some 62
  else if b =? 47 then Some 63
  else None.
Definition b64_char (v : Z) : ascii :=
  byte_of (if v <? 26 then v + 65 else if v <? 52 then v + 71 else if v <? 62 then v - 4
           else if v =? 62 then 43 else 47).

Definition pad : ascii := "="%char.

(** The bytes of a group of four characters; the last group may end in padding. *)
Fixpoint decode_groups (s : string) : option string :=
  match s with
  | EmptyString => Some ""
  | String a (String b (String c (String d rest))) =>
      x ← b64_value a; y ← b64_value b;
      let b0 := byte_of (x * 4 + y / 16) in
      if bool_decide (d = pad) then
        if bool_decide (rest = "") then
          if bool_decide (c = pad) then Some (String b0 "")
          else z ← b64_value c; Some (String b0 (String (byte_of (y `mod` 16 * 16 + z / 4)) ""))
        else None
      else
        z ← b64_value c; w ← b64_value d; t ← decode_groups rest;
        Some (String b0 (String (byte_of (y `mod` 16 * 16 + z / 4)) (String (byte_of (z `mod` 4 * 64 + w)) t)))
  | _ => None
  end.

Fixpoint skip_newlines (s : string) : string :=
  match s with
  | EmptyString => ""
  | String c s => if mem_byte (String "010" (String "013" "")) c then skip_newlines s
                  else String c (skip_newlines s)
  end.

Definition DecodeString (s : string) : option string := decode_groups (skip_newlines s).

(** What a client sends: [base64.StdEncoding.EncodeToString]. *)
Fixpoint EncodeToString (s : string) : string :=
  match s with
  | EmptyString => ""
  | String a EmptyString =>
      let x := byte_val a in
      String (b64_char (x / 4)) (String (b64_char (x `mod` 4 * 16)) (String pad (String pad "")))
  | String a (String b EmptyString) =>
      let x := byte_val a in let y := byte_val b in
      String (b64_char (x / 4)) (String (b64_char (x `mod` 4 * 16 + y / 16))
        (String (b64_char (y `mod` 16 * 4)) (String pad "")))
  | String a (String b (String c rest)) =>
      let x := byte_val a in let y := byte_val b in let z := byte_val c in
      String (b64_char (x / 4)) (String (b64_char (x `mod` 4 * 16 + y / 16))
        (String (b64_char (y `mod` 16 * 4 + z / 64)) (String (b64_char (z `mod` 64)) (EncodeToString rest))))
  end.

Example b64_ex :
  EncodeToString "user:pass" = "dXNlcjpwYXNz" ∧ DecodeString "dXNlcjpwYXNz" = Some "user:pass" ∧
  DecodeString "YQ==" = Some "a" ∧ DecodeString "YWI=" = Some "ab" ∧ DecodeString "YWI" = None ∧
  DecodeString "YQ==YQ==" = None ∧ DecodeString "Y=Q=" = None.
Proof. vm_compute. auto 10. Qed.

(** ** Encoded text reads back *)

Lemma byte_val_range c : 0 ≤ byte_val c < 256.
Proof. destruct c as [[] [] [] [] [] [] [] []]; vm_compute; split; congruence. Qed.
Lemma byte_of_val c : byte_of (byte_val c) = c.
Proof. destruct c as [[] [] [] [] [] [] [] []]; reflexivity. Qed.

(** A sextet is read back, and its character is neither padding nor a line break. *)
Definition sextet_ok (v : Z) : bool :=
  bool_decide (b64_value (b64_char v) = Some v) && negb (bool_decide (b64_char v = pad)) &&
  negb (mem_byte (String "010" (String "013" "")) (b64_char v)).
Lemma sextets_ok : forallb sextet_ok (seqZ 0 64) = true.
Proof. vm_compute. reflexivity. Qed.

Lemma sextet v : 0 ≤ v < 64 →
  b64_value (b64_char v) = Some v ∧ b64_char v ≠ pad ∧
  mem_byte (String "010" (String "013" "")) (b64_char v) = false.
Proof.
  intros Hv. assert (In v (seqZ 0 64)) as Hin by (apply list_elem_of_In, elem_of_seqZ; lia).
  pose proof (proj1 (List.forallb_forall _ _) sextets_ok v Hin) as E. unfold sextet_ok in E.
  by bool_simp.
Qed.

(** The bytes of a group out of its sextets. *)
Lemma join_first x q : 0 ≤ x < 256 → 0 ≤ q < 16 → x / 4 * 4 + (x `mod` 4 * 16 + q) / 16 = x.
Proof. intros. Z.to_euclidean_division_equations. lia. Qed.
Lemma join_second x y q : 0 ≤ y < 256 → 0 ≤ q < 4 →
  (x `mod` 4 * 16 + y / 16) `mod` 16 * 16 + (y `mod` 16 * 4 + q) / 4 = y.
Proof. intros. Z.to_euclidean_division_equations. lia. Qed.
Lemma join_third y z : 0 ≤ z < 256 → (y `mod` 16 * 4 + z / 64) `mod` 4 * 64 + z `mod` 64 = z.
Proof. intros. Z.to_euclidean_division_equations. lia. Qed.

Lemma sextet_bounds x y z : 0 ≤ x < 256 → 0 ≤ y < 256 → 0 ≤ z < 256 →
  0 ≤ x / 4 < 64 ∧ 0 ≤ x `mod` 4 * 16 + y / 16 < 64 ∧ 0 ≤ y `mod` 16 * 4 + z / 64 < 64 ∧
  0 ≤ z `mod` 64 < 64 ∧ 0 ≤ y / 16 < 16 ∧ 0 ≤ z / 64 < 4.
Proof. intros. Z.to_euclidean_division_equations. lia. Qed.

Lemma decode_encode_3 a b c rest t :
  decode_groups (EncodeToString rest) = Some t →
  decode_groups (EncodeToString (String a (String b (String c rest)))) = Some (String a (String b (String c t))).
Proof.
  intros IH. pose proof (byte_val_range a). pose proof (byte_val_range b). pose proof (byte_val_range c).
  destruct (sextet_bounds (byte_val a) (byte_val b) (byte_val c)) as (S1 & S2 & S3 & S4 & S5 & S6); [done..|].
  cbn [EncodeToString decode_groups].
  destruct (sextet _ S1) as (-> & _ & _), (sextet _ S2) as (-> & _ & _), (sextet _ S3) as (-> & _ & _),
    (sextet _ S4) as (-> & Hd & _).
  cbn [mbind option_bind]. rewrite bool_decide_eq_false_2 by done. rewrite IH. cbn [mbind option_bind].
  by rewrite join_first, join_second, join_third, !byte_of_val by lia.
Qed.
Lemma decode_encode_2 a b :
  decode_groups (EncodeToString (String a (String b ""))) = Some (String a (String b "")).
Proof.
  pose proof (byte_val_range a). pose proof (byte_val_range b).
  destruct (sextet_bounds (byte_val a) (byte_val b) 0) as (S1 & S2 & S3 & S4 & S5 & S6); [lia..|].
  change (0 / 64) with 0 in S3. rewrite Z.add_0_r in S3.
  cbn [EncodeToString decode_groups].
  destruct (sextet _ S1) as (-> & _ & _), (sextet _ S2) as (-> & _ & _), (sextet _ S3) as (-> & Hc & _).
  cbn [mbind option_bind]. rewrite !bool_decide_eq_true_2 by done. rewrite bool_decide_eq_false_2 by done.
  rewrite join_first by lia. rewrite <-(Z.add_0_r (byte_val b `mod` 16 * 4)).
  by rewrite join_second, !byte_of_val by lia.
Qed.
Lemma decode_encode_1 a : decode_groups (EncodeToString (String a "")) = Some (String a "").
Proof.
  pose proof (byte_val_range a).
  destruct (sextet_bounds (byte_val a) 0 0) as (S1 & S2 & _); [lia..|].
  change (0 / 16) with 0 in S2. rewrite Z.add_0_r in S2.
  cbn [EncodeToString decode_groups].
  destruct (sextet _ S1) as (-> & _ & _), (sextet _ S2) as (-> & _ & _).
  cbn [mbind option_bind]. rewrite !bool_decide_eq_true_2 by done.
  rewrite <-(Z.add_0_r (byte_val a `mod` 4 * 16)). by rewrite join_first, byte_of_val by lia.
Qed.

(** Induction three bytes at a time. *)
Lemma string_ind_3 (P : string → Prop) :
  P "" → (∀ a, P (String a "")) → (∀ a b, P (String a (String b ""))) →
  (∀ a b c s, P s → P (String a (String b (String c s)))) → ∀ s, P s.
Proof.
  intros H0 H1 H2 H3. fix IH 1. intros [|a [|b [|c s]]]; [done|done|done|]. apply H3, IH.
Qed.

Lemma skip_newlines_encode s : skip_newlines (EncodeToString s) = EncodeToString s.
Proof.
  induction s as [|a|a b|a b c s IH] using string_ind_3; [done|..];
    pose proof (byte_val_range a); try pose proof (byte_val_range b); try pose proof (byte_val_range c).
  - destruct (sextet_bounds (byte_val a) 0 0) as (S1 & S2 & _); [lia..|].
    change (0 / 16) with 0 in S2. rewrite Z.add_0_r in S2. cbn [EncodeToString skip_newlines].
    by destruct (sextet _ S1) as (_ & _ & ->), (sextet _ S2) as (_ & _ & ->).
  - destruct (sextet_bounds (byte_val a) (byte_val b) 0) as (S1 & S2 & S3 & _); [lia..|].
    change (0 / 64) with 0 in S3. rewrite Z.add_0_r in S3. cbn [EncodeToString skip_newlines].
    by destruct (sextet _ S1) as (_ & _ & ->), (sextet _ S2) as (_ & _ & ->), (sextet _ S3) as (_ & _ & ->).
  - destruct (sextet_bounds (byte_val a) (byte_val b) (byte_val c)) as (S1 & S2 & S3 & S4 & _); [lia..|].
    cbn [EncodeToString skip_newlines].
    destruct (sextet _ S1) as (_ & _ & ->), (sextet _ S2) as (_ & _ & ->), (sextet _ S3) as (_ & _ & ->),
      (sextet _ S4) as (_ & _ & ->). by rewrite IH.
Qed.

Lemma DecodeString_EncodeToString s : DecodeString (EncodeToString s) = Some s.
Proof.
  unfold DecodeString. rewrite skip_newlines_encode.
  induction s as [|a|a b|a b c s IH] using string_ind_3;
    [done | apply decode_encode_1 | apply decode_encode_2 | by apply decode_encode_3].
Qed.
