(* ===== verification/Jq.v ===== *)
(** * Jq: dotted paths into JSON values, [pkg/util/jq.go].

    The authorizers of the middleware read the role of a user from the claims
    of a token with such a path. A path is a sequence of keys; a key may end in
    an index or a wildcard in brackets. *)

From S2P Require Import Prelude GoStrings GoAny.
Local Open Scope Z_scope.

Inductive jq_error :=
| InvalidInput                          (* errInvalidInput *)
| NotMap (key : string)
| KeyNotFound (key : string)
| Malformed (key : string)
| NotArray (key : string)
| BadIndex (index key : string)
| NoMatch.                              (* errNoWildcard *)

Definition bracket : ascii := "["%char.
Definition dot : ascii := "."%char.

(** The loop that cuts a path at its dots and leaves out empty segments; [cur]
    is [path[start:i]]. *)
Fixpoint keys_go (cur path : string) : list string :=
  match path with
  | EmptyString => if bool_decide (cur = "") then [] else [cur]
  | String c path =>
      if bool_decide (c = dot) then
        (if bool_decide (cur = "") then keys_go "" path else cur :: keys_go "" path)
      else keys_go (cur +:+ String c "") path
  end.

Definition path_keys (path : string) : list string :=
  match path with
  | String c rest => if bool_decide (c = dot) then keys_go "" rest else keys_go "" path
  | EmptyString => []
  end.

Definition splitKeyAndIndex (key : string) : res jq_error (string * string) :=
  match IndexByte key bracket, IndexByte key "]"%char with
  | Some start, Some end_ =>
      if bool_decide (end_ < start)%nat then Err (Malformed key)
      else Ok (take start key, take (end_ - S start) (drop (S start) key))
  | _, _ => Err (Malformed key)
  end.

(** [append(results, v...)] of an array, [append(results, v)] of anything else. *)
Definition append_result (results : list any) (v : any) : list any :=
  match v with
  | AArr l => results ++ l
  | _ => results ++ [v]
  end.

Section Walk.
(** [Jq] itself, which wildcards call for the rest of the path. *)
Context (Jq : option (gmap string any) → string → res jq_error any).

Definition handleWildcard (array : list any) (remainingKeys : list string) : res jq_error any :=
  let remainingPath := Join remainingKeys "." in
  let results :=
    foldl (λ results item,
             match item with
             | AObj itemMap =>
                 match Jq (Some itemMap) remainingPath with
                 | Ok value => append_result results value
                 | Err _ => results
                 end
             | _ => results
             end) [] array in
  if bool_decide (length results = 0%nat) then Err NoMatch else Ok (AArr results).

(** The loop over the keys. *)
Fixpoint walk (current : any) (keys : list string) : res jq_error any :=
  match keys with
  | [] => Ok current
  | key :: rest =>
      match current with
      | AObj currentMap =>
          if negb (mem_byte key bracket) then
            match currentMap !! key with
            | None => Err (KeyNotFound key)
            | Some value => walk value rest
            end
          else
            let? (arrayKey, indexStr) := splitKeyAndIndex key in
            match currentMap !! arrayKey with
            | Some (AArr array) =>
                if bool_decide (indexStr = "*") || bool_decide (indexStr = "") then
                  if bool_decide (length rest = 0%nat) then Ok (AArr array)
                  else handleWildcard array rest
                else
                  match Atoi indexStr with
                  | Some index =>
                      match (if (index <? 0) then None else array !! Z.to_nat index) with
                      | Some item => walk item rest
                      | None => Err (BadIndex indexStr arrayKey)
                      end
                  | None => Err (BadIndex indexStr arrayKey)
                  end
            | _ => Err (NotArray arrayKey)
            end
      | _ => Err (NotMap key)
      end
  end.

End Walk.

(** Every call that a wildcard makes has fewer keys than the path it is in, so
    the length of the path bounds the depth of the calls. *)
Fixpoint Jq_fuel (fuel : nat) (input : option (gmap string any)) (path : string) : res jq_error any :=
  match fuel with
  | O => Err InvalidInput
  | S fuel =>
      match input with
      | None => Err InvalidInput
      | Some m =>
          if bool_decide (path = "") then Err InvalidInput
          else walk (Jq_fuel fuel) (AObj m) (path_keys path)
      end
  end.
Definition Jq (input : option (gmap string any)) (path : string) : res jq_error any :=
  Jq_fuel (S (len path)) input path.

(** Paths in the manner of [jq_test.go]. *)
Definition jq_doc : gmap string any :=
  {[ "policy" := AObj {[ "pgrole" := AStr "authn" ]};
     "users" := AArr [AObj {[ "name" := AStr "ann"; "tags" := AArr [AStr "a"; AStr "b"] ]};
                      AStr "x"; AObj {[ "name" := AStr "bob" ]}] ]}.

Example jq_ex_1 : Jq (Some jq_doc) ".policy.pgrole" = Ok (AStr "authn").
Proof. vm_compute. reflexivity. Qed.
Example jq_ex_2 : Jq (Some jq_doc) "users[*].name" = Ok (AArr [AStr "ann"; AStr "bob"]).
Proof. vm_compute. reflexivity. Qed.
Example jq_ex_3 : Jq (Some jq_doc) ".users[0].tags[1]" = Ok (AStr "b").
Proof. vm_compute. reflexivity. Qed.
Example jq_ex_4 : Jq (Some jq_doc) ".users[].tags[]" = Ok (AArr [AStr "a"; AStr "b"]).
Proof. vm_compute. reflexivity. Qed.
Example jq_ex_5 : Jq (Some jq_doc) ".users[3]" = Err (BadIndex "3" "users").
Proof. vm_compute. reflexivity. Qed.
Example jq_ex_6 : Jq (Some jq_doc) ".users[1].name" = Err (NotMap "name").
Proof. vm_compute. reflexivity. Qed.
