(* ===== verification/JqProps.v ===== *)
(** * JqProps: what a path selects.

    [Jq] refines an evaluation that never prints a path again: the keys a
    wildcard hands on are read back as they were. *)

From S2P Require Import Prelude GoStrings GoStringFacts GoAny Jq.

(** ** Keys *)

(** What the cutting loop produces: segments that are not empty and hold no dot. *)
Definition key_ok (key : string) : Prop := key ≠ "" ∧ mem_byte key dot = false.
#[export] Instance key_ok_dec key : Decision (key_ok key).
Proof. apply _. Defined.

Lemma app_not_empty s c : s +:+ String c "" ≠ "".
Proof. destruct s; done. Qed.

Lemma keys_go_ok cur path : mem_byte cur dot = false → Forall key_ok (keys_go cur path).
Proof.
  revert cur. induction path as [|c path IH]; intros cur Hcur; simpl.
  - case_bool_decide; constructor; [done | constructor].
  - case_bool_decide as Hc.
    + case_bool_decide; [by apply IH|]. constructor; [done | by apply IH].
    + apply IH. rewrite mem_byte_app, Hcur. unfold mem_byte. simpl. apply bool_decide_eq_false.
      rewrite list_elem_of_singleton. congruence.
Qed.
Lemma path_keys_ok path : Forall key_ok (path_keys path).
Proof. destruct path as [|c path]; [constructor|]. unfold path_keys. case_bool_decide; by apply keys_go_ok. Qed.

(** A segment without dots goes through the loop whole. *)
Lemma keys_go_key cur key rest :
  mem_byte key dot = false → keys_go cur (key +:+ rest) = keys_go (cur +:+ key) rest.
Proof.
  revert cur. induction key as [|c key IH]; intros cur Hk; [by rewrite app_nil_r_str|].
  rewrite app_cons_str. unfold mem_byte in Hk. apply bool_decide_eq_false in Hk. simpl in Hk.
  apply not_elem_of_cons in Hk as [Hc Hk]. simpl. rewrite bool_decide_eq_false_2 by done.
  rewrite IH by by apply bool_decide_eq_false. by rewrite app_assoc_str.
Qed.

Lemma keys_go_Join keys : Forall key_ok keys → keys_go "" (Join keys ".") = keys.
Proof.
  induction 1 as [|key keys [Hne Hd] Hkeys IH]; [done|]. destruct keys as [|k2 keys].
  - simpl Join. rewrite <-(app_nil_r_str key) at 1. rewrite keys_go_key by done. simpl.
    by rewrite bool_decide_eq_false_2.
  - rewrite Join_cons, keys_go_key by done.
    change (keys_go key (String dot (Join (k2 :: keys) ".")) = key :: k2 :: keys). cbn [keys_go].
    rewrite bool_decide_eq_true_2 by done. rewrite bool_decide_eq_false_2 by done. by f_equal.
Qed.

Lemma Join_head keys c rest :
  Forall key_ok keys → Join keys "." = String c rest → c ≠ dot.
Proof.
  intros Hk E ->. destruct keys as [|key keys]; [done|].
  apply Forall_cons in Hk as [[Hne Hd] _]. destruct key as [|d key]; [done|].
  assert (d = dot) as ->; [|by destruct (mem_byte key dot)].
  destruct keys; simpl in E; by injection E.
Qed.

(** Keys read back from a printed path, with or without the leading dot. *)
Lemma path_keys_Join keys : Forall key_ok keys → path_keys (Join keys ".") = keys.
Proof.
  intros Hk. pose proof (keys_go_Join keys Hk) as E. pose proof (Join_head keys) as Hh.
  destruct (Join keys ".") as [|c rest]; [exact E|]. unfold path_keys.
  by rewrite bool_decide_eq_false_2 by by eapply Hh.
Qed.
Lemma path_keys_dot keys : Forall key_ok keys → path_keys ("." +:+ Join keys ".") = keys.
Proof. apply keys_go_Join. Qed.

Lemma keys_go_count cur path : (length (keys_go cur path) ≤ len cur + len path)%nat.
Proof.
  revert cur. induction path as [|c path IH]; intros cur; simpl.
  - case_bool_decide; simpl; [lia|]. destruct cur; simpl; [done | lia].
  - case_bool_decide; [|specialize (IH (cur +:+ String c "")); rewrite len_app in IH; simpl in IH; lia].
    specialize (IH ""). simpl in IH. case_bool_decide; simpl; [lia|]. destruct cur; simpl; [done | lia].
Qed.
Lemma path_keys_count path : (length (path_keys path) ≤ len path)%nat.
Proof.
  destruct path as [|c path]; [done|]. unfold path_keys.
  case_bool_decide; [pose proof (keys_go_count "" path) | pose proof (keys_go_count "" (String c path))];
    simpl in *; lia.
Qed.

(** ** The evaluation that [Jq] refines *)

Definition item_results (f : any → res jq_error any) (item : any) : list any :=
  match item with
  | AObj _ => match f item with Ok (AArr l) => l | Ok v => [v] | Err _ => [] end
  | _ => []
  end.

(** An index into an array; the value of a key with its bracket. *)
Definition nth_item (array : list any) (index : string) : option any :=
  i ← Atoi index; if (i <? 0)%Z then None else array !! Z.to_nat i.

Fixpoint eval (keys : list string) (current : any) : res jq_error any :=
  match keys with
  | [] => Ok current
  | key :: rest =>
      match current with
      | AObj m =>
          if mem_byte key bracket then
            let? (arrayKey, index) := splitKeyAndIndex key in
            match m !! arrayKey with
            | Some (AArr array) =>
                if bool_decide (index ∈ ["*"; ""]) then
                  match rest with
                  | [] => Ok (AArr array)
                  | _ => match mjoin (item_results (eval rest) <$> array) with
                         | [] => Err NoMatch
                         | l => Ok (AArr l)
                         end
                  end
                else match nth_item array index with
                     | Some item => eval rest item
                     | None => Err (BadIndex index arrayKey)
                     end
            | _ => Err (NotArray arrayKey)
            end
          else match m !! key with
               | Some value => eval rest value
               | None => Err (KeyNotFound key)
               end
      | _ => Err (NotMap key)
      end
  end.

Lemma handleWildcard_eval Jq array rest :
  (∀ m, Jq (Some m) (Join rest ".") = eval rest (AObj m)) →
  handleWildcard Jq array rest =
    match mjoin (item_results (eval rest) <$> array) with [] => Err NoMatch | l => Ok (AArr l) end.
Proof.
  intros HJ. unfold handleWildcard.
  assert (∀ acc, foldl (λ results item,
    match item with
    | AObj itemMap => match Jq (Some itemMap) (Join rest ".") with
                      | Ok value => append_result results value | Err _ => results end
    | _ => results end) acc array = acc ++ mjoin (item_results (eval rest) <$> array)) as ->.
  { induction array as [|item array IH]; intros acc; cbn [foldl fmap list_fmap mjoin list_join];
      [by rewrite app_nil_r|]. rewrite IH, app_assoc. f_equal.
    destruct item; simpl; try by rewrite app_nil_r. rewrite HJ.
    destruct (eval rest (AObj m)) as [[]|]; simpl; try done. by rewrite app_nil_r. }
  simpl. by destruct (mjoin _).
Qed.

Lemma walk_eval Jq keys current :
  (∀ key rest m, (key :: rest) `suffix_of` tail keys → Jq (Some m) (Join (key :: rest) ".") = eval (key :: rest) (AObj m)) →
  walk Jq current keys = eval keys current.
Proof.
  revert current. induction keys as [|key rest IH]; intros current HJ; [done|].
  assert (∀ v, walk Jq v rest = eval rest v) as IH'.
  { intros v. apply IH. intros k2 r2 m Hs. apply HJ. simpl.
    destruct rest as [|k3 r3]; [done|]. simpl in Hs. by apply suffix_cons_r. }
  cbn [walk eval]. destruct current; try done. destruct (mem_byte key bracket); simpl negb; cbn iota.
  - destruct (splitKeyAndIndex key) as [[arrayKey index]|e]; [|done]. cbn [res_bind].
    destruct (m !! arrayKey) as [[]|]; try done.
    replace (bool_decide (index ∈ ["*"; ""])) with (bool_decide (index = "*") || bool_decide (index = "")).
    2:{ apply eq_true_iff_eq. rewrite orb_true_iff, !bool_decide_eq_true, !elem_of_cons, elem_of_nil. naive_solver. }
    destruct (_ || _).
    + destruct rest as [|k2 r2]; [done|]. apply handleWildcard_eval. intros m'. by apply HJ.
    + unfold nth_item. destruct (Atoi index) as [i|]; [|done]. cbn [mbind option_bind].
      destruct (i <? 0)%Z; [done|]. destruct (l !! Z.to_nat i); [apply IH' | done].
  - destruct (m !! key); [apply IH' | done].
Qed.

Lemma Jq_fuel_eval n m path :
  path ≠ "" → (length (path_keys path) < n)%nat →
  Jq_fuel n (Some m) path = eval (path_keys path) (AObj m).
Proof.
  revert m path. induction n as [|n IH]; intros m path Hp Hn; [lia|]. cbn [Jq_fuel].
  rewrite bool_decide_eq_false_2 by done. apply walk_eval. intros key rest m' [pre Hs].
  assert (Forall key_ok (key :: rest)) as Hok.
  { pose proof (path_keys_ok path) as Hk. destruct (path_keys path) as [|k0 ks]; [by destruct pre|].
    simpl in Hs. subst ks. by apply Forall_cons in Hk as [_ [_ Hk]%Forall_app]. }
  rewrite IH; [by rewrite path_keys_Join | |].
  - apply Forall_cons in Hok as [[Hne _] _]. destruct rest; simpl; [done|]. by destruct key.
  - rewrite path_keys_Join by done. destruct (path_keys path) as [|k0 ks]; [by destruct pre|].
    simpl in Hs. subst ks. simpl in Hn. rewrite length_app in Hn. simpl in *. lia.
Qed.

(** C35: [Jq] evaluates the keys of its path one after the other, although a
    wildcard prints the rest of the path and reads it again for every element: it
    is the evaluation on the list of keys, on every input, with the errors. *)
Theorem Jq_eval input path :
  Jq input path =
    match input with
    | Some m => if bool_decide (path = "") then Err InvalidInput else eval (path_keys path) (AObj m)
    | None => Err InvalidInput
    end.
Proof.
  unfold Jq. destruct input as [m|]; [|done]. case_bool_decide as Hp; [by subst|].
  apply Jq_fuel_eval; [done|]. pose proof (path_keys_count path). lia.
Qed.

(** ** Paths that a caller writes down *)

Inductive step := Field (name : string) | Index (name : string) (i : nat).

Definition print_step (st : step) : string :=
  match st with
  | Field name => name
  | Index name i => name +:+ "[" +:+ Itoa (Z.of_nat i) +:+ "]"
  end.
Definition print_path (p : list step) : string := Join (print_step <$> p) ".".

Definition name_ok (name : string) : bool := all_bytes (λ c, negb (mem_byte ".[]" c)) name.
Definition step_ok (st : step) : bool :=
  match st with
  | Field name => name_ok name && negb (bool_decide (name = ""))
  | Index name i => name_ok name && (Z.of_nat i <? 2 ^ 63)%Z
  end.

(** The value at a path. *)
Fixpoint value_at (p : list step) (v : any) : option any :=
  match p with
  | [] => Some v
  | st :: p =>
      match st, v with
      | Field name, AObj m => m !! name ≫= value_at p
      | Index name i, AObj m =>
          match m !! name with Some (AArr l) => l !! i ≫= value_at p | _ => None end
      | _, _ => None
      end
  end.

Lemma all_bytes_mem f s c : all_bytes f s = true → f c = false → mem_byte s c = false.
Proof.
  intros Hs Hc. apply bool_decide_eq_false. intros Hin. induction s as [|d s IH]; simpl in *.
  - by apply elem_of_nil in Hin.
  - apply andb_true_iff in Hs as [Hd Hs]. apply elem_of_cons in Hin as [->|Hin]; [congruence | auto].
Qed.
Lemma name_ok_mem name c : name_ok name = true → mem_byte ".[]" c = true → mem_byte name c = false.
Proof. intros Hn Hc. eapply all_bytes_mem; [exact Hn|]. simpl. by rewrite Hc. Qed.

Lemma Itoa_nat i :
  all_bytes isDigit (Itoa (Z.of_nat i)) = true ∧ Itoa (Z.of_nat i) ≠ "" ∧
  ((Z.of_nat i < 2 ^ 63)%Z → Atoi (Itoa (Z.of_nat i)) = Some (Z.of_nat i)).
Proof.
  destruct (Itoa_spec (Z.of_nat i)) as (sg & c & s & -> & Hc & Hs & [(_ & -> & Hv)|(? & _)]); [|lia].
  split_and!; [simpl; by rewrite Hc | done|]. intros Hi.
  rewrite app_nil_l_str. pose proof (ParseInt_digits c s false _ 64 Hc Hv) as E. simpl in E.
  unfold Atoi. rewrite app_nil_l_str in E. rewrite E. destruct (Z.ltb_spec (Z.of_nat i) (2 ^ (64 - 1))); [done | lia].
Qed.

Lemma IndexByte_app s c t : mem_byte s c = false → IndexByte (s +:+ String c t) c = Some (len s).
Proof.
  unfold IndexByte. intros Hs. apply bool_decide_eq_false in Hs. induction s as [|d s IH].
  - simpl. by rewrite bool_decide_eq_true_2.
  - simpl in Hs. apply not_elem_of_cons in Hs as [Hd Hs]. rewrite app_cons_str. simpl.
    rewrite bool_decide_eq_false_2 by congruence. by rewrite IH.
Qed.

Lemma split_printed name i :
  name_ok name = true →
  splitKeyAndIndex (print_step (Index name i)) = Ok (name, Itoa (Z.of_nat i)).
Proof.
  intros Hn. destruct (Itoa_nat i) as (Hd & _ & _). unfold splitKeyAndIndex, print_step.
  change (name +:+ "[" +:+ Itoa (Z.of_nat i) +:+ "]") with (name +:+ String bracket (Itoa (Z.of_nat i) +:+ "]")).
  set (ix := Itoa (Z.of_nat i)) in *.
  rewrite IndexByte_app by by apply name_ok_mem.
  assert (IndexByte (name +:+ String bracket (ix +:+ "]")) "]" = Some (len name + S (len ix))%nat) as ->.
  { replace (name +:+ String bracket (ix +:+ "]")) with ((name +:+ String bracket ix) +:+ String "]" "")
      by by rewrite app_assoc_str.
    rewrite IndexByte_app; [by rewrite len_app|]. rewrite mem_byte_app, name_ok_mem by done. simpl.
    change (String bracket ix) with ("[" +:+ ix). rewrite mem_byte_app.
    by rewrite (all_bytes_mem _ _ _ Hd). }
  rewrite bool_decide_eq_false_2 by lia. rewrite take_app. do 2 f_equal.
  replace (S (len name)) with (len name + 1)%nat by lia. rewrite drop_add, drop_app. simpl.
  replace (len name + S (len ix) - (len name + 1))%nat with (len ix) by lia. apply take_app.
Qed.

Lemma print_step_ok st : step_ok st = true → key_ok (print_step st).
Proof.
  destruct st as [name|name i]; simpl; intros [Hn Hx]%andb_true_iff.
  - split; [by apply negb_true_iff, bool_decide_eq_false in Hx | by apply name_ok_mem].
  - destruct (Itoa_nat i) as (Hd & _ & _). split; [by destruct name|].
    rewrite mem_byte_app, name_ok_mem by done. simpl. change (String "[" (Itoa (Z.of_nat i) +:+ "]")) with ("[" +:+ Itoa (Z.of_nat i) +:+ "]").
    rewrite !mem_byte_app. by rewrite (all_bytes_mem _ _ _ Hd).
Qed.

Lemma eval_printed p v w :
  forallb step_ok p = true → eval (print_step <$> p) v = Ok w ↔ value_at p v = Some w.
Proof.
  revert v. induction p as [|st p IH]; intros v Hp; simpl in Hp; [simpl; naive_solver|].
  apply andb_true_iff in Hp as [Hst Hp]. cbn [fmap list_fmap eval value_at].
  destruct st as [name|name i]; (destruct v as [| | | | | |m|]; [done..| |done]);
    simpl in Hst; apply andb_true_iff in Hst as [Hn Hx].
  - cbn [print_step]. rewrite name_ok_mem by done. destruct (m !! name) as [x|]; [by apply IH | done].
  - replace (mem_byte (print_step (Index name i)) bracket) with true.
    2:{ simpl. rewrite mem_byte_app. simpl. by rewrite orb_true_r. }
    rewrite split_printed by done. cbn [res_bind].
    destruct (m !! name) as [[]|]; try done.
    destruct (Itoa_nat i) as (Hd & Hne & Ha). rewrite bool_decide_eq_false_2.
    2:{ rewrite !elem_of_cons, elem_of_nil. intros [E|[E|[]]]; [by rewrite E in Hd | done]. }
    unfold nth_item. rewrite Ha by lia. cbn [mbind option_bind].
    destruct (Z.ltb_spec (Z.of_nat i) 0); [lia|]. rewrite Nat2Z.id.
    destruct (l !! i) as [x|]; [by apply IH | done].
Qed.

(** A path of names and indices, with or without its leading dot, yields a
    value exactly when the document has one there, and yields that value. *)
Theorem Jq_reads m p v dotted :
  p ≠ [] → forallb step_ok p = true →
  Jq (Some m) ((if dotted : bool then "." else "") +:+ print_path p) = Ok v ↔ value_at p (AObj m) = Some v.
Proof.
  intros Hne Hp. unfold Jq.
  assert (Forall key_ok (print_step <$> p)) as Hk.
  { apply Forall_fmap, Forall_forall. intros st Hin. apply print_step_ok.
    apply (proj1 (List.forallb_forall step_ok p) Hp), list_elem_of_In, Hin. }
  set (path := (if dotted then "." else "") +:+ print_path p).
  assert (path_keys path = print_step <$> p) as Hpk.
  { unfold path. destruct dotted; [by apply path_keys_dot | by apply path_keys_Join]. }
  rewrite Jq_fuel_eval; [rewrite Hpk; by apply eval_printed | | pose proof (path_keys_count path); lia].
  unfold path. destruct dotted; [done|]. destruct p as [|st p]; [done|]. cbn [fmap list_fmap] in Hk.
  apply Forall_cons in Hk as [[Hs _] _]. unfold print_path. cbn [fmap list_fmap].
  destruct (print_step <$> p); simpl; [done|]. by destruct (print_step st).
Qed.

(** What follows the first closing bracket of a key is ignored, a second index
    with it. *)
Example second_index_ignored :
  Jq (Some {[ "m" := AArr [AArr [AStr "a"; AStr "b"]] ]}) "m[0][1]" = Ok (AArr [AStr "a"; AStr "b"]).
Proof. vm_compute. reflexivity. Qed.

Lemma Jq_reads_witness :
  forallb step_ok [Field "users"] = true ∧
  Jq (Some jq_doc) ".users[0].tags[1]" = Ok (AStr "b").
Proof.
  split; [reflexivity|].
  apply (Jq_reads jq_doc [Index "users" 0; Index "tags" 1] (AStr "b") true); vm_compute; done.
Defined.
