(* ===== verification/Middleware.v ===== *)
(** * Middleware: [pkg/httputil/middleware], the router's chaining of it, and the
    stack of the REST command.

    A handler takes a request and the state of the exchange to the state after
    it; a middleware wraps a handler. The context a middleware passes on is in
    the request. Verification of tokens, the pool and fresh identifiers are
    arguments. *)

From S2P Require Import Prelude GoStrings GoAny Jq Base64 FilterSQL Query Http Server.
Local Open Scope Z_scope.

Definition Handler := Request → World → World.
Definition Middleware := Handler → Handler.

(** [middleware.Add] and [applyMiddleware] of the router: the loop runs from the
    last middleware to the first. *)
Definition Add (h : Handler) (middlewares : list Middleware) : Handler :=
  foldl (λ h m, m h) h (reverse middlewares).

(** [http.Error] of [net/http]. *)
Definition http_Error (msg : string) (code : Z) (w : World) : World :=
  let h := <["X-Content-Type-Options" := ["nosniff"]]>
             (<["Content-Type" := ["text/plain; charset=utf-8"]]> (delete "Content-Length" (w_headers w))) in
  write code (BText (msg +:+ String "010" "")) (with_headers h w).

Definition unauthorized : Z := 401.

(** The optional last argument [send401Unauthorized ...bool]. *)
Definition send401_of (send401Unauthorized : list bool) : bool :=
  match send401Unauthorized with b :: _ => b | [] => true end.

(** ** basic_auth.go *)

Definition set_BasicAuth (username : string) (c : Ctx) : Ctx :=
  {| ctx_OIDCUser := ctx_OIDCUser c; ctx_BasicAuth := Some username; ctx_PgConn := ctx_PgConn c;
     ctx_OIDCRoleClaim := ctx_OIDCRoleClaim c; ctx_RequestID := ctx_RequestID c;
     ctx_LogEntry := ctx_LogEntry c |}.

(** [strings.SplitN(s, sep, 2)] *)
Definition SplitN2 (s : string) (sep : ascii) : list string :=
  match Cut s sep with Some (a, b) => [a; b] | None => [s] end.

Definition VerifyBasicAuth (Credentials : gmap string string) (send401Unauthorized : list bool) : Middleware :=
  λ next r w,
    let send401 := send401_of send401Unauthorized in
    let authHeader := Header_Get r "Authorization" in
    if bool_decide (authHeader = "") then
      if send401 then
        http_Error "Authorization header missing" unauthorized
          (set_header "Www-Authenticate" ("Basic realm=" +:+ quote "Restricted") w)
      else next r w
    else if negb (HasPrefix authHeader "Basic ") then
      if send401 then http_Error "Invalid authorization format" unauthorized w else next r w
    else
      match DecodeString (TrimPrefix authHeader "Basic ") with
      | None => if send401 then http_Error "Invalid base64 encoding" unauthorized w else next r w
      | Some credentials =>
          match SplitN2 credentials ":" with
          | [username; password] =>
              if bool_decide (Credentials !! username = Some password) then
                next (WithContext r (set_BasicAuth username (req_Ctx r))) w
              else if send401 then
                http_Error "Invalid credentials" unauthorized
                  (set_header "Www-Authenticate" ("Basic realm=" +:+ quote "Restricted") w)
              else next r w
          | _ => if send401 then http_Error "Invalid credentials format" unauthorized w else next r w
          end
      end.

(** ** cors.go *)

Record CORSOptions := {
  AllowedOrigins : list string;
  AllowedMethods : list string;
  AllowedHeaders : list string;
  ExposedHeaders : list string;
  AllowCredentials : bool;
  MaxAge : Z
}.

Definition defaultCORSOptions : CORSOptions := {|
  AllowedOrigins := ["*"];
  AllowedMethods := ["GET"; "POST"; "PUT"; "DELETE"; "OPTIONS"];
  AllowedHeaders := ["Content-Type"; "Content-Length"; "Accept-Encoding"; "X-CSRF-Token"; "Authorization";
                     "Accept"; "Origin"; "Cache-Control"; "X-Requested-With"];
  ExposedHeaders := ["Content-Range"; "Prefer"];
  AllowCredentials := false;
  MaxAge := 86400 |}.

Definition set_list (k : string) (l : list string) (w : World) : World :=
  if bool_decide (length l = 0%nat) then w else set_header k (Join l ", ") w.

Definition is_wildcard (o : CORSOptions) : bool :=
  match AllowedOrigins o with [x] => bool_decide (x = "*") | _ => false end.

(** The handler for options that were accepted. *)
Definition cors (o : CORSOptions) : Middleware :=
  λ next r w,
    let origin := Header_Get r "Origin" in
    if bool_decide (origin = "") then next r w else
    let '(allowedOrigin, w) :=
      if is_wildcard o then ("*", w)
      else if bool_decide (origin ∈ AllowedOrigins o) then (origin, add_header "Vary" "Origin" w)
      else ("", w) in
    if bool_decide (allowedOrigin = "") then next r w else
    let w := set_header "Access-Control-Allow-Origin" allowedOrigin w in
    let w := if AllowCredentials o then set_header "Access-Control-Allow-Credentials" "true" w else w in
    let w := set_list "Access-Control-Expose-Headers" (ExposedHeaders o) w in
    if bool_decide (req_Method r = "OPTIONS") then
      let w := set_list "Access-Control-Allow-Methods" (AllowedMethods o) w in
      let w := set_list "Access-Control-Allow-Headers" (AllowedHeaders o) w in
      let w := if 0 <? MaxAge o then set_header "Access-Control-Max-Age" (Itoa (MaxAge o)) w else w in
      write 204 BNone w
    else next r w.

(** [None] is the panic for credentials with every origin. *)
Definition CORSWithOptions (options : option CORSOptions) : option Middleware :=
  let o := default defaultCORSOptions options in
  if is_wildcard o && AllowCredentials o then None else Some (cors o).

(** ** request_id.go *)

Definition set_RequestID (id : string) (c : Ctx) : Ctx :=
  {| ctx_OIDCUser := ctx_OIDCUser c; ctx_BasicAuth := ctx_BasicAuth c; ctx_PgConn := ctx_PgConn c;
     ctx_OIDCRoleClaim := ctx_OIDCRoleClaim c; ctx_RequestID := Some id; ctx_LogEntry := ctx_LogEntry c |}.

Class Uuid := { uuid_New : Request → string }.

Definition RequestID `{Uuid} : Middleware :=
  λ next r w,
    let reqID := match nonempty (ctx_RequestID (req_Ctx r)) with Some id => id | None => uuid_New r end in
    next (WithContext r (set_RequestID reqID (req_Ctx r))) (set_header "X-Request-Id" reqID w).

(** ** verify_oidc.go *)

(** The verifier of [coreos/go-oidc]: a token that passes, and its claims; null
    claims leave a nil map. *)
Class TokenVerifier := {
  idToken : Type;
  Verify : string → option idToken;
  Claims : idToken → option (option (gmap string any))
}.

Definition set_OIDCUser (claims : option (gmap string any)) (c : Ctx) : Ctx :=
  {| ctx_OIDCUser := claims; ctx_BasicAuth := ctx_BasicAuth c; ctx_PgConn := ctx_PgConn c;
     ctx_OIDCRoleClaim := ctx_OIDCRoleClaim c; ctx_RequestID := ctx_RequestID c;
     ctx_LogEntry := ctx_LogEntry c |}.

Definition VerifyOIDCToken `{Unicode} `{TokenVerifier} (send401Unauthorized : list bool) : Middleware :=
  λ next r w,
    let send401 := send401_of send401Unauthorized in
    let authHeader := Header_Get r "Authorization" in
    if bool_decide (authHeader = "") then
      if send401 then http_Error "Authorization header is required" unauthorized w else next r w
    else if negb (HasPrefix (ToLower authHeader) "bearer ") then
      if send401 then http_Error "Authorization header must be Bearer token" unauthorized w else next r w
    else
      match Verify (TrimPrefix authHeader "Bearer ") with
      | None => http_Error "Invalid or expired token" unauthorized w
      | Some idToken =>
          match Claims idToken with
          | None => http_Error "Failed to parse token claims" 500 w
          | Some claims => next (WithContext r (set_OIDCUser claims (req_Ctx r))) w
          end
      end.

(** ** authz.go *)

Record AuthzResponse := { az_Role : string; az_Allowed : bool }.
Definition refused : AuthzResponse := {| az_Role := ""; az_Allowed := false |}.
Definition allowed_as (role : string) : AuthzResponse := {| az_Role := role; az_Allowed := true |}.

(** [None] is an error. *)
Definition AuthzFunc := Ctx → option AuthzResponse.

Definition WithOIDCAuthz (roleClaimKey : string) : AuthzFunc :=
  λ c, Some
    match ctx_OIDCUser c with
    | None => refused
    | Some user => match Jq (Some user) roleClaimKey with
                   | Ok (AStr role) => allowed_as role
                   | _ => refused
                   end
    end.

Definition WithBasicAuthz : AuthzFunc :=
  λ c, Some match ctx_BasicAuth c with Some user => allowed_as user | None => refused end.

Definition WithAnonAuthz (anonRole : string) : AuthzFunc := λ c, Some (allowed_as anonRole).

(** ** postgres.go *)

(** Whether [pool.Acquire] has a connection for the request. *)
Class PgxPool := { pool_Acquire : World → bool }.

Definition set_role (role : string) (c : Ctx) : Ctx :=
  {| ctx_OIDCUser := ctx_OIDCUser c; ctx_BasicAuth := ctx_BasicAuth c; ctx_PgConn := ctx_PgConn c;
     ctx_OIDCRoleClaim := Some role; ctx_RequestID := ctx_RequestID c; ctx_LogEntry := ctx_LogEntry c |}.
Definition set_conn (conn : nat) (c : Ctx) : Ctx :=
  {| ctx_OIDCUser := ctx_OIDCUser c; ctx_BasicAuth := ctx_BasicAuth c; ctx_PgConn := Some conn;
     ctx_OIDCRoleClaim := ctx_OIDCRoleClaim c; ctx_RequestID := ctx_RequestID c;
     ctx_LogEntry := ctx_LogEntry c |}.

(** The loop over the authorizers: the first one that allows sets the role. *)
Fixpoint authorize (authorizers : list AuthzFunc) (c : Ctx) : option Ctx :=
  match authorizers with
  | [] => Some c
  | f :: authorizers =>
      match f c with
      | None => None
      | Some a => if az_Allowed a then Some (set_role (az_Role a) c) else authorize authorizers c
      end
  end.

Definition Postgres `{PgxPool} (authorizers : list AuthzFunc) : Middleware :=
  λ next r w,
    match authorize authorizers (req_Ctx r) with
    | None => http_Error "Authorization error" 500 w
    | Some c =>
        match ctx_OIDCRoleClaim c with
        | Some pgRole =>
            if pool_Acquire w then
              next (WithContext r (set_role pgRole (set_conn (w_acquired w) c))) (acquired w)
            else http_Error "Internal Server Error" 500 w
        | None => http_Error "Unauthorized" unauthorized w
        end
    end.

(** ** logger.go *)

Definition logLevel (status : Z) : Z :=
  if 500 <=? status then 8 else if 400 <=? status then 4 else 0.

Definition set_LogEntry (c : Ctx) : Ctx :=
  {| ctx_OIDCUser := ctx_OIDCUser c; ctx_BasicAuth := ctx_BasicAuth c; ctx_PgConn := ctx_PgConn c;
     ctx_OIDCRoleClaim := ctx_OIDCRoleClaim c; ctx_RequestID := ctx_RequestID c; ctx_LogEntry := true |}.

(** The status the recorder saw: that of the last [WriteHeader], or 200. *)
Definition recorded_status (before after : World) : Z :=
  match last (skipn (length (w_written before)) (w_written after)) with
  | Some rsp => rsp_status rsp
  | None => 200
  end.

Definition uuid_Nil : string := "00000000-0000-0000-0000-000000000000".

(** [Format] gives the attributes of a line; the latency it may print is left out. *)
Definition LoggerWithOptions (Format : string → Z → Request → list (string * string)) : Middleware :=
  λ next r w,
    if ctx_LogEntry (req_Ctx r) then next r w else
    let reqID := default uuid_Nil (ctx_RequestID (req_Ctx r)) in
    let w' := next (WithContext r (set_LogEntry (req_Ctx r))) w in
    let pgRole := default "unknown" (ctx_OIDCRoleClaim (req_Ctx r)) in
    let status := recorded_status w w' in
    log_line {| log_Level := logLevel status;
                log_Attrs := Format reqID status r ++ [("pg_role", pgRole)] |} w'.

(** ** The stack of the REST command *)

Record RestConfig := {
  rc_ClientID : string;
  rc_Issuer : string;
  rc_roleClaimKey : string;
  rc_BasicAuth : gmap string string;
  rc_AnonRole : string;
  rc_logLevel : string
}.

Definition oidc_configured (c : RestConfig) : bool :=
  negb (bool_decide (rc_ClientID c = "")) && negb (bool_decide (rc_Issuer c = "")).
Definition basic_configured (c : RestConfig) : bool := negb (bool_decide (size (rc_BasicAuth c) = 0%nat)).

(** [pgMiddleware] of [runRESTServer]. *)
Definition rest_authorizers (c : RestConfig) : list AuthzFunc :=
  (if oidc_configured c then [WithOIDCAuthz (rc_roleClaimKey c)] else []) ++
  (if basic_configured c then [WithBasicAuthz] else []) ++
  (if bool_decide (rc_AnonRole c = "") then [] else [WithAnonAuthz (rc_AnonRole c)]).

Section Stack.
Context `{UC : Unicode} `{UU : Uuid} `{TV : TokenVerifier} `{PP : PgxPool}.
Context (Format : string → Z → Request → list (string * string)).

(** The logger comes last, so that it sees the role. *)
Definition rest_logger (c : RestConfig) : list Middleware :=
  if bool_decide (rc_logLevel c = "none") then [] else [LoggerWithOptions Format].

(** The middleware [runRESTServer] adds, in its order. *)
Definition rest_middleware (c : RestConfig) : list Middleware :=
  [RequestID; cors defaultCORSOptions] ++
  (if oidc_configured c then [VerifyOIDCToken [false]] else []) ++
  (if basic_configured c then [VerifyBasicAuth (rc_BasicAuth c) [false]] else []) ++
  [Postgres (rest_authorizers c)] ++ rest_logger c.

(** [wrapWithMiddleware] *)
Definition wrapWithMiddleware (c : RestConfig) (handler : Handler) : Handler :=
  Add handler (rest_middleware c).

End Stack.
