(* ===== verification/MiddlewareProps.v ===== *)
(** * MiddlewareProps: who gets through the middleware, and as whom.

    Basic authentication and CORS on their own, then the whole stack of the REST
    command in front of the table handlers: the role a request runs under is one
    that its credentials grant, or the fallback of the environment for an empty one,
    and when its connection goes back to the pool. *)

From S2P Require Import Prelude GoStrings GoStringFacts SqlText GoAny Jq Base64 Schema.
From S2P Require Import FilterParser FilterSQL Query Http Server Middleware ServerProps.
From S2P Require Import FilterTests.
Local Open Scope Z_scope.

(** ** Chaining *)

Lemma Add_nil h : Add h [] = h.
Proof. done. Qed.
Lemma Add_cons h m ms : Add h (m :: ms) = m (Add h ms).
Proof. unfold Add. by rewrite reverse_cons, foldl_app. Qed.
Lemma Add_app h ms ms' : Add h (ms ++ ms') = Add (Add h ms') ms.
Proof. induction ms as [|m ms IH]; [done|]. by rewrite <-app_comm_cons, !Add_cons, IH. Qed.

(** ** Basic authentication *)

Lemma Cut_colon (u p : string) : mem_byte u ":" = false → Cut (u +:+ String ":" p) ":" = Some (u, p).
Proof.
  intros Hu. apply bool_decide_eq_false in Hu. induction u as [|c u IH]; [done|].
  simpl in Hu. apply not_elem_of_cons in Hu as [Hc Hu]. rewrite app_cons_str. simpl.
  rewrite bool_decide_eq_false_2 by congruence. by rewrite IH.
Qed.

Lemma Cut_join s c a b : Cut s c = Some (a, b) → s = a +:+ String c b ∧ mem_byte a c = false.
Proof.
  revert a b. induction s as [|d s IH]; intros a b; simpl; [done|].
  case_bool_decide as Hd; [intros [= <- <-]; by subst|].
  destruct (Cut s c) as [[a' b']|]; [|done]. intros [= <- <-].
  destruct (IH a' b' eq_refl) as [-> Ha]. split; [done|].
  apply bool_decide_eq_false in Ha. apply bool_decide_eq_false. simpl. apply not_elem_of_cons. by split.
Qed.

(** The credentials of a request: what its Authorization header encodes. *)
Definition presents (r : Request) (username password : string) : Prop :=
  ∃ enc, Header_Get r "Authorization" = "Basic " +:+ enc ∧
    DecodeString enc = Some (username +:+ String ":" password) ∧ mem_byte username ":" = false.

Definition rejection (w w' : World) (statuses : list Z) : Prop :=
  ∃ status h body, w' = write status body (with_headers h w) ∧ status ∈ statuses.

Lemma http_Error_rejects msg code w statuses : code ∈ statuses → rejection w (http_Error msg code w) statuses.
Proof. intros H. by eexists code, _, _. Qed.
Lemma http_Error_rejects_header k v msg code w statuses :
  code ∈ statuses → rejection w (http_Error msg code (set_header k v w)) statuses.
Proof. intros H. by eexists code, _, _. Qed.

Lemma presents_ok r u p :
  presents r u p →
  Header_Get r "Authorization" ≠ "" ∧ HasPrefix (Header_Get r "Authorization") "Basic " = true ∧
  ∃ s, DecodeString (TrimPrefix (Header_Get r "Authorization") "Basic ") = Some s ∧ SplitN2 s ":" = [u; p].
Proof.
  intros (enc & -> & Hd & Hu). split; [done|]. pose proof (HasPrefix_app "Basic " enc) as Hp.
  split; [exact Hp|]. unfold TrimPrefix. rewrite Hp, drop_app. exists (u +:+ String ":" p).
  split; [done|]. unfold SplitN2. by rewrite Cut_colon.
Qed.

(** Basic authentication lets a request through as a user exactly when its
    header carries that user's name and password; any other request is answered
    with one 401, or, without the 401, goes on as it came. *)
Lemma basic_auth_cases creds send next r w :
  (∃ u p, presents r u p ∧ creds !! u = Some p ∧
     VerifyBasicAuth creds send next r w = next (WithContext r (set_BasicAuth u (req_Ctx r))) w) ∨
  ((∀ u p, presents r u p → creds !! u ≠ Some p) ∧
   if send401_of send then rejection w (VerifyBasicAuth creds send next r w) [401]
   else VerifyBasicAuth creds send next r w = next r w).
Proof.
  assert (401 ∈ [401]) as H401 by by left.
  unfold VerifyBasicAuth. case_bool_decide as He.
  { right. split; [intros u p Hp; by apply presents_ok in Hp as [? _]|].
    destruct (send401_of send); [by apply http_Error_rejects_header | done]. }
  destruct (HasPrefix _ "Basic ") eqn:Hb; cbn [negb].
  2:{ right. split; [intros u p Hp; apply presents_ok in Hp as (_ & ? & _); congruence|].
      destruct (send401_of send); [by apply http_Error_rejects | done]. }
  destruct (DecodeString _) as [s|] eqn:Hd.
  2:{ right. split; [intros u p Hp; apply presents_ok in Hp as (_ & _ & s & ? & _); congruence|].
      destruct (send401_of send); [by apply http_Error_rejects | done]. }
  unfold SplitN2. destruct (Cut s ":") as [[u p]|] eqn:Hc.
  2:{ right. split; [intros u p Hp; apply presents_ok in Hp as (_ & _ & s' & ? & Hs)|
        destruct (send401_of send); [by apply http_Error_rejects | done]].
      assert (s' = s) as -> by congruence. unfold SplitN2 in Hs. by rewrite Hc in Hs. }
  case_bool_decide as Hm.
  - left. exists u, p. split_and!; [|done|done]. apply Cut_join in Hc as [-> Hu].
    exists (TrimPrefix (Header_Get r "Authorization") "Basic "). split_and!; [|done..].
    unfold TrimPrefix. rewrite Hb. by apply HasPrefix_spec.
  - right. split; [|destruct (send401_of send); [by apply http_Error_rejects_header | done]].
    intros u' p' Hp. apply presents_ok in Hp as (_ & _ & s' & ? & Hs).
    assert (s' = s) as -> by congruence. unfold SplitN2 in Hs. rewrite Hc in Hs. by simplify_eq.
Qed.

(** A client that encodes its name and password presents them. *)
Lemma presents_encoded r u p :
  mem_byte u ":" = false →
  Header_Get r "Authorization" = "Basic " +:+ EncodeToString (u +:+ String ":" p) → presents r u p.
Proof. intros Hu E. exists (EncodeToString (u +:+ String ":" p)). by rewrite DecodeString_EncodeToString. Qed.

Lemma presents_unique r u p u' p' : presents r u p → presents r u' p' → u = u' ∧ p = p'.
Proof.
  intros (_ & _ & s & Hs & E)%presents_ok (_ & _ & s' & Hs' & E')%presents_ok.
  assert (s' = s) as -> by congruence. rewrite E in E'. by simplify_eq.
Qed.

(** A client that sends its name and password in basic authentication goes
    on as that user exactly when the password is the one configured; otherwise it
    gets one 401, or goes on without a user where the 401 is turned off. *)
Theorem basic_auth_admits creds send next r w u p :
  mem_byte u ":" = false →
  Header_Get r "Authorization" = "Basic " +:+ EncodeToString (u +:+ String ":" p) →
  if bool_decide (creds !! u = Some p) then
    VerifyBasicAuth creds send next r w = next (WithContext r (set_BasicAuth u (req_Ctx r))) w
  else if send401_of send then rejection w (VerifyBasicAuth creds send next r w) [401]
  else VerifyBasicAuth creds send next r w = next r w.
Proof.
  intros Hu Hh. pose proof (presents_encoded r u p Hu Hh) as Hp.
  destruct (basic_auth_cases creds send next r w) as [(u' & p' & Hp' & Hc & E)|[Hno E]].
  - destruct (presents_unique _ _ _ _ _ Hp Hp') as [<- <-]. by rewrite bool_decide_eq_true_2.
  - rewrite bool_decide_eq_false_2; [exact E | by apply Hno].
Qed.

(** ** CORS *)

Definition ACAO : string := "Access-Control-Allow-Origin".
Definition ACAC : string := "Access-Control-Allow-Credentials".

(** [w'] differs from [w] in the response headers [ks] at most. *)
Definition only (ks : list string) (w w' : World) : Prop :=
  ∃ h, w' = with_headers h w ∧ ∀ k, k ∉ ks → h !! k = w_headers w !! k.

Lemma only_refl ks w : only ks w w.
Proof. exists (w_headers w). split; [by destruct w | done]. Qed.
Lemma only_trans ks ks' w w1 w2 : only ks w w1 → only ks' w1 w2 → only (ks ++ ks') w w2.
Proof.
  intros (h & -> & Hh) (h' & -> & Hh'). exists h'. split; [done|]. intros k Hk.
  apply not_elem_of_app in Hk as [? ?]. rewrite Hh' by done. simpl. by apply Hh.
Qed.
Lemma only_set k v w : only [k] w (set_header k v w).
Proof.
  eexists. split; [done|]. intros k' Hk. apply lookup_insert_ne. intros ->. apply Hk. by left.
Qed.
Lemma only_list k l w : only [k] w (set_list k l w).
Proof. unfold set_list. case_bool_decide; [apply only_refl | apply only_set]. Qed.
Lemma only_if (b : bool) ks w w' : only ks w w' → only ks w (if b then w' else w).
Proof. intros ?. destruct b; [done | apply only_refl]. Qed.
Lemma only_lookup ks w w' k : only ks w w' → bool_decide (k ∈ ks) = false → w_headers w' !! k = w_headers w !! k.
Proof. intros (h & -> & Hh) Hk%bool_decide_eq_false. by apply Hh. Qed.
Lemma only_with ks w w' : only ks w w' → ∃ h, w' = with_headers h w ∧ h = w_headers w'.
Proof. intros (h & -> & _). by exists h. Qed.

(** The headers a response to an allowed origin gets after its origin. *)
Definition cors_rest (o : CORSOptions) (options : bool) (w : World) : World :=
  let w := set_list "Access-Control-Expose-Headers" (ExposedHeaders o) w in
  if options then
    let w := set_list "Access-Control-Allow-Methods" (AllowedMethods o) w in
    let w := set_list "Access-Control-Allow-Headers" (AllowedHeaders o) w in
    if 0 <? MaxAge o then set_header "Access-Control-Max-Age" (Itoa (MaxAge o)) w else w
  else w.

Lemma cors_rest_only o b w :
  only ["Access-Control-Expose-Headers"; "Access-Control-Allow-Methods"; "Access-Control-Allow-Headers";
        "Access-Control-Max-Age"] w (cors_rest o b w).
Proof.
  unfold cors_rest. destruct b.
  - eapply (only_trans [_]); [apply only_list|]. eapply (only_trans [_]); [apply only_list|].
    eapply (only_trans [_]); [apply only_list | apply only_if, only_set].
  - eapply (only_trans [_]); [apply only_list | apply only_refl].
Qed.

(** The answer to an origin that is allowed. *)
Lemma cors_allowed o next r w :
  let options := bool_decide (req_Method r = "OPTIONS") in
  let w1 := if is_wildcard o then set_header ACAO "*" w
            else set_header ACAO (Header_Get r "Origin") (add_header "Vary" "Origin" w) in
  let w2 := cors_rest o options (if AllowCredentials o then set_header ACAC "true" w1 else w1) in
  Header_Get r "Origin" ≠ "" → is_wildcard o = true ∨ Header_Get r "Origin" ∈ AllowedOrigins o →
  cors o next r w = if options then write 204 BNone w2 else next r w2.
Proof.
  intros options w1 w2 Ho Ha. unfold cors. rewrite (bool_decide_eq_false_2 (_ = "")) by done.
  unfold options, w2, w1. destruct (is_wildcard o).
  - cbn iota beta. rewrite bool_decide_eq_false_2 by done. by case_bool_decide.
  - destruct Ha as [?|Ha]; [done|]. rewrite (bool_decide_eq_true_2 (_ ∈ _)) by done. cbn iota beta.
    rewrite bool_decide_eq_false_2 by done. by case_bool_decide.
Qed.

Lemma cors_refused o next r w :
  Header_Get r "Origin" = "" ∨ (is_wildcard o = false ∧ Header_Get r "Origin" ∉ AllowedOrigins o) →
  cors o next r w = next r w.
Proof.
  intros Hno. unfold cors. case_bool_decide as He; [done|]. destruct Hno as [?|[-> Hn]]; [done|].
  by rewrite bool_decide_eq_false_2.
Qed.

(** A request either is refused, or comes from an origin that is allowed. *)
Lemma cors_dec o r :
  (Header_Get r "Origin" = "" ∨ (is_wildcard o = false ∧ Header_Get r "Origin" ∉ AllowedOrigins o)) ∨
  (Header_Get r "Origin" ≠ "" ∧ (is_wildcard o = true ∨ Header_Get r "Origin" ∈ AllowedOrigins o)).
Proof.
  destruct (decide (Header_Get r "Origin" = "")) as [|Hne]; [by left; left|].
  destruct (is_wildcard o); [by right; split; [|left]|].
  destruct (decide (Header_Get r "Origin" ∈ AllowedOrigins o)); [by right; split; [|right] | by left; right].
Qed.

Lemma cors_passes o next r w :
  ∃ h, cors o next r w = next r (with_headers h w) ∨ cors o next r w = write 204 BNone (with_headers h w).
Proof.
  destruct (cors_dec o r) as [Hno|[Hne Ha]].
  - exists (w_headers w). left. rewrite cors_refused by done. by destruct w.
  - rewrite cors_allowed by done. cbv zeta.
    match goal with |- context [cors_rest o ?b ?x] =>
      destruct (only_with _ _ _ (cors_rest_only o b x)) as (h & E & _); exists h; rewrite E end.
    case_bool_decide; [right|left]; f_equal; by destruct (is_wildcard o), (AllowCredentials o).
Qed.

Lemma wildcard_origins o : is_wildcard o = true → AllowedOrigins o = ["*"].
Proof.
  unfold is_wildcard. destruct (AllowedOrigins o) as [|x [|]]; try done.
  by intros ->%bool_decide_eq_true.
Qed.

(** CORS answers or passes on a request with nothing changed but response
    headers; only a preflight is answered; the response names an origin only if
    it is allowed, and allows credentials only to an origin that is listed by
    name. *)
Theorem cors_spec options m next r w :
  CORSWithOptions options = Some m →
  let o := default defaultCORSOptions options in
  let origin := Header_Get r "Origin" in
  ∃ h, (m next r w = next r (with_headers h w) ∨
        req_Method r = "OPTIONS" ∧ origin ≠ "" ∧ m next r w = write 204 BNone (with_headers h w)) ∧
    (h !! ACAO = w_headers w !! ACAO ∨
     h !! ACAO = Some ["*"] ∧ AllowedOrigins o = ["*"] ∨
     h !! ACAO = Some [origin] ∧ origin ∈ AllowedOrigins o) ∧
    (h !! ACAC = w_headers w !! ACAC ∨
     h !! ACAC = Some ["true"] ∧ h !! ACAO = Some [origin] ∧ origin ∈ AllowedOrigins o ∧
       AllowedOrigins o ≠ ["*"]).
Proof.
  unfold CORSWithOptions. set (o := default defaultCORSOptions options). cbv zeta.
  destruct (is_wildcard o && AllowCredentials o) eqn:Hwc; [done|]. intros [= <-].
  set (origin := Header_Get r "Origin").
  destruct (cors_dec o r) as [Hno|[Hne Ha]].
  { exists (w_headers w). split; [left | by auto]. rewrite cors_refused by done. by destruct w. }
  pose proof (cors_allowed o next r w Hne Ha) as E. cbv zeta in E. rewrite E.
  set (b := bool_decide (req_Method r = "OPTIONS")) in *.
  match goal with |- context [cors_rest o b ?x] => set (w1 := x) in * end.
  pose proof (cors_rest_only o b w1) as Hr. set (w2 := cors_rest o b w1) in *.
  assert (∃ h, w1 = with_headers h w) as [h1 Hw1].
  { unfold w1. destruct (is_wildcard o), (AllowCredentials o); by eexists. }
  pose proof (only_lookup _ _ _ ACAO Hr eq_refl) as Eo. pose proof (only_lookup _ _ _ ACAC Hr eq_refl) as Ec.
  destruct (only_with _ _ _ Hr) as (h & Eh & ->). exists (w_headers w2).
  replace (with_headers (w_headers w2) w) with w2 by (rewrite Eh at 1; by rewrite Hw1).
  split.
  { destruct b eqn:Hb; [right|by left]. apply bool_decide_eq_true in Hb. by split_and!. }
  rewrite Eo, Ec. unfold w1. destruct (is_wildcard o) eqn:Hw.
  - apply wildcard_origins in Hw. simpl in Hwc. rewrite Hwc. unfold set_header. simpl. split.
    + right. left. split; [apply lookup_insert_eq | done].
    + left. by apply lookup_insert_ne.
  - destruct Ha as [?|Ha]; [done|]. destruct (AllowCredentials o); unfold set_header, add_header; simpl.
    + split; [right; right; split; [|done]; rewrite lookup_insert_ne by done; apply lookup_insert_eq|].
      right. split_and!; [apply lookup_insert_eq | rewrite lookup_insert_ne by done; apply lookup_insert_eq | done |].
      intros Hs. unfold is_wildcard in Hw. rewrite Hs in Hw. by apply bool_decide_eq_false in Hw.
    + split; [right; right; split; [apply lookup_insert_eq | done]|]. left. by rewrite !lookup_insert_ne by done.
Qed.

(** The default options answer every preflight with a list of methods without
    PATCH, the method of an update. *)
Theorem preflight_without_patch next r w :
  req_Method r = "OPTIONS" → Header_Get r "Origin" ≠ "" →
  ∃ w', cors defaultCORSOptions next r w = write 204 BNone w' ∧
    w_headers w' !! "Access-Control-Allow-Methods" = Some ["GET, POST, PUT, DELETE, OPTIONS"].
Proof.
  intros Hm Ho. pose proof (cors_allowed defaultCORSOptions next r w Ho (or_introl eq_refl)) as E.
  cbv zeta in E. rewrite E, bool_decide_eq_true_2 by done. eexists. split; [done|].
  unfold cors_rest, set_list, set_header. rewrite !bool_decide_eq_false_2 by done.
  cbn [w_headers with_headers MaxAge defaultCORSOptions Z.ltb Z.compare].
  by rewrite !lookup_insert_ne, lookup_insert_eq by done.
Qed.

(** ** The stack *)

Section Stack.
Context `{UC : Unicode} `{UU : Uuid} `{TV : TokenVerifier} `{PP : PgxPool}.
Context (Format : string → Z → Request → list (string * string)) (c : RestConfig).

(** The claims of a token in the request that the verifier accepts. *)
Definition verified (r : Request) (claims : gmap string any) : Prop :=
  let authHeader := Header_Get r "Authorization" in
  oidc_configured c = true ∧ HasPrefix (ToLower authHeader) "bearer " = true ∧
  ∃ token, Verify (TrimPrefix authHeader "Bearer ") = Some token ∧ Claims token = Some (Some claims).

(** The user whose name and password the request carries. *)
Definition known (r : Request) (u : string) : Prop :=
  basic_configured c = true ∧ ∃ p, presents r u p ∧ rc_BasicAuth c !! u = Some p.

(** The roles a request may run under: the role in the claims of its token,
    the user of its password, the anonymous role. *)
Inductive grants (r : Request) : string → Prop :=
| grant_oidc claims role :
    verified r claims → Jq (Some claims) (rc_roleClaimKey c) = Ok (AStr role) → grants r role
| grant_basic u : known r u → grants r u
| grant_anon : rc_AnonRole c ≠ "" → grants r (rc_AnonRole c).

(** What the middleware before the pool leaves in the context. *)
Definition authentic (r : Request) (ctx : Ctx) : Prop :=
  (∀ claims, ctx_OIDCUser ctx = Some claims → verified r claims) ∧
  (∀ u, ctx_BasicAuth ctx = Some u → known r u) ∧
  ctx_PgConn ctx = None ∧ ctx_OIDCRoleClaim ctx = None.

Definition answers : list Z := [204; 401; 500].

(** A middleware answers the request itself, or passes it on with a context that
    satisfies [P] when it came with one that satisfies [Q]. *)
Definition guards (r : Request) (Q P : Ctx → Prop) (m : Middleware) : Prop :=
  ∀ next ctx w, Q ctx →
    rejection w (m next (WithContext r ctx) w) answers ∨
    ∃ ctx' h, P ctx' ∧ m next (WithContext r ctx) w = next (WithContext r ctx') (with_headers h w).

Lemma rejection_headers h w w' l : rejection (with_headers h w) w' l → rejection w w' l.
Proof. intros (st & h' & b & -> & ?). by exists st, h', b. Qed.

Lemma guards_Add r P ms :
  Forall (guards r P P) ms → guards r P P (λ next, Add next ms).
Proof.
  induction 1 as [|m ms Hm Hms IH]; intros next ctx w Hctx.
  - right. exists ctx, (w_headers w). split; [done|]. rewrite Add_nil. by destruct w.
  - rewrite Add_cons. destruct (Hm (Add next ms) ctx w Hctx) as [?|(ctx1 & h1 & H1 & ->)]; [by left|].
    destruct (IH next ctx1 (with_headers h1 w) H1) as [?|(ctx2 & h2 & H2 & E)].
    + left. by eapply rejection_headers.
    + right. exists ctx2, h2. by split.
Qed.

Lemma guards_RequestID r : guards r (authentic r) (authentic r) RequestID.
Proof. intros next ctx w H. right. eexists _, _. split; [|reflexivity]. exact H. Qed.

Lemma guards_cors r : guards r (authentic r) (authentic r) (cors defaultCORSOptions).
Proof.
  intros next ctx w H.
  destruct (cors_passes defaultCORSOptions next (WithContext r ctx) w) as (h & [E|E]); rewrite E.
  - right. by exists ctx, h.
  - left. exists 204, h, BNone. split; [done | by left].
Qed.

Lemma guards_oidc r : oidc_configured c = true → guards r (authentic r) (authentic r) (VerifyOIDCToken [false]).
Proof.
  intros Hc next ctx w H. unfold VerifyOIDCToken. cbn [send401_of].
  change (Header_Get (WithContext r ctx) "Authorization") with (Header_Get r "Authorization").
  assert (∃ ctx' h, authentic r ctx' ∧
    next (WithContext r ctx) w = next (WithContext r ctx') (with_headers h w)) as Hsame.
  { exists ctx, (w_headers w). split; [done|]. by destruct w. }
  case_bool_decide; [by right|]. destruct (HasPrefix _ _) eqn:Hb; cbn [negb]; [|by right].
  destruct (Verify _) as [token|] eqn:Hv; [|left; apply http_Error_rejects; set_solver].
  destruct (Claims token) as [claims|] eqn:Hcl; [|left; apply http_Error_rejects; set_solver].
  right. exists (set_OIDCUser claims ctx), (w_headers w). split; [|by destruct w].
  destruct H as (_ & Hu & Hp & Hr). split_and!; try done. intros m Hm. simpl in Hm. subst claims.
  split_and!; [done..|]. by exists token.
Qed.

Lemma guards_basic r :
  basic_configured c = true → guards r (authentic r) (authentic r) (VerifyBasicAuth (rc_BasicAuth c) [false]).
Proof.
  intros Hc next ctx w H.
  destruct (basic_auth_cases (rc_BasicAuth c) [false] next (WithContext r ctx) w)
    as [(u & p & Hp & Hu & E)|[_ E]]; cbn [send401_of] in E; rewrite E; right.
  - exists (set_BasicAuth u ctx), (w_headers w). split; [|by destruct w].
    destruct H as (Ho & _ & Hn & Hr). split_and!; try done. intros u' [= <-]. split; [done|]. by exists p.
  - exists ctx, (w_headers w). split; [done|]. by destruct w.
Qed.

Lemma authorize_sound r ctx ctx' :
  authentic r ctx → authorize (rest_authorizers c) ctx = Some ctx' →
  ctx' = ctx ∨ ∃ role, ctx' = set_role role ctx ∧ grants r role.
Proof.
  intros (Ho & Hb & _). unfold rest_authorizers.
  assert (∀ fs, (∀ f a, f ∈ fs → f ctx = Some a → az_Allowed a = true → grants r (az_Role a)) →
    authorize fs ctx = Some ctx' → ctx' = ctx ∨ ∃ role, ctx' = set_role role ctx ∧ grants r role) as Hall.
  { induction fs as [|f fs IH]; intros Hf; simpl; [by intros [= <-]; left|].
    destruct (f ctx) as [a|] eqn:Ea; [|done]. destruct (az_Allowed a) eqn:Hal.
    - intros [= <-]. right. exists (az_Role a). split; [done|]. eapply Hf; [by left | done | done].
    - apply IH. intros f' a' Hin. apply Hf. by right. }
  apply Hall. intros f a Hin Ea Hal. rewrite !elem_of_app in Hin. destruct Hin as [Hin|[Hin|Hin]].
  - destruct (oidc_configured c); [|by apply elem_of_nil in Hin].
    apply list_elem_of_singleton in Hin as ->. unfold WithOIDCAuthz in Ea. injection Ea as <-.
    destruct (ctx_OIDCUser ctx) as [claims|] eqn:Hc; [|done].
    destruct (Jq (Some claims) (rc_roleClaimKey c)) as [[]|] eqn:Hj; try done.
    by apply grant_oidc with claims; [apply Ho|].
  - destruct (basic_configured c); [|by apply elem_of_nil in Hin].
    apply list_elem_of_singleton in Hin as ->. unfold WithBasicAuthz in Ea. injection Ea as <-.
    destruct (ctx_BasicAuth ctx) as [u|] eqn:Hu; [|done]. by apply grant_basic, Hb.
  - case_bool_decide as Hr; [by apply elem_of_nil in Hin|].
    apply list_elem_of_singleton in Hin as ->. injection Ea as <-. by apply grant_anon.
Qed.

(** The context a handler of the stack sees: a role that was granted, and the
    connection taken for the request. *)
Definition admitted (r : Request) (w : World) (ctx : Ctx) : Prop :=
  ctx_PgConn ctx = Some (w_acquired w) ∧
  (∀ claims, ctx_OIDCUser ctx = Some claims → verified r claims) ∧
  (∀ u, ctx_BasicAuth ctx = Some u → known r u) ∧
  ∃ role, ctx_OIDCRoleClaim ctx = Some role ∧ grants r role.

Lemma Postgres_cases r next ctx w :
  authentic r ctx →
  rejection w (Postgres (rest_authorizers c) next (WithContext r ctx) w) answers ∨
  ∃ ctx', admitted r w ctx' ∧ pool_Acquire w = true ∧
    Postgres (rest_authorizers c) next (WithContext r ctx) w = next (WithContext r ctx') (acquired w).
Proof.
  intros H. unfold Postgres. cbn [WithContext req_Ctx].
  destruct (authorize (rest_authorizers c) ctx) as [ctx'|] eqn:Ea; [|left; apply http_Error_rejects; set_solver].
  destruct (authorize_sound r ctx ctx' H Ea) as [->|(role & -> & Hg)].
  - destruct H as (_ & _ & _ & ->). left. apply http_Error_rejects. set_solver.
  - cbn [set_role ctx_OIDCRoleClaim]. destruct (pool_Acquire w); [|left; apply http_Error_rejects; set_solver].
    right. eexists. split; [|done]. destruct H as (Ho & Hb & _). split_and!; [done..|]. by exists role.
Qed.

(** The middleware of the REST command answers a request itself, with one
    response, no statement and no connection taken, or hands it to the handler with
    a connection of the pool and a role that the request's token, its password or
    the configured anonymous role grants. *)
Theorem stack_grants handler r w :
  req_Ctx r = background →
  let w' := wrapWithMiddleware Format c handler r w in
  rejection w w' answers ∨
  ∃ ctx h, admitted r w ctx ∧
    let done := handler (WithContext r ctx) (acquired (with_headers h w)) in
    (w' = done ∨ ∃ line, w' = log_line line done).
Proof.
  intros Hr. cbv zeta. unfold wrapWithMiddleware, rest_middleware.
  set (log := rest_logger Format c).
  rewrite !app_assoc, <-(app_assoc _ [_]). rewrite Add_app.
  match goal with |- context [Add _ ?l r w] => set (ms := l) end.
  assert (Forall (guards r (authentic r) (authentic r)) ms) as Hms.
  { unfold ms. repeat apply Forall_app_2.
    - constructor; [apply guards_RequestID|]. constructor; [apply guards_cors | constructor].
    - destruct (oidc_configured c) eqn:?; constructor; [by apply guards_oidc | constructor].
    - destruct (basic_configured c) eqn:?; constructor; [by apply guards_basic | constructor]. }
  pose proof (guards_Add r _ ms Hms (Add handler ([Postgres (rest_authorizers c)] ++ log)) background w) as Hg.
  replace (WithContext r background) with r in Hg by (by rewrite <-Hr; destruct r).
  destruct Hg as [?|(ctx & h & Hctx & ->)]; [by split_and! | by left |].
  change ([Postgres (rest_authorizers c)] ++ log) with (Postgres (rest_authorizers c) :: log). rewrite Add_cons.
  destruct (Postgres_cases r (Add handler log) ctx (with_headers h w) Hctx) as [Hrej|(ctx' & Ha & _ & ->)];
    [left; by eapply rejection_headers|]. right. unfold log, rest_logger. case_bool_decide.
  - exists ctx', h. split; [done|]. by left.
  - change (Add handler [LoggerWithOptions Format]) with (LoggerWithOptions Format handler).
    unfold LoggerWithOptions. cbn [WithContext req_Ctx]. destruct (ctx_LogEntry ctx').
    + exists ctx', h. split; [done|]. by left.
    + exists (set_LogEntry ctx'), h. split; [done|]. right. by eexists.
Qed.

End Stack.

(** ** Requests without credentials *)

Section Anonymous.
Context `{UC : Unicode} `{UU : Uuid} `{PP : PgxPool}.
Context (Format : string → Z → Request → list (string * string)) (c : RestConfig).

Lemma authorize_anonymous ctx :
  rc_AnonRole c ≠ "" → ctx_OIDCUser ctx = None → ctx_BasicAuth ctx = None →
  authorize (rest_authorizers c) ctx = Some (set_role (rc_AnonRole c) ctx).
Proof.
  intros Ha Ho Hb. unfold rest_authorizers. rewrite bool_decide_eq_false_2 by done.
  destruct (oidc_configured c), (basic_configured c); cbn [app authorize]; unfold WithOIDCAuthz, WithBasicAuthz;
    by rewrite ?Ho, ?Hb.
Qed.

(** What happens to a request that is let on: it goes to the handler with the
    anonymous role and a connection of the pool. *)
Definition let_on (handler : Handler) (r : Request) (w w' : World) : Prop :=
  ∃ ctx h, ctx_OIDCUser ctx = None ∧ ctx_BasicAuth ctx = None ∧ ctx_OIDCRoleClaim ctx = Some (rc_AnonRole c) ∧
    ctx_PgConn ctx = Some (w_acquired w) ∧
    let handled := handler (WithContext r ctx) (acquired (with_headers h w)) in
    (w' = handled ∨ ∃ line, w' = log_line line handled).

Lemma logged_on handler r w :
  ctx_OIDCUser (req_Ctx r) = None → ctx_BasicAuth (req_Ctx r) = None → rc_AnonRole c ≠ "" →
  (pool_Acquire w = false ∧ rejection w (Add handler (Postgres (rest_authorizers c) :: rest_logger Format c) r w) [500]) ∨
  (pool_Acquire w = true ∧ let_on handler r w (Add handler (Postgres (rest_authorizers c) :: rest_logger Format c) r w)).
Proof.
  intros Ho Hb Ha. rewrite Add_cons. unfold Postgres. rewrite authorize_anonymous by done. cbn [set_role ctx_OIDCRoleClaim].
  destruct (pool_Acquire w) eqn:Hp; [right|left; split; [done|]; apply http_Error_rejects; by left]. split; [done|].
  set (ctx := set_role _ _).
  assert (w = with_headers (w_headers w) w) as Hw by by destruct w.
  unfold rest_logger. case_bool_decide.
  - exists ctx, (w_headers w). split_and!; [done..|]. left. by rewrite <-Hw.
  - change (Add handler [LoggerWithOptions Format]) with (LoggerWithOptions Format handler).
    unfold LoggerWithOptions. cbn [WithContext req_Ctx]. destruct (ctx_LogEntry ctx).
    + exists ctx, (w_headers w). split_and!; [done..|]. left. by rewrite <-Hw.
    + exists (set_LogEntry ctx), (w_headers w). split_and!; [done..|]. right. rewrite <-Hw. by eexists.
Qed.

(** A request without an Authorization header through the stack: a preflight is
    answered; without a connection it is refused; otherwise it is let on. *)
Lemma anonymous_stack `{TV : TokenVerifier} handler r w :
  req_Ctx r = background → Header_Get r "Authorization" = "" → rc_AnonRole c ≠ "" →
  let w' := wrapWithMiddleware Format c handler r w in
  ∃ h, (req_Method r = "OPTIONS" ∧ Header_Get r "Origin" ≠ "" ∧ w' = write 204 BNone (with_headers h w)) ∨
    (pool_Acquire (with_headers h w) = false ∧ rejection w w' [500]) ∨
    (pool_Acquire (with_headers h w) = true ∧ let_on handler r w w').
Proof.
  intros Hr Hauth Ha. cbn zeta. unfold wrapWithMiddleware, rest_middleware. rewrite Add_app.
  set (inner := Add handler _).
  assert (∀ r' w', Header_Get r' "Authorization" = "" →
    inner r' w' = Add handler (Postgres (rest_authorizers c) :: rest_logger Format c) r' w') as Hinner.
  { intros r' w' H. unfold inner. rewrite Add_app.
    assert (∀ next, Add next (if oidc_configured c then [VerifyOIDCToken [false]] else []) r' w' = next r' w') as ->.
    { intros next. destruct (oidc_configured c); [|done]. rewrite Add_cons, Add_nil. unfold VerifyOIDCToken.
      by rewrite bool_decide_eq_true_2. }
    rewrite Add_app. destruct (basic_configured c); [|done]. rewrite Add_cons, Add_nil. unfold VerifyBasicAuth.
    by rewrite bool_decide_eq_true_2. }
  rewrite !Add_cons, Add_nil. unfold RequestID. set (reqID := match nonempty _ with Some _ => _ | None => _ end).
  set (r1 := WithContext r _). set (w1 := set_header _ _ w).
  assert (∃ h1, w1 = with_headers h1 w) as [h1 Hw1] by by eexists.
  destruct (cors_spec None (cors defaultCORSOptions) inner r1 w1 eq_refl) as (h & [E|(Hm & Ho & E)] & _); exists h; rewrite E.
  - right. rewrite Hinner by done.
    assert (with_headers h w1 = with_headers h w) as -> by done.
    assert (ctx_OIDCUser (req_Ctx r1) = None ∧ ctx_BasicAuth (req_Ctx r1) = None) as [H1 H2] by (subst r1; by rewrite Hr).
    destruct (logged_on handler r1 (with_headers h w) H1 H2 Ha) as [[Hp Hrej]|[Hp (ctx & h' & Hc)]]; [left|right].
    + split; [done|]. by eapply rejection_headers.
    + split; [done|]. by exists ctx, h'.
  - left. by split_and!.
Qed.

End Anonymous.

(** ** The stack in front of the table handlers *)

Section EndToEnd.
Context `{PI : PgxIdentifier} `{UC : Unicode} `{GF : GoFloat} `{DB : Database}.
Context `{UU : Uuid} `{TV : TokenVerifier} `{PP : PgxPool}.
Context (Format : string → Z → Request → list (string * string)) (c : RestConfig).
Context (error_text : query_error → string) (env : Env) (s : Server) (json_decode : string → option any).

(** A map of strings can always be encoded. *)
Lemma Marshal_strings (m : gmap string any) :
  (∀ k v, m !! k = Some v → ∃ t, v = AStr t) → is_Some (Marshal (AObj m)).
Proof.
  intros Hm.
  assert (is_Some (map_fold (λ k x acc, y ← Marshal x; ys ← acc; Some ((k, y) :: ys)) (Some []) m)) as [l E].
  { revert Hm. apply (map_fold_weak_ind (λ acc m, (∀ k v, m !! k = Some v → ∃ t, v = AStr t) → is_Some acc));
      [by eexists|]. intros k x m' acc Hk IH Hm.
    destruct (Hm k x) as [t ->]; [apply lookup_insert_eq|].
    destruct IH as [ys ->]; [|by eexists]. intros k' v Hv. apply (Hm k' v).
    rewrite lookup_insert_ne; [done|]. congruence. }
  cbn [Marshal]. rewrite E. by eexists.
Qed.

(** The user of a request that was admitted. *)
Lemma admitted_conn r w ctx role :
  admitted c r w ctx → ctx_OIDCRoleClaim ctx = Some role → role ≠ "" →
  ∃ user, Conn (WithContext r ctx) = Ok (user, w_acquired w) ∧
    request_role env ctx = Some role ∧
    ((∃ claims, verified c r claims ∧ user = claims) ∨ is_Some (Marshal (AObj user))).
Proof.
  intros (Hp & Ho & _ & _) Hr Hne.
  assert (request_role env ctx = Some role) as Hrr.
  { unfold request_role. rewrite Hr. simpl. by rewrite bool_decide_eq_false_2. }
  unfold Conn. cbn [WithContext req_Ctx]. rewrite Hp.
  destruct (ctx_OIDCUser ctx) as [claims|] eqn:Hc.
  { exists claims. split_and!; [done..|]. left. exists claims. split; [by apply Ho | done]. }
  destruct (nonempty (ctx_BasicAuth ctx)) as [u|].
  - eexists. split_and!; [done..|]. right. apply Marshal_strings. intros k v Hkv.
    apply elem_of_list_to_map_2 in Hkv. rewrite !elem_of_cons, elem_of_nil in Hkv. naive_solver.
  - rewrite Hr. simpl nonempty. rewrite bool_decide_eq_false_2 by done.
    eexists. split_and!; [done..|]. right. apply Marshal_strings. intros k v Hkv.
    apply elem_of_list_to_map_2 in Hkv. rewrite !elem_of_cons, elem_of_nil in Hkv. naive_solver.
Qed.

(** The role the session takes is one that was granted and not empty; or the empty
    string was granted, and it is the fallback of the environment. *)
Lemma admitted_role r w ctx role :
  admitted c r w ctx → request_role env ctx = Some role →
  role ≠ "" ∧ grants c r role ∨
  grants c r "" ∧ env_anon_role env = Some role ∧ nonempty (ctx_OIDCRoleClaim ctx) = None.
Proof.
  intros (_ & _ & Hb & (role' & Hr & Hg)) H. unfold request_role in H. rewrite Hr in H |- *. cbn [nonempty] in *.
  case_bool_decide as He; [subst role'|left; by simplify_eq].
  destruct (nonempty (ctx_BasicAuth ctx)) as [u|] eqn:Hu.
  - left. simplify_eq. destruct (ctx_BasicAuth ctx) as [u|]; [|done]. cbn in Hu. case_bool_decide; [done|].
    simplify_eq. split; [done|]. by apply grant_basic, Hb.
  - right. destruct (env_anon_role env); cbn in H; [|done]. case_bool_decide; [done|]. by simplify_eq.
Qed.

(** C7: a request through the stack gets one response. It runs nothing; or it
    begins by taking a role that is not empty and that its token, its password or
    the anonymous role grants; or, when what is granted is the empty string, it
    takes the role of the environment and runs nothing but the session's statements.
    The connection taken for it goes back to the pool, with one exception: a request
    that was granted the empty string, or whose claims cannot be encoded, may be
    answered with 500 before anything is run, and keeps its connection. *)
Theorem rest_end_to_end r :
  req_Ctx r = background →
  let w' := wrapWithMiddleware Format c (handleRequest error_text env s json_decode) r initial_world in
  length (w_written w') = 1%nat ∧
  (w_sql w' = [] ∨
   ∃ role claims rest, w_sql w' = (role_query env role claims, []) :: rest ∧
     (role ≠ "" ∧ grants c r role ∨
      grants c r "" ∧ env_anon_role env = Some role ∧
        Forall (λ st, ∃ claims, st = (role_query env role claims, [])) rest)) ∧
  (w_acquired w' = 0%nat ∧ w_sql w' = [] ∨
   w_acquired w' = 1%nat ∧
     (0%nat ∈ w_released w' ∨
      w_sql w' = [] ∧ statuses w' = [500] ∧
        (grants c r "" ∨ ∃ claims, verified c r claims ∧ Marshal (AObj claims) = None))).
Proof.
  intros Hr. cbv zeta.
  destruct (stack_grants Format c (handleRequest error_text env s json_decode) r initial_world Hr)
    as [(st & h & b & E & _)|(ctx & h & Ha & E)]; [rewrite E; by auto|].
  set (w0 := acquired (with_headers h initial_world)) in *. set (r' := WithContext r ctx) in *.
  set (w1 := handleRequest error_text env s json_decode r' w0) in *.
  pose proof (one_response error_text env s json_decode r' w0) as H1.
  destruct (session_first error_text env s json_decode r' w0) as [Hacq Hs].
  fold w1 in H1, Hacq, Hs. change (w_written w0) with (@nil response) in *.
  change (w_sql w0) with (@nil (string * argList)) in *. change (w_acquired w0) with 1%nat in *.
  assert (ctx_PgConn ctx = Some 0%nat) as Hconn by (by destruct Ha).
  assert (0%nat ∈ w_released w1 ∨ w_sql w1 = [] ∧ statuses w1 = [500] ∧
    (grants c r "" ∨ ∃ claims, verified c r claims ∧ Marshal (AObj claims) = None)) as Hrel.
  { destruct Hs as [(conn & role & claims & rest & Hc & _ & _ & Hin)|[Hq Hst]];
      [left; cbn in Hc; by simplify_eq|].
    pose proof Ha as (_ & _ & _ & (role & Hrole & Hg)). destruct (decide (role = "")) as [->|Hne]; [by auto|].
    destruct (admitted_conn r initial_world ctx role) as (user & Hc & Hrr & Hm); try assumption.
    destruct (Marshal (AObj user)) as [claims|] eqn:Hmar.
    - left. by eapply (connection_released error_text env s json_decode r' w0).
    - right. destruct Hm as [(claims & Hv & ->)|[? ?]]; [|congruence]. split_and!; [done..|]. right. by exists claims. }
  assert (w_sql w1 = [] ∨ ∃ role claims rest, w_sql w1 = (role_query env role claims, []) :: rest ∧
     (role ≠ "" ∧ grants c r role ∨ grants c r "" ∧ env_anon_role env = Some role ∧
        Forall (λ st, ∃ claims, st = (role_query env role claims, [])) rest)) as Hsql.
  { destruct Hs as [(conn & role & claims & rest & _ & Hrr & Hq & _)|[Hq _]]; [right | by left].
    exists role, claims, rest. split; [exact Hq|].
    destruct (admitted_role _ _ _ _ Ha Hrr) as [?|(Hg & He & Hn)]; [by left|right]. split_and!; [done..|].
    destruct (no_role_no_statement error_text env s json_decode r' w0 Hn) as (l & El & Hl). fold w1 in El.
    rewrite Hq in El. cbn in El. subst l. apply Forall_cons in Hl as [_ Hl]. eapply Forall_impl; [exact Hl|].
    intros st (role' & claims' & Hrole' & ->). exists claims'. do 2 f_equal. cbn in Hrole', Hrr. congruence. }
  destruct E as [-> | [line ->]]; (split_and!; [exact H1 | exact Hsql | right; by split]).
Qed.

End EndToEnd.

(** ** Witnesses *)

Definition one_uuid : Uuid := {| uuid_New := λ _, "0b5e" |}.
Definition full_pool : PgxPool := {| pool_Acquire := λ _, true |}.
(** A verifier that knows one token, whose role claim is empty. *)
Definition empty_role_token : TokenVerifier := {|
  idToken := unit;
  Verify := λ t, if bool_decide (t = "tok") then Some () else None;
  Claims := λ _, Some (Some {["role" := AStr ""]}) |}.

Definition demo_config : RestConfig := {|
  rc_ClientID := "pigo"; rc_Issuer := "https://issuer"; rc_roleClaimKey := ".role";
  rc_BasicAuth := {["web" := "secret"]}; rc_AnonRole := "anon"; rc_logLevel := "info" |}.
Definition plain_format (id : string) (status : Z) (r : Request) : list (string * string) :=
  [("req_id", id); ("status", Itoa status); ("path", req_Path r)].

Definition client_request (authorization : string) : Request := {|
  req_Method := "DELETE"; req_Path := "/people"; req_Query := ∅;
  req_Header := {["Authorization" := authorization]}; req_Ctx := background;
  req_Body := ""; req_ContentLength := 0 |}.

Definition demo_stack (r : Request) : World :=
  wrapWithMiddleware (UC := latin1_unicode) (UU := one_uuid) (TV := empty_role_token) (PP := full_pool)
    plain_format demo_config
    (handleRequest (PI := quoting_identifier) (UC := latin1_unicode) (GF := integral_floats)
       (DB := refusing_database) (λ _, "error") no_env people_server (λ _, None)) r initial_world.

Definition web_request : Request := client_request ("Basic " +:+ EncodeToString "web:secret").

(** The user of a password runs under its own name. *)
Lemma rest_end_to_end_witness :
  (∃ role claims rest, w_sql (demo_stack web_request) = (role_query no_env role claims, []) :: rest ∧
     role ≠ "" ∧ grants (UC := latin1_unicode) (TV := empty_role_token) demo_config web_request role) ∧
  fst <$> firstn 1 (w_sql (demo_stack web_request)) =
    [bq "SET ROLE web;SET request.jwt.claims TO '{`sub`:`web`,`username`:`web`}';"] ∧
  w_released (demo_stack web_request) = [0%nat].
Proof.
  split; [|split; vm_compute; reflexivity].
  destruct (rest_end_to_end (PI := quoting_identifier) (UC := latin1_unicode) (GF := integral_floats)
    (DB := refusing_database) (UU := one_uuid) (TV := empty_role_token) (PP := full_pool)
    plain_format demo_config (λ _, "error") no_env people_server (λ _, None) web_request eq_refl)
    as (_ & [E|(role & claims & rest & E & [[Hne Hg]|(_ & He & _)])] & _).
  - apply (f_equal length) in E. vm_compute in E. discriminate E.
  - exists role, claims, rest. by split_and!.
  - discriminate He.
Defined.

Lemma stack_grants_witness :
  req_Ctx web_request = background ∧
  ∃ ctx h, admitted (UC := latin1_unicode) (TV := empty_role_token) demo_config web_request initial_world ctx ∧
    ctx_OIDCRoleClaim ctx = Some "web" ∧ w_acquired (acquired (with_headers h initial_world)) = 1%nat.
Proof.
  split; [reflexivity|].
  destruct (stack_grants (UC := latin1_unicode) (UU := one_uuid) (TV := empty_role_token) (PP := full_pool)
    plain_format demo_config
    (λ r w, HTML 200 (default "" (ctx_OIDCRoleClaim (req_Ctx r))) w) web_request initial_world eq_refl)
    as [(st & h & b & E & Hin)|(ctx & h & Ha & E)].
  - exfalso. apply (f_equal (λ w, rsp_status <$> w_written w)) in E. vm_compute in E.
    injection E as <-. unfold answers in Hin. rewrite !elem_of_cons, elem_of_nil in Hin. naive_solver.
  - exists ctx, h. split; [exact Ha|]. split; [|reflexivity].
    destruct Ha as (_ & _ & _ & (role & Hr & _)). rewrite Hr. f_equal.
    assert (rsp_body <$> w_written (wrapWithMiddleware (UC := latin1_unicode) (UU := one_uuid)
      (TV := empty_role_token) (PP := full_pool) plain_format demo_config
      (λ r w, HTML 200 (default "" (ctx_OIDCRoleClaim (req_Ctx r))) w) web_request initial_world) = [BHTML "web"])
      as Hb by (vm_compute; reflexivity).
    destruct E as [E|[line E]]; rewrite E in Hb; simpl in Hb; rewrite Hr in Hb; by injection Hb.
Defined.

(** Through the whole stack, a token with an empty role takes a connection of
    the pool that is never given back. *)
Example stack_leaks_connection :
  let w := demo_stack (client_request "Bearer tok") in
  w_acquired w = 1%nat ∧ w_released w = [] ∧ rsp_status <$> w_written w = [500].
Proof. vm_compute. auto. Qed.

(** The scheme is compared without case, but removed from the header only when
    it is written [Bearer]: the verifier is given the whole header. *)
Example bearer_lower_case :
  rsp_status <$> w_written (demo_stack (client_request "bearer tok")) = [401].
Proof. vm_compute. auto. Qed.

Lemma cors_spec_witness :
  CORSWithOptions None = Some (cors defaultCORSOptions) ∧
  ∃ h, cors defaultCORSOptions (λ _ w, w) (client_request "") initial_world = with_headers h initial_world.
Proof.
  split; [reflexivity|].
  destruct (cors_spec None (cors defaultCORSOptions) (λ _ w, w) (client_request "") initial_world eq_refl)
    as (h & [E|(Hm & _)] & _); [by exists h | discriminate Hm].
Defined.

Lemma preflight_without_patch_witness :
  let r := {| req_Method := "OPTIONS"; req_Path := "/people"; req_Query := ∅;
              req_Header := {["Origin" := "https://app"]}; req_Ctx := background;
              req_Body := ""; req_ContentLength := 0 |} in
  ∃ w', cors defaultCORSOptions (λ _ w, w) r initial_world = write 204 BNone w' ∧
    w_headers w' !! "Access-Control-Allow-Methods" = Some ["GET, POST, PUT, DELETE, OPTIONS"].
Proof. apply preflight_without_patch; vm_compute; congruence. Defined.

Lemma basic_auth_admits_witness :
  mem_byte "web" ":" = false ∧
  VerifyBasicAuth {["web" := "secret"]} [true] (λ r w, HTML 200 (default "" (ctx_BasicAuth (req_Ctx r))) w)
    web_request initial_world = HTML 200 "web" initial_world.
Proof.
  split; [reflexivity|].
  pose proof (basic_auth_admits {["web" := "secret"]} [true]
    (λ r w, HTML 200 (default "" (ctx_BasicAuth (req_Ctx r))) w) web_request initial_world "web" "secret"
    eq_refl eq_refl) as H.
  rewrite bool_decide_eq_true_2 in H by reflexivity. exact H.
Defined.
