(* ===== verification/FileServer.v ===== *)
(** * FileServer: [middleware/file_server.go] and [middleware/proxy.go].

    Static files from a directory of the host or from files in the binary. The file
    system is an argument: a function from paths to files and directories, read by
    [os.Stat] and, through [net/http], by [http.ServeFile], which is a class with
    the law that it reads only the file or directory it is given. What is proved is
    lexical: links in the file system are its own affair. *)

From S2P Require Import Prelude GoStrings GoStringFacts Paths GoAny Http Middleware.
Local Open Scope Z_scope.

Inductive file := File (content : string) | Directory.
Definition FileSystem : Type := string → option file.
Definition IsDir (f : file) : bool := match f with Directory => true | File _ => false end.

(** [p] is the directory of the words [bs] or lies under it. *)
Definition under (bs : list string) (p : string) : Prop :=
  ∃ rest, p = abs_path (bs ++ rest) ∧ Forall (λ w, plain w = true) rest.

(** The same of a cleaned absolute path: [p] is [dir] or one of the names in it. *)
Definition below (dir p : string) : Prop :=
  p = dir ∨ ∃ rest, p = (if bool_decide (dir = "/") then dir else dir +:+ "/") +:+ Join rest "/" ∧
                    rest ≠ [] ∧ Forall (λ w, plain w = true) rest.

(** [net/http] and [mime]. *)
Class HttpFiles := {
  http_ServeFile : FileSystem → Request → string → World → World;
  http_ServeContent : Request → string → string → World → World;
  mime_TypeByExtension : string → string
}.
Class HttpFilesLaw `(HF : HttpFiles) := {
  ServeFile_reads : ∀ fs fs' r bs w, (∀ p, under bs p → fs p = fs' p) →
    http_ServeFile fs r (abs_path bs) w = http_ServeFile fs' r (abs_path bs) w
}.

Definition http_NotFound (w : World) : World := http_Error "404 page not found" 404 w.

Definition isValidFilePath (filePath : string) : bool := negb (HasPrefix (Clean filePath) ".").

Definition isSubPath (baseDir path : string) : bool :=
  match Rel baseDir path with Some rel => negb (HasPrefix rel "..") | None => false end.

(** Files in the binary, by their paths. *)
Definition EmbedFS : Type := gmap string string.
Definition readFileFromFS (embeddedFS : EmbedFS) (filePath : string) : option string := embeddedFS !! filePath.

Section FileServer.
Context `{HF : HttpFiles}.

Definition setContentType (filePath : string) (w : World) : World :=
  let ext := Ext filePath in
  if bool_decide (ext = "") then w else
  let ct := mime_TypeByExtension ext in
  if bool_decide (ct = "") then w else set_header "Content-Type" ct w.

Definition serveEmbedded (embeddedFS : EmbedFS) (baseDir : string) (spaFallback : bool) : Handler :=
  λ r w,
    let filePath := Join2 baseDir (req_Path r) in
    if negb (isValidFilePath filePath) then http_Error "Forbidden" 403 w else
    let '(filePath, found) :=
      match readFileFromFS embeddedFS filePath with
      | None => if spaFallback then
                  let filePath := Join2 baseDir "index.html" in
                  (filePath, readFileFromFS embeddedFS filePath)
                else (filePath, None)
      | found => (filePath, found)
      end in
    match found with
    | None => http_NotFound w
    | Some fileData => http_ServeContent r filePath fileData (setContentType filePath w)
    end.

(** The handler for the directory [absDir]. *)
Definition local_handler (fs : FileSystem) (absDir : string) (spaFallback : bool) : Handler :=
  λ r w,
    let path := TrimPrefix (req_Path r) "/" in
    let cleanPath := Clean path in
    let requestedPath := Join2 absDir cleanPath in
    if negb (isSubPath absDir requestedPath) then http_Error "Forbidden" 403 w else
    let '(requestedPath, fileInfo) :=
      match fs requestedPath with
      | None => if spaFallback then
                  let indexPath := Join2 absDir "index.html" in (indexPath, fs indexPath)
                else (requestedPath, None)
      | info => (requestedPath, info)
      end in
    match fileInfo with
    | None => http_NotFound w
    | Some info =>
        if IsDir info && negb spaFallback then http_Error "Directory listing not allowed" 403 w
        else http_ServeFile fs r requestedPath (setContentType requestedPath w)
    end.

(** [None] is the program's end by [log.Fatalf]. *)
Definition serveLocal (cwd : option string) (fs : FileSystem) (directory : string) (spaFallback : bool)
    : option Handler :=
  (λ absDir, local_handler fs absDir spaFallback) <$> Abs cwd directory.

Definition Static (cwd : option string) (fs : FileSystem) (directory : string) (spaFallback : bool)
    (embeddedFS : option EmbedFS) : option Handler :=
  match embeddedFS with
  | Some e => Some (serveEmbedded e directory spaFallback)
  | None => serveLocal cwd fs directory spaFallback
  end.

(** ** Files of a directory *)

(** Whatever the working directory, the directory served is cleaned. *)
Lemma Abs_plain cwd directory absDir :
  (∀ wd, cwd = Some wd → IsAbs wd = true) → Abs cwd directory = Some absDir →
  ∃ bs, absDir = abs_path bs ∧ Forall (λ w, plain w = true) bs.
Proof.
  intros Hcwd H. unfold Abs in H. destruct (IsAbs directory) eqn:Ha.
  - injection H as <-. destruct (Clean_rooted _ Ha) as (bs & -> & Hb & _). by exists bs.
  - destruct cwd as [wd|]; [|done]. injection H as <-. specialize (Hcwd wd eq_refl).
    unfold IsAbs in Hcwd. unfold Join2. rewrite bool_decide_eq_false_2 by (intros ->; done).
    apply HasPrefix_spec in Hcwd. rewrite Hcwd, app_assoc_str.
    destruct (Clean_rooted ("/" +:+ (drop (len "/") wd +:+ "/" +:+ directory))) as (bs & -> & Hb & _);
      [apply HasPrefix_app|]. by exists bs.
Qed.

Lemma isSubPath_under bs ts :
  Forall (λ w, plain w = true) bs → Forall (λ w, plain w = true) ts →
  isSubPath (abs_path bs) (abs_path ts) = true ↔ ∃ rest, ts = bs ++ rest ∧ up_first rest = false.
Proof.
  intros Hb Ht. unfold isSubPath. destruct (Rel_under bs ts Hb Ht) as (rel & -> & <-).
  apply negb_true_iff.
Qed.

Lemma index_under bs :
  Forall (λ w, plain w = true) bs → Join2 (abs_path bs) "index.html" = abs_path (bs ++ ["index.html"]).
Proof.
  intros Hb. destruct (Join2_abs bs "index.html" Hb) as (ts & -> & _ & ->).
  change (words "index.html") with ["index.html"]. f_equal.
  rewrite clean_words_keep by (by constructor). by rewrite reverse_involutive.
Qed.

Lemma under_below bs p : Forall (λ w, plain w = true) bs → under bs p → below (abs_path bs) p.
Proof.
  intros Hb (rest & -> & Hr). destruct rest as [|x rest]; [left; by rewrite app_nil_r|]. right.
  exists (x :: rest). split; [|done]. destruct bs as [|b bs]; [done|].
  rewrite bool_decide_eq_false_2 by by intros E%(abs_path_inj _ [] Hb (Forall_nil_2 _)).
  unfold abs_path. by rewrite Join_app, !app_assoc_str.
Qed.

Context `{HL : !HttpFilesLaw HF}.

Lemma under_sub bs rest p : Forall (λ w, plain w = true) rest → under (bs ++ rest) p → under bs p.
Proof. intros Hr (rest' & -> & H). exists (rest ++ rest'). rewrite app_assoc. split; [done|]. by apply Forall_app. Qed.

(** C32: the file server is confined to its directory: its answer to any request,
    whatever its path, is the same in two file systems that agree on the directory
    served and on what lies under it. *)
Theorem serveLocal_confined cwd fs fs' directory spaFallback absDir r w :
  (∀ wd, cwd = Some wd → IsAbs wd = true) → Abs cwd directory = Some absDir →
  (∀ p, below absDir p → fs p = fs' p) →
  match serveLocal cwd fs directory spaFallback, serveLocal cwd fs' directory spaFallback with
  | Some h, Some h' => h r w = h' r w
  | _, _ => False
  end.
Proof.
  intros Hcwd Habs Hagree. unfold serveLocal. rewrite Habs. cbn [fmap option_fmap option_map].
  destruct (Abs_plain _ _ _ Hcwd Habs) as (bs & -> & Hb).
  assert (∀ rest p, Forall (λ w, plain w = true) rest → under (bs ++ rest) p → fs p = fs' p) as Hsub.
  { intros rest p Hr Hp. apply Hagree, under_below; [done|]. by eapply under_sub. }
  assert (∀ rest, Forall (λ w, plain w = true) rest → fs (abs_path (bs ++ rest)) = fs' (abs_path (bs ++ rest))) as Hat.
  { intros rest Hr. apply Hagree, under_below; [done|]. by exists rest. }
  assert (∀ rest w, Forall (λ w, plain w = true) rest →
    http_ServeFile fs r (abs_path (bs ++ rest)) w = http_ServeFile fs' r (abs_path (bs ++ rest)) w) as Hserve.
  { intros rest w' Hr. apply ServeFile_reads. intros p. by apply Hsub. }
  unfold local_handler. rewrite index_under by done.
  destruct (Join2_abs bs (Clean (TrimPrefix (req_Path r) "/")) Hb) as (ts & -> & Ht & _).
  destruct (isSubPath _ _) eqn:Hs; [|done]. cbn [negb].
  apply isSubPath_under in Hs as (rest & -> & _); [|done..]. apply Forall_app in Ht as [_ Hr].
  assert (Forall (λ w, plain w = true) ["index.html"]) as Hi by by constructor.
  rewrite (Hat rest), (Hat ["index.html"]) by done.
  destruct (fs' (abs_path (bs ++ rest))) as [f|].
  - destruct (_ && _); [done|]. by rewrite Hserve.
  - destruct spaFallback; [|done]. destruct (fs' _) as [f|]; [|done]. destruct (_ && _); [done|].
    by rewrite Hserve.
Qed.

(** A path of names under the directory is answered with what is there: the file,
    the start page for a single-page application, or an error. Only a first name
    that begins with two dots is forbidden. *)
Theorem local_serves fs bs ws spaFallback r w :
  Forall (λ w, plain w = true) bs → Forall (λ w, plain w = true) ws →
  req_Path r = abs_path ws →
  local_handler fs (abs_path bs) spaFallback r w =
    let serve name := http_ServeFile fs r name (setContentType name w) in
    if up_first ws then http_Error "Forbidden" 403 w else
    match fs (abs_path (bs ++ ws)) with
    | Some Directory => if spaFallback then serve (abs_path (bs ++ ws))
                        else http_Error "Directory listing not allowed" 403 w
    | Some (File _) => serve (abs_path (bs ++ ws))
    | None =>
        if spaFallback then
          match fs (abs_path (bs ++ ["index.html"])) with
          | Some _ => serve (abs_path (bs ++ ["index.html"]))
          | None => http_NotFound w
          end
        else http_NotFound w
    end.
Proof.
  intros Hb Hw Hp. unfold local_handler. rewrite Hp, index_under by done.
  assert (TrimPrefix (abs_path ws) "/" = Join ws "/") as -> by (by destruct ws).
  assert (Join2 (abs_path bs) (Clean (Join ws "/")) = abs_path (bs ++ ws)) as ->.
  { destruct (Join2_abs bs (Clean (Join ws "/")) Hb) as (ts & -> & _ & ->). f_equal.
    destruct ws as [|x ws]; [|].
    { change (reverse (reverse bs) = bs ++ []). by rewrite app_nil_r, reverse_involutive. }
    assert (Clean (Join (x :: ws) "/") = Join (x :: ws) "/") as ->.
    { assert (words (Join (x :: ws) "/") = x :: ws) as Hws
        by (apply (Split_Join (x :: ws) "/"); [done | by apply plain_free]).
      unfold Clean. pose proof Hw as [Hx%plain_spec _]%Forall_cons.
      assert (Join (x :: ws) "/" ≠ "") as Hne.
      { intros E. rewrite E in Hws. cbn in Hws. injection Hws as <- _. tauto. }
      rewrite bool_decide_eq_false_2 by done.
      destruct (HasPrefix (Join (x :: ws) "/") "/") eqn:Hs.
      - apply HasPrefix_spec in Hs. rewrite Hs in Hws. cbn in Hws. injection Hws as <- _. tauto.
      - rewrite Hws, clean_words_keep by done. by rewrite bool_decide_eq_false_2. }
    unfold words. change "/" with (String slash ""). rewrite Split_Join; [|done|by apply plain_free].
    by rewrite clean_words_keep, reverse_involutive. }
  assert (isSubPath (abs_path bs) (abs_path (bs ++ ws)) = negb (up_first ws)) as ->.
  { apply eq_true_iff_eq. rewrite isSubPath_under by (try done; by apply Forall_app).
    rewrite negb_true_iff. split; [|by exists ws]. by intros (rest & <-%app_inv_head & H). }
  rewrite negb_involutive. destruct (up_first ws); [done|].
  destruct (fs (abs_path (bs ++ ws))) as [[c|]|]; destruct spaFallback; try done.
  all: by destruct (fs _) as [[]|].
Qed.

(** With the fallback for single-page applications, a directory goes to
    [http.ServeFile], which lists it; without it, listing is forbidden. *)
Theorem fallback_lists_directories fs bs ws r w :
  Forall (λ w, plain w = true) bs → Forall (λ w, plain w = true) ws → up_first ws = false →
  req_Path r = abs_path ws → fs (abs_path (bs ++ ws)) = Some Directory →
  local_handler fs (abs_path bs) true r w =
    http_ServeFile fs r (abs_path (bs ++ ws)) (setContentType (abs_path (bs ++ ws)) w) ∧
  local_handler fs (abs_path bs) false r w = http_Error "Directory listing not allowed" 403 w.
Proof. intros Hb Hw Hu Hp Hd. by rewrite !(local_serves fs bs ws), Hu, Hd by done. Qed.

(** ** Files in the binary *)

(** A path of names is read where it says; nothing whose path begins with a dot is
    served, and a missing file is the start page or an error. *)
Lemma embedded_reads embeddedFS baseDir spaFallback r w :
  let filePath := Join2 baseDir (req_Path r) in
  let serve name := match embeddedFS !! name with
                    | Some data => http_ServeContent r name data (setContentType name w)
                    | None => http_NotFound w
                    end in
  serveEmbedded embeddedFS baseDir spaFallback r w =
    if HasPrefix (Clean filePath) "." then http_Error "Forbidden" 403 w
    else if spaFallback && bool_decide (embeddedFS !! filePath = None) then serve (Join2 baseDir "index.html")
    else serve filePath.
Proof.
  cbv zeta. unfold serveEmbedded, isValidFilePath, readFileFromFS. rewrite negb_involutive.
  destruct (HasPrefix _ "."); [done|]. destruct (embeddedFS !! Join2 baseDir (req_Path r)) eqn:E.
  - rewrite bool_decide_eq_false_2, andb_false_r by done. done.
  - rewrite bool_decide_eq_true_2, andb_true_r by done. by destruct spaFallback.
Qed.

End FileServer.

(** ** Examples *)

(** A handler of files without conditions, ranges and listings. *)
#[local] Instance simple_files : HttpFiles := {|
  http_ServeFile := λ fs r name w,
    match fs name with
    | Some (File content) => write 200 (BText content) w
    | Some Directory => write 200 (BHTML "<pre></pre>") w
    | None => http_NotFound w
    end;
  http_ServeContent := λ r name content w, write 200 (BText content) w;
  mime_TypeByExtension := λ ext, if bool_decide (ext = ".html") then "text/html; charset=utf-8" else "" |}.
#[local] Instance simple_files_law : HttpFilesLaw simple_files.
Proof.
  split. intros fs fs' r bs w H. simpl. rewrite H; [done|]. exists []. by rewrite app_nil_r.
Qed.

Definition get (path : string) : Request :=
  {| req_Method := "GET"; req_Path := path; req_Query := ∅; req_Header := ∅; req_Ctx := background;
     req_Body := ""; req_ContentLength := 0 |}.
Definition site (secret : string) : FileSystem := λ p,
  if bool_decide (p = "/srv/www/index.html") then Some (File "hello")
  else if bool_decide (p = "/srv/www/app") then Some Directory
  else if bool_decide (p = "/etc/passwd") then Some (File secret) else None.

Lemma serveLocal_confined_witness :
  match serveLocal None (site "root") "/srv/www/" false, serveLocal None (site "other") "/srv/www/" false with
  | Some h, Some h' => h (get "/../../etc/passwd") initial_world = h' (get "/../../etc/passwd") initial_world
  | _, _ => False
  end.
Proof.
  apply (serveLocal_confined (HF := simple_files) None (site "root") (site "other") "/srv/www/" false "/srv/www"); [done|reflexivity|].
  intros p Hp. unfold site. do 2 (case_bool_decide; [done|]). case_bool_decide as Hp'; [|done]. subst p.
  exfalso. destruct Hp as [Hp|(rest & Hp & _)]; [done|]. discriminate Hp.
Defined.

(** The check of the other handler looks at the first byte only: a path that goes
    up and down again reads a file beside the directory that is served. *)
Example embedded_escapes :
  w_written (serveEmbedded {["dist/index.html" := "hello"; "config.yaml" := "secret"]} "dist" false
    (get "/../config.yaml") initial_world) =
  [{| rsp_status := 200; rsp_headers := ∅; rsp_body := BText "secret" |}].
Proof. reflexivity. Qed.
(** Files below the directory whose names begin with a dot are served, though. *)
Example dot_files_served :
  w_written (serveEmbedded {["dist/.env" := "secret"]} "dist" false (get "/.env") initial_world) =
  [{| rsp_status := 200; rsp_headers := ∅; rsp_body := BText "secret" |}].
Proof. reflexivity. Qed.
(** A name that only begins with two dots is forbidden. *)
Example two_dots_forbidden :
  rsp_status <$> w_written (local_handler (λ _, Some (File "x")) "/srv" false (get "/..data") initial_world) = [403].
Proof. reflexivity. Qed.

(** ** Proxy: [middleware/proxy.go] *)

(** What the proxy reads of a parsed URL, and the parts of an outgoing request
    that its director writes. *)
Record TargetURL := { url_Scheme : string; url_Host : string; url_Hostname : string; url_Path : string }.
Record TLSConfig := { tls_InsecureSkipVerify : bool; tls_ServerName : string }.
Record ProxyOptions := { po_TLSConfig : option TLSConfig; po_TrimPrefix : string; po_ForwardedHost : string }.
Record OutRequest := {
  out_Scheme : string; out_URLHost : string; out_Host : string; out_Path : string;
  out_Header : gmap string (list string) }.

Class NetURL := { url_Parse : string → option TargetURL }.

(** The defaults of the options. *)
Definition proxy_options (targetURL : TargetURL) (opts : ProxyOptions) : ProxyOptions := {|
  po_TLSConfig := Some (default {| tls_InsecureSkipVerify := true; tls_ServerName := url_Hostname targetURL |}
                          (po_TLSConfig opts));
  po_TrimPrefix := po_TrimPrefix opts;
  po_ForwardedHost := if bool_decide (po_ForwardedHost opts = "") then url_Host targetURL else po_ForwardedHost opts |}.

Definition Director (targetURL : TargetURL) (opts : ProxyOptions) (req : OutRequest) : OutRequest :=
  let path := if bool_decide (po_TrimPrefix opts = "") then out_Path req
              else TrimPrefix (out_Path req) (po_TrimPrefix opts) in
  let forwarded := negb (bool_decide (po_ForwardedHost opts = "")) in
  {| out_Scheme := url_Scheme targetURL; out_URLHost := url_Host targetURL;
     out_Host := if forwarded then po_ForwardedHost opts else url_Host targetURL;
     out_Path := path;
     out_Header := if forwarded then <["X-Forwarded-Host" := [po_ForwardedHost opts]]> (out_Header req)
                   else out_Header req |}.

(** [Proxy]: the error response for a target that is no URL, or what the reverse
    proxy sends for a request, with the TLS settings it uses. *)
Definition Proxy `{NetURL} (target : string) (opts : ProxyOptions) : option (OutRequest → OutRequest * option TLSConfig) :=
  (λ targetURL, let opts := proxy_options targetURL opts in
                λ req, (Director targetURL opts req, po_TLSConfig opts)) <$> url_Parse target.

(** A proxied request goes to the host of the target, whatever host the client
    named; the path of the target plays no part, and the header for the forwarded
    host never has the host of the client. *)
Theorem proxy_target `{NetURL} target opts targetURL req :
  url_Parse target = Some targetURL →
  ∃ out tls, (∃ f, Proxy target opts = Some f ∧ f req = (out, Some tls)) ∧
    out_URLHost out = url_Host targetURL ∧ out_Scheme out = url_Scheme targetURL ∧
    out_Path out = TrimPrefix (out_Path req) (po_TrimPrefix opts) ∧
    (url_Host targetURL ≠ "" →
      let host := if bool_decide (po_ForwardedHost opts = "") then url_Host targetURL else po_ForwardedHost opts in
      out_Host out = host ∧ out_Header out !! "X-Forwarded-Host" = Some [host]) ∧
    (po_TLSConfig opts = None → tls_InsecureSkipVerify tls = true).
Proof.
  intros Hu. unfold Proxy. rewrite Hu. do 2 eexists. split; [by eexists|]. cbn [out_URLHost out_Scheme out_Path Director].
  split_and!; [done|done| | |].
  - cbn [po_TrimPrefix proxy_options]. case_bool_decide as E; [|done]. rewrite E. by destruct (out_Path req).
  - intros Hh. cbn [out_Host out_Header po_ForwardedHost proxy_options Director].
    assert ((if bool_decide (po_ForwardedHost opts = "") then url_Host targetURL else po_ForwardedHost opts) ≠ "")
      as Hne by by case_bool_decide.
    cbv zeta. rewrite (bool_decide_eq_false_2 (_ = "") Hne). cbn [negb].
    split; [done|]. apply lookup_insert_eq.
  - cbn [po_TLSConfig proxy_options]. by intros ->.
Qed.
