(* ===== verification/RestCommand.v ===== *)
(** * RestCommand: [cmd/pigo/root.go], [cmd/pigo/rest.go], [pkg/config/config.go],
    the OIDC provider of [middleware/verify_oidc.go] and the life of the server in
    [pkg/rest/server.go].

    From the configuration file, the environment and the flags to the stack of
    middleware of file Middleware. The configuration library is a class: what it
    reads and decodes. *)

From S2P Require Import Prelude GoStrings GoAny FilterSQL FilterTests Jq Http Middleware MiddlewareProps Support.
Local Open Scope Z_scope.

(** ** config.go *)

Record OIDCConfig := { oc_ClientID : string; oc_ClientSecret : string; oc_Issuer : string;
                       oc_SkipTLSVerify : bool; oc_RoleClaimKey : string }.
Record RESTConfig := {
  cf_ConnString : string; cf_ListenAddr : string; cf_BasePath : string; cf_OIDC : OIDCConfig;
  cf_BasicAuth : gmap string string; cf_AnonRole : string; cf_Omitempty : bool }.

(** What a [viper.Viper] has been told. *)
Record viper := {
  vp_defaults : list (string * any);
  vp_file : string;                 (* [SetConfigFile] *)
  vp_name : string; vp_type : string; vp_paths : list string;
  vp_env : bool; vp_prefix : string }.

Inductive read_error := ConfigFileNotFound | ReadFailed (e : string).

Class Viper := {
  viper_ReadInConfig : viper → option read_error;
  viper_Unmarshal : viper → res string RESTConfig
}.

Definition SetDefaults (v : viper) : viper := {|
  vp_defaults := vp_defaults v ++
    [("rest.listenAddr", AStr ":8080"); ("rest.anonRole", AStr "anon");
     ("rest.oidc.roleClaimKey", AStr ".policy.pgrole"); ("rest.omitempty", ABool false)];
  vp_file := vp_file v; vp_name := vp_name v; vp_type := vp_type v; vp_paths := vp_paths v;
  vp_env := vp_env v; vp_prefix := vp_prefix v |}.
Definition new_viper : viper :=
  {| vp_defaults := []; vp_file := ""; vp_name := "config"; vp_type := ""; vp_paths := []; vp_env := false; vp_prefix := "" |}.

Inductive load_error := FileError (file : string) (e : read_error) | DefaultFileError (e : string) | DecodeError (e : string).

(** The places searched, and the environment that overrides. *)
Definition search_paths (home : option string) (v : viper) : viper := {|
  vp_defaults := vp_defaults v; vp_file := vp_file v; vp_name := "pigo"; vp_type := "yaml";
  vp_paths := (match home with Some h => [h +:+ "/.config"] | None => [] end) ++ ["."];
  vp_env := vp_env v; vp_prefix := vp_prefix v |}.
Definition config_file (f : string) (v : viper) : viper := {|
  vp_defaults := vp_defaults v; vp_file := f; vp_name := vp_name v; vp_type := vp_type v; vp_paths := vp_paths v;
  vp_env := vp_env v; vp_prefix := vp_prefix v |}.
Definition automatic_env (v : viper) : viper := {|
  vp_defaults := vp_defaults v; vp_file := vp_file v; vp_name := vp_name v; vp_type := vp_type v;
  vp_paths := vp_paths v; vp_env := true; vp_prefix := "PIGO" |}.
Definition with_AnonRole (role : string) (c : RESTConfig) : RESTConfig := {|
  cf_ConnString := cf_ConnString c; cf_ListenAddr := cf_ListenAddr c; cf_BasePath := cf_BasePath c;
  cf_OIDC := cf_OIDC c; cf_BasicAuth := cf_BasicAuth c; cf_AnonRole := role; cf_Omitempty := cf_Omitempty c |}.

Definition Load `{Viper} (home : option string) (cfgFile : string) : res load_error RESTConfig :=
  let v := SetDefaults new_viper in
  let? v := if bool_decide (cfgFile = "") then
              let v := search_paths home v in
              match viper_ReadInConfig v with
              | None | Some ConfigFileNotFound => Ok v
              | Some (ReadFailed e) => Err (DefaultFileError e)
              end
            else
              let v := config_file cfgFile v in
              match viper_ReadInConfig v with
              | None => Ok v
              | Some e => Err (FileError cfgFile e)
              end in
  let? c := map_err DecodeError (viper_Unmarshal (automatic_env v)) in
  Ok (if bool_decide (cf_AnonRole c = "") then with_AnonRole "anon" c else c).

Lemma Load_anon `{Viper} home cfgFile c : Load home cfgFile = Ok c → cf_AnonRole c ≠ "".
Proof.
  unfold Load. intros H'. apply res_bind_ok in H' as (v & _ & H'). apply res_bind_ok in H' as (c' & _ & H').
  injection H' as <-. by case_bool_decide.
Qed.

(** A file that is named must be there; without a name, none need be. *)
Theorem Load_missing `{Viper} home cfgFile :
  (∀ v, viper_ReadInConfig v = Some ConfigFileNotFound) →
  match Load home cfgFile with
  | Err (FileError _ _) => cfgFile ≠ ""
  | Err (DecodeError _) | Ok _ => cfgFile = ""
  | Err (DefaultFileError _) => False
  end.
Proof.
  intros Hm. unfold Load. case_bool_decide as Hf; rewrite Hm; cbn [res_bind]; [|done].
  destruct (viper_Unmarshal _); done.
Qed.

(** ** verify_oidc.go: the provider is made once *)

Record OIDCProviderConfig := { op_ClientID : string; op_ClientSecret : string; op_Issuer : string; op_SkipTLSVerify : bool }.

(** The package's variables: not yet made, failed for good, or made for a
    configuration. *)
Inductive oidc_state := OidcFresh | OidcFailed | OidcReady (config : OIDCProviderConfig).

Inductive crash := Panic (msg : string) | Fatal (msg : string).

Class OidcDiscovery := {
  oidc_NewProvider : OIDCProviderConfig → option string;   (* an error *)
  oidc_verifier : OIDCProviderConfig → TokenVerifier
}.

Section OIDC.
Context `{UC : Unicode} `{OD : OidcDiscovery}.

Definition initOIDCProvider (config : OIDCProviderConfig) : res crash OIDCProviderConfig :=
  if bool_decide (op_ClientID config = "") || bool_decide (op_ClientSecret config = "") ||
     bool_decide (op_Issuer config = "") then Err (Panic "missing required OIDC configuration")
  else match oidc_NewProvider config with
       | Some e => Err (Fatal ("Failed to create OIDC provider: " +:+ e))
       | None => Ok config
       end.

(** [oidcInitOnce.Do]: a panic counts as done. *)
Definition oidc_once (config : OIDCProviderConfig) (s : oidc_state) : res crash unit * oidc_state :=
  match s with
  | OidcFresh =>
      match initOIDCProvider config with
      | Ok p => (Ok tt, OidcReady p)
      | Err e => (Err e, OidcFailed)
      end
  | _ => (Ok tt, s)
  end.

(** A request through the middleware, the wrapping included: it is wrapped anew
    for every request. *)
Definition VerifyOIDCToken_request (config : OIDCProviderConfig) (send401Unauthorized : list bool)
    (next : Handler) (r : Request) (w : World) (s : oidc_state) : res crash World * oidc_state :=
  match oidc_once config s with
  | (Err e, s) => (Err e, s)
  | (Ok _, s) =>
      match s with
      | OidcReady p => (Ok (@VerifyOIDCToken _ (oidc_verifier p) send401Unauthorized next r w), s)
      | _ =>
          if negb (bool_decide (Header_Get r "Authorization" = "")) &&
             HasPrefix (ToLower (Header_Get r "Authorization")) "bearer " then
            (Err (Panic "invalid memory address or nil pointer dereference"), s)
          else (Ok (@VerifyOIDCToken _ {| idToken := unit; Verify := λ _, None; Claims := λ _, None |}
                     send401Unauthorized next r w), s)
      end
  end.

(** The first configuration wins: whatever a later middleware asks for, tokens are
    verified for the provider made first. *)
Theorem first_provider_kept config first send next r w :
  VerifyOIDCToken_request config send next r w (OidcReady first) =
    (Ok (@VerifyOIDCToken _ (oidc_verifier first) send next r w), OidcReady first).
Proof. done. Qed.

Definition all_bearer (r : Request) : Prop :=
  Header_Get r "Authorization" ≠ "" ∧ HasPrefix (ToLower (Header_Get r "Authorization")) "bearer " = true.

(** Without a client secret, the first request of the process panics, whatever
    it is, and from then on every request with a token does, while requests without
    one are answered as if there were no such middleware. *)
Theorem missing_secret config next r w :
  op_ClientSecret config = "" →
  VerifyOIDCToken_request config [false] next r w OidcFresh =
    (Err (Panic "missing required OIDC configuration"), OidcFailed) ∧
  (all_bearer r → ∃ msg, VerifyOIDCToken_request config [false] next r w OidcFailed = (Err (Panic msg), OidcFailed)) ∧
  (¬ all_bearer r → VerifyOIDCToken_request config [false] next r w OidcFailed = (Ok (next r w), OidcFailed)).
Proof.
  intros Hs. split; [|split].
  - unfold VerifyOIDCToken_request, oidc_once, initOIDCProvider. rewrite Hs.
    rewrite (bool_decide_eq_true_2 ("" = "")) by done. by rewrite orb_true_r.
  - intros [Hne Hb]. unfold VerifyOIDCToken_request, oidc_once. rewrite bool_decide_eq_false_2, Hb by done.
    by eexists.
  - intros Hn. unfold VerifyOIDCToken_request, oidc_once.
    destruct (negb _ && _) eqn:E.
    + exfalso. apply Hn. apply andb_true_iff in E as [Ha Hb].
      apply negb_true_iff, bool_decide_eq_false in Ha. by split.
    + unfold VerifyOIDCToken. cbn [send401_of]. case_bool_decide as Ha; [done|]. cbn [negb andb] in E.
      by rewrite E.
Qed.

End OIDC.

(** ** rest.go: settings *)

(** The libraries the command connects with: an error, or none. *)
Class RestLibs := {
  pgxpool_New : string → option string;
  schema_NewCache : string → option string;
  otlploggrpc_New : list string → option string
}.

Record RestRun := {
  rr_connString : string; rr_oidc : OIDCProviderConfig; rr_stack : RestConfig;
  rr_ListenAddr : string; rr_BasePath : string; rr_Omitempty : bool; rr_sinks : list sink }.

(** [viper.GetString] of the process-wide instance, and [viper.Get] of the flag. *)
Record GlobalViper := { gv_GetString : string → string; gv_omitempty : any }.

Definition oidc_of (getenv : Environ) (c : RESTConfig) : OIDCProviderConfig := {|
  op_ClientID := cmp_Or (getenv "PIGO_OIDC_CLIENT_ID") (oc_ClientID (cf_OIDC c));
  op_ClientSecret := cmp_Or (getenv "PIGO_OIDC_CLIENT_SECRET") (oc_ClientSecret (cf_OIDC c));
  op_Issuer := cmp_Or (getenv "PIGO_OIDC_ISSUER") (oc_Issuer (cf_OIDC c));
  op_SkipTLSVerify := if bool_decide (getenv "PIGO_OIDC_SKIP_TLS_VERIFY" = "") then oc_SkipTLSVerify (cf_OIDC c) else true |}.

Section RestCommand.
Context `{RL : RestLibs}.

(** [rest.NewServer]: the cache, then the pool. *)
Definition NewServer_error (connString : string) : option string :=
  match schema_NewCache connString with
  | Some e => Some ("failed to create schema cache: " +:+ e)
  | None => (λ e, "failed to create connection pool: " +:+ e) <$> pgxpool_New connString
  end.

Definition newOTelLoggerProvider (endpoint : string) : option string :=
  otlploggrpc_New ("insecure" :: if bool_decide (endpoint = "") then [] else [endpoint]).

(** [runRESTServer] up to the start of the server. *)
Definition runRESTServer (hostname logLevel : string) (getenv : Environ) (gv : GlobalViper) (cfg : option RESTConfig)
    : res crash RestRun :=
  match cfg with
  | None => Err (Fatal "Configuration not loaded")
  | Some c =>
      let connString := cmp_Or (cf_ConnString c) (getenv "PIGO_REST_PG_CONN_STRING") in
      if bool_decide (connString = "") then Err (Fatal "PostgreSQL connection string required") else
      let oidcConfig := oidc_of getenv c in
      let roleClaimKey := cmp_Or (getenv "PIGO_POSTGRES_OIDC_ROLE_CLAIM_KEY") (oc_RoleClaimKey (cf_OIDC c)) in
      match pgxpool_New connString with
      | Some e => Err (Fatal ("Failed to create connection pool: " +:+ e))
      | None =>
          let listenAddr := cmp_Or (gv_GetString gv "rest.listenAddr") (cf_ListenAddr c) in
          let basePath := cmp_Or (gv_GetString gv "rest.basePath") (cf_BasePath c) in
          match gv_omitempty gv with
          | ABool b =>
              match NewServer_error connString with
              | Some e => Err (Fatal ("Failed to create server: " +:+ e))
              | None =>
                  let otelEndpoint := getenv "PIGO_OTEL_ENDPOINT" in
                  let logOtel := negb (bool_decide (otelEndpoint = "")) in
                  match (if logOtel then newOTelLoggerProvider otelEndpoint else None) with
                  | Some e => Err (Panic e)
                  | None =>
                      match NewLogger hostname {| lo_Level := ParseLevel logLevel; lo_AddSource := false; lo_JSON := true;
                              lo_Stderr := true; lo_OTel := logOtel; lo_OTelScope := ""; lo_LoggerProvider := logOtel |} with
                      | None => Err (Fatal "failed to create logger")
                      | Some sinks => Ok {|
                          rr_connString := connString; rr_oidc := oidcConfig;
                          rr_stack := {| rc_ClientID := op_ClientID oidcConfig; rc_Issuer := op_Issuer oidcConfig;
                                         rc_roleClaimKey := roleClaimKey; rc_BasicAuth := cf_BasicAuth c;
                                         rc_AnonRole := cf_AnonRole c; rc_logLevel := logLevel |};
                          rr_ListenAddr := listenAddr; rr_BasePath := basePath;
                          rr_Omitempty := b || cf_Omitempty c; rr_sinks := sinks |}
                      end
                  end
              end
          | _ => Err (Panic "interface conversion")
          end
      end
  end.

Lemma runRESTServer_stack hostname logLevel getenv gv c run :
  runRESTServer hostname logLevel getenv gv (Some c) = Ok run →
  rr_connString run ≠ "" ∧ rc_AnonRole (rr_stack run) = cf_AnonRole c ∧ rr_oidc run = oidc_of getenv c ∧
  rc_ClientID (rr_stack run) = op_ClientID (rr_oidc run) ∧ rc_Issuer (rr_stack run) = op_Issuer (rr_oidc run).
Proof.
  unfold runRESTServer. case_bool_decide; [done|]. destruct (pgxpool_New _); [done|].
  destruct (gv_omitempty gv) as [|b| | | | | |]; try done. destruct (NewServer_error _); [done|].
  destruct (if _ : bool then _ else None); [done|]. destruct (NewLogger _ _); [|done].
  intros E. injection E as <-. by split_and!.
Qed.

(** Of the flags that are bound, only three are read: whatever the others say, for
    the identity provider, the role claim, the anonymous role or the connection
    string, the server is the same. *)
Theorem other_flags_ignored hostname logLevel getenv gv gv' cfg :
  gv_GetString gv "rest.listenAddr" = gv_GetString gv' "rest.listenAddr" →
  gv_GetString gv "rest.basePath" = gv_GetString gv' "rest.basePath" →
  gv_omitempty gv = gv_omitempty gv' →
  runRESTServer hostname logLevel getenv gv cfg = runRESTServer hostname logLevel getenv gv' cfg.
Proof. intros H1 H2 H3. unfold runRESTServer. by rewrite H1, H2, H3. Qed.

End RestCommand.

(** ** A request of the command

    [wrapWithMiddleware] adds the middleware anew for every request, and adding that
    for tokens makes the provider: before any middleware has run. *)
Section Serve.
Context `{RL : RestLibs} `{VP : Viper} `{UC : Unicode} `{UU : Uuid} `{PP : PgxPool} `{OD : OidcDiscovery}.
Context (Format : string → Z → Request → list (string * string)).

Definition no_verifier : TokenVerifier := {| idToken := unit; Verify := λ _, None; Claims := λ _, None |}.
Definition bearer (r : Request) : bool :=
  negb (bool_decide (Header_Get r "Authorization" = "")) && HasPrefix (ToLower (Header_Get r "Authorization")) "bearer ".
(** A preflight, which [cors] answers before the token is looked at. *)
Definition preflight (r : Request) : bool :=
  bool_decide (req_Method r = "OPTIONS") && negb (bool_decide (Header_Get r "Origin" = "")).

Definition serve (run : RestRun) (handler : Handler) (r : Request) (w : World) (s : oidc_state) :
    res crash World * oidc_state :=
  let stack (TV : TokenVerifier) := wrapWithMiddleware (TV := TV) Format (rr_stack run) handler r w in
  if oidc_configured (rr_stack run) then
    match oidc_once (rr_oidc run) s with
    | (Err e, s) => (Err e, s)
    | (Ok _, OidcReady p) => (Ok (stack (oidc_verifier p)), OidcReady p)
    | (Ok _, s) =>
        if bearer r && negb (preflight r) then (Err (Panic "invalid memory address or nil pointer dereference"), s)
        else (Ok (stack no_verifier), s)
    end
  else (Ok (stack no_verifier), s).

(** The first request of a process that is to verify tokens and cannot. *)
Definition first_fails (run : RestRun) (s : oidc_state) : Prop :=
  oidc_configured (rr_stack run) = true ∧ s = OidcFresh ∧
  (op_ClientSecret (rr_oidc run) = "" ∨ is_Some (oidc_NewProvider (rr_oidc run))).

Lemma oidc_once_cases run s :
  oidc_configured (rr_stack run) = true →
  rc_ClientID (rr_stack run) = op_ClientID (rr_oidc run) → rc_Issuer (rr_stack run) = op_Issuer (rr_oidc run) →
  match (oidc_once (rr_oidc run) s).1 with
  | Err (Panic _) => first_fails run s ∧ op_ClientSecret (rr_oidc run) = "" ∧ (oidc_once (rr_oidc run) s).2 = OidcFailed
  | Err (Fatal _) => first_fails run s ∧ op_ClientSecret (rr_oidc run) ≠ ""
  | Ok _ => ¬ first_fails run s
  end.
Proof.
  intros Hc Hi Hs. pose proof Hc as Hc'. unfold oidc_configured in Hc'. rewrite Hi, Hs in Hc'.
  apply andb_true_iff in Hc' as [H1%negb_true_iff%bool_decide_eq_false H2%negb_true_iff%bool_decide_eq_false].
  destruct s; cbn [oidc_once]; [|by intros (_ & ? & _)..]. unfold initOIDCProvider.
  rewrite (bool_decide_eq_false_2 (op_ClientID _ = "")), (bool_decide_eq_false_2 (op_Issuer _ = "")) by done.
  cbn [orb]. rewrite orb_false_r. case_bool_decide as Hsec; cbn [fst snd].
  { split_and!; [|done..]. split_and!; [done..|]. by left. }
  destruct (oidc_NewProvider _) as [e|] eqn:Hp; cbn [fst snd].
  - split; [|done]. split_and!; [done..|]. right. by eexists.
  - intros (_ & _ & [?|[? ?]]); congruence.
Qed.


End Serve.

(** ** The life of the server: server.go *)

(** [Init] of the cache may fail; listening ends with an error, [ErrServerClosed]
    after a shutdown. *)
Record ServerLife := { sl_middleware : nat; sl_cache : bool (* loaded *); sl_httpServer : bool; sl_pool_open : bool }.
Definition new_life : ServerLife := {| sl_middleware := 0; sl_cache := false; sl_httpServer := false; sl_pool_open := true |}.

Inductive life_op := AddMiddleware (n : nat) | CacheInit (ok : bool) | Listen | ShutdownServer.

(** The two halves of [Start] are steps of their own: loading the cache takes its
    time. [None] is a panic. *)
Definition life_step (o : life_op) (s : ServerLife) : option ServerLife :=
  match o with
  | AddMiddleware n =>
      if sl_httpServer s then None
      else Some {| sl_middleware := sl_middleware s + n; sl_cache := sl_cache s; sl_httpServer := false; sl_pool_open := sl_pool_open s |}
  | CacheInit ok => Some {| sl_middleware := sl_middleware s; sl_cache := ok; sl_httpServer := sl_httpServer s; sl_pool_open := sl_pool_open s |}
  | Listen => Some {| sl_middleware := sl_middleware s; sl_cache := sl_cache s; sl_httpServer := true; sl_pool_open := sl_pool_open s |}
  | ShutdownServer =>
      if sl_httpServer s then
        Some {| sl_middleware := sl_middleware s; sl_cache := sl_cache s; sl_httpServer := true; sl_pool_open := false |}
      else None
  end.
Definition life_run (ops : list life_op) (s : ServerLife) : option ServerLife :=
  foldl (λ s o, s ≫= life_step o) (Some s) ops.

(** The command's order; [interrupted] is a signal that comes while the cache loads. *)
Definition rest_life (interrupted : bool) : list life_op :=
  [AddMiddleware 2; AddMiddleware 1; AddMiddleware 1] ++
  (if interrupted then [ShutdownServer] else [CacheInit true; Listen; ShutdownServer]).

(** A signal before the server listens makes the command panic on the server that
    is not there yet; afterwards it closes the pool. *)
Theorem early_interrupt_panics :
  life_run (rest_life true) new_life = None ∧
  sl_pool_open <$> life_run (rest_life false) new_life = Some false.
Proof. by split. Qed.

(** ** root.go *)

(** The flags are looked up before they are declared, so they are not bound. *)
Inductive flag_op := BindPFlag (name : string) | DeclareFlag (name : string).
Definition flag_step (s : list string * list string) (o : flag_op) : list string * list string :=
  match o with
  | BindPFlag n => if bool_decide (n ∈ s.1) then (s.1, s.2 ++ [n]) else s
  | DeclareFlag n => (s.1 ++ [n], s.2)
  end.
Definition root_init : list flag_op :=
  [DeclareFlag "config"; DeclareFlag "log-level"; DeclareFlag "version";
   BindPFlag "postgres.logrepl_conn_string"; BindPFlag "postgres.tables";
   DeclareFlag "postgres.logrepl_conn_string"; DeclareFlag "postgres.tables"].
Example root_flags_unbound : (foldl flag_step ([], []) root_init).2 = []. Proof. reflexivity. Qed.

(** ** Witnesses *)

#[local] Instance empty_viper : Viper := {|
  viper_ReadInConfig := λ _, Some ConfigFileNotFound;
  viper_Unmarshal := λ v, Ok {|
    cf_ConnString := "postgres://"; cf_ListenAddr := ":8080"; cf_BasePath := "";
    cf_OIDC := {| oc_ClientID := "web"; oc_ClientSecret := ""; oc_Issuer := "https://id"; oc_SkipTLSVerify := false;
                  oc_RoleClaimKey := ".policy.pgrole" |};
    cf_BasicAuth := ∅; cf_AnonRole := ""; cf_Omitempty := false |} |}.
#[local] Instance all_connect : RestLibs :=
  {| pgxpool_New := λ _, None; schema_NewCache := λ _, None; otlploggrpc_New := λ _, None |}.
Definition no_flags : GlobalViper := {| gv_GetString := λ _, ""; gv_omitempty := ABool false |}.

#[local] Instance open_discovery : OidcDiscovery := {|
  oidc_NewProvider := λ _, None;
  oidc_verifier := λ _, {| idToken := unit; Verify := λ _, None; Claims := λ _, None |} |}.

Lemma missing_secret_witness :
  let config := {| op_ClientID := "web"; op_ClientSecret := ""; op_Issuer := "https://id"; op_SkipTLSVerify := false |} in
  let r := {| req_Method := "GET"; req_Path := "/"; req_Query := ∅; req_Header := ∅; req_Ctx := background;
              req_Body := ""; req_ContentLength := 0 |} in
  VerifyOIDCToken_request (UC := latin1_unicode) config [false] (λ _ w, w) r initial_world OidcFresh =
    (Err (Panic "missing required OIDC configuration"), OidcFailed).
Proof.
  intros config r.
  by apply (missing_secret (UC := latin1_unicode) (OD := open_discovery) config (λ _ w, w) r initial_world).
Defined.
