(* ===== verification/Age.v ===== *)
(** * Age: graph queries over HTTP, [pkg/x/age/apache_age.go].

    The handler runs one Cypher query in a transaction of its own and answers with
    the rows as JSON. The driver is a class; the state is the exchange with the
    client and what was done to transactions. *)

From S2P Require Import Prelude GoStrings GoStringFacts GoAny FilterSQL Query Http Middleware.
Local Open Scope Z_scope.

(** The entities of the driver; the last one stands for any other, as it prints. *)
Inductive entity :=
| Vertex (id : Z) (label : string) (props : gmap string any)
| Edge (id : Z) (label : string) (startId endId : Z) (props : gmap string any)
| Path (entities : list entity)
| SimpleEntity (value : option any)   (* [None] is null *)
| OtherEntity (text : string).

Fixpoint convertEntityToMap (e : entity) : any :=
  match e with
  | Vertex id label props =>
      AObj (list_to_map [("type", AStr "vertex"); ("id", AInt KInt64 id); ("label", AStr label);
                         ("properties", AObj props)])
  | Edge id label startId endId props =>
      AObj (list_to_map [("type", AStr "edge"); ("id", AInt KInt64 id); ("label", AStr label);
                         ("startId", AInt KInt64 startId); ("endId", AInt KInt64 endId); ("properties", AObj props)])
  | Path entities =>
      AObj (list_to_map [("type", AStr "path"); ("entities", AArr (convertEntityToMap <$> entities))])
  | SimpleEntity None => ANil
  | SimpleEntity (Some v) => v
  | OtherEntity text => AStr text
  end.

Record AGERequest := { ag_Cypher : string; ag_ColumnCount : Z }.

(** [AGEResponse] as it is encoded: empty fields are left out. *)
Definition AGEResponse (success : bool) (data : option any) (error : string) : any :=
  AObj (list_to_map ([("success", ABool success)] ++
    (match data with Some d => [("data", d)] | None => [] end) ++
    (if bool_decide (error = "") then [] else [("error", AStr error)]))).

(** Rows of a cursor: each is read or fails; the error the cursor ends with. *)
Inductive cursor :=
| CursorEnd (err : option string)
| CursorNext (row : res string (list entity)) (rest : cursor).

Inductive tx_event := TxBegin | TxCommit | TxRollback.
#[export] Instance tx_event_eq_dec : EqDecision tx_event.
Proof. solve_decision. Defined.

(** [age.ExecCypher]: with no columns there is no cursor. *)
Class AgeDriver := {
  age_Begin : option string;
  age_ExecCypher : string → Z → string → res string cursor;
  age_Commit : option string;
  age_Decode : string → res string AGERequest;
  age_Exec : string → option string;         (* a statement of the setup *)
  age_GetReady : string → option string
}.

Section Age.
Context `{GF : GoFloat} `{AD : AgeDriver}.

Definition setupQueries : list string :=
  ["CREATE EXTENSION IF NOT EXISTS age;"; "LOAD 'age';";
   "SET search_path = ag_catalog, " +:+ quote "$user" +:+ ", public;"].

(** [NewAGEHandler]: the statements run, and the graph or an error, with which the
    database is closed. *)
Fixpoint run_setup (queries : list string) (ran : list string) : option string * list string :=
  match queries with
  | [] => (None, ran)
  | sq :: queries =>
      match age_Exec sq with
      | Some e => (Some ("Failed to execute AGE setup command '" +:+ sq +:+ "': " +:+ e), ran ++ [sq])
      | None => run_setup queries (ran ++ [sq])
      end
  end.
Definition NewAGEHandler (graphName : string) : res string string * list string :=
  let '(e, ran) := run_setup setupQueries [] in
  match e with
  | Some e => (Err e, ran)
  | None =>
      match age_GetReady graphName with
      | Some e => (Err ("Failed to initialize AGE with graph " +:+ graphName +:+ ": " +:+ e), ran)
      | None => (Ok graphName, ran)
      end
  end.

Definition row_map (row : list entity) : gmap string any :=
  list_to_map (imap (λ i e, ("column" +:+ Itoa (Z.of_nat i), convertEntityToMap e)) row).

(** The loop over the cursor. *)
Fixpoint collect (c : cursor) (results : list any) : res string (list any) :=
  match c with
  | CursorEnd _ => Ok results
  | CursorNext (Err e) _ => Err e
  | CursorNext (Ok row) rest => collect rest (results ++ [AObj (row_map row)])
  end.

(** No row leaves a nil slice, which encodes as null. *)
Definition rows_value (results : list any) : any :=
  if bool_decide (length results = 0%nat) then ANil else AArr results.

Definition execCypher (graph : string) (req : AGERequest) : res string any :=
  if ag_ColumnCount req =? 0 then
    let? _ := age_ExecCypher graph 0 (ag_Cypher req) in
    Ok (AObj {["message" := AStr "Query executed successfully"]})
  else
    let? cursor := age_ExecCypher graph (ag_ColumnCount req) (ag_Cypher req) in
    let? results := collect cursor [] in
    Ok (rows_value results).

Definition respond (status : Z) (v : any) (st : World * list tx_event) : World * list tx_event := (JSON status v st.1, st.2).

(** [ServeHTTP]; a failed query is rolled back where it failed and once more by the
    deferred function. *)
Definition ServeHTTP (graph : string) (r : Request) (st : World * list tx_event) : World * list tx_event :=
  if negb (bool_decide (req_Method r = "POST")) then (http_Error "Method not allowed" 405 st.1, st.2) else
  match age_Decode (req_Body r) with
  | Err e => respond 400 (AGEResponse false None ("Invalid request body: " +:+ e)) st
  | Ok req =>
      if bool_decide (ag_Cypher req = "") then respond 400 (AGEResponse false None "Cypher query is required") st else
      match age_Begin with
      | Some e => respond 500 (AGEResponse false None ("Failed to begin transaction: " +:+ e)) st
      | None =>
          let st := (st.1, st.2 ++ [TxBegin]) in
          match execCypher graph req with
          | Err e =>
              let st := (st.1, st.2 ++ [TxRollback]) in
              let st := respond 500 (AGEResponse false None ("Query execution Failed: " +:+ e)) st in
              (st.1, st.2 ++ [TxRollback])
          | Ok results =>
              let st := (st.1, st.2 ++ [TxCommit]) in
              match age_Commit with
              | Some e => respond 500 (AGEResponse false None ("Failed to commit transaction: " +:+ e)) st
              | None => respond 200 (AGEResponse true (Some results) "") st
              end
          end
      end
  end.

(** ** Properties *)

(** One column per entity, under its number. *)
Lemma row_map_lookup row i e :
  row !! i = Some e → row_map row !! ("column" +:+ Itoa (Z.of_nat i)) = Some (convertEntityToMap e).
Proof.
  intros Hi. apply elem_of_list_to_map_1.
  - apply NoDup_alt. intros j k x Hj Hk. rewrite list_lookup_fmap, list_lookup_imap in Hj, Hk.
    destruct (row !! j); [|done]. destruct (row !! k); [|done]. cbn in Hj, Hk. rewrite <-Hk in Hj.
    injection Hj as Hj. apply (inj Itoa) in Hj. lia.
  - apply list_elem_of_lookup. exists i. by rewrite list_lookup_imap, Hi.
Qed.

Fixpoint cursor_rows (c : cursor) : option (list (list entity)) :=
  match c with
  | CursorEnd _ => Some []
  | CursorNext (Ok row) rest => cons row <$> cursor_rows rest
  | CursorNext (Err _) _ => None
  end.

Lemma collect_spec c results :
  match collect c results with
  | Ok l => ∃ rows, cursor_rows c = Some rows ∧ l = results ++ ((λ row, AObj (row_map row)) <$> rows)
  | Err _ => cursor_rows c = None
  end.
Proof.
  revert results. induction c as [err|[row|e] c IH]; intros results; cbn [collect cursor_rows]; [|specialize (IH (results ++ [AObj (row_map row)]))|done].
  - exists []. by rewrite app_nil_r.
  - destruct (collect c _); [|by rewrite IH]. destruct IH as (rows & -> & ->). exists (row :: rows).
    by rewrite <-app_assoc.
Qed.

(** A request runs in a transaction of its own: what it began it commits or
    rolls back; it gets one response, and success is reported only of a committed
    query, with all the rows the cursor gave. *)
Theorem one_transaction graph r w :
  ∃ rsp events, ServeHTTP graph r (w, []) = (rsp, events) ∧
    length (w_written rsp) = S (length (w_written w)) ∧
    (events = [] ∨ events = [TxBegin; TxCommit] ∨ events = [TxBegin; TxRollback; TxRollback]) ∧
    (∀ st, last (w_written rsp) = Some st → rsp_status st = 200 →
       events = [TxBegin; TxCommit] ∧ age_Commit = None ∧
       ∃ req v, age_Decode (req_Body r) = Ok req ∧ execCypher graph req = Ok v ∧
         rsp_body st = BJSON (AGEResponse true (Some v) "")).
Proof.
  assert (∀ status v w, ∃ st, w_written (JSON status v w) = w_written w ++ [st] ∧
    (rsp_status st = 200 → status = 200 ∧ rsp_body st = BJSON v)) as HJ.
  { intros status v w'. unfold JSON. destruct (Marshal v); eexists; (split; [reflexivity|]); intros H; [done|discriminate H]. }
  assert (∀ w' st, w_written w' = w_written w ++ [st] → length (w_written w') = S (length (w_written w)) ∧
            last (w_written w') = Some st) as Hone.
  { intros w' st E. rewrite E, length_app, last_snoc. split; [cbn; lia|done]. }
  unfold ServeHTTP, respond. case_bool_decide as Hm; cbn [negb fst snd].
  2:{ assert (∃ st, w_written (http_Error "Method not allowed" 405 w) = w_written w ++ [st] ∧ rsp_status st = 405)
        as (st0 & E & H405) by (eexists; split; reflexivity).
      do 2 eexists. split; [done|]. destruct (Hone _ _ E) as [Hl Hlast]. split; [done|]. split; [by left|].
      rewrite Hlast. intros st E0 H200. apply (inj Some) in E0. subst st. lia. }
  assert (∀ status v events, status ≠ 200 →
    (events = [] ∨ events = [TxBegin; TxCommit] ∨ events = [TxBegin; TxRollback; TxRollback]) →
    ∃ rsp events', (JSON status v w, events) = (rsp, events') ∧
      length (w_written rsp) = S (length (w_written w)) ∧
      (events' = [] ∨ events' = [TxBegin; TxCommit] ∨ events' = [TxBegin; TxRollback; TxRollback]) ∧
      (∀ st, last (w_written rsp) = Some st → rsp_status st = 200 →
       events' = [TxBegin; TxCommit] ∧ age_Commit = None ∧
       ∃ req v, age_Decode (req_Body r) = Ok req ∧ execCypher graph req = Ok v ∧
         rsp_body st = BJSON (AGEResponse true (Some v) ""))) as Herr.
  { intros status v events Hne Hev. destruct (HJ status v w) as (st & E & Hst).
    do 2 eexists. split; [done|]. destruct (Hone _ _ E) as [Hl Hlast]. split; [done|]. split; [done|].
    intros st' E200 H200. rewrite Hlast in E200. apply (inj Some) in E200. subst st'. by apply Hst in H200 as [? _]. }
  destruct (age_Decode (req_Body r)) as [req|e] eqn:Hd; [|by apply Herr; [|left]].
  case_bool_decide; [by apply Herr; [|left]|]. destruct age_Begin; [by apply Herr; [|left]|].
  destruct (execCypher graph req) as [v|e] eqn:He; [|apply Herr; [done|by right; right]].
  destruct age_Commit eqn:Hc; [apply Herr; [done|by right; left]|].
  destruct (HJ 200 (AGEResponse true (Some v) "") w) as (st & E & Hst).
  do 2 eexists. split; [done|]. destruct (Hone _ _ E) as [Hl Hlast]. split; [done|]. split; [by right; left|].
  intros st' E200 H200. rewrite Hlast in E200. apply (inj Some) in E200. subst st'. apply Hst in H200 as [_ Hb]. split_and!; [done|done|]. exists req, v. split; [reflexivity|]. split; [assumption || reflexivity|exact Hb].
Qed.

(** The error a cursor ends with is not looked at: the rows before it are
    committed and reported as the whole result. *)
Theorem cursor_error_lost graph req rows e :
  ag_ColumnCount req ≠ 0 →
  age_ExecCypher graph (ag_ColumnCount req) (ag_Cypher req) = Ok (foldr (λ row c, CursorNext (Ok row) c) (CursorEnd (Some e)) rows) →
  execCypher graph req = Ok (rows_value ((λ row, AObj (row_map row)) <$> rows)).
Proof.
  intros Hc Hx. unfold execCypher. apply Z.eqb_neq in Hc. rewrite Hc, Hx. cbn [res_bind].
  pose proof (collect_spec (foldr (λ row c, CursorNext (Ok row) c) (CursorEnd (Some e)) rows) []) as H.
  assert (cursor_rows (foldr (λ row c, CursorNext (Ok row) c) (CursorEnd (Some e)) rows) = Some rows) as Hr.
  { clear. induction rows as [|row rows IH]; [done|]. cbn [foldr cursor_rows]. by rewrite IH. }
  rewrite Hr in H. destruct (collect _ []); [|done]. destruct H as (rows' & [= <-] & ->). done.
Qed.

End Age.

Example convert_path :
  convertEntityToMap (Path [Vertex 1 "City" ∅; SimpleEntity None]) =
  AObj (list_to_map [("type", AStr "path");
    ("entities", AArr [AObj (list_to_map [("type", AStr "vertex"); ("id", AInt KInt64 1); ("label", AStr "City");
                                          ("properties", AObj ∅)]); ANil])]).
Proof. reflexivity. Qed.
