(* ===== verification/Rpc.v ===== *)
(** * Rpc: calling database functions, [pkg/rest/rpc.go]. *)

From S2P Require Import Prelude GoStrings GoAny Schema FilterSQL Headers Query SchemaCache.
From S2P Require Import Http Server.
Local Open Scope Z_scope.

(** ** Data *)

Record FunctionParam := {
  par_Name : string;
  par_DataType : string;
  par_DefaultValue : option string;
  par_Mode : string;
  par_Position : Z
}.

Record Function_ := {
  fn_Schema : string;
  fn_Name : string;
  fn_Parameters : list FunctionParam;
  fn_ReturnType : string;
  fn_IsSetof : bool;
  fn_Language : string;
  fn_IsAggregate : bool
}.

(** One row of [pg_proc] as the query of [getFunction] scans it; the nullable
    columns are scanned into pointers. *)
Record proc_row := {
  pr_name : string; pr_schema : string; pr_setof : bool; pr_return_type : string;
  pr_language : Z; pr_aggregate : bool; pr_num_args : Z;
  pr_arg_names : option (list string); pr_arg_types : option string;
  pr_arg_modes : option (list string); pr_arg_defaults : option string
}.

Class ProcCatalog := {
  (* the row of [pg_proc] for a schema and a name, or the error of the scan *)
  cat_proc : list (string * argList) → string → string → res string proc_row;
  (* [SELECT oid, typname FROM pg_type WHERE oid = ANY($1)] *)
  cat_types : list (string * argList) → list Z → res string (result string (Z * string))
}.

Inductive rpc_error :=
| RScan (e : string)
| RInvalidOID (s : string)
| RTypes (e : string)
| RMissing (param : string)
| RInvalid (param : string).

(** ** Helpers of the standard library *)

(** [strings.Fields]. *)
Fixpoint fields_go (fuel : nat) (current : string) (s : string) : list string :=
  match fuel, s with
  | S fuel, String _ _ =>
      let '(r, w) := DecodeRune s in
      if IsSpace r then
        (if bool_decide (current = "") then [] else [current]) ++ fields_go fuel "" (drop w s)
      else fields_go fuel (current +:+ take w s) (drop w s)
  | _, _ => if bool_decide (current = "") then [] else [current]
  end.
Definition Fields (s : string) : list string := fields_go (len s) "" s.

(** The [%T] of a value, for [%s] of values that are no strings. *)
Definition type_name (v : any) : string :=
  match v with
  | ANil => "<nil>"
  | ABool _ => "bool"
  | AInt KInt _ => "int"
  | AInt KInt16 _ => "int16"
  | AInt KInt32 _ => "int32"
  | AInt KInt64 _ => "int64"
  | AFloat _ => "float64"
  | AStr _ => "string"
  | AArr _ => "[]interface {}"
  | AObj _ => "map[string]interface {}"
  | APtr ty _ => "*" +:+ ty
  end.

(** [fmt.Sprintf("%s", v)]. *)
Fixpoint Sprint_s `{GoFloat} (v : any) : string :=
  match v with
  | AStr s => s
  | ANil => "%!s(<nil>)"
  | AArr l => "[" +:+ Join (Sprint_s <$> l) " " +:+ "]"
  | AObj m =>
      "map[" +:+
      Join ((λ kv : string * string, kv.1 +:+ ":" +:+ kv.2) <$>
        merge_sort key_le (map_fold (λ k x acc, (k, Sprint_s x) :: acc) [] m)) " " +:+ "]"
  | _ => "%!s(" +:+ type_name v +:+ "=" +:+ Sprint_v v +:+ ")"
  end.

(** ** Function metadata *)

(** [fmt.Sprintf("arg%d", i+1)] *)
Definition arg_name (i : nat) : string := "arg" +:+ Itoa (Z.of_nat (S i)).

Section Rpc.
Context `{PI : PgxIdentifier} `{UC : Unicode} `{GF : GoFloat} `{DB : Database} `{PC : ProcCatalog}.

(** The type OIDs, when the dynamic type of the argument is a string. *)
Definition type_oids (argTypes : any) : res rpc_error (list Z) :=
  match argTypes with
  | AStr oidVector =>
      mapM_res (λ oidStr, match ParseInt oidStr 64 with
                          | Some oid => Ok oid
                          | None => Err (RInvalidOID oidStr)
                          end) (Fields oidVector)
  | _ => Ok []
  end.

(** The names of the types; an error after the last row is not looked at. *)
Definition type_query : string := "SELECT oid, typname FROM pg_type WHERE oid = ANY($1)".
Definition type_names (typeOids : list Z) (w : World) : res rpc_error (list string) * World :=
  match typeOids with
  | [] => (Ok [], w)
  | _ =>
      (let? r := map_err RTypes (cat_types (w_sql w) typeOids) in
       let? typeMap := foldM_res (λ (m : gmap Z string) row,
         let? (oid, name) := map_err RTypes row in Ok (<[oid := name]> m)) ∅ (scanned r) in
       Ok ((λ oid, default "unknown" (typeMap !! oid)) <$> typeOids),
       run_sql type_query [AArr (AInt KInt64 <$> typeOids)] w)
  end.

(** The names and modes, when the dynamic type of the argument is []any. *)
Definition arg_names (argNames : any) : list string :=
  match argNames with
  | AArr nameArray => imap (λ i name, match name with AStr s => s | _ => arg_name i end) nameArray
  | _ => []
  end.

Definition mode_name (mode : any) : string :=
  match mode with
  | AStr m =>
      if bool_decide (m = "i") then "IN" else if bool_decide (m = "o") then "OUT"
      else if bool_decide (m = "b") then "INOUT" else if bool_decide (m = "v") then "VARIADIC"
      else "IN"
  | _ => "IN"
  end.
Definition arg_modes (argModes : any) : list string :=
  match argModes with AArr modeArray => mode_name <$> modeArray | _ => [] end.

Definition build_param (names typeNames modes : list string) (i : nat) : FunctionParam := {|
  par_Name := match names !! i with
              | Some n => if bool_decide (n = "") then arg_name i else n
              | None => arg_name i
              end;
  par_DataType := default "text" (typeNames !! i);
  par_DefaultValue := None;
  par_Mode := default "IN" (modes !! i);
  par_Position := Z.of_nat (S i) |}.

Definition parseFunctionParameters (argNames argTypes argModes argDefaults : any) (numArgs : Z) (w : World)
    : res rpc_error (list FunctionParam) * World :=
  match type_oids argTypes with
  | Err e => (Err e, w)
  | Ok typeOids =>
      let '(typeNames, w) := type_names typeOids w in
      (let? typeNames := typeNames in
       Ok (build_param (arg_names argNames) typeNames (arg_modes argModes) <$> seq 0 (Z.to_nat numArgs)), w)
  end.

(** A scanned nullable column, passed on as [any]: a pointer, nil or not. *)
Definition ptr_strings (p : option (list string)) : any :=
  APtr "[]string" ((λ l, AArr (AStr <$> l)) <$> p).
Definition ptr_string (p : option string) : any := APtr "string" (AStr <$> p).

(** The query for the function, as it stands in the source. *)
Definition function_query : string := "
		SELECT 
			p.proname as function_name,
			n.nspname as schema_name,
			p.proretset as is_setof,
			t.typname as return_type,
			p.prolang as language_oid,
			CASE WHEN p.prokind = 'a' THEN true ELSE false END as is_aggregate,
			p.pronargs as num_args,
			p.proargnames as arg_names,
			p.proargtypes::text as arg_types,
			p.proargmodes as arg_modes,
			p.proargdefaults as arg_defaults
		FROM pg_proc p
		JOIN pg_namespace n ON p.pronamespace = n.oid
		JOIN pg_type t ON p.prorettype = t.oid
		WHERE n.nspname = $1 AND p.proname = $2
		AND p.prokind = 'f'  -- Only functions, not procedures
	".

(** Both queries run on the connection of the request. *)
Definition getFunction (schemaName functionName : string) (w : World) : res rpc_error Function_ * World :=
  let answer := cat_proc (w_sql w) schemaName functionName in
  let w := run_sql function_query [AStr schemaName; AStr functionName] w in
  match answer with
  | Err e => (Err (RScan e), w)
  | Ok row =>
      let '(params, w) :=
        if 0 <? pr_num_args row then
          parseFunctionParameters (ptr_strings (pr_arg_names row)) (ptr_string (pr_arg_types row))
            (ptr_strings (pr_arg_modes row)) (ptr_string (pr_arg_defaults row)) (pr_num_args row) w
        else (Ok [], w) in
      (let? params := params in
       Ok {| fn_Schema := pr_schema row; fn_Name := pr_name row; fn_Parameters := params;
             fn_ReturnType := pr_return_type row; fn_IsSetof := pr_setof row; fn_Language := "";
             fn_IsAggregate := pr_aggregate row |}, w)
  end.

(** ** Calls *)

(** [convertArgumentType]; [None] is an error. *)
Definition convertArgumentType (value : any) (dataType : string) : option any :=
  if is_nil value then Some ANil else
  if bool_decide (dataType ∈ ["integer"; "int4"; "int8"; "bigint"; "smallint"]) then
    match value with
    | AFloat v => Some (AInt KInt64 (int64_of_float v))
    | AStr v => AInt KInt64 <$> ParseInt v 64
    | AInt KInt v => Some (AInt KInt64 v)
    | _ => None
    end
  else if bool_decide (dataType ∈ ["numeric"; "decimal"; "real"; "double precision"; "float4"; "float8"]) then
    match value with
    | AFloat v => Some (AFloat v)
    | AStr v => AFloat <$> ParseFloat v
    | AInt KInt v => Some (AFloat (float_of_int v))
    | _ => None
    end
  else if bool_decide (dataType ∈ ["boolean"; "bool"]) then
    match value with
    | ABool v => Some (ABool v)
    | AStr v => ABool <$> ParseBool v
    | _ => None
    end
  else if bool_decide (dataType ∈ ["json"; "jsonb"]) then
    match value with
    | AStr v => Some (AStr v)
    | _ => AStr <$> Marshal value
    end
  else if bool_decide (dataType = "uuid") then Some (AStr (quote (Sprint_s value) +:+ "::TEXT"))
  else Some (AStr (Sprint_v value)).

(** The loop over the input parameters, from the [i]-th on. *)
Fixpoint call_args (i : nat) (params : list FunctionParam) (args : gmap string any)
    (queryArgs : argList) (placeholders : list string) : res rpc_error (argList * list string) :=
  match params with
  | [] => Ok (queryArgs, placeholders)
  | param :: params =>
      let argValue := match args !! par_Name param with
                      | Some v => Some v
                      | None => args !! arg_name i
                      end in
      match argValue with
      | None => match par_DefaultValue param with
                | Some _ => call_args (S i) params args queryArgs placeholders
                | None => Err (RMissing (par_Name param))
                end
      | Some v =>
          match convertArgumentType v (par_DataType param) with
          | None => Err (RInvalid (par_Name param))
          | Some converted =>
              let '(ph, queryArgs) := add queryArgs converted in
              call_args (S i) params args queryArgs (placeholders ++ [ph])
          end
      end
  end.

Definition input_params (f : Function_) : list FunctionParam :=
  filter (λ p, par_Mode p ∈ ["IN"; "INOUT"]) (fn_Parameters f).

Definition buildFunctionCallQuery (f : Function_) (args : gmap string any)
    : res rpc_error (string * argList) :=
  let? (queryArgs, placeholders) := call_args 0 (input_params f) args [] [] in
  let call := quote (fn_Schema f) +:+ "." +:+ quote (fn_Name f) +:+ "(" +:+ Join placeholders ", " +:+ ")" in
  Ok (if fn_IsSetof f then "SELECT * FROM " +:+ call else "SELECT " +:+ call +:+ " as result", queryArgs).

(** ** Handlers *)

Context (error_text : rpc_error → string) (env : Env) (s : Server).
(** [json.Unmarshal] of a whole body, and the first value of a stream. *)
Context (json_unmarshal json_decode : string → option any).

Definition executeFunctionQuery (r : Request) (sql : string) (args : argList) (isSetof : bool) (w : World)
    : World :=
  match ConnWithRole env r w with
  | (Err e, w) => Error 500 (PgError_text e) w
  | (Ok (_, conn), w) =>
      release conn
        (let answer := db_query (w_sql w) sql args in
         let w := run_sql sql args w in
         match answer with
         | Err e => Error 500 ("Function execution failed: " +:+ e) w
         | Ok rows =>
             match collect s rows with
             | Err e => Error 500 ("Failed to collect results: " +:+ e) w
             | Ok results =>
                 match results with
                 | [m] => match map_to_list m with
                          | [(_, value)] => if negb isSetof then JSON 200 value w
                                            else JSON 200 (results_value s results) w
                          | _ => JSON 200 (results_value s results) w
                          end
                 | _ => JSON 200 (results_value s results) w
                 end
             end
         end)
  end.

(** The arguments in the body: none when it is empty and its length is zero or
    unknown; otherwise a JSON object, or null. *)
Definition as_args (v : option any) : option (gmap string any) :=
  match v with Some (AObj m) => Some m | Some ANil => Some ∅ | _ => None end.

Definition call_body (r : Request) : option (gmap string any) :=
  if (req_ContentLength r =? 0) || (req_ContentLength r =? -1) then
    if bool_decide (req_Body r = "") then Some ∅ else as_args (json_unmarshal (req_Body r))
  else as_args (json_decode (req_Body r)).

Definition handleFunctionCall (r : Request) (f : Function_) (w : World) : World :=
  match call_body r with
  | None => Error 400 "Invalid JSON body" w
  | Some args =>
      match buildFunctionCallQuery f args with
      | Err e => Error 400 (error_text e) w
      | Ok (sql, queryArgs) => executeFunctionQuery r sql queryArgs (fn_IsSetof f) w
      end
  end.

Definition handleRPC (r : Request) (w : World) : World :=
  match ConnWithRole env r w with
  | (Err e, w) => Error 500 (PgError_text e) w
  | (Ok (_, conn), w) =>
      release conn
        (let path := TrimPrefix (req_Path r) (srv_basePath s +:+ "/rpc/") in
         if bool_decide (path = "") then Error 400 "Function name required" w else
         let '(schemaName, functionName) := path_target path in
         if negb (bool_decide (req_Method r = "POST")) then
           Error 405 "Only POST method allowed for RPC calls" w else
         match getFunction schemaName functionName w with
         | (Err e, w) => Error 404 ("Function " +:+ full_name schemaName functionName +:+
                               " not found: " +:+ error_text e) w
         | (Ok f, w) => handleFunctionCall r f w
         end)
  end.

End Rpc.
