(* ===== verification/RpcProps.v ===== *)
(** * RpcProps: function calls.

    The arguments of a call are the converted values of the body in the order of
    the parameters, one placeholder each; conversions give values of the
    parameter's type; a call runs the session's statement, the look-up of the
    function, and the session's statement and the call, up to where it fails. The metadata of a function, as the handler passes it
    on, always gives parameters [arg1], [arg2], ... of type text. *)

From S2P Require Import Prelude GoStrings GoStringFacts SqlText GoAny Schema FilterSQL FilterTests.
From S2P Require Import FilterBinds Headers Query SchemaCache Http Server ServerProps Rpc.
Local Open Scope Z_scope.

Section Params.
Context `{GF : GoFloat} `{PC : ProcCatalog}.

(** Looking a function up runs its one query, never the one for the types: a
    pointer is no string. *)
Lemma getFunction_world schema name w :
  (getFunction schema name w).2 = run_sql function_query [AStr schema; AStr name] w.
Proof. unfold getFunction. destruct (cat_proc _ _ _) as [row|e]; [|done]. by destruct (0 <? pr_num_args row). Qed.

(** The parameters of a function with arguments are always [arg1] to
    [argN], of type text and mode IN, whatever names, types and modes the
    database reports: the pointers the row is scanned into are not the slices
    and strings that are looked for. *)
Theorem getFunction_params schema name w f :
  (getFunction schema name w).1 = Ok f →
  ∃ row, cat_proc (w_sql w) schema name = Ok row ∧
    fn_Parameters f = (λ i, {| par_Name := arg_name i; par_DataType := "text"; par_DefaultValue := None;
                               par_Mode := "IN"; par_Position := Z.of_nat (S i) |})
                      <$> seq 0 (Z.to_nat (pr_num_args row)) ∧
    fn_IsSetof f = pr_setof row.
Proof.
  unfold getFunction. destruct (cat_proc _ _ _) as [row|e]; [|done]. intros H. exists row. split; [done|].
  destruct (Z.ltb_spec 0 (pr_num_args row)) as [Hn|Hn]; injection H as <-; (split; [|done]); [done|].
  cbn [fn_Parameters]. by replace (Z.to_nat (pr_num_args row)) with 0%nat by lia.
Qed.

End Params.

Section Calls.
Context `{GF : GoFloat}.

(** ** Conversions *)

Definition has_type (dataType : string) (v : any) : bool :=
  match v with
  | ANil => true
  | AInt KInt64 z => bool_decide (dataType ∈ ["integer"; "int4"; "int8"; "bigint"; "smallint"])
  | AFloat _ => bool_decide (dataType ∈ ["numeric"; "decimal"; "real"; "double precision"; "float4"; "float8"])
  | ABool _ => bool_decide (dataType ∈ ["boolean"; "bool"])
  | AStr _ => negb (bool_decide (dataType ∈
      ["integer"; "int4"; "int8"; "bigint"; "smallint"; "numeric"; "decimal"; "real"; "double precision";
       "float4"; "float8"; "boolean"; "bool"]))
  | _ => false
  end.

Lemma ParseInt_range s z : ParseInt s 64 = Some z → in_int64 z = true.
Proof.
  unfold ParseInt. destruct (match s with String "+" t => (false, t) | String "-" t => (true, t) | _ => (false, s) end)
    as [neg ds] eqn:E.
  assert (∀ t acc v, digits_val acc t = Some v → 0 ≤ acc → 0 ≤ v) as Hpos.
  { clear. induction t as [|c t IH]; intros acc v; simpl; [by intros [= ->]|].
    destruct (isDigit c) eqn:Hc; [|done]. unfold isDigit, in_range in Hc.
    apply andb_true_iff in Hc as [?%Z.leb_le ?%Z.leb_le]. intros Hv Ha. eapply IH; [exact Hv|]. unfold digit_val. lia. }
  replace (match s with String "+" t => (false, t) | String "-" t => (true, t) | _ => (false, s) end) with (neg, ds).
  intros H. assert (∃ v, digits_val 0 ds = Some v ∧ (if neg then (if v <=? 2 ^ (64 - 1) then Some (- v) else None)
    else if v <? 2 ^ (64 - 1) then Some v else None) = Some z) as (v & Hv & Hz).
  { destruct ds; [done|]. destruct (digits_val 0 _) as [v|] eqn:Ev; [|done]. eauto. }
  apply Hpos in Hv; [|done]. unfold in_int64, in_range. apply andb_true_iff.
  destruct neg; [destruct (Z.leb_spec v (2 ^ (64 - 1)))|destruct (Z.ltb_spec v (2 ^ (64 - 1)))]; simplify_eq/=;
    split; apply Z.leb_le; lia.
Qed.

Lemma trunc_float_range f z : trunc_float f = Some z → in_int64 z = true.
Proof. unfold trunc_float. destruct f; intros E; simplify_eq/=; [done|]. by case_match; simplify_eq. Qed.

(** An argument is converted to a value of the parameter's kind, and an
    integer argument is inside the 64-bit range; a float inside the range is cut
    off toward zero. *)
Theorem convertArgumentType_sound v dataType x :
  convertArgumentType v dataType = Some x →
  has_type dataType x = true ∧
  (∀ z, x = AInt KInt64 z →
     (∃ f, v = AFloat f ∧ (trunc_float f = Some z ∧ in_int64 z = true ∨ trunc_float f = None)) ∨
     (∃ s, v = AStr s ∧ ParseInt s 64 = Some z ∧ in_int64 z = true) ∨ v = AInt KInt z).
Proof.
  unfold convertArgumentType. destruct (is_nil v); [by intros [= <-]|].
  case_bool_decide as Hi.
  { destruct v as [| |k z|f|s| | |]; try done.
    - destruct k; [|done..]. intros [= <-]. split; [by apply bool_decide_eq_true_2|].
      intros z' [= <-]. auto.
    - intros [= <-]. split; [by apply bool_decide_eq_true_2|]. intros z [= <-]. left. exists f. split; [done|].
      unfold int64_of_float. destruct (trunc_float f) as [z|] eqn:E; [left|by right].
      split; [done | by eapply trunc_float_range].
    - destruct (ParseInt s 64) as [z|] eqn:E; [|done]. intros [= <-]. split; [by apply bool_decide_eq_true_2|].
      intros z' [= <-]. right. left. exists s. split_and!; [done..|by eapply ParseInt_range]. }
  case_bool_decide as Hf.
  { destruct v as [| |k z|f|s| | |]; try done.
    - destruct k; [|done..]. intros [= <-]. split; [by apply bool_decide_eq_true_2 | done].
    - intros [= <-]. split; [by apply bool_decide_eq_true_2 | done].
    - destruct (ParseFloat s); [|done]. intros [= <-]. split; [by apply bool_decide_eq_true_2 | done]. }
  case_bool_decide as Hb.
  { destruct v as [|b| | |s| | |]; try done; [|destruct (ParseBool s); [|done]];
      intros [= <-]; (split; [by apply bool_decide_eq_true_2 | done]). }
  assert (∀ s, has_type dataType (AStr s) = true) as Hs.
  { intros s. simpl. apply negb_true_iff, bool_decide_eq_false_2. intros Hin.
    change (dataType ∈ ["integer"; "int4"; "int8"; "bigint"; "smallint"] ++ (["numeric"; "decimal"; "real";
      "double precision"; "float4"; "float8"] ++ ["boolean"; "bool"])) in Hin.
    apply elem_of_app in Hin as [?|[?|?]%elem_of_app]; done. }
  case_bool_decide as Hj.
  { destruct v; try (destruct (Marshal _); [|done]); intros [= <-]; (split; [apply Hs | done]). }
  case_bool_decide; intros [= <-]; (split; [apply Hs | done]).
Qed.

(** ** Arguments *)

(** The value a body gives for the [i]-th input parameter. *)
Definition given (args : gmap string any) (i : nat) (p : FunctionParam) : option any :=
  match args !! par_Name p with Some v => Some v | None => args !! arg_name i end.

(** The loop reads the input parameters in order: those without a value take
    their default in the database, the others one placeholder each, until the
    first one that is missing or has no conversion. *)
Definition arg_step (args : gmap string any) (i : nat) (p : FunctionParam) : res rpc_error (option any) :=
  match given args i p with
  | None => if par_DefaultValue p then Ok None else Err (RMissing (par_Name p))
  | Some v => match convertArgumentType v (par_DataType p) with
              | Some x => Ok (Some x)
              | None => Err (RInvalid (par_Name p))
              end
  end.

Definition bound (l : list (option any)) : argList := omap id l.
Definition places_from (n k : nat) : list string :=
  dollar <$> seq (S n) k.

Lemma call_args_spec params args qa phs i :
  call_args i params args qa phs =
  (let? l := mapM_res (λ ip, arg_step args ip.1 ip.2) (zip (seq i (length params)) params) in
   Ok (qa ++ bound l, phs ++ places_from (length qa) (length (bound l)))).
Proof.
  revert qa phs i. induction params as [|p params IH]; intros qa phs i; cbn [call_args length seq zip zip_with mapM_res].
  { simpl. unfold places_from. simpl. by rewrite !app_nil_r. }
  cbn [fst snd]. unfold arg_step at 1, given.
  destruct (match args !! par_Name p with Some v => Some v | None => args !! arg_name i end) as [v|].
  - destruct (convertArgumentType v (par_DataType p)) as [x|]; [|done]. cbn [add res_bind].
    rewrite IH. destruct (mapM_res _ _) as [l|e]; [|done]. cbn [res_bind bound omap list_omap id].
    rewrite length_app, <-!app_assoc. cbn [length]. rewrite Nat.add_1_r. unfold places_from. simpl. done.
  - destruct (par_DefaultValue p); [|done]. cbn [res_bind]. rewrite IH. by destruct (mapM_res _ _).
Qed.

(** ** The call *)

Definition unquoted (s : string) : bool := all_bytes (λ c, negb (bool_decide (c = dquote))) s.

Lemma quoted_closed s : unquoted s = true → sql_closed (quote s) [].
Proof.
  intros Hs l. change (scan (Quoted, l) (s +:+ String dquote "") = (Plain, rev [] ++ l)).
  induction s as [|c s IH]; [done|]. apply andb_true_iff in Hs as [Hc Hs]. bool_simp.
  rewrite app_cons_str. cbn [scan scan_byte]. rewrite bool_decide_eq_false_2 by done. by apply IH.
Qed.

(** A call binds, for each input parameter in order, the converted value
    that the body gives under the parameter's name or its position, skipping
    those that have none but a default; its text names the function and the
    parameters $1 to $n, each once and in order, and nothing of the values. *)
Theorem function_call_binds f args sql xs :
  unquoted (fn_Schema f) = true → unquoted (fn_Name f) = true →
  buildFunctionCallQuery f args = Ok (sql, xs) →
  (∃ l, Forall2 (λ ip o, arg_step args ip.1 ip.2 = Ok o)
          (zip (seq 0 (length (input_params f))) (input_params f)) l ∧ xs = omap id l) ∧
  placeholders sql = Z.of_nat <$> seq 1 (length xs).
Proof.
  intros Hs Hn. unfold buildFunctionCallQuery. rewrite call_args_spec.
  intros ([qa phs] & (l & Hl%mapM_res_ok & [= <- <-])%res_bind_ok & [= Hsql <-])%res_bind_ok.
  split; [by exists l|]. apply sql_piece_placeholders. rewrite <-Hsql. clear Hsql.
  change ([] ++ bound l) with (bound l).
  set (ids := Z.of_nat <$> seq 1 _).
  cbn [length app].
  assert (sql_closed (quote (fn_Schema f) +:+ "." +:+ quote (fn_Name f) +:+ "(" +:+
    Join (places_from 0 (length (bound l))) ", " +:+ ")") ids) as Hcall.
  { apply (sql_closed_app_closed _ _ []); [by apply quoted_closed|].
    apply (sql_closed_app_closed _ _ []); [by apply sql_closed_plain|].
    apply (sql_closed_app_closed _ _ []); [by apply quoted_closed|].
    apply (sql_closed_app_closed _ _ []); [by apply sql_closed_plain|].
    assert (sql_closed (Join (places_from 0 (length (bound l))) ", " +:+ ")") (ids ++ [])) as Hp
      by (apply sql_piece_close; [apply dollars_piece | by apply sql_closed_plain | by eexists _, _]).
    by rewrite app_nil_r in Hp. }
  apply sql_closed_piece. destruct (fn_IsSetof f).
  - apply (sql_closed_app_closed _ _ []); [by apply sql_closed_plain | done].
  - apply (sql_closed_app_closed _ _ []); [by apply sql_closed_plain|].
    pose proof (sql_closed_app_closed _ " as result" _ [] Hcall ltac:(by apply sql_closed_plain)) as Hr.
    by rewrite app_nil_r in Hr.
Qed.

Lemma mapM_res_err {E A B} (f : A → res E B) l e :
  mapM_res f l = Err e ↔ ∃ j x, l !! j = Some x ∧ f x = Err e ∧ ∀ k y, (k < j)%nat → l !! k = Some y → is_ok (f y) = true.
Proof.
  induction l as [|x l IH]; simpl; [split; [done | by intros (?&?&?&_)]|].
  rewrite res_bind_err. setoid_rewrite res_bind_err. split.
  - intros [Hx|(y & Hy & [He|(ys & _ & [=])])].
    + exists 0%nat, x. split_and!; [done..|intros; lia].
    + apply IH in He as (j & z & Hj & Hz & Hk). exists (S j), z. split_and!; [done..|].
      intros [|k] w Hlt; [intros [= <-]; by rewrite Hy|]. apply Hk. lia.
  - intros ([|j] & z & Hj & Hz & Hk); simpl in Hj; [injection Hj as <-; by left|]. right.
    pose proof (Hk 0%nat x ltac:(lia) eq_refl) as Hx. destruct (f x) as [y|]; [|done].
    exists y. split; [done|]. left. apply IH. exists j, z. split_and!; [done..|].
    intros k w Hlt Hw. apply (Hk (S k) w); [lia | done].
Qed.

(** A call is refused exactly when some input parameter has neither a value
    nor a default, or a value with no conversion, and the error names the first
    such parameter. *)
Theorem function_call_refused f args e :
  buildFunctionCallQuery f args = Err e ↔
  ∃ j p, input_params f !! j = Some p ∧
    (∀ k q, (k < j)%nat → input_params f !! k = Some q → is_ok (arg_step args k q) = true) ∧
    ((given args j p = None ∧ par_DefaultValue p = None ∧ e = RMissing (par_Name p)) ∨
     (∃ v, given args j p = Some v ∧ convertArgumentType v (par_DataType p) = None ∧ e = RInvalid (par_Name p))).
Proof.
  assert (∀ j p, (zip (seq 0 (length (input_params f))) (input_params f)) !! j = Some p ↔
    input_params f !! j = Some p.2 ∧ p.1 = j) as Hz.
  { intros j [i p]. rewrite lookup_zip_with_Some. setoid_rewrite lookup_seq. split.
    - intros (i' & p' & [= -> ->] & [-> _] & Hp). done.
    - cbn. intros [Hp ->]. exists j, p. split_and!; try done. by apply lookup_lt_Some in Hp. }
  unfold buildFunctionCallQuery. rewrite call_args_spec, res_bind_err. split.
  - intros [He|([qa phs] & _ & [=])]. apply res_bind_err in He as [He|(l & _ & [=])].
    apply mapM_res_err in He as (j & [i p] & Hj & He & Hk). apply Hz in Hj as [Hj Hi]. cbn [fst snd] in *. subst i.
    exists j, p. split; [done|]. split.
    { intros k q Hlt Hq. apply (Hk k (k, q) Hlt). by apply Hz. }
    unfold arg_step in He. destruct (given args j p) as [v|].
    + right. exists v. split; [done|]. destruct (convertArgumentType v _); [done|]. by injection He as <-.
    + left. split; [done|]. destruct (par_DefaultValue p); [done|]. by injection He as <-.
  - intros (j & p & Hj & Hk & He). left. apply res_bind_err. left. apply mapM_res_err. exists j, (j, p).
    split; [by apply Hz|]. split.
    + unfold arg_step. cbn [fst snd]. destruct He as [(-> & -> & ->)|(v & -> & -> & ->)]; done.
    + intros k [i q] Hlt [Hq Hi]%Hz. cbn [fst snd] in *. subst i. by apply Hk.
Qed.

End Calls.

(** ** Requests *)

Section Requests.
Context `{PI : PgxIdentifier} `{UC : Unicode} `{GF : GoFloat} `{DB : Database} `{PC : ProcCatalog}.
Context (error_text : rpc_error → string) (env : Env) (s : Server).
Context (json_unmarshal json_decode : string → option any).
Local Notation handleRPC := (handleRPC error_text env s json_unmarshal json_decode).
Local Notation executeFunctionQuery := (executeFunctionQuery env s).
Implicit Types (r : Request) (w : World).

Local Abbreviation session_statement := (session_statement env).

Lemma executeFunctionQuery_spec r sql args setof w w0 u conn role claims :
  ConnWithRole env r w0 = (Ok (u, conn), run_sql (role_query env role claims) [] w0) →
  let st := (role_query env role claims, []) in
  let w' := executeFunctionQuery r sql args setof w in
  (statuses w' = statuses w ++ [500] ∧ w_sql w' = w_sql w) ∨
  (∃ status, statuses w' = statuses w ++ [status]) ∧ w_sql w' = w_sql w ++ [st; (sql, args)].
Proof.
  intros H0. cbn zeta. unfold Rpc.executeFunctionQuery.
  destruct (ConnWithRole_again env r w0 w u conn role claims H0) as [(e & ->)| ->].
  { left. split; [exact (statuses_Error 500 (PgError_text e) (release conn w)) | done]. }
  right. set (w1 := run_sql (role_query env role claims) [] w). set (w2 := run_sql sql args w1).
  assert (w_sql w2 = w_sql w ++ [(role_query env role claims, []); (sql, args)]) as Hs.
  { unfold w2, w1. cbn [run_sql w_sql]. by rewrite <-app_assoc. }
  assert (∀ w3, (∃ status, statuses w3 = statuses w2 ++ [status]) → w_sql w3 = w_sql w2 →
    (∃ status, statuses (release conn w3) = statuses w ++ [status]) ∧
    w_sql (release conn w3) = w_sql w ++ [(role_query env role claims, []); (sql, args)]) as H.
  { intros w3 Hw3 E. split; [exact Hw3|]. cbn [release w_sql]. by rewrite E, Hs. }
  assert (∀ msg, ∃ status, statuses (Error 500 msg w2) = statuses w2 ++ [status]) as He
    by (intros; eexists; apply statuses_Error).
  destruct (db_query _ _ _) as [rows|]; [|by apply H].
  destruct (collect s rows) as [results|]; [|by apply H].
  assert (∀ status v, ∃ status', statuses (JSON status v w2) = statuses w2 ++ [status']) as Hj
    by (intros status v; destruct (statuses_JSON status v w2) as [[-> | ->] _]; by eexists).
  repeat case_match; apply H; first [apply Hj | apply statuses_JSON].
Qed.

(** C40: a call gets exactly one response, and runs a beginning of four
    statements, each once: the session statement for the request's role, the
    look-up of the function that the path names, the session statement again, and
    the call. The look-up is run only for a POST that names a function, the call
    only for a function that was found and arguments that fit it; and a request
    that is answered with 200 has run all four. *)
Theorem rpc_statements r :
  let w := handleRPC r initial_world in
  let path := TrimPrefix (req_Path r) (srv_basePath s +:+ "/rpc/") in
  let '(schemaName, functionName) := path_target path in
  let lookup := (function_query, [AStr schemaName; AStr functionName]) in
  length (w_written w) = 1%nat ∧
  (w_sql w = [] ∧ statuses w ≠ [200] ∨
   ∃ st, session_statement r st ∧
     (w_sql w = [st] ∧ statuses w ≠ [200] ∧ (req_Method r ≠ "POST" ∨ path = "") ∨
      req_Method r = "POST" ∧ path ≠ "" ∧
      (w_sql w = [st; lookup] ∧ statuses w ≠ [200] ∨
       ∃ f args sql xs,
         (getFunction schemaName functionName (run_sql st.1 st.2 initial_world)).1 = Ok f ∧
         call_body json_unmarshal json_decode r = Some args ∧ buildFunctionCallQuery f args = Ok (sql, xs) ∧
         w_sql w = [st; lookup; st; (sql, xs)]))).
Proof.
  cbn zeta. unfold Rpc.handleRPC. set (path := TrimPrefix _ _).
  destruct (path_target path) as [schemaName functionName] eqn:Hp.
  destruct (ConnWithRole_cases env r initial_world) as [(e & [-> | (conn & ->)])|(u & conn & role & claims & _ & Hr & HC)];
    [split; [done | by left]..|].
  rewrite HC. set (st := (role_query env role claims, [] : argList)). set (w1 := run_sql (role_query env role claims) [] initial_world).
  assert (session_statement r st) as Hst by (by exists role, claims).
  case_bool_decide as Hpath; [split; [done|]; right; exists st; split; [done|]; left; by split_and!; [..|right]|].
  case_bool_decide as Hm; cbn [negb]; [|split; [done|]; right; exists st; split; [done|]; left; by split_and!; [..|left]].
  pose proof (getFunction_world schemaName functionName w1) as Hw.
  destruct (getFunction schemaName functionName w1) as [[f|e] w2] eqn:Hf; cbn [snd] in Hw; subst w2.
  2:{ split; [done|]. right. exists st. split; [done|]. right. split_and!; [done..|]. by left. }
  set (w2 := run_sql function_query _ w1).
  assert (∀ msg, let w := release conn (Error 400 msg w2) in length (w_written w) = 1%nat ∧
    w_sql w = [st; (function_query, [AStr schemaName; AStr functionName])] ∧ statuses w ≠ [200]) as He by done.
  unfold handleFunctionCall. destruct (call_body _ _ _) as [args|] eqn:Hb.
  2:{ split; [done|]. right. exists st. split; [done|]. right. split_and!; [done..|]. by left. }
  destruct (buildFunctionCallQuery f args) as [[sql xs]|e] eqn:Hq.
  2:{ split; [done|]. right. exists st. split; [done|]. right. split_and!; [done..|]. by left. }
  pose proof (executeFunctionQuery_spec r sql xs (fn_IsSetof f) w2 initial_world u conn role claims HC) as Hx.
  cbn zeta in Hx. set (w3 := executeFunctionQuery _ _ _ _ _) in *.
  assert (length (w_written (release conn w3)) = 1%nat ∧ statuses (release conn w3) = statuses w3 ∧
    w_sql (release conn w3) = w_sql w3) as (Hl & -> & ->).
  { split_and!; [|done..]. cbn [release w_written]. rewrite <-(length_fmap rsp_status).
    fold (statuses w3). destruct Hx as [[-> _]|[[? ->] _]]; done. }
  split; [exact Hl|]. right. exists st. split; [done|]. right. split_and!; [done..|].
  destruct Hx as [[E ->]|[_ ->]]; [left; split; [done|]; by rewrite E|].
  right. exists f, args, sql, xs. cbn [fst snd st]. fold w1. by rewrite Hf.
Qed.

End Requests.

(** ** Witnesses *)

(** [add_months(started date, months int4)], as [pg_proc] has it. *)
Definition add_months_row : proc_row := {|
  pr_name := "add_months"; pr_schema := "public"; pr_setof := false; pr_return_type := "date";
  pr_language := 14; pr_aggregate := false; pr_num_args := 2;
  pr_arg_names := Some ["started"; "months"]; pr_arg_types := Some "1082 23";
  pr_arg_modes := None; pr_arg_defaults := None |}.
Definition one_function : ProcCatalog := {|
  cat_proc := λ _ schema name,
    if bool_decide (schema = "public") && bool_decide (name = "add_months") then Ok add_months_row
    else Err "no rows in result set";
  cat_types := λ _ _, Err "unreachable" |}.

Lemma getFunction_params_witness :
  ∃ f, (getFunction (PC := one_function) "public" "add_months" initial_world).1 = Ok f ∧
    par_Name <$> fn_Parameters f = ["arg1"; "arg2"] ∧ par_DataType <$> fn_Parameters f = ["text"; "text"].
Proof.
  assert (∃ f, (getFunction (PC := one_function) "public" "add_months" initial_world).1 = Ok f)
    as [f Hf] by (eexists; vm_compute; reflexivity).
  exists f. split; [exact Hf|].
  destruct (getFunction_params (PC := one_function) _ _ _ _ Hf) as (row & Hrow & -> & _).
  injection Hrow as <-. split; vm_compute; reflexivity.
Defined.

Lemma convertArgumentType_sound_witness :
  convertArgumentType (GF := integral_floats) (AStr "-42") "int4" = Some (AInt KInt64 (-42)) ∧
  has_type "int4" (AInt KInt64 (-42)) = true.
Proof.
  assert (convertArgumentType (GF := integral_floats) (AStr "-42") "int4" = Some (AInt KInt64 (-42))) as H
    by (vm_compute; reflexivity).
  split; [exact H|]. apply (convertArgumentType_sound (GF := integral_floats) _ _ _ H).
Defined.

Definition demo_param (name type : string) (dflt : option string) (mode : string) (pos : Z) : FunctionParam :=
  {| par_Name := name; par_DataType := type; par_DefaultValue := dflt; par_Mode := mode; par_Position := pos |}.
Definition demo_function : Function_ := {|
  fn_Schema := "public"; fn_Name := "page";
  fn_Parameters := [demo_param "first" "int4" (Some "0") "IN" 1; demo_param "total" "int8" None "OUT" 2;
                    demo_param "size" "int4" None "IN" 3];
  fn_ReturnType := "record"; fn_IsSetof := true; fn_Language := ""; fn_IsAggregate := false |}.

Lemma function_call_binds_witness :
  ∃ sql xs, buildFunctionCallQuery (GF := integral_floats) demo_function
      {["first" := AStr "3"; "size" := AStr "20"]} = Ok (sql, xs) ∧
    xs = [AInt KInt64 3; AInt KInt64 20] ∧ placeholders sql = [1; 2].
Proof.
  assert (buildFunctionCallQuery (GF := integral_floats) demo_function {["first" := AStr "3"; "size" := AStr "20"]} =
    Ok (bq "SELECT * FROM `public`.`page`($1, $2)", [AInt KInt64 3; AInt KInt64 20])) as H
    by (vm_compute; reflexivity).
  eexists _, _. split; [exact H|]. split; [reflexivity|].
  apply (function_call_binds (GF := integral_floats) demo_function _ _ _ eq_refl eq_refl H).
Defined.

(** A default that is skipped moves the later values one place to the left: the
    value of [size] is passed as [first]. *)
Example skipped_default_shifts :
  buildFunctionCallQuery (GF := integral_floats) demo_function {["size" := AStr "20"]} =
  Ok (bq "SELECT * FROM `public`.`page`($1)", [AInt KInt64 20]).
Proof. vm_compute. reflexivity. Qed.

(** A uuid is bound as text that is no uuid. *)
Example uuid_is_quoted :
  convertArgumentType (GF := integral_floats) (AStr "6f1c") "uuid" = Some (AStr (bq "`6f1c`::TEXT")).
Proof. vm_compute. reflexivity. Qed.

(** A call that is answered with 200 has run its four statements. *)
Definition add_months_request : Request := {|
  req_Method := "POST"; req_Path := "/rpc/add_months"; req_Query := ∅; req_Header := ∅;
  req_Ctx := req_Ctx (known_request "web"); req_Body := ""; req_ContentLength := 12 |}.
Definition add_months_body : string → option any := λ _, Some (AObj {["arg1" := AStr "2024-01-31"; "arg2" := AStr "1"]}).

Lemma rpc_statements_witness :
  let w := handleRPC (GF := integral_floats) (DB := answering_database)
    (PC := one_function) (λ _, "error") no_env people_server add_months_body add_months_body add_months_request initial_world in
  statuses w = [200] ∧
  ∃ st sql, session_statement no_env add_months_request st ∧
    w_sql w = [st; (function_query, [AStr "public"; AStr "add_months"]); st; (sql, [AStr "2024-01-31"; AStr "1"])].
Proof.
  cbv zeta. set (w := handleRPC _ _ _ _ _ _ _).
  assert (statuses w = [200]) as Hs by (vm_compute; reflexivity). split; [exact Hs|].
  assert (snd <$> (w_sql w !! 3%nat) = Some [AStr "2024-01-31"; AStr "1"]) as Hl by (vm_compute; reflexivity).
  destruct (rpc_statements (GF := integral_floats) (DB := answering_database)
    (PC := one_function) (λ _, "error") no_env people_server add_months_body add_months_body add_months_request)
    as [_ [[_ H]|(st & Hst & [(_ & H & _)|(_ & _ & [[_ H]|(f & args & sql & xs & _ & _ & _ & E)])])]];
    try (destruct (H Hs)).
  exists st, sql. split; [exact Hst|]. fold w in E. rewrite E in Hl |- *. by injection Hl as ->.
Defined.
