(* ===== verification/Cdc.v ===== *)
(** * Cdc: change events, [pkg/pipeline/cdc/cdc.go].

    The structs of an event with their builders. An event is passed by value,
    but the slice of its schema's fields is a reference: it is a location whose
    contents are kept in a heap (file Transform). *)

From S2P Require Import Prelude GoStrings GoAny.
Local Open Scope Z_scope.

Definition Operation : Type := string.
Definition OpCreate : Operation := "c".
Definition OpUpdate : Operation := "u".
Definition OpDelete : Operation := "d".
Definition OpRead : Operation := "r".
Definition OpTruncate : Operation := "t".

Record Source := {
  src_Version : string; src_Connector : string; src_Name : string; src_TsMs : Z;
  src_Snapshot : bool; src_Db : string; src_Sequence : string; src_Schema : string;
  src_Table : string; src_TxID : Z; src_Lsn : Z; src_Xmin : option Z
}.

Record Transaction := { tx_ID : string; tx_TotalOrder : Z; tx_DataCollectionOrder : Z }.

Record Payload := {
  pay_Before : any; pay_After : any; pay_Source : Source; pay_Op : Operation;
  pay_TsMs : Z; pay_Transaction : option Transaction
}.

Inductive Field := mkField {
  fld_Field : string; fld_Type : string; fld_Optional : bool; fld_Name : string;
  fld_Fields : list Field
}.

(** The Fields of a schema: nil, or the location of an array. *)
Record EventSchema := {
  sch_Type : string; sch_Optional : bool; sch_Name : string; sch_Fields : option nat
}.

Record Event := { ev_Schema : EventSchema; ev_Payload : Payload }.

(** ** Building sources *)

Definition zeroSource : Source := {|
  src_Version := ""; src_Connector := ""; src_Name := ""; src_TsMs := 0; src_Snapshot := false;
  src_Db := ""; src_Sequence := ""; src_Schema := ""; src_Table := ""; src_TxID := 0; src_Lsn := 0;
  src_Xmin := None |}.

Definition SourceBuilder : Type := Source.

Definition NewSourceBuilder (connector name : string) : SourceBuilder := {|
  src_Version := "1.0"; src_Connector := connector; src_Name := name; src_TsMs := 0;
  src_Snapshot := false; src_Db := ""; src_Sequence := "[0,0]"; src_Schema := ""; src_Table := "";
  src_TxID := 0; src_Lsn := 0; src_Xmin := None |}.

Definition source_WithSchema (schema : string) (b : SourceBuilder) : SourceBuilder := {|
  src_Version := src_Version b; src_Connector := src_Connector b; src_Name := src_Name b;
  src_TsMs := src_TsMs b; src_Snapshot := src_Snapshot b; src_Db := src_Db b;
  src_Sequence := src_Sequence b; src_Schema := schema; src_Table := src_Table b;
  src_TxID := src_TxID b; src_Lsn := src_Lsn b; src_Xmin := src_Xmin b |}.
Definition source_WithTable (table : string) (b : SourceBuilder) : SourceBuilder := {|
  src_Version := src_Version b; src_Connector := src_Connector b; src_Name := src_Name b;
  src_TsMs := src_TsMs b; src_Snapshot := src_Snapshot b; src_Db := src_Db b;
  src_Sequence := src_Sequence b; src_Schema := src_Schema b; src_Table := table;
  src_TxID := src_TxID b; src_Lsn := src_Lsn b; src_Xmin := src_Xmin b |}.
Definition source_WithDatabase (db : string) (b : SourceBuilder) : SourceBuilder := {|
  src_Version := src_Version b; src_Connector := src_Connector b; src_Name := src_Name b;
  src_TsMs := src_TsMs b; src_Snapshot := src_Snapshot b; src_Db := db;
  src_Sequence := src_Sequence b; src_Schema := src_Schema b; src_Table := src_Table b;
  src_TxID := src_TxID b; src_Lsn := src_Lsn b; src_Xmin := src_Xmin b |}.
Definition source_WithTimestamp (ts : Z) (b : SourceBuilder) : SourceBuilder := {|
  src_Version := src_Version b; src_Connector := src_Connector b; src_Name := src_Name b;
  src_TsMs := ts; src_Snapshot := src_Snapshot b; src_Db := src_Db b;
  src_Sequence := src_Sequence b; src_Schema := src_Schema b; src_Table := src_Table b;
  src_TxID := src_TxID b; src_Lsn := src_Lsn b; src_Xmin := src_Xmin b |}.
Definition source_WithTransaction (txID lsn : Z) (b : SourceBuilder) : SourceBuilder := {|
  src_Version := src_Version b; src_Connector := src_Connector b; src_Name := src_Name b;
  src_TsMs := src_TsMs b; src_Snapshot := src_Snapshot b; src_Db := src_Db b;
  src_Sequence := src_Sequence b; src_Schema := src_Schema b; src_Table := src_Table b;
  src_TxID := txID; src_Lsn := lsn; src_Xmin := src_Xmin b |}.

(** ** Building events *)

Definition EventBuilder : Type := Event.

Definition NewEventBuilder : EventBuilder := {|
  ev_Schema := {| sch_Type := "struct"; sch_Optional := false; sch_Name := ""; sch_Fields := None |};
  ev_Payload := {| pay_Before := ANil; pay_After := ANil; pay_Source := zeroSource; pay_Op := "";
                   pay_TsMs := 0; pay_Transaction := None |} |}.

(** [event.Payload = p] and [event.Schema = s]. *)
Definition set_payload (p : Payload) (e : Event) : Event := {| ev_Schema := ev_Schema e; ev_Payload := p |}.
Definition set_schema (s : EventSchema) (e : Event) : Event := {| ev_Schema := s; ev_Payload := ev_Payload e |}.

Definition WithSource (source : Source) (b : EventBuilder) : EventBuilder :=
  let p := ev_Payload b in
  set_payload {| pay_Before := pay_Before p; pay_After := pay_After p; pay_Source := source;
                 pay_Op := pay_Op p; pay_TsMs := pay_TsMs p; pay_Transaction := pay_Transaction p |} b.
Definition WithOperation (op : Operation) (b : EventBuilder) : EventBuilder :=
  let p := ev_Payload b in
  set_payload {| pay_Before := pay_Before p; pay_After := pay_After p; pay_Source := pay_Source p;
                 pay_Op := op; pay_TsMs := pay_TsMs p; pay_Transaction := pay_Transaction p |} b.
Definition WithBefore (before : any) (b : EventBuilder) : EventBuilder :=
  let p := ev_Payload b in
  set_payload {| pay_Before := before; pay_After := pay_After p; pay_Source := pay_Source p;
                 pay_Op := pay_Op p; pay_TsMs := pay_TsMs p; pay_Transaction := pay_Transaction p |} b.
Definition WithAfter (after : any) (b : EventBuilder) : EventBuilder :=
  let p := ev_Payload b in
  set_payload {| pay_Before := pay_Before p; pay_After := after; pay_Source := pay_Source p;
                 pay_Op := pay_Op p; pay_TsMs := pay_TsMs p; pay_Transaction := pay_Transaction p |} b.
Definition WithTimestamp (ts : Z) (b : EventBuilder) : EventBuilder :=
  let p := ev_Payload b in
  set_payload {| pay_Before := pay_Before p; pay_After := pay_After p; pay_Source := pay_Source p;
                 pay_Op := pay_Op p; pay_TsMs := ts; pay_Transaction := pay_Transaction p |} b.
Definition WithTransaction (tx : option Transaction) (b : EventBuilder) : EventBuilder :=
  let p := ev_Payload b in
  set_payload {| pay_Before := pay_Before p; pay_After := pay_After p; pay_Source := pay_Source p;
                 pay_Op := pay_Op p; pay_TsMs := pay_TsMs p; pay_Transaction := tx |} b.
