(* ===== verification/Json.v ===== *)
(** * Json: reading JSON as [encoding/json] does.

    The scanner of the package as a reader of values, by its rules for strings
    (escapes, surrogates, invalid UTF-8), numbers (its scanner states) and the
    depth of nesting; and the trees that [json.Marshal] prints. *)

From S2P Require Import Prelude GoStrings GoStringFacts GoAny.
Local Open Scope Z_scope.

(** A number is kept as its text; the pairs of an object as they come. *)
Inductive json :=
| JNull
| JBool (b : bool)
| JNum (lit : string)
| JStr (s : string)
| JArr (l : list json)
| JObj (kvs : list (string * json)).

Lemma json_nested_ind (P : json → Prop)
    (Hnull : P JNull) (Hbool : ∀ b, P (JBool b)) (Hnum : ∀ lit, P (JNum lit)) (Hstr : ∀ s, P (JStr s))
    (Harr : ∀ l, Forall P l → P (JArr l)) (Hobj : ∀ kvs, Forall (λ kv : string * json, P kv.2) kvs → P (JObj kvs)) j : P j.
Proof.
  revert j. fix IH 1. intros [|b|lit|s|l|kvs]; [done|done|done|done|apply Harr|apply Hobj].
  - induction l as [|j l IHl]; constructor; [apply IH|exact IHl].
  - induction kvs as [|[k j] kvs IHl]; constructor; [apply IH|exact IHl].
Qed.

(** ** Printing *)

Fixpoint print_json (j : json) : string :=
  match j with
  | JNull => "null"
  | JBool b => if b then "true" else "false"
  | JNum lit => lit
  | JStr s => json_string s
  | JArr l => "[" +:+ Join (print_json <$> l) "," +:+ "]"
  | JObj kvs => "{" +:+ Join ((λ kv : string * json, json_string kv.1 +:+ ":" +:+ print_json kv.2) <$> kvs) "," +:+ "}"
  end.

(** The tree of a value: [Marshal] prints it (lemma [Marshal_print]). *)
Fixpoint to_json `{GoFloat} (v : any) : option json :=
  match v with
  | ANil => Some JNull
  | ABool b => Some (JBool b)
  | AInt _ z => Some (JNum (Itoa z))
  | AFloat f => if finite f then Some (JNum (json_float f)) else None
  | AStr s => Some (JStr s)
  | AArr l =>
      JArr <$> (fix go l := match l with
                            | [] => Some []
                            | x :: l => y ← to_json x; ys ← go l; Some (y :: ys)
                            end) l
  | AObj m =>
      kvs ← map_fold (λ k x acc, y ← to_json x; ys ← acc; Some ((k, y) :: ys)) (Some []) m;
      Some (JObj (merge_sort key_le kvs))
  | APtr _ None => Some JNull
  | APtr _ (Some x) => to_json x
  end.

(** ** Strings *)

Definition hex_value (c : ascii) : option Z :=
  let b := byte_val c in
  if in_range 48 57 b then Some (b - 48) else if in_range 97 102 b then Some (b - 87)
  else if in_range 65 70 b then Some (b - 55) else None.
Definition hex4 (s : string) : option (Z * string) :=
  match s with
  | String a (String b (String c (String d s))) =>
      a ← hex_value a; b ← hex_value b; c ← hex_value c; d ← hex_value d;
      Some (((a * 16 + b) * 16 + c) * 16 + d, s)
  | _ => None
  end.

(** [utf16.DecodeRune] *)
Definition utf16_DecodeRune (r1 r2 : Z) : Z :=
  if in_range 0xD800 0xDBFF r1 && in_range 0xDC00 0xDFFF r2
  then (r1 - 0xD800) * 0x400 + (r2 - 0xDC00) + 0x10000 else RuneError.

Definition simple_escape (c : ascii) : option ascii :=
  if bool_decide (c = dquote) then Some dquote else if bool_decide (c = "\"%char) then Some "\"%char
  else if bool_decide (c = "/"%char) then Some "/"%char else if bool_decide (c = "b"%char) then Some (byte_of 8)
  else if bool_decide (c = "f"%char) then Some (byte_of 12) else if bool_decide (c = "n"%char) then Some (byte_of 10)
  else if bool_decide (c = "r"%char) then Some (byte_of 13) else if bool_decide (c = "t"%char) then Some (byte_of 9)
  else None.

(** What follows an escape [\u] with value [r]: a surrogate takes the escape after
    it, if that completes the pair. *)
Definition escaped_rune (r : Z) (s : string) : string * string :=
  if in_range 0xD800 0xDFFF r then
    match s with
    | String c (String d t) =>
        if bool_decide (c = "\"%char) && bool_decide (d = "u"%char) then
          match hex4 t with
          | Some (r2, t) => if utf16_DecodeRune r r2 =? RuneError then (EncodeRune RuneError, s)
                            else (EncodeRune (utf16_DecodeRune r r2), t)
          | None => (EncodeRune RuneError, s)
          end
        else (EncodeRune RuneError, s)
    | _ => (EncodeRune RuneError, s)
    end
  else (EncodeRune r, s).

(** The string after an opening quote, and what follows its closing quote. *)
Fixpoint unquote (fuel : nat) (s : string) : option (string * string) :=
  match fuel, s with
  | S fuel, String c t =>
      if bool_decide (c = dquote) then Some ("", t)
      else if bool_decide (c = "\"%char) then
        match t with
        | String e u =>
            if bool_decide (e = "u"%char) then
              '(r, u) ← hex4 u;
              let '(x, u) := escaped_rune r u in
              '(y, rest) ← unquote fuel u; Some (x +:+ y, rest)
            else x ← simple_escape e; '(y, rest) ← unquote fuel u; Some (String x y, rest)
        | EmptyString => None
        end
      else if byte_val c <? 32 then None
      else if byte_val c <? 0x80 then '(y, rest) ← unquote fuel t; Some (String c y, rest)
      else
        let '(r, w) := DecodeRune s in
        '(y, rest) ← unquote fuel (drop w s);
        Some ((if (r =? RuneError) && bool_decide (w = 1%nat) then EncodeRune RuneError else take w s) +:+ y, rest)
  | _, _ => None
  end.

(** ** Numbers: the states of the scanner *)

Inductive num_state := StNeg | St0 | St1 | StDot | StDot0 | StE | StESign | StE0.
Definition is_digit (c : ascii) : bool := in_range 48 57 (byte_val c).
Definition is_e (c : ascii) : bool := bool_decide (c = "e"%char) || bool_decide (c = "E"%char).

Definition num_step (st : num_state) (c : ascii) : option num_state :=
  let after_int := if bool_decide (c = "."%char) then Some StDot else if is_e c then Some StE else None in
  match st with
  | StNeg => if bool_decide (c = "0"%char) then Some St0 else if is_digit c then Some St1 else None
  | St0 => after_int
  | St1 => if is_digit c then Some St1 else after_int
  | StDot => if is_digit c then Some StDot0 else None
  | StDot0 => if is_digit c then Some StDot0 else if is_e c then Some StE else None
  | StE => if bool_decide (c = "+"%char) || bool_decide (c = "-"%char) then Some StESign else if is_digit c then Some StE0 else None
  | StESign | StE0 => if is_digit c then Some StE0 else None
  end.
Definition num_end (st : num_state) : bool :=
  match st with St0 | St1 | StDot0 | StE0 => true | _ => false end.

Fixpoint scan_num (st : num_state) (s : string) : option (string * string) :=
  match s with
  | EmptyString => if num_end st then Some ("", "") else None
  | String c t =>
      match num_step st c with
      | Some st => '(lit, rest) ← scan_num st t; Some (String c lit, rest)
      | None => if num_end st then Some ("", s) else None
      end
  end.

(** A number from its first character on. *)
Definition read_number (s : string) : option (string * string) :=
  match s with
  | String "-" t => '(lit, rest) ← scan_num StNeg t; Some (String "-" lit, rest)
  | _ => match s with
         | String c _ => if is_digit c then scan_num StNeg s else None
         | EmptyString => None
         end
  end.

(** ** Values *)

Definition is_ws (c : ascii) : bool := mem_byte (String " " (String (byte_of 9) (String (byte_of 13) (String (byte_of 10) "")))) c.
Definition skip_ws (s : string) : string := drop (span is_ws s) s.

Definition literal (word : string) (j : json) (s : string) : option (json * string) :=
  if HasPrefix s word then Some (j, drop (len word) s) else None.

Definition maxNestingDepth : Z := 10000.

(** [depth] is how many more objects and arrays may be opened. *)
Fixpoint parse_value (fuel : nat) (depth : Z) (s : string) : option (json * string) :=
  match fuel with
  | O => None
  | S fuel =>
      let s := skip_ws s in
      match s with
      | EmptyString => None
      | String c t =>
          if bool_decide (c = "{"%char) then
            if depth <=? 0 then None else
            match skip_ws t with
            | String "}" u => Some (JObj [], u)
            | u => '(kvs, rest) ← parse_members fuel (depth - 1) u; Some (JObj kvs, rest)
            end
          else if bool_decide (c = "["%char) then
            if depth <=? 0 then None else
            match skip_ws t with
            | String "]" u => Some (JArr [], u)
            | u => '(l, rest) ← parse_elements fuel (depth - 1) u; Some (JArr l, rest)
            end
          else if bool_decide (c = dquote) then '(x, rest) ← unquote (len s) t; Some (JStr x, rest)
          else if bool_decide (c = "t"%char) then literal "true" (JBool true) s
          else if bool_decide (c = "f"%char) then literal "false" (JBool false) s
          else if bool_decide (c = "n"%char) then literal "null" JNull s
          else '(lit, rest) ← read_number s; Some (JNum lit, rest)
      end
  end
with parse_elements (fuel : nat) (depth : Z) (s : string) : option (list json * string) :=
  match fuel with
  | O => None
  | S fuel =>
      '(j, rest) ← parse_value fuel depth s;
      match skip_ws rest with
      | String "," rest => '(l, rest) ← parse_elements fuel depth rest; Some (j :: l, rest)
      | String "]" rest => Some ([j], rest)
      | _ => None
      end
  end
with parse_members (fuel : nat) (depth : Z) (s : string) : option (list (string * json) * string) :=
  match fuel with
  | O => None
  | S fuel =>
      match skip_ws s with
      | String q t =>
          if bool_decide (q = dquote) then
            '(k, rest) ← unquote (len s) t;
            match skip_ws rest with
            | String ":" rest =>
                '(j, rest) ← parse_value fuel depth rest;
                match skip_ws rest with
                | String "," rest => '(kvs, rest) ← parse_members fuel depth rest; Some ((k, j) :: kvs, rest)
                | String "}" rest => Some ([(k, j)], rest)
                | _ => None
                end
            | _ => None
            end
          else None
      | EmptyString => None
      end
  end.

(** A text that is one value: what [json.Unmarshal] accepts. Every call reads a
    character or is followed by one that does, so twice the length is enough fuel. *)
Definition parse_json (s : string) : option json :=
  '(j, rest) ← parse_value (2 * len s + 2) maxNestingDepth s;
  if bool_decide (skip_ws rest = "") then Some j else None.

(** ** Into an interface *)

(** Numbers become float64, of two pairs with one key the later counts. *)
Fixpoint to_any `{GoFloat} (j : json) : option any :=
  match j with
  | JNull => Some ANil
  | JBool b => Some (ABool b)
  | JNum lit => AFloat <$> ParseFloat lit
  | JStr s => Some (AStr s)
  | JArr l =>
      AArr <$> (fix go l := match l with [] => Some [] | j :: l => x ← to_any j; xs ← go l; Some (x :: xs) end) l
  | JObj kvs =>
      AObj <$> (fix go kvs (m : gmap string any) :=
                  match kvs with [] => Some m | (k, j) :: kvs => x ← to_any j; go kvs (<[k := x]> m) end) kvs ∅
  end.
Definition Unmarshal_any `{GoFloat} (s : string) : option any := j ← parse_json s; to_any j.

Example parse_ex :
  parse_json (" {" +:+ quote "a" +:+ ": [1, -0.5e+3 ,true,null] , " +:+ quote "\u00e9\ud83d\ude00\n" +:+ ":{}}") =
    Some (JObj [("a", JArr [JNum "1"; JNum "-0.5e+3"; JBool true; JNull]);
                (String (byte_of 195) (String (byte_of 169) (String (byte_of 240) (String (byte_of 159)
                  (String (byte_of 152) (String (byte_of 128) (String (byte_of 10) "")))))), JObj [])]).
Proof. vm_compute. reflexivity. Qed.
Example parse_errors :
  parse_json "[1,]" = None ∧ parse_json "01" = None ∧ parse_json "1." = None ∧ parse_json "" = None ∧
  parse_json "[1] x" = None ∧ parse_json (quote (String (byte_of 10) "")) = None ∧ parse_json "tru" = None.
Proof. vm_compute. done. Qed.
