(* ===== verification/JsonFacts.v ===== *)
(** * JsonFacts: what [print_json] prints is read back.

    Lemmas on the reader of file Json, each with the rest of the input left over:
    strings of valid UTF-8, numbers, and trees of them. *)

From S2P Require Import Prelude GoStrings GoStringFacts GoAny Json.
From Stdlib Require Import Floats.SpecFloat.
Local Open Scope Z_scope.

(** ** Strings *)

(** [utf8.ValidString] *)
Fixpoint valid_utf8_go (fuel : nat) (s : string) : bool :=
  match fuel, s with
  | S fuel, String _ _ =>
      let '(r, w) := DecodeRune s in
      negb ((r =? RuneError) && bool_decide (w = 1%nat)) && valid_utf8_go fuel (drop w s)
  | _, _ => true
  end.
Definition valid_utf8 (s : string) : bool := valid_utf8_go (len s) s.

(** What [json_escape] writes for an ASCII character. *)
Definition escape_char (c : ascii) : string :=
  let b := byte_val c in
  let u4 h l := "\u00" +:+ String (hex_digit h) (String (hex_digit l) "") in
  if bool_decide (c = dquote) then String "\" (String dquote "")
  else if bool_decide (c = "\"%char) then "\\"
  else if b =? 8 then "\b" else if b =? 12 then "\f"
  else if b =? 10 then "\n" else if b =? 13 then "\r" else if b =? 9 then "\t"
  else if (b <? 32) || mem_byte "<>&" c then u4 (b / 16) (b `mod` 16)
  else String c "".

Lemma unquote_char fuel c t :
  byte_val c < 0x80 → unquote (S fuel) (escape_char c +:+ t) = '(y, rest) ← unquote fuel t; Some (String c y, rest).
Proof. intros H. destruct c as [[] [] [] [] [] [] [] []]; first [exfalso; revert H; vm_compute; discriminate | reflexivity]. Qed.

(** A rune is decoded from its own bytes. *)
Lemma DecodeRune_stable s r w t :
  DecodeRune s = (r, w) → (r =? RuneError) && bool_decide (w = 1%nat) = false → s ≠ "" →
  DecodeRune (take w s +:+ t) = (r, w).
Proof.
  intros H Hok Hs. destruct s as [|c0 s]; [done|]. clear Hs. unfold DecodeRune in *.
  assert (∀ A, (RuneError, 1%nat) = (r, w) → A) as Hbad by (intros A [= <- <-]; discriminate Hok).
  destruct (byte_val c0 <? 0x80) eqn:E0; [injection H as <- <-; cbn [take]; rewrite app_cons_str; by rewrite E0|].
  destruct (in_range 0xC2 0xDF (byte_val c0)) eqn:E1.
  { destruct s as [|c1 s]; [by apply Hbad|]. destruct (cont c1) eqn:C1; [|by apply Hbad]. injection H as <- <-.
    cbn [take]. rewrite !app_cons_str. by rewrite E0, E1, C1. }
  destruct (in_range 0xE0 0xEF (byte_val c0)) eqn:E2.
  { destruct s as [|c1 [|c2 s]]; [by apply Hbad..|].
    match goal with H : (if ?b then _ else _) = _ |- _ => destruct b eqn:C1; [|by apply Hbad] end. injection H as <- <-.
    cbn [take]. rewrite !app_cons_str. by rewrite E0, E1, E2, C1. }
  destruct (in_range 0xF0 0xF4 (byte_val c0)) eqn:E3; [|by apply Hbad].
  destruct s as [|c1 [|c2 [|c3 s]]]; [by apply Hbad..|].
  match goal with H : (if ?b then _ else _) = _ |- _ => destruct b eqn:C1; [|by apply Hbad] end. injection H as <- <-.
  cbn [take]. rewrite !app_cons_str. by rewrite E0, E1, E2, E3, C1.
Qed.

Lemma byte_val_bounds c : 0 <= byte_val c < 256.
Proof. unfold byte_val. pose proof (N_ascii_bounded c). lia. Qed.

Lemma low_bits a n : 0 <= n → Z.land a (2 ^ n - 1) = a `mod` 2 ^ n.
Proof. intros. rewrite <-Z.land_ones by done. by rewrite Z.ones_equiv, Z.sub_1_r. Qed.

Lemma join_bits a b n : 0 <= n → 0 <= b < 2 ^ n → Z.lor (Z.shiftl a n) b = a * 2 ^ n + b.
Proof.
  intros Hn Hb. rewrite <-Z.shiftl_mul_pow2 by done.
  assert (Z.land (Z.shiftl a n) b = 0) as H0.
  { apply Z.bits_inj'. intros k Hk. rewrite Z.land_spec, Z.bits_0. destruct (Z.ltb_spec k n).
    - by rewrite Z.shiftl_spec_low.
    - rewrite <-(Z.mod_small b (2 ^ n)), Z.mod_pow2_bits_high by lia. apply andb_false_r. }
  rewrite <-Z.lxor_lor by done. by rewrite Z.add_nocarry_lxor.
Qed.

Lemma join_bits3 a b c : 0 <= b < 2 ^ 6 → 0 <= c < 2 ^ 6 →
  Z.lor (Z.lor (Z.shiftl a 12) (Z.shiftl b 6)) c = (a * 2 ^ 6 + b) * 2 ^ 6 + c.
Proof.
  intros Hb Hc. rewrite (join_bits a _ 12) by (rewrite ?Z.shiftl_mul_pow2; lia).
  replace (a * 2 ^ 12 + Z.shiftl b 6) with (Z.shiftl (a * 2 ^ 6 + b) 6) by (rewrite !Z.shiftl_mul_pow2; lia).
  by rewrite join_bits.
Qed.

Lemma join_bits4 a b c d : 0 <= b < 2 ^ 6 → 0 <= c < 2 ^ 6 → 0 <= d < 2 ^ 6 →
  Z.lor (Z.lor (Z.lor (Z.shiftl a 18) (Z.shiftl b 12)) (Z.shiftl c 6)) d = ((a * 2 ^ 6 + b) * 2 ^ 6 + c) * 2 ^ 6 + d.
Proof.
  intros Hb Hc Hd. rewrite (join_bits a _ 18) by (rewrite ?Z.shiftl_mul_pow2; lia).
  replace (a * 2 ^ 18 + Z.shiftl b 12) with (Z.shiftl (a * 2 ^ 6 + b) 12) by (rewrite !Z.shiftl_mul_pow2; lia).
  by rewrite join_bits3.
Qed.

Lemma low6 z : 0 <= z `mod` 2 ^ 6 < 2 ^ 6.
Proof. apply Z.mod_pos_bound. lia. Qed.

Ltac low_masks H :=
  change 0x1F with (2 ^ 5 - 1) in H; change 0x3F with (2 ^ 6 - 1) in H; change 0x0F with (2 ^ 4 - 1) in H;
  change 0x07 with (2 ^ 3 - 1) in H; rewrite !low_bits in H by lia.

(** The separators of lines and paragraphs, which [Marshal] escapes. *)
Lemma decode_separator s r w :
  DecodeRune s = (r, w) → r = 0x2028 ∨ r = 0x2029 → take w s = EncodeRune r.
Proof.
  intros H Hr. destruct s as [|c0 s]; [injection H as <- <-; destruct Hr; discriminate|]. unfold DecodeRune in H.
  assert (∀ A, (RuneError, 1%nat) = (r, w) → A) as Hbad by (intros A [= <- <-]; exfalso; destruct Hr; discriminate).
  pose proof (byte_val_bounds c0) as Hc0.
  destruct (byte_val c0 <? 0x80) eqn:E0; [injection H as <- <-; apply Z.ltb_lt in E0; lia|].
  destruct (in_range 0xC2 0xDF (byte_val c0)) eqn:E1.
  { destruct s as [|c1 s]; [by apply Hbad|]. destruct (cont c1) eqn:C1; [|by apply Hbad]. injection H as <- <-.
    exfalso. low_masks Hr. rewrite join_bits in Hr by first [apply low6|lia]. Z.div_mod_to_equations; lia. }
  destruct (in_range 0xE0 0xEF (byte_val c0)) eqn:E2.
  { destruct s as [|c1 [|c2 s]]; [by apply Hbad..|].
    match goal with H : (if ?b then _ else _) = _ |- _ => destruct b eqn:C1; [|by apply Hbad] end. injection H as <- <-.
    apply andb_true_iff in C1 as [C1 C2]. unfold cont, in_range in *.
    pose proof (byte_val_bounds c1). pose proof (byte_val_bounds c2).
    destruct Hr as [Hr|Hr]; rewrite Hr; low_masks Hr; rewrite join_bits3 in Hr by apply low6.
    - assert (byte_val c0 = 0xE2) as B0 by (Z.div_mod_to_equations; lia). rewrite B0 in C1. cbn in C1.
      assert (byte_val c1 = 0x80 ∧ byte_val c2 = 0xA8) as (B1 & B2) by (Z.div_mod_to_equations; lia).
      by rewrite (byte_val_inj c0 "226" B0), (byte_val_inj c1 "128" B1), (byte_val_inj c2 "168" B2).
    - assert (byte_val c0 = 0xE2) as B0 by (Z.div_mod_to_equations; lia). rewrite B0 in C1. cbn in C1.
      assert (byte_val c1 = 0x80 ∧ byte_val c2 = 0xA9) as (B1 & B2) by (Z.div_mod_to_equations; lia).
      by rewrite (byte_val_inj c0 "226" B0), (byte_val_inj c1 "128" B1), (byte_val_inj c2 "169" B2). }
  destruct (in_range 0xF0 0xF4 (byte_val c0)) eqn:E3; [|by apply Hbad].
  destruct s as [|c1 [|c2 [|c3 s]]]; [by apply Hbad..|].
  match goal with H : (if ?b then _ else _) = _ |- _ => destruct b eqn:C1; [|by apply Hbad] end. injection H as <- <-.
  apply andb_true_iff in C1 as [[C1 C2]%andb_true_iff C3]. unfold cont, in_range in *. pose proof (byte_val_bounds c1).
  exfalso. low_masks Hr. rewrite join_bits4 in Hr by apply low6. destruct (Z.eqb_spec (byte_val c0) 0xF0) as [B0|B0].
  - rewrite B0 in Hr, C1. cbn in C1. pose proof (low6 (byte_val c2)). pose proof (low6 (byte_val c3)).
    assert (16 <= byte_val c1 `mod` 2 ^ 6) by (Z.div_mod_to_equations; lia). change (240 `mod` 2 ^ 3) with 0 in Hr. lia.
  - pose proof (low6 (byte_val c1)). pose proof (low6 (byte_val c2)). pose proof (low6 (byte_val c3)).
    assert (1 <= byte_val c0 `mod` 2 ^ 3) by (Z.div_mod_to_equations; lia). lia.
Qed.

Lemma unquote_rune fuel c u :
  0x80 <= byte_val c →
  unquote (S fuel) (String c u) =
    let '(r, w) := DecodeRune (String c u) in
    '(y, rest) ← unquote fuel (drop w (String c u));
    Some ((if (r =? RuneError) && bool_decide (w = 1%nat) then EncodeRune RuneError else take w (String c u)) +:+ y, rest).
Proof.
  intros H. cbn [unquote].
  rewrite (bool_decide_eq_false_2 (c = dquote)) by (intros ->; by vm_compute in H).
  rewrite (bool_decide_eq_false_2 (c = "\"%char)) by (intros ->; by vm_compute in H).
  rewrite (proj2 (Z.ltb_ge _ 32)) by lia. by rewrite (proj2 (Z.ltb_ge _ 0x80)) by lia.
Qed.

(** A string of valid UTF-8 is read back from its escapes, whatever follows. *)
Lemma unquote_escape n : ∀ s fuel rest,
  (len s ≤ n)%nat → valid_utf8_go n s = true → (len s < fuel)%nat →
  unquote fuel (json_escape n s +:+ String dquote rest) = Some (s, rest).
Proof.
  induction n as [|n IH]; intros s fuel rest Hn Hv Hf; (destruct fuel as [|fuel]; [lia|]).
  { destruct s; [done|cbn in Hn; lia]. }
  destruct s as [|c t]; [done|]. cbn [len] in Hn, Hf.
  change (json_escape (S n) (String c t)) with
    (if byte_val c <? 0x80 then escape_char c +:+ json_escape n t
     else let '(r, w) := DecodeRune (String c t) in
          (if (r =? RuneError) && bool_decide (w = 1%nat) then "\ufffd"
           else if r =? 0x2028 then "\u2028" else if r =? 0x2029 then "\u2029"
           else take w (String c t)) +:+ json_escape n (drop w (String c t))).
  cbn [valid_utf8_go] in Hv. destruct (Z.ltb_spec (byte_val c) 0x80) as [Hc|Hc].
  { rewrite (DecodeRune_ascii c t Hc) in Hv. apply andb_true_iff in Hv as [_ Hv]. cbn [drop] in Hv.
    rewrite app_assoc_str, unquote_char by done. rewrite IH by (done || lia). done. }
  pose proof (DecodeRune_width (String c t) ltac:(done)) as [Hw Hw']. cbn [len] in Hw'.
  destruct (DecodeRune (String c t)) as [r w] eqn:E. cbn [snd] in Hw, Hw'. apply andb_true_iff in Hv as [Hok Hv].
  apply negb_true_iff in Hok. rewrite Hok.
  assert (len (drop w (String c t)) ≤ n ∧ len (drop w (String c t)) < fuel)%nat as [Hl1 Hl2]
    by (rewrite len_drop; cbn [len]; lia).
  pose proof (take_drop w (String c t)) as Htd. pose proof (decode_separator _ _ _ E) as Hsep.
  destruct (r =? 0x2028) eqn:E1; [|destruct (r =? 0x2029) eqn:E2].
  - apply Z.eqb_eq in E1 as ->. rewrite app_assoc_str.
    change (unquote (S fuel) ("\u2028" +:+ ?x)) with ('(y, rest) ← unquote fuel x; Some (EncodeRune 0x2028 +:+ y, rest)).
    rewrite IH by done. cbn [mbind option_bind]. rewrite <-Hsep by auto. by rewrite Htd.
  - apply Z.eqb_eq in E2 as ->. rewrite app_assoc_str.
    change (unquote (S fuel) ("\u2029" +:+ ?x)) with ('(y, rest) ← unquote fuel x; Some (EncodeRune 0x2029 +:+ y, rest)).
    rewrite IH by done. cbn [mbind option_bind]. rewrite <-Hsep by auto. by rewrite Htd.
  - pose proof (DecodeRune_stable _ _ _ (json_escape n (drop w (String c t)) +:+ String dquote rest) E Hok ltac:(done)) as Hst.
    destruct w as [|w]; [lia|]. rewrite app_assoc_str. cbn [take] in Hst |- *. rewrite app_cons_str in Hst |- *.
    rewrite unquote_rune, Hst, Hok by done. cbn [take drop]. cbn [len] in Hw'.
    assert (len (take w t) = w) as Hlt by (rewrite len_take; lia).
    rewrite <-Hlt at 1. rewrite drop_app. change (drop (S w) (String c t)) with (drop w t). rewrite IH by done.
    cbn [mbind option_bind]. rewrite <-Hlt at 1. rewrite take_app. rewrite app_cons_str. by rewrite take_drop.
Qed.

Lemma json_string_read fuel s rest :
  valid_utf8 s = true → (len s < fuel)%nat →
  unquote fuel (json_escape (len s) s +:+ String dquote rest) = Some (s, rest).
Proof. intros. by apply unquote_escape. Qed.

(** ** Numbers *)

Definition num_char (c : ascii) : bool :=
  is_digit c || is_e c || bool_decide (c = "."%char) || bool_decide (c = "+"%char) || bool_decide (c = "-"%char).
Definition follow (rest : string) : bool := match rest with String c _ => negb (num_char c) | EmptyString => true end.
Definition number_literal (lit : string) : Prop := read_number lit = Some (lit, "").

Lemma num_step_stop st c : num_char c = false → num_step st c = None.
Proof.
  unfold num_char. rewrite !orb_false_iff. intros [[[[Hd He] Hdot] Hp] Hm]. unfold num_step. rewrite Hd, He, Hdot, Hp, Hm.
  destruct st; try done. rewrite bool_decide_eq_false_2; [done|]. by intros ->.
Qed.

Lemma scan_num_app lit : ∀ st rest,
  scan_num st lit = Some (lit, "") → follow rest = true → scan_num st (lit +:+ rest) = Some (lit, rest).
Proof.
  induction lit as [|c lit IH]; intros st rest H Hf.
  - cbn in H. destruct (num_end st) eqn:He; [|done]. rewrite app_nil_l_str. destruct rest as [|c rest]; cbn [scan_num]; [by rewrite He|].
    rewrite num_step_stop, He; [done|]. by apply negb_true_iff in Hf.
  - rewrite app_cons_str. cbn [scan_num] in *. destruct (num_step st c) as [st'|]; [|by destruct (num_end st)].
    destruct (scan_num st' lit) as [[l r]|] eqn:E; [|done]. cbn [mbind option_bind] in *. injection H as -> ->.
    by rewrite (IH st' rest E Hf).
Qed.

Lemma read_number_app lit rest :
  number_literal lit → follow rest = true → read_number (lit +:+ rest) = Some (lit, rest).
Proof.
  unfold number_literal. intros H Hf. destruct lit as [|c lit]; [done|]. rewrite app_cons_str.
  destruct (decide (c = "-"%char)) as [->|Hne].
  - cbn [read_number] in *. destruct (scan_num StNeg lit) as [[l r]|] eqn:E; [|done]. cbn [mbind option_bind] in *.
    injection H as -> ->. by rewrite (scan_num_app _ _ rest E Hf).
  - assert (∀ t, read_number (String c t) = if is_digit c then scan_num StNeg (String c t) else None) as Hr.
    { intros t. destruct c as [[] [] [] [] [] [] [] []]; try reflexivity. by destruct Hne. }
    rewrite Hr in *. destruct (is_digit c); [|done]. rewrite <-app_cons_str. by apply scan_num_app.
Qed.

Lemma number_head lit : number_literal lit → ∃ c t, lit = String c t ∧ (c = "-"%char ∨ is_digit c = true).
Proof.
  unfold number_literal. destruct lit as [|c lit]; [done|]. intros H. exists c, lit. split; [done|].
  destruct (decide (c = "-"%char)); [by left|right]. destruct (is_digit c) eqn:E; [done|]. exfalso.
  destruct c as [[] [] [] [] [] [] [] []]; first [discriminate E | discriminate H | by destruct n].
Qed.

(** Printed integers are numbers: they have no leading zeros. *)
Lemma pretty_N_go_head x s : (0 < x)%N → ∃ c t, pretty_N_go x s = String c t ∧ c ≠ "0"%char.
Proof.
  revert s. induction (N.lt_wf_0 x) as [x _ IH]. intros s Hx. rewrite pretty_N_go_step by lia.
  destruct (decide (x / 10 = 0)%N) as [E|Hd].
  - rewrite E, pretty_N_go_0. eexists _, _. split; [done|]. apply N.div_small_iff in E; [|done].
    rewrite N.mod_small by done. destruct x as [|x]; [done|]. do 4 (destruct x as [x|x|]; try done).
  - apply IH; [apply N.div_lt; lia | by apply N.neq_0_lt_0].
Qed.

Lemma isDigit_is_digit c : isDigit c = true → is_digit c = true.
Proof. by destruct c as [[] [] [] [] [] [] [] []]. Qed.

Lemma scan_number_digits s : all_bytes isDigit s = true → scan_num St1 s = Some (s, "").
Proof.
  induction s as [|c s IH]; [done|]. cbn [all_bytes]. intros [Hc Hs]%andb_true_iff. cbn [scan_num num_step].
  rewrite (isDigit_is_digit c Hc), (IH Hs). done.
Qed.

Lemma pretty_pos_number x :
  ∃ c s, pretty (N.pos x) = String c s ∧ is_digit c = true ∧ scan_num StNeg (String c s) = Some (String c s, "").
Proof.
  destruct (pretty_N_spec (N.pos x)) as (c & s & Hp & Hc & Hs & _). exists c, s. split; [done|].
  pose proof (isDigit_is_digit c Hc) as Hd. split; [done|]. cbn [scan_num num_step].
  unfold pretty, pretty_N in Hp. rewrite decide_False in Hp by done.
  destruct (pretty_N_go_head (N.pos x) "" ltac:(lia)) as (c' & t & E & Hne). rewrite E in Hp. injection Hp as -> ->.
  rewrite bool_decide_eq_false_2 by done. rewrite Hd, scan_number_digits by done. done.
Qed.

Lemma Itoa_number z : number_literal (Itoa z).
Proof.
  unfold number_literal. destruct z as [|x|x]; [done|..]; destruct (pretty_pos_number x) as (c & s & Hp & Hd & Hs).
  - change (Itoa (Z.pos x)) with (pretty (N.pos x)). rewrite Hp.
    destruct c as [[] [] [] [] [] [] [] []]; first [exact Hs | discriminate Hd].
  - change (Itoa (Z.neg x)) with ("-" +:+ pretty (N.pos x)). rewrite Hp.
    change (read_number ("-" +:+ String c s)) with ('(lit, rest) ← scan_num StNeg (String c s); Some (String "-" lit, rest)).
    by rewrite Hs.
Qed.

(** ** Trees *)

Fixpoint wf_json (j : json) : Prop :=
  match j with
  | JNum lit => number_literal lit
  | JStr s => valid_utf8 s = true
  | JArr l => (fix go l := match l with [] => True | j :: l => wf_json j ∧ go l end) l
  | JObj kvs => (fix go kvs := match kvs with [] => True | (k, j) :: kvs => valid_utf8 k = true ∧ wf_json j ∧ go kvs end) kvs
  | _ => True
  end.

Fixpoint json_size (j : json) : nat :=
  match j with
  | JArr l => S (sum_list_with (λ j, S (json_size j)) l)
  | JObj kvs => S (sum_list_with (λ kv : string * json, S (json_size kv.2)) kvs)
  | _ => 1
  end.
Fixpoint json_depth (j : json) : Z :=
  match j with
  | JArr l => 1 + foldr Z.max 0 (json_depth <$> l)
  | JObj kvs => 1 + foldr Z.max 0 ((λ kv : string * json, json_depth kv.2) <$> kvs)
  | _ => 0
  end.

Lemma wf_JArr l : wf_json (JArr l) ↔ Forall wf_json l.
Proof. cbn. induction l as [|j l IH]; [by split|]. by rewrite Forall_cons, IH. Qed.
Lemma wf_JObj kvs : wf_json (JObj kvs) ↔ Forall (λ kv : string * json, valid_utf8 kv.1 = true ∧ wf_json kv.2) kvs.
Proof. cbn. induction kvs as [|[k j] l IH]; [by split|]. rewrite Forall_cons, IH. cbn. tauto. Qed.

Lemma skip_ws_char c t : is_ws c = false → skip_ws (String c t) = String c t.
Proof. intros H. unfold skip_ws. cbn [span]. by rewrite H. Qed.

(** The first character of a printed tree decides how it is read. *)
Lemma print_head j : wf_json j →
  ∃ c t, print_json j = String c t ∧ is_ws c = false ∧ c ≠ "]"%char.
Proof.
  destruct j as [|b|lit|s|l|kvs]; cbn [print_json]; intros H; try by eexists _, _.
  - destruct b; by eexists _, _.
  - apply number_head in H as (c & t & -> & Hc). exists c, t. split; [done|].
    destruct Hc as [->|Hc]; [done|]. split; [|by intros ->].
    destruct c as [[] [] [] [] [] [] [] []]; try reflexivity; discriminate Hc.
Qed.

Definition reads_back (j : json) : Prop :=
  ∀ fuel d rest, (json_size j ≤ fuel)%nat → json_depth j <= d → follow rest = true →
    parse_value fuel d (print_json j +:+ rest) = Some (j, rest).

Lemma elements_read l : ∀ x fuel d rest,
  Forall wf_json (x :: l) → Forall reads_back (x :: l) →
  (sum_list_with (λ j, S (json_size j)) (x :: l) ≤ fuel)%nat → Forall (λ j, json_depth j <= d) (x :: l) →
  parse_elements fuel d (Join (print_json <$> x :: l) "," +:+ String "]" rest) = Some (x :: l, rest).
Proof.
  induction l as [|y l IH]; intros x fuel d rest Hwf Hr Hf Hd; (destruct fuel as [|fuel]; [cbn in Hf; lia|]).
  - apply Forall_cons in Hr as [Hx _], Hd as [Hdx _]. cbn in Hf. cbn [parse_elements fmap list_fmap Join].
    rewrite Hx by (done || lia). done.
  - pose proof Hwf as [_ Hwf']%Forall_cons. apply Forall_cons in Hr as [Hx Hr], Hd as [Hdx Hd]. rewrite !fmap_cons, Join_cons.
    cbn [sum_list_with] in Hf. cbn [parse_elements].
    rewrite !app_assoc_str. change ("," +:+ ?s) with (String "," s). rewrite Hx by (done || lia). cbn [mbind option_bind].
    rewrite skip_ws_char by done. rewrite <-fmap_cons, IH; [done|done|done| |done]. cbn [sum_list_with]. lia.
Qed.

(** A key and its value, as a member of an object. *)
Definition print_member (kv : string * json) : string := json_string kv.1 +:+ ":" +:+ print_json kv.2.

Lemma json_string_app s rest : json_string s +:+ rest = String dquote (json_escape (len s) s +:+ String dquote rest).
Proof. unfold json_string, quote. by rewrite app_cons_str, app_assoc_str. Qed.

Lemma json_escape_len n : ∀ s, (len s ≤ n)%nat → (len s ≤ len (json_escape n s))%nat.
Proof.
  induction n as [|n IH]; intros s Hn; [lia|]. destruct s as [|c t]; [done|]. cbn [len] in Hn.
  change (json_escape (S n) (String c t)) with
    (if byte_val c <? 0x80 then escape_char c +:+ json_escape n t
     else let '(r, w) := DecodeRune (String c t) in
          (if (r =? RuneError) && bool_decide (w = 1%nat) then "\ufffd"
           else if r =? 0x2028 then "\u2028" else if r =? 0x2029 then "\u2029"
           else take w (String c t)) +:+ json_escape n (drop w (String c t))).
  destruct (byte_val c <? 0x80).
  - rewrite len_app. specialize (IH t ltac:(lia)). cbn [len].
    assert (1 ≤ len (escape_char c))%nat; [|lia]. destruct c as [[] [] [] [] [] [] [] []]; vm_compute; lia.
  - pose proof (DecodeRune_width (String c t) ltac:(done)) as [Hw Hw']. destruct (DecodeRune (String c t)) as [r w] eqn:E.
    cbn [snd] in Hw, Hw'. rewrite len_app. specialize (IH (drop w (String c t))). rewrite len_drop in IH. cbn [len] in *.
    specialize (IH ltac:(lia)).
    assert (w ≤ 4)%nat as H4.
    { revert E. unfold DecodeRune. repeat case_match; intros [= <- <-]; lia. }
    repeat case_match; rewrite ?len_take; cbn [len]; lia.
Qed.

(** A quoted string is read with the fuel of its text. *)
Lemma json_string_unquote s rest :
  valid_utf8 s = true →
  ∃ t, json_string s +:+ rest = String dquote t ∧ unquote (len (json_string s +:+ rest)) t = Some (s, rest).
Proof.
  intros Hv. exists (json_escape (len s) s +:+ String dquote rest). rewrite json_string_app. split; [done|].
  apply json_string_read; [done|]. cbn [len]. rewrite len_app. cbn [len]. pose proof (json_escape_len (len s) s (le_n _)). lia.
Qed.

Lemma member_read k j fuel d rest :
  valid_utf8 k = true → wf_json j → reads_back j → (json_size j ≤ fuel)%nat → json_depth j <= d → follow rest = true →
  ∃ t, print_member (k, j) +:+ rest = String dquote t ∧
    (∀ n, n = len (String dquote t) → unquote n t = Some (k, String ":" (print_json j +:+ rest))) ∧
    parse_value fuel d (print_json j +:+ rest) = Some (j, rest).
Proof.
  intros Hk Hj Hr Hf Hd Hfo. unfold print_member. cbn [fst snd]. rewrite !app_assoc_str.
  destruct (json_string_unquote k (":" +:+ print_json j +:+ rest) Hk) as (t & E & Hu). exists t. split; [done|].
  split; [|by apply Hr]. intros n ->. by rewrite <-E.
Qed.

Lemma members_read kvs : ∀ kv fuel d rest,
  Forall (λ kv, valid_utf8 kv.1 = true ∧ wf_json kv.2) (kv :: kvs) → Forall (λ kv, reads_back kv.2) (kv :: kvs) →
  (sum_list_with (λ kv : string * json, S (json_size kv.2)) (kv :: kvs) ≤ fuel)%nat →
  Forall (λ kv : string * json, json_depth kv.2 <= d) (kv :: kvs) →
  parse_members fuel d (Join (print_member <$> kv :: kvs) "," +:+ String "}" rest) = Some (kv :: kvs, rest).
Proof.
  induction kvs as [|kv' kvs IH]; intros [k j] fuel d rest Hwf Hr Hf Hd; (destruct fuel as [|fuel]; [cbn in Hf; lia|]);
    apply Forall_cons in Hwf as [[Hk Hj] Hwf], Hr as [Hx Hr], Hd as [Hdx Hd]; cbn [fst snd] in *; cbn [sum_list_with snd] in Hf.
  - cbn [fmap list_fmap Join]. destruct (member_read k j fuel d (String "}" rest)) as (t & E & Hu & Hp); [done..|lia|done|done|].
    rewrite E. cbn [parse_members]. rewrite skip_ws_char by done. rewrite bool_decide_eq_true_2 by done.
    rewrite (Hu _ eq_refl). cbn [mbind option_bind]. rewrite skip_ws_char by done. rewrite Hp. done.
  - rewrite fmap_cons, fmap_cons, Join_cons, <-fmap_cons, !app_assoc_str. change ("," +:+ ?s) with (String "," s).
    destruct (member_read k j fuel d (String "," (Join (print_member <$> kv' :: kvs) "," +:+ String "}" rest)))
      as (t & E & Hu & Hp); [done..|lia|done|done|].
    rewrite E. cbn [parse_members]. rewrite skip_ws_char by done. rewrite bool_decide_eq_true_2 by done.
    rewrite (Hu _ eq_refl). cbn [mbind option_bind]. rewrite skip_ws_char by done. rewrite Hp. cbn [mbind option_bind].
    rewrite skip_ws_char by done. rewrite IH; [done..| |done]. cbn [sum_list_with]. lia.
Qed.

Lemma depth_all (l : list Z) d : 1 + foldr Z.max 0 l <= d → Forall (λ z, z <= d - 1) l.
Proof. induction l as [|z l IH]; intros H; constructor; cbn in H; [|apply IH]; lia. Qed.

Lemma Forall_apply {A} (P Q : A → Prop) l : Forall (λ x, P x → Q x) l → Forall P l → Forall Q l.
Proof. induction 1; intros H'; inversion H'; auto. Qed.

Lemma max_nonneg (l : list Z) : 0 <= foldr Z.max 0 l.
Proof. induction l as [|z l IH]; cbn [foldr]; lia. Qed.

(** An array or object that is not empty. *)
Lemma parse_array fuel d c t :
  0 < d → is_ws c = false → c ≠ "]"%char →
  parse_value (S fuel) d (String "[" (String c t)) =
    '(l, rest) ← parse_elements fuel (d - 1) (String c t); Some (JArr l, rest).
Proof.
  intros Hd Hws Hc. cbn [parse_value]. rewrite skip_ws_char by done. rewrite bool_decide_eq_false_2 by done.
  rewrite bool_decide_eq_true_2 by done. rewrite (proj2 (Z.leb_gt d 0)) by done. rewrite skip_ws_char by done.
  destruct c as [[] [] [] [] [] [] [] []]; first [reflexivity | by destruct Hc].
Qed.

Lemma parse_object fuel d t :
  0 < d → parse_value (S fuel) d (String "{" (String dquote t)) =
    '(kvs, rest) ← parse_members fuel (d - 1) (String dquote t); Some (JObj kvs, rest).
Proof.
  intros Hd. cbn [parse_value]. rewrite skip_ws_char by done. rewrite bool_decide_eq_true_2 by done.
  rewrite (proj2 (Z.leb_gt d 0)) by done. by rewrite skip_ws_char.
Qed.

(** Every well-formed tree is read back from its text, with what follows left over. *)
Lemma print_read j : wf_json j → reads_back j.
Proof.
  induction j as [|b|lit|s|l IH|kvs IH] using json_nested_ind; intros Hwf fuel d rest Hf Hd Hfo;
    (destruct fuel as [|fuel]; [cbn in Hf; lia|]).
  - cbn [print_json]. change ("null" +:+ rest) with (String "n" ("ull" +:+ rest)). cbn [parse_value]. rewrite skip_ws_char by done.
    done.
  - destruct b; [change (print_json (JBool true) +:+ rest) with (String "t" ("rue" +:+ rest)) |
      change (print_json (JBool false) +:+ rest) with (String "f" ("alse" +:+ rest))];
      cbn [parse_value]; rewrite skip_ws_char by done; done.
  - cbn [print_json wf_json] in *. pose proof (read_number_app lit rest Hwf Hfo) as Hr.
    destruct (number_head lit Hwf) as (c & t & -> & Hc). rewrite app_cons_str in *. cbn [parse_value].
    rewrite skip_ws_char by (destruct Hc as [->|Hc]; [done|];
      destruct c as [[] [] [] [] [] [] [] []]; first [reflexivity | discriminate Hc]).
    rewrite !bool_decide_eq_false_2 by (intros ->; by destruct Hc). by rewrite Hr.
  - cbn [print_json wf_json] in *. destruct (json_string_unquote s rest Hwf) as (t & E & Hu). rewrite E in *.
    cbn [parse_value]. rewrite skip_ws_char by done. rewrite bool_decide_eq_false_2 by done.
    rewrite bool_decide_eq_false_2 by done. rewrite bool_decide_eq_true_2 by done. by rewrite Hu.
  - apply wf_JArr in Hwf. cbn [json_size json_depth print_json] in *. rewrite !app_assoc_str. change ("[" +:+ ?s) with (String "[" s).
    change ("]" +:+ rest) with (String "]" rest). pose proof (max_nonneg (json_depth <$> l)) as Hmax.
    destruct l as [|x l].
    { cbn [parse_value]. rewrite (proj2 (Z.leb_gt d 0)) by lia. done. }
    assert (Forall reads_back (x :: l)) as Hr by (by apply (Forall_apply _ _ _ IH)).
    destruct (Forall_cons_1 _ _ _ Hwf) as [Hx _]. destruct (print_head x Hx) as (c & t & Ep & Hws & Hne).
    assert (∃ u, Join (print_json <$> x :: l) "," +:+ String "]" rest = String c u) as [u Eu].
    { rewrite fmap_cons, Ep. destruct l as [|y l]; [|rewrite fmap_cons, Join_cons, !app_assoc_str]; rewrite ?app_cons_str; by eexists. }
    rewrite Eu, parse_array by (done || lia). rewrite <-Eu, elements_read; [done|done|done|cbn [sum_list_with] in *; lia|].
    apply depth_all in Hd. by rewrite Forall_fmap in Hd.
  - apply wf_JObj in Hwf. cbn [json_size json_depth print_json] in *. rewrite !app_assoc_str. change ("{" +:+ ?s) with (String "{" s).
    change ("}" +:+ rest) with (String "}" rest). pose proof (max_nonneg ((λ kv : string * json, json_depth kv.2) <$> kvs)) as Hmax.
    change ((λ kv : string * json, json_string kv.1 +:+ ":" +:+ print_json kv.2) <$> kvs) with (print_member <$> kvs).
    destruct kvs as [|[k x] kvs].
    { cbn [parse_value]. rewrite (proj2 (Z.leb_gt d 0)) by lia. done. }
    assert (Forall (λ kv, reads_back kv.2) ((k, x) :: kvs)) as Hr.
    { apply (Forall_apply _ _ _ IH). eapply Forall_impl; [exact Hwf|]. by intros kv []. }
    assert (∃ u, Join (print_member <$> (k, x) :: kvs) "," +:+ String "}" rest = String dquote u) as [u Eu].
    { rewrite fmap_cons. unfold print_member at 1. cbn [fst snd].
      destruct kvs as [|kv kvs]; [cbn [fmap list_fmap Join]|rewrite fmap_cons, Join_cons]; rewrite !app_assoc_str, json_string_app; by eexists. }
    rewrite Eu, parse_object by lia. rewrite <-Eu, members_read; [done|done|done|cbn [sum_list_with] in *; lia|].
    apply depth_all in Hd. by rewrite Forall_fmap in Hd.
Qed.

(** ** Whole texts *)

Lemma size_join {A} (size : A → nat) (text : A → string) l :
  Forall (λ x, (size x ≤ 2 * len (text x))%nat) l →
  (sum_list_with (λ x, S (size x)) l ≤ 2 * len (Join (text <$> l) ",") + 1)%nat.
Proof.
  induction 1 as [|x l Hx Hl IH]; [cbn; lia|]. destruct l as [|y l]; [cbn [sum_list_with fmap list_fmap Join]; lia|].
  rewrite !fmap_cons, Join_cons, <-fmap_cons, !len_app. cbn [sum_list_with] in *. change (len ",") with 1%nat. lia.
Qed.

Lemma size_len j : wf_json j → (json_size j ≤ 2 * len (print_json j))%nat.
Proof.
  induction j as [|b|lit|s|l IH|kvs IH] using json_nested_ind; intros Hwf; cbn [json_size print_json].
  - cbn. lia.
  - destruct b; cbn; lia.
  - apply number_head in Hwf as (c & t & -> & _). cbn [len]. lia.
  - unfold json_string, quote. cbn [len]. rewrite len_app. cbn [len]. lia.
  - apply wf_JArr in Hwf. pose proof (size_join json_size print_json l (Forall_apply _ _ _ IH Hwf)).
    rewrite !len_app. change (len "[") with 1%nat. lia.
  - apply wf_JObj in Hwf. rewrite !len_app. change (len "{") with 1%nat.
    assert (Forall (λ kv, (json_size kv.2 ≤ 2 * len (print_member kv))%nat) kvs) as Hm.
    { apply (Forall_apply (λ kv, wf_json kv.2)); [|by eapply Forall_impl; [exact Hwf|]; intros ? []].
      eapply Forall_impl; [exact IH|]. cbn. intros kv Hkv Hw. specialize (Hkv Hw). unfold print_member. rewrite !len_app. lia. }
    pose proof (size_join (λ kv : string * json, json_size kv.2) print_member kvs Hm) as H. unfold print_member in H. lia.
Qed.

(** The text of a tree is read as the tree, unless it is nested too deeply. *)
Theorem parse_print j : wf_json j → json_depth j <= maxNestingDepth → parse_json (print_json j) = Some j.
Proof.
  intros Hwf Hd. unfold parse_json. pose proof (print_read j Hwf (2 * len (print_json j) + 2)%nat maxNestingDepth "") as H.
  rewrite app_nil_r_str in H. rewrite H; [done| |done|done]. pose proof (size_len j Hwf). lia.
Qed.

(** ** The trees of values *)

(** Induction on values, down to the values of objects. *)
Fixpoint any_size (v : any) : nat :=
  match v with
  | AArr l => S (sum_list_with any_size l)
  | AObj m => S (map_fold (λ _ x n, any_size x + n)%nat 0%nat m)
  | APtr _ (Some x) => S (any_size x)
  | _ => 1
  end.

Lemma any_size_lookup (m : gmap string any) k x : m !! k = Some x → (any_size x < any_size (AObj m))%nat.
Proof.
  intros H. cbn [any_size]. rewrite <-(insert_id m k x H), <-insert_delete_eq, map_fold_insert_L; [lia| |by rewrite lookup_delete_eq].
  intros. lia.
Qed.

Lemma any_nested_ind (P : any → Prop)
    (Hnil : P ANil) (Hbool : ∀ b, P (ABool b)) (Hint : ∀ k z, P (AInt k z)) (Hfloat : ∀ f, P (AFloat f)) (Hstr : ∀ s, P (AStr s))
    (Harr : ∀ l, Forall P l → P (AArr l)) (Hobj : ∀ m, map_Forall (λ _ x, P x) m → P (AObj m))
    (Hnone : ∀ ty, P (APtr ty None)) (Hsome : ∀ ty x, P x → P (APtr ty (Some x))) v : P v.
Proof.
  remember (any_size v) as n eqn:E. revert v E. induction (lt_wf n) as [n _ IH]. intros v ->.
  destruct v as [|b|k z|f|s|l|m|ty [x|]]; try done.
  - apply Harr. apply Forall_forall. intros x Hx. apply (IH (any_size x)); [|done]. cbn [any_size].
    pose proof (sum_list_with_in x any_size l Hx). lia.
  - apply Hobj. intros k x Hx. apply (IH (any_size x)); [by eapply any_size_lookup|done].
  - apply Hsome. apply (IH (any_size x)); [cbn; lia|done].
Qed.

(** Sorting by key does not look at the values. *)
Section SortMap.
Context {A B : Type} (f : A → B).
Local Abbreviation on_value := (prod_map (@id string) f).

Lemma key_le_map x y : key_le (on_value x) (on_value y) ↔ key_le x y.
Proof. done. Qed.

Lemma list_merge_map l1 : ∀ l2,
  list_merge key_le (on_value <$> l1) (on_value <$> l2) = on_value <$> list_merge key_le l1 l2.
Proof.
  induction l1 as [|x l1 IH1]; [by intros []|]. intros l2. induction l2 as [|y l2 IH2]; [done|].
  cbn [fmap list_fmap list_merge] in *. repeat case_decide.
  - rewrite fmap_cons. f_equal. exact (IH1 (y :: l2)).
  - by destruct H0.
  - by destruct H.
  - rewrite fmap_cons. f_equal. exact IH2.
Qed.

Lemma merge_to_stack_map st : ∀ l,
  merge_list_to_stack key_le (fmap (M := option) (fmap (M := list) on_value) <$> st) (on_value <$> l) =
  fmap (M := option) (fmap (M := list) on_value) <$> merge_list_to_stack key_le st l.
Proof.
  induction st as [|[l'|] st IH]; intros l; [done| |done]. cbn [fmap list_fmap merge_list_to_stack option_map option_fmap].
  f_equal. rewrite <-IH. f_equal. apply list_merge_map.
Qed.

Lemma merge_stack_map st :
  merge_stack key_le (fmap (M := option) (fmap (M := list) on_value) <$> st) = on_value <$> merge_stack key_le st.
Proof.
  induction st as [|[l|] st IH]; [done| |exact IH]. cbn [fmap list_fmap merge_stack option_map option_fmap].
  rewrite <-list_merge_map. f_equal. exact IH.
Qed.

Lemma merge_sort_map l : merge_sort key_le (on_value <$> l) = on_value <$> merge_sort key_le l.
Proof.
  unfold merge_sort. change (@nil (option (list (string * B)))) with (fmap (M := option) (fmap (M := list) on_value) <$> []) at 1.
  generalize (@nil (option (list (string * A)))). induction l as [|x l IH]; intros st; [apply merge_stack_map|].
  cbn [fmap list_fmap merge_sort_aux]. rewrite <-IH. f_equal. exact (merge_to_stack_map st [x]).
Qed.
End SortMap.

Section Values.
Context `{GF : GoFloat}.

(** [Marshal] prints the tree. *)
Theorem Marshal_print v : Marshal v = print_json <$> to_json v.
Proof.
  induction v as [|b|k z|f|s|l IH|m IH|ty|ty x IH] using any_nested_ind; try done.
  - cbn [Marshal to_json]. by destruct (finite f).
  - change (Marshal (AArr l)) with (parts ← mapM Marshal l; Some ("[" +:+ Join parts "," +:+ "]")).
    change (to_json (AArr l)) with (JArr <$> mapM to_json l).
    assert (mapM Marshal l = fmap (M := list) print_json <$> mapM to_json l) as ->.
    { induction IH as [|x l Hx _ IH]; [done|]. cbn [mapM]. rewrite Hx, IH. destruct (to_json x); [|done].
      cbn [fmap option_fmap option_map mbind option_bind]. by destruct (mapM to_json l). }
    by destruct (mapM to_json l).
  - cbn [Marshal to_json]. rewrite !map_fold_foldr. rewrite map_Forall_to_list in IH.
    assert (∀ l, Forall (λ kx : string * any, Marshal kx.2 = print_json <$> to_json kx.2) l →
      foldr (uncurry (λ k x acc, y ← Marshal x; ys ← acc; Some ((k, y) :: ys))) (Some []) l =
      fmap (M := list) (prod_map id print_json) <$>
        foldr (uncurry (λ k x acc, y ← to_json x; ys ← acc; Some ((k, y) :: ys))) (Some []) l) as Hgo.
    { clear. induction 1 as [|[k x] l Hx _ IH]; [done|]. cbn [foldr uncurry snd] in *. rewrite Hx. destruct (to_json x); [|done].
      cbn [fmap option_fmap option_map mbind option_bind]. rewrite IH. clear IH.
      generalize (foldr (uncurry (λ k x acc, y ← to_json x; ys ← acc; Some ((k, y) :: ys))) (Some []) l). by intros []. }
    rewrite Hgo by (eapply Forall_impl; [exact IH|]; by intros []).
    generalize (foldr (uncurry (λ k x acc, y ← to_json x; ys ← acc; Some ((k, y) :: ys))) (Some []) (map_to_list m)).
    intros [kvs|]; [|done]. cbn [fmap option_fmap option_map mbind option_bind print_json].
    rewrite merge_sort_map, <-list_fmap_compose. done.
Qed.

(** Values whose JSON can be read: valid UTF-8, 64-bit integers, finite floats. *)
Definition valid_float (f : spec_float) : bool := valid_binary prec64 emax64 f && finite f.
Fixpoint ready (v : any) : bool :=
  match v with
  | AInt _ z => in_int64 z
  | AFloat f => valid_float f
  | AStr s => valid_utf8 s
  | AArr l => forallb ready l
  | AObj m => map_fold (λ k x b, valid_utf8 k && ready x && b) true m
  | APtr _ (Some x) => ready x
  | _ => true
  end.

(** What is read back of a value: integers become floats, pointers what they
    point to. *)
Fixpoint as_read (v : any) : any :=
  match v with
  | AInt _ z => AFloat (float_of_int z)
  | AArr l => AArr (as_read <$> l)
  | AObj m => AObj (as_read <$> m)
  | APtr _ None => ANil
  | APtr _ (Some x) => as_read x
  | v => v
  end.

Lemma ready_AArr l : ready (AArr l) = true ↔ Forall (λ x, ready x = true) l.
Proof. cbn [ready]. rewrite <-Is_true_true, forallb_True. apply Forall_iff. intros x. apply Is_true_true. Qed.
Lemma ready_AObj m : ready (AObj m) = true ↔ map_Forall (λ k x, valid_utf8 k = true ∧ ready x = true) m.
Proof.
  cbn [ready]. rewrite map_fold_foldr, map_Forall_to_list. induction (map_to_list m) as [|[k x] l IH]; [by split|].
  rewrite Forall_cons, <-IH. cbn [foldr uncurry]. rewrite !andb_true_iff. tauto.
Qed.

(** What the printing and reading of numbers by strconv is documented to do. *)
Class GoFloatJson : Prop := {
  json_float_number f : valid_float f = true → number_literal (json_float f);
  json_float_reads f : valid_float f = true → ParseFloat (json_float f) = Some f;
  itoa_reads z : in_int64 z = true → ParseFloat (Itoa z) = Some (float_of_int z)
}.
Context {GJ : GoFloatJson}.

Definition read_pair (kv : string * json) : string * option any := (kv.1, to_any kv.2).

Lemma read_pairs kvs : ∀ xs m,
  read_pair <$> kvs = (λ kx : string * any, (kx.1, Some kx.2)) <$> xs →
  (fix go kvs (m : gmap string any) :=
     match kvs with [] => Some m | (k, j) :: kvs => x ← to_any j; go kvs (<[k := x]> m) end) kvs m =
  Some (foldl (λ m kx, <[kx.1 := kx.2]> m) m xs).
Proof.
  induction kvs as [|[k j] kvs IH]; intros [|[k' x] xs] m H; try done. injection H as -> Hj H. rewrite Hj.
  cbn [mbind option_bind foldl fst snd]. by apply IH.
Qed.

Lemma foldl_insert (xs : list (string * any)) (m : gmap string any) :
  foldl (λ m kx, <[kx.1 := kx.2]> m) m xs = list_to_map (M := gmap string any) (reverse xs) ∪ m.
Proof.
  revert m. induction xs as [|[k x] xs IH]; intros m; cbn [foldl fst snd]; [by rewrite reverse_nil, list_to_map_nil, map_empty_union|].
  rewrite IH, reverse_cons, list_to_map_app, <-map_union_assoc. f_equal. rewrite insert_union_singleton_l. done.
Qed.

(** Pairs with distinct keys make the same map in any order. *)
Lemma to_any_pairs kvs m :
  read_pair <$> kvs ≡ₚ (λ kx : string * any, (kx.1, Some kx.2)) <$> map_to_list m →
  to_any (JObj kvs) = Some (AObj m).
Proof.
  intros Hp. destruct (Permutation_map_inv _ _ Hp) as (xs & E & Hxs).
  cbn [to_any]. rewrite (read_pairs kvs xs ∅ E). cbn [fmap option_fmap option_map]. do 2 f_equal.
  rewrite foldl_insert, map_union_empty.
  rewrite (list_to_map_proper _ (map_to_list m)); [apply list_to_map_to_list| |].
  - rewrite reverse_Permutation, <-Hxs. apply NoDup_fst_map_to_list.
  - by rewrite reverse_Permutation, <-Hxs.
Qed.

(** A value is read back from its text, with integers as floats. *)
Lemma value_read v : ready v = true → ∃ j, to_json v = Some j ∧ wf_json j ∧ to_any j = Some (as_read v).
Proof.
  induction v as [|b|k z|f|s|l IH|m IH|ty|ty x IH] using any_nested_ind; intros Hr.
  - by exists JNull.
  - by exists (JBool b).
  - exists (JNum (Itoa z)). split_and!; [done|apply Itoa_number|]. cbn. by rewrite itoa_reads.
  - exists (JNum (json_float f)). cbn [to_json]. pose proof Hr as [_ ->]%andb_true_iff.
    split_and!; [done|by apply json_float_number|]. cbn. by rewrite json_float_reads.
  - by exists (JStr s).
  - apply ready_AArr in Hr. change (to_json (AArr l)) with (JArr <$> mapM to_json l).
    assert (∃ js, mapM to_json l = Some js ∧ Forall wf_json js ∧ mapM to_any js = Some (as_read <$> l)) as (js & -> & Hwf & Hany).
    { induction IH as [|x l Hx _ IH]; [by exists []|]. apply Forall_cons in Hr as [Hrx Hr].
      destruct (Hx Hrx) as (j & Ej & Hj & Aj), (IH Hr) as (js & Ejs & Hjs & Ajs). exists (j :: js). cbn [mapM].
      rewrite Ej, Ejs. split_and!; [done|by constructor|]. cbn [mapM]. by rewrite Aj, Ajs. }
    exists (JArr js). split_and!; [done|by apply wf_JArr|].
    change (to_any (JArr js)) with (AArr <$> mapM to_any js). by rewrite Hany.
  - apply ready_AObj in Hr. cbn [to_json]. rewrite map_fold_foldr.
    assert (∀ l, Forall (λ kx : string * any, m !! kx.1 = Some kx.2) l → ∃ kvs,
      foldr (uncurry (λ k x acc, y ← to_json x; ys ← acc; Some ((k, y) :: ys))) (Some []) l = Some kvs ∧
      Forall (λ kv, valid_utf8 kv.1 = true ∧ wf_json kv.2) kvs ∧
      read_pair <$> kvs = (λ kx : string * any, (kx.1, Some (as_read kx.2))) <$> l) as Hl.
    { intros l. induction 1 as [|[k x] l Hk _ IHl]; [by exists []|]. cbn [fst snd] in Hk. destruct IHl as (kvs & Ek & Hwf & Hany).
      destruct (IH k x Hk (proj2 (Hr k x Hk))) as (j & Ej & Hj & Aj). exists ((k, j) :: kvs). cbn [foldr uncurry].
      rewrite Ej, Ek. split_and!; [done| |].
      - constructor; [|done]. split; [apply (Hr k x Hk)|done].
      - rewrite !fmap_cons, Hany. unfold read_pair at 1. cbn [fst snd]. by rewrite Aj. }
    destruct (Hl (map_to_list m)) as (kvs & -> & Hwf & Hany).
    { apply Forall_forall. intros [k x] Hin. by apply elem_of_map_to_list in Hin. }
    exists (JObj (merge_sort key_le kvs)). split_and!; [done| |].
    + apply wf_JObj. by rewrite merge_sort_Permutation.
    + apply to_any_pairs. rewrite merge_sort_Permutation, Hany, map_to_list_fmap, <-list_fmap_compose. done.
  - by exists JNull.
  - by apply IH.
Qed.

End Values.

(** ** Numbers that satisfy the laws

    Floats printed exactly, as a mantissa and a binary exponent. *)

Fixpoint num_run (st : num_state) (s : string) : option num_state :=
  match s with String c s => st ← num_step st c; num_run st s | EmptyString => Some st end.

Lemma num_run_app s : ∀ st t, num_run st (s +:+ t) = (st ← num_run st s; num_run st t).
Proof. induction s as [|c s IH]; intros st t; [done|]. rewrite app_cons_str. cbn [num_run]. destruct (num_step st c); [apply IH|done]. Qed.

Lemma num_run_scan s : ∀ st st', num_run st s = Some st' → num_end st' = true → scan_num st s = Some (s, "").
Proof.
  induction s as [|c s IH]; intros st st' H He; cbn [num_run scan_num] in *; [injection H as ->; by rewrite He|].
  destruct (num_step st c) as [st1|]; [|done]. cbn [mbind option_bind] in *. by rewrite (IH st1 st' H He).
Qed.

Lemma digits_run st s : (∀ c, is_digit c = true → num_step st c = Some st) → all_bytes isDigit s = true → num_run st s = Some st.
Proof.
  intros Hst. induction s as [|c s IH]; [done|]. cbn [all_bytes num_run]. intros [Hc Hs]%andb_true_iff.
  rewrite Hst by (by apply isDigit_is_digit). by apply IH.
Qed.

Lemma Itoa_run z : num_run StE (Itoa z) = Some StE0.
Proof.
  destruct (Itoa_spec z) as (sg & c & s & -> & Hc & Hs & [(_ & -> & _)|(_ & -> & _)]); rewrite num_run_app; cbn [num_run].
  - cbn [mbind option_bind num_run]. assert (num_step StE c = Some StE0) as ->.
    { apply isDigit_is_digit in Hc. destruct c as [[] [] [] [] [] [] [] []]; first [reflexivity | discriminate Hc]. }
    apply digits_run; [|done]. intros d Hd. unfold num_step. by rewrite Hd.
  - change (num_step StE "-") with (Some StESign). cbn [mbind option_bind num_run num_step].
    rewrite (isDigit_is_digit c Hc). apply digits_run; [|done]. intros d Hd. unfold num_step. by rewrite Hd.
Qed.

Lemma mantissa_run m : num_run StNeg (pretty (N.pos m)) = Some St1.
Proof.
  destruct (pretty_N_spec (N.pos m)) as (c & s & Hp & Hc & Hs & _). rewrite Hp. unfold pretty, pretty_N in Hp.
  rewrite decide_False in Hp by done. destruct (pretty_N_go_head (N.pos m) "" ltac:(lia)) as (c' & t & E & Hne).
  rewrite E in Hp. injection Hp as -> ->. cbn [num_run num_step]. rewrite bool_decide_eq_false_2 by done.
  rewrite (isDigit_is_digit c Hc). cbn [mbind option_bind]. apply digits_run; [|done]. intros d Hd. unfold num_step. by rewrite Hd.
Qed.

Lemma ParseInt_Itoa64 z : in_int64 z = true → ParseInt (Itoa z) 64 = Some z.
Proof.
  unfold in_int64, in_range. intros [Hlo%Z.leb_le Hhi%Z.leb_le]%andb_true_iff.
  destruct (Itoa_spec z) as (sg & c & s & -> & Hc & Hs & [(Hz & -> & Hv)|(Hz & -> & Hv)]).
  - rewrite (ParseInt_digits c s false z 64 Hc Hv). by rewrite (proj2 (Z.ltb_lt _ _)) by lia.
  - rewrite (ParseInt_digits c s true (- z) 64 Hc Hv). rewrite (proj2 (Z.leb_le _ _)) by lia. f_equal. lia.
Qed.

Definition exact_json_float (f : spec_float) : string :=
  match f with
  | S754_zero s => if s then "-0" else "0"
  | S754_finite s m e => (if s then "-" else "") +:+ pretty (N.pos m) +:+ "e" +:+ Itoa e
  | _ => "NaN"
  end.
Definition exact_ParseFloat (s : string) : option spec_float :=
  if bool_decide (s = "-0") then Some (S754_zero true) else
  match Split s "e" with
  | [m; e] =>
      m ← ParseInt m 64; e ← ParseInt e 64;
      match m with Zpos p => Some (S754_finite false p e) | Zneg p => Some (S754_finite true p e) | Z0 => None end
  | _ => float_of_int <$> ParseInt s 64
  end.
Definition exact_floats : GoFloat := {|
  format_float := exact_json_float; json_float := exact_json_float; ParseFloat := exact_ParseFloat; float_to_int64 _ := - 2 ^ 63 |}.

Lemma digits_no_e s : all_bytes isDigit s = true → mem_byte s "e" = false.
Proof.
  induction s as [|c s IH]; [done|]. cbn [all_bytes]. intros [Hc Hs]%andb_true_iff. specialize (IH Hs).
  unfold mem_byte in *. apply bool_decide_eq_false in IH. apply bool_decide_eq_false. cbn. intros [Hin|Hin]%elem_of_cons; [|done].
  by subst c.
Qed.

Lemma Itoa_no_e z : mem_byte (Itoa z) "e" = false.
Proof.
  destruct (Itoa_spec z) as (sg & c & s & -> & Hc & Hs & Hsg). rewrite mem_byte_app. apply orb_false_iff.
  split; [by destruct Hsg as [(_ & -> & _)|(_ & -> & _)]|]. apply digits_no_e. cbn [all_bytes]. by rewrite Hc, Hs.
Qed.

Lemma digits2_bound p : Zpos p < 2 ^ Zpos (digits2_pos p).
Proof.
  induction p as [p IH|p IH|]; cbn [digits2_pos]; [..|done]; rewrite Pos2Z.inj_succ, Z.pow_succ_r by lia; lia.
Qed.

Lemma valid_finite s m e :
  valid_float (S754_finite s m e) = true → in_int64 (Zpos m) = true ∧ in_int64 (Zneg m) = true ∧ in_int64 e = true.
Proof.
  unfold valid_float, valid_binary, bounded, canonical_mantissa, fexp, emin, prec64, emax64.
  intros [[Hc%Z.eqb_eq He%Z.leb_le]%andb_true_iff _]%andb_true_iff. pose proof (digits2_bound m) as Hm.
  assert (Zpos m < 2 ^ 53) by (eapply Z.lt_le_trans; [exact Hm|]; apply Z.pow_le_mono_r; lia).
  unfold in_int64, in_range. rewrite !andb_true_iff, !Z.leb_le. lia.
Qed.

#[local] Instance exact_floats_laws : GoFloatJson (GF := exact_floats).
Proof.
  constructor.
  - intros [s|s| |s m e] Hv; try done; cbn [json_float exact_floats exact_json_float]; [by destruct s|].
    assert (scan_num StNeg (pretty (N.pos m) +:+ "e" +:+ Itoa e) = Some (pretty (N.pos m) +:+ "e" +:+ Itoa e, "")) as Hs.
    { apply (num_run_scan _ _ StE0); [|done]. rewrite num_run_app, mantissa_run. cbn [mbind option_bind].
      change ("e" +:+ Itoa e) with (String "e" (Itoa e)). cbn [num_run]. apply Itoa_run. }
    unfold number_literal. destruct (pretty_pos_number m) as (c & t & Hp & Hd & _). rewrite Hp in *. destruct s.
    + change ("-" +:+ ?x) with (String "-" x). cbn [read_number]. by rewrite Hs.
    + rewrite app_nil_l_str. rewrite app_cons_str in *.
      destruct c as [[] [] [] [] [] [] [] []]; first [exact Hs | discriminate Hd].
  - intros [s|s| |s m e] Hv; try done; cbn [json_float ParseFloat exact_floats exact_json_float]; [by destruct s|].
    destruct (valid_finite s m e Hv) as (Hm & Hmn & He). unfold exact_ParseFloat.
    assert (((if s then "-" else "") +:+ pretty (N.pos m)) = Itoa (if s then Zneg m else Zpos m)) as Em by by destruct s.
    rewrite bool_decide_eq_false_2.
    + rewrite <-app_assoc_str, Em. change ("e" +:+ Itoa e) with (String "e" (Itoa e)).
      rewrite Split_free, Split_free_all by apply Itoa_no_e. destruct s; rewrite !ParseInt_Itoa64 by done; done.
    + intros E. apply (f_equal (λ x, mem_byte x "e")) in E. rewrite !mem_byte_app in E. cbn in E.
      destruct s; cbn in E; [|]; destruct (mem_byte (pretty _) _); discriminate E.
  - intros z Hz. cbn [ParseFloat exact_floats]. unfold exact_ParseFloat. rewrite bool_decide_eq_false_2.
    + rewrite Split_free_all by apply Itoa_no_e. by rewrite ParseInt_Itoa64.
    + intros E. assert (ParseInt (Itoa z) 64 = Some 0) as H0 by (by rewrite E). rewrite ParseInt_Itoa64 in H0 by done.
      injection H0 as ->. discriminate E.
Qed.
