(* ===== verification/EventJson.v ===== *)
(** * EventJson: change events as JSON, by the tags of [pkg/pipeline/cdc/cdc.go].

    What [json.Marshal] writes of an event and [json.Unmarshal] reads into one:
    the fields in order, with those left out that are empty and marked so; names
    found exactly or by folding case, unknown ones ignored, null leaving a field
    as it is. The fields of an event's schema are kept beside it, as in the heap
    of file Transform. *)

From S2P Require Import Prelude GoStrings GoStringFacts GoAny Cdc Json JsonFacts.
Local Open Scope Z_scope.

(** ** Writing *)

Section Write.
Context `{GF : GoFloat}.

Fixpoint field_json (f : Field) : json :=
  match f with
  | mkField field type optional name fields =>
      JObj ([("field", JStr field); ("type", JStr type); ("optional", JBool optional)] ++
            (if bool_decide (name = "") then [] else [("name", JStr name)]) ++
            match fields with [] => [] | fields => [("fields", JArr (field_json <$> fields))] end)
  end.

Definition schema_json (s : EventSchema) (fields : option (list Field)) : json :=
  JObj [("type", JStr (sch_Type s)); ("optional", JBool (sch_Optional s)); ("name", JStr (sch_Name s));
        ("fields", match fields with None => JNull | Some l => JArr (field_json <$> l) end)].

Definition source_json (s : Source) : json :=
  JObj ([("version", JStr (src_Version s)); ("connector", JStr (src_Connector s)); ("name", JStr (src_Name s));
         ("ts_ms", JNum (Itoa (src_TsMs s))); ("snapshot", JBool (src_Snapshot s)); ("db", JStr (src_Db s));
         ("sequence", JStr (src_Sequence s)); ("schema", JStr (src_Schema s)); ("table", JStr (src_Table s));
         ("txId", JNum (Itoa (src_TxID s))); ("lsn", JNum (Itoa (src_Lsn s)))] ++
        match src_Xmin s with None => [] | Some x => [("xmin", JNum (Itoa x))] end).

Definition transaction_json (t : Transaction) : json :=
  JObj [("id", JStr (tx_ID t)); ("total_order", JNum (Itoa (tx_TotalOrder t)));
        ("data_collection_order", JNum (Itoa (tx_DataCollectionOrder t)))].

Definition payload_json (p : Payload) : option json :=
  before ← to_json (pay_Before p); after ← to_json (pay_After p);
  Some (JObj ([("before", before); ("after", after); ("source", source_json (pay_Source p)); ("op", JStr (pay_Op p));
               ("ts_ms", JNum (Itoa (pay_TsMs p)))] ++
              match pay_Transaction p with None => [] | Some t => [("transaction", transaction_json t)] end)).

Definition event_json (fields : option (list Field)) (e : Event) : option json :=
  payload ← payload_json (ev_Payload e);
  Some (JObj [("schema", schema_json (ev_Schema e) fields); ("payload", payload)]).

(** [json.Marshal(event)]; [None] is an error. *)
Definition MarshalEvent (fields : option (list Field)) (e : Event) : option string := print_json <$> event_json fields e.
End Write.

(** ** Reading *)

(** Letters without case; the runes U+017F and U+212A fold to s and k. *)
Fixpoint fold_name (s : string) : string :=
  match s with
  | EmptyString => ""
  | String c t =>
      let b := byte_val c in
      let plain := String (if in_range 65 90 b then byte_of (b + 32) else c) (fold_name t) in
      match t with
      | String d u =>
          if (b =? 0xC5) && (byte_val d =? 0xBF) then String "s" (fold_name u) else
          match u with
          | String e v => if (b =? 0xE2) && (byte_val d =? 0x84) && (byte_val e =? 0xAA) then String "k" (fold_name v) else plain
          | EmptyString => plain
          end
      | EmptyString => plain
      end
  end.

(** The field of a struct that a key names. *)
Definition find_name (names : list string) (key : string) : option string :=
  if decide (key ∈ names) then Some key else List.find (λ n, bool_decide (fold_name n = fold_name key)) names.

Definition values_of (names : list string) (name : string) (kvs : list (string * json)) : list json :=
  omap (λ kv, if decide (find_name names kv.1 = Some name) then Some kv.2 else None) kvs.

(** Every value under the name is read into the field, one after the other. *)
Definition read_field {A} (get : json → A → option A) (names : list string) (name : string) (kvs : list (string * json)) (old : A) :
    option A := foldl (λ a j, a ← a; get j a) (Some old) (values_of names name kvs).

Definition read_struct {A} (set : list (string * json) → A → option A) (j : json) (old : A) : option A :=
  match j with JNull => Some old | JObj kvs => set kvs old | _ => None end.
Definition read_pointer {A} (get : json → A → option A) (zero : A) (j : json) (old : option A) : option (option A) :=
  match j with JNull => Some None | j => Some <$> get j (default zero old) end.

Definition get_string (j : json) (old : string) : option string :=
  match j with JNull => Some old | JStr s => Some s | _ => None end.
Definition get_bool (j : json) (old : bool) : option bool :=
  match j with JNull => Some old | JBool b => Some b | _ => None end.
Definition get_int64 (j : json) (old : Z) : option Z :=
  match j with JNull => Some old | JNum lit => ParseInt lit 64 | _ => None end.

Definition field_names : list string := ["field"; "type"; "optional"; "name"; "fields"].
Definition schema_names : list string := ["type"; "optional"; "name"; "fields"].
Definition source_names : list string :=
  ["version"; "connector"; "name"; "ts_ms"; "snapshot"; "db"; "sequence"; "schema"; "table"; "txId"; "lsn"; "xmin"].
Definition transaction_names : list string := ["id"; "total_order"; "data_collection_order"].
Definition payload_names : list string := ["before"; "after"; "source"; "op"; "ts_ms"; "transaction"].
Definition event_names : list string := ["schema"; "payload"].

Definition zero_field : Field := mkField "" "" false "" [].

(** A slice is read into its elements, which are zero beyond the old ones. *)
Fixpoint get_field (j : json) (old : Field) : option Field :=
  match j with
  | JNull => Some old
  | JObj kvs =>
      (fix go kvs f :=
         match kvs with
         | [] => Some f
         | (k, j) :: kvs =>
             let 'mkField field type optional name fields := f in
             let name_of := find_name field_names k in
             f ← (if decide (name_of = Some "field") then (λ s, mkField s type optional name fields) <$> get_string j field
                  else if decide (name_of = Some "type") then (λ s, mkField field s optional name fields) <$> get_string j type
                  else if decide (name_of = Some "optional") then (λ b, mkField field type b name fields) <$> get_bool j optional
                  else if decide (name_of = Some "name") then (λ s, mkField field type optional s fields) <$> get_string j name
                  else if decide (name_of = Some "fields") then
                    mkField field type optional name <$>
                      match j with
                      | JNull => Some []
                      | JArr l =>
                          (fix els l old := match l with
                                            | [] => Some []
                                            | j :: l => f ← get_field j (default zero_field (head old)); fs ← els l (tail old); Some (f :: fs)
                                            end) l fields
                      | _ => None
                      end
                  else Some f);
             go kvs f
         end) kvs old
  | _ => None
  end.
Fixpoint get_elements (l : list json) (old : list Field) : option (list Field) :=
  match l with
  | [] => Some []
  | j :: l => f ← get_field j (default zero_field (head old)); fs ← get_elements l (tail old); Some (f :: fs)
  end.
Definition get_fields (j : json) (old : option (list Field)) : option (option (list Field)) :=
  match j with JNull => Some None | JArr l => Some <$> get_elements l (default [] old) | _ => None end.

Definition read_schema (kvs : list (string * json)) (old : EventSchema * option (list Field)) :
    option (EventSchema * option (list Field)) :=
  let '(s, fields) := old in
  type ← read_field get_string schema_names "type" kvs (sch_Type s);
  optional ← read_field get_bool schema_names "optional" kvs (sch_Optional s);
  name ← read_field get_string schema_names "name" kvs (sch_Name s);
  fields ← read_field get_fields schema_names "fields" kvs fields;
  Some ({| sch_Type := type; sch_Optional := optional; sch_Name := name; sch_Fields := sch_Fields s |}, fields).

Definition read_source (kvs : list (string * json)) (s : Source) : option Source :=
  let str := read_field get_string source_names in
  let int := read_field get_int64 source_names in
  version ← str "version" kvs (src_Version s); connector ← str "connector" kvs (src_Connector s);
  name ← str "name" kvs (src_Name s); ts ← int "ts_ms" kvs (src_TsMs s);
  snapshot ← read_field get_bool source_names "snapshot" kvs (src_Snapshot s);
  db ← str "db" kvs (src_Db s); sequence ← str "sequence" kvs (src_Sequence s);
  schema ← str "schema" kvs (src_Schema s); table ← str "table" kvs (src_Table s);
  txid ← int "txId" kvs (src_TxID s); lsn ← int "lsn" kvs (src_Lsn s);
  xmin ← read_field (read_pointer get_int64 0) source_names "xmin" kvs (src_Xmin s);
  Some {| src_Version := version; src_Connector := connector; src_Name := name; src_TsMs := ts; src_Snapshot := snapshot;
          src_Db := db; src_Sequence := sequence; src_Schema := schema; src_Table := table; src_TxID := txid;
          src_Lsn := lsn; src_Xmin := xmin |}.

Definition read_transaction (kvs : list (string * json)) (t : Transaction) : option Transaction :=
  id ← read_field get_string transaction_names "id" kvs (tx_ID t);
  total ← read_field get_int64 transaction_names "total_order" kvs (tx_TotalOrder t);
  order ← read_field get_int64 transaction_names "data_collection_order" kvs (tx_DataCollectionOrder t);
  Some {| tx_ID := id; tx_TotalOrder := total; tx_DataCollectionOrder := order |}.

Section Read.
Context `{GF : GoFloat}.

Definition get_any (j : json) (old : any) : option any := to_any j.

Definition read_payload (kvs : list (string * json)) (p : Payload) : option Payload :=
  before ← read_field get_any payload_names "before" kvs (pay_Before p);
  after ← read_field get_any payload_names "after" kvs (pay_After p);
  source ← read_field (read_struct read_source) payload_names "source" kvs (pay_Source p);
  op ← read_field get_string payload_names "op" kvs (pay_Op p);
  ts ← read_field get_int64 payload_names "ts_ms" kvs (pay_TsMs p);
  transaction ← read_field (read_pointer (read_struct read_transaction) {| tx_ID := ""; tx_TotalOrder := 0; tx_DataCollectionOrder := 0 |})
                  payload_names "transaction" kvs (pay_Transaction p);
  Some {| pay_Before := before; pay_After := after; pay_Source := source; pay_Op := op; pay_TsMs := ts; pay_Transaction := transaction |}.

Definition read_event (kvs : list (string * json)) (old : Event * option (list Field)) : option (Event * option (list Field)) :=
  let '(e, fields) := old in
  '(schema, fields) ← read_field (read_struct read_schema) event_names "schema" kvs (ev_Schema e, fields);
  payload ← read_field (read_struct read_payload) event_names "payload" kvs (ev_Payload e);
  Some ({| ev_Schema := schema; ev_Payload := payload |}, fields).

(** The event of [var event cdc.Event]. *)
Definition zero_event : Event := {|
  ev_Schema := {| sch_Type := ""; sch_Optional := false; sch_Name := ""; sch_Fields := None |};
  ev_Payload := {| pay_Before := ANil; pay_After := ANil; pay_Source := zeroSource; pay_Op := ""; pay_TsMs := 0; pay_Transaction := None |} |}.

(** [json.Unmarshal(data, &event)]; [None] is an error. *)
Definition UnmarshalEvent (data : string) : option (Event * option (list Field)) :=
  j ← parse_json data; read_struct read_event j (zero_event, None).

End Read.

Example fold_ex : fold_name "Ts_MS" = "ts_ms" ∧ find_name source_names "TXID" = Some "txId" ∧ find_name source_names "x" = None.
Proof. vm_compute. done. Qed.

(** ** What is written is read back *)

Fixpoint field_ready (f : Field) : bool :=
  match f with
  | mkField field type _ name fields => valid_utf8 field && valid_utf8 type && valid_utf8 name && forallb field_ready fields
  end.
Definition source_ready (s : Source) : bool :=
  valid_utf8 (src_Version s) && valid_utf8 (src_Connector s) && valid_utf8 (src_Name s) && in_int64 (src_TsMs s) &&
  valid_utf8 (src_Db s) && valid_utf8 (src_Sequence s) && valid_utf8 (src_Schema s) && valid_utf8 (src_Table s) &&
  in_int64 (src_TxID s) && in_int64 (src_Lsn s) && match src_Xmin s with Some x => in_int64 x | None => true end.
Definition transaction_ready (t : Transaction) : bool :=
  valid_utf8 (tx_ID t) && in_int64 (tx_TotalOrder t) && in_int64 (tx_DataCollectionOrder t).
Definition payload_ready (p : Payload) : bool :=
  ready (pay_Before p) && ready (pay_After p) && source_ready (pay_Source p) && valid_utf8 (pay_Op p) && in_int64 (pay_TsMs p) &&
  match pay_Transaction p with Some t => transaction_ready t | None => true end.
Definition event_ready (fields : option (list Field)) (e : Event) : bool :=
  valid_utf8 (sch_Type (ev_Schema e)) && valid_utf8 (sch_Name (ev_Schema e)) &&
  match fields with Some l => forallb field_ready l | None => true end && payload_ready (ev_Payload e).

Lemma field_nested_ind (P : Field → Prop) :
  (∀ field type optional name fields, Forall P fields → P (mkField field type optional name fields)) → ∀ f, P f.
Proof.
  intros H. fix IH 1. intros [field type optional name fields]. apply H. induction fields as [|f fields IHf]; constructor; [apply IH|exact IHf].
Qed.

Lemma forallb_all {A} (p : A → bool) l : forallb p l = true → Forall (λ x, p x = true) l.
Proof. induction l as [|x l IH]; [done|]. cbn. intros [Hx Hl]%andb_true_iff. by constructor; [|apply IH]. Qed.

Lemma elements_ok l : Forall (λ f, get_field (field_json f) zero_field = Some f) l → get_elements (field_json <$> l) [] = Some l.
Proof. induction 1 as [|f l Hf _ IH]; [done|]. cbn [fmap list_fmap get_elements head tail default]. cbn. by rewrite Hf, IH. Qed.

Lemma field_read f : field_ready f = true → wf_json (field_json f) ∧ get_field (field_json f) zero_field = Some f.
Proof.
  induction f as [field type optional name fields IH] using field_nested_ind. cbn [field_ready].
  intros [[[Hf Ht]%andb_true_iff Hn]%andb_true_iff Hfs]%andb_true_iff.
  assert (Forall (λ f, wf_json (field_json f) ∧ get_field (field_json f) zero_field = Some f) fields) as Hall.
  { apply (Forall_apply (λ f, field_ready f = true)); [done|]. by apply forallb_all. }
  assert (get_elements (field_json <$> fields) [] = Some fields) as Hels.
  { apply elements_ok. eapply Forall_impl; [exact Hall|]. by intros ? []. }
  split.
  - cbn [field_json]. apply wf_JObj. apply Forall_app. split; [by repeat constructor|]. apply Forall_app. split.
    + case_bool_decide; [done|]. by repeat constructor.
    + destruct fields as [|f fields]; [done|]. constructor; [|done]. split; [done|]. cbn [snd]. apply wf_JArr, Forall_fmap.
      eapply Forall_impl; [exact Hall|]. by intros ? [].
  - destruct (decide (name = "")) as [->|Hn0]; destruct fields as [|f fields].
    + reflexivity.
    + change (get_field (field_json (mkField field type optional "" (f :: fields))) zero_field) with
        (g ← mkField field type optional "" <$> get_elements (field_json <$> f :: fields) []; Some g).
      by rewrite Hels.
    + cbn [field_json]. by rewrite bool_decide_eq_false_2.
    + cbn [field_json]. rewrite bool_decide_eq_false_2 by done.
      change (get_field _ zero_field) with
        (g ← mkField field type optional name <$> get_elements (field_json <$> f :: fields) []; Some g).
      by rewrite Hels.
Qed.

Lemma read_field_one {A} (get : json → A → option A) names name kvs j old :
  values_of names name kvs = [j] → read_field get names name kvs old = get j old.
Proof. unfold read_field. by intros ->. Qed.
Lemma read_field_none {A} (get : json → A → option A) names name kvs old :
  values_of names name kvs = [] → read_field get names name kvs old = Some old.
Proof. unfold read_field. by intros ->. Qed.

Lemma get_int64_ok z old : in_int64 z = true → get_int64 (JNum (Itoa z)) old = Some z.
Proof. apply ParseInt_Itoa64. Qed.

(** One field after the other. *)
Ltac read_fields :=
  cbv zeta;
  repeat (first [erewrite read_field_one by reflexivity | rewrite read_field_none by reflexivity];
          cbn [snd get_string get_bool read_pointer default mbind option_bind];
          rewrite ?get_int64_ok by assumption; cbn [mbind option_bind fmap option_fmap option_map]).

Lemma wf_int z : wf_json (JNum (Itoa z)).
Proof. apply Itoa_number. Qed.

Ltac split_ready :=
  repeat match goal with H : _ && _ = true |- _ => apply andb_true_iff in H as [? ?] end.
Ltac wf_pairs := apply wf_JObj; repeat (apply Forall_cons_2; [split; [reflexivity | first [exact (wf_int _) | assumption | exact I]]|]); try by constructor.

Lemma source_read s :
  source_ready s = true → wf_json (source_json s) ∧ read_struct read_source (source_json s) zeroSource = Some s.
Proof.
  unfold source_ready. intros H. split_ready. split.
  - unfold source_json. destruct (src_Xmin s); cbn [app]; wf_pairs.
  - destruct s as [version connector name ts snapshot db sequence schema table txid lsn [x|]];
      cbn [src_Version src_Connector src_Name src_TsMs src_Db src_Sequence src_Schema src_Table src_TxID src_Lsn src_Xmin] in *;
      unfold source_json, read_struct, read_source; cbn [app src_Xmin];
      read_fields; done.
Qed.

Definition zero_transaction : Transaction := {| tx_ID := ""; tx_TotalOrder := 0; tx_DataCollectionOrder := 0 |}.

Lemma transaction_read t :
  transaction_ready t = true →
  wf_json (transaction_json t) ∧ read_struct read_transaction (transaction_json t) zero_transaction = Some t.
Proof.
  unfold transaction_ready. intros H. split_ready. split; [unfold transaction_json; wf_pairs|].
  destruct t as [id total order]; cbn [tx_ID tx_TotalOrder tx_DataCollectionOrder] in *.
  unfold transaction_json, read_struct, read_transaction. by read_fields.
Qed.

Definition zero_schema : EventSchema := {| sch_Type := ""; sch_Optional := false; sch_Name := ""; sch_Fields := None |}.
Definition without_fields (s : EventSchema) : EventSchema :=
  {| sch_Type := sch_Type s; sch_Optional := sch_Optional s; sch_Name := sch_Name s; sch_Fields := None |}.

Lemma fields_read fields :
  forallb field_ready fields = true →
  Forall wf_json (field_json <$> fields) ∧ get_elements (field_json <$> fields) [] = Some fields.
Proof.
  intros H%forallb_all. split.
  - apply Forall_fmap. eapply Forall_impl; [exact H|]. intros f Hf. by apply field_read.
  - apply elements_ok. eapply Forall_impl; [exact H|]. intros f Hf. by apply field_read.
Qed.

Lemma schema_read s fields :
  valid_utf8 (sch_Type s) = true → valid_utf8 (sch_Name s) = true →
  match fields with Some l => forallb field_ready l | None => true end = true →
  wf_json (schema_json s fields) ∧
  read_struct read_schema (schema_json s fields) (zero_schema, None) = Some (without_fields s, fields).
Proof.
  intros Ht Hn Hf. destruct fields as [l|]; unfold schema_json, read_struct, read_schema; (split; [|read_fields]).
  - destruct (fields_read l Hf) as [Hwf _]. apply wf_JObj. repeat (apply Forall_cons_2; [split; [reflexivity|try first [assumption|exact I]]|]);
      [by apply wf_JArr|by constructor].
  - unfold get_fields. cbn [snd default]. destruct (fields_read l Hf) as [_ Hl]. by rewrite Hl.
  - wf_pairs.
  - done.
Qed.

(** ** Events *)

Section RoundTrip.
Context `{GF : GoFloat} `{GJ : !GoFloatJson}.

(** An event as it arrives: the rows as JSON reads them, the fields apart. *)
Definition payload_read_as (p : Payload) : Payload := {|
  pay_Before := as_read (pay_Before p); pay_After := as_read (pay_After p); pay_Source := pay_Source p; pay_Op := pay_Op p;
  pay_TsMs := pay_TsMs p; pay_Transaction := pay_Transaction p |}.
Definition event_read_as (e : Event) : Event :=
  {| ev_Schema := without_fields (ev_Schema e); ev_Payload := payload_read_as (ev_Payload e) |}.

Lemma payload_read p :
  payload_ready p = true → ∃ j, payload_json p = Some j ∧ wf_json j ∧
    read_struct read_payload j (ev_Payload zero_event) = Some (payload_read_as p).
Proof.
  unfold payload_ready. intros H. split_ready. unfold payload_json.
  destruct (value_read (pay_Before p)) as (b & Eb & Hb & Ab); [done|].
  destruct (value_read (pay_After p)) as (a & Ea & Ha & Aa); [done|].
  destruct (source_read (pay_Source p)) as [Hs Rs]; [done|].
  rewrite Eb, Ea. cbn [mbind option_bind]. eexists. split; [reflexivity|].
  destruct p as [before after source op ts transaction]; cbn [pay_Before pay_After pay_Source pay_Op pay_TsMs pay_Transaction] in *.
  split.
  - destruct transaction as [t|]; cbn [app]; wf_pairs.
    apply Forall_cons_2; [split; [reflexivity|by apply transaction_read]|by constructor].
  - destruct transaction as [t|]; cbn [app]; unfold read_struct at 1, read_payload; read_fields;
      unfold get_any; cbn [snd]; rewrite Ab, Aa; cbn [mbind option_bind];
      change (read_struct read_source _ _) with (read_struct read_source (source_json source) zeroSource);
      rewrite Rs; cbn [mbind option_bind].
    + change (read_pointer _ _ (transaction_json t) _) with (Some <$> read_struct read_transaction (transaction_json t) zero_transaction).
      rewrite (proj2 (transaction_read t ltac:(done))). done.
    + done.
Qed.

Lemma event_read fields e :
  event_ready fields e = true → ∃ j, event_json fields e = Some j ∧ wf_json j ∧
    read_struct read_event j (zero_event, None) = Some (event_read_as e, fields).
Proof.
  unfold event_ready. intros H. split_ready. unfold event_json.
  destruct (payload_read (ev_Payload e)) as (j & -> & Hj & Rj); [done|]. cbn [mbind option_bind].
  destruct (schema_read (ev_Schema e) fields) as [Hs Rs]; [done..|]. eexists. split; [reflexivity|]. split.
  - wf_pairs.
  - unfold read_struct at 1, read_event. read_fields. cbn [ev_Schema ev_Payload zero_event] in *.
    change (read_struct read_schema _ _) with (read_struct read_schema (schema_json (ev_Schema e) fields) (zero_schema, None)).
    rewrite Rs. cbn [mbind option_bind]. by rewrite Rj.
Qed.

Lemma event_codec fields e :
  event_ready fields e = true → (∀ j, event_json fields e = Some j → json_depth j <= maxNestingDepth) →
  ∃ data, MarshalEvent fields e = Some data ∧ UnmarshalEvent data = Some (event_read_as e, fields).
Proof.
  intros He Hd. destruct (event_read fields e He) as (j & Ej & Hj & Rj). exists (print_json j).
  unfold MarshalEvent, UnmarshalEvent. rewrite Ej, parse_print by auto. done.
Qed.

(** That an event is not nested too deeply, by computing. *)
Lemma shallow fields e :
  match event_json fields e with Some j => json_depth j <=? maxNestingDepth | None => true end = true →
  ∀ j, event_json fields e = Some j → json_depth j <= maxNestingDepth.
Proof. intros H j Hj. rewrite Hj in H. by apply Z.leb_le. Qed.

(** C27: an event of valid UTF-8, 64-bit integers and finite floats is written, and
    what is written is read as the same event, but for the integers of its rows,
    which become floats. *)
Theorem event_round_trip fields e :
  event_ready fields e = true → (∀ j, event_json fields e = Some j → json_depth j <= maxNestingDepth) →
  ∃ data, MarshalEvent fields e = Some data ∧ UnmarshalEvent data = Some (event_read_as e, fields).
Proof. apply event_codec. Qed.

End RoundTrip.

(** ** Examples *)

Definition user_event (id : Z) : Event :=
  WithTimestamp 5 (WithAfter (AObj {["id" := AInt KInt64 id; "name" := AStr "zoë <z>"]}) (WithOperation OpCreate
    (WithSource (source_WithTable "users" (source_WithSchema "public" (NewSourceBuilder "postgresql" "db"))) NewEventBuilder))).

(** What is written and read again, on a row with letters that are escaped, and
    with an integer that no float holds. *)
Lemma event_round_trip_witness :
  ∃ data, MarshalEvent (GF := exact_floats) None (user_event (2 ^ 53 + 1)) = Some data ∧
    UnmarshalEvent (GF := exact_floats) data = Some (event_read_as (user_event (2 ^ 53 + 1)), None).
Proof.
  apply (event_round_trip (GF := exact_floats) (GJ := exact_floats_laws) None (user_event (2 ^ 53 + 1))).
  - vm_compute. reflexivity.
  - apply shallow. vm_compute. reflexivity.
Defined.
