(* ===== verification/Router.v ===== *)
(** * Router: the rest of [pkg/httputil]: router.go, the server and the helpers of
    context.go, and middleware/cache.go.

    Routers share one mux: a group has its parent's mux, a longer prefix, and a
    copy of the middleware its parent had when it was made. The store holds the
    routers and the mux they share. Matching of requests against patterns is the
    mux of [net/http], an argument. *)

From S2P Require Import Prelude GoStrings GoStringFacts SqlText GoAny Support Json JsonFacts.
From S2P Require Import FilterSQL Query Http Server Middleware MiddlewareProps ServerProps.

Record Router := { rt_prefix : string; rt_middleware : list Middleware }.

(** The routers, by number, and the patterns registered in the shared mux. *)
Record Store := { st_routers : list Router; st_mux : list (string * Handler) }.

(** [http.ServeMux]: whether a pattern can be added to the ones there are, and
    the pattern a request is routed to; a request without a pattern has a handler
    of the mux, not found or method not allowed. *)
Class ServeMux := {
  mux_accepts : list string → string → bool;
  mux_match : list string → Request → option nat;
  mux_fallback : list string → Handler
}.

Definition NewRouter : Store :=
  {| st_routers := [{| rt_prefix := ""; rt_middleware := [] |}]; st_mux := [] |}.

Definition set_router (i : nat) (r : Router) (st : Store) : Store :=
  {| st_routers := <[i := r]> (st_routers st); st_mux := st_mux st |}.

Definition Use (i : nat) (mw : Middleware) (additional : list Middleware) (st : Store) : option Store :=
  r ← st_routers st !! i;
  Some (set_router i {| rt_prefix := rt_prefix r;
                        rt_middleware := (rt_middleware r ++ [mw]) ++ additional |} st).

(** The number of the new router; [None] is the panic. *)
Definition Group (i : nat) (prefix : string) (st : Store) : option (nat * Store) :=
  if HasSuffix prefix "/" then None else
  r ← st_routers st !! i;
  Some (length (st_routers st),
        {| st_routers := st_routers st ++ [{| rt_prefix := rt_prefix r +:+ prefix;
                                              rt_middleware := rt_middleware r |}];
           st_mux := st_mux st |}).

Definition splitMethodPattern (s : string) : option (string * string) :=
  match Cut s " " with
  | Some (method, pattern) => if HasPrefix pattern "/" then Some (method, pattern) else None
  | None => None
  end.

Section Serve.
Context `{SM : ServeMux}.

Definition Handle (i : nat) (methodPattern : string) (handler : Handler) (st : Store) : option Store :=
  '(method, pattern) ← splitMethodPattern methodPattern;
  r ← st_routers st !! i;
  let fullPattern := method +:+ " " +:+ rt_prefix r +:+ pattern in
  if mux_accepts (st_mux st).*1 fullPattern then
    Some {| st_routers := st_routers st;
            st_mux := st_mux st ++ [(fullPattern, Add handler (rt_middleware r))] |}
  else None.

(** [mux.ServeHTTP] *)
Definition mux_ServeHTTP (mux : list (string * Handler)) : Handler :=
  λ r w,
    match mux_match mux.*1 r ≫= (λ k, mux !! k) with
    | Some (_, h) => h r w
    | None => mux_fallback mux.*1 r w
    end.

Definition ServeHTTP (i : nat) (st : Store) (r : Request) (w : World) : option World :=
  rt ← st_routers st !! i;
  Some (Add (mux_ServeHTTP (st_mux st)) (rt_middleware rt) r w).

(** The calls that set up a router. *)
Inductive op :=
| OUse (i : nat) (mw : Middleware) (additional : list Middleware)
| OGroup (i : nat) (prefix : string)
| OHandle (i : nat) (methodPattern : string) (handler : Handler).

Definition exec (o : op) (st : Store) : option Store :=
  match o with
  | OUse i mw additional => Use i mw additional st
  | OGroup i prefix => snd <$> Group i prefix st
  | OHandle i methodPattern handler => Handle i methodPattern handler st
  end.
Fixpoint run (ops : list op) (st : Store) : option Store :=
  match ops with [] => Some st | o :: ops => exec o st ≫= run ops end.

Definition uses (i : nat) (o : op) : bool :=
  match o with OUse j _ _ => bool_decide (i = j) | _ => false end.

(** ** What runs for a request *)

Lemma Add_ext h h' ms r w :
  (∀ r w, h r w = h' r w) → Forall (λ m : Middleware, ∀ h h' r w, (∀ r w, h r w = h' r w) → m h r w = m h' r w) ms →
  Add h ms r w = Add h' ms r w.
Proof.
  intros Hh Hms. revert r w. induction Hms as [|m ms Hm Hms IH]; intros r w; [apply Hh|].
  rewrite !Add_cons. by apply Hm.
Qed.

(** A middleware that treats handlers with equal results equally, as every Go
    function that only calls its handler does. *)
Definition extensional (m : Middleware) : Prop :=
  ∀ h h' r w, (∀ r w, h r w = h' r w) → m h r w = m h' r w.

(** A request that the mux routes to a pattern runs the middleware of the
    router that serves, and then the middleware that the router of the pattern had
    when the pattern was registered: served by the router it was registered on, it
    runs the whole middleware twice. *)
Theorem route_middleware i j methodPattern handler st st' served registered r w :
  st_routers st !! i = Some served → st_routers st !! j = Some registered →
  Forall extensional (rt_middleware served) →
  Handle j methodPattern handler st = Some st' →
  (∀ r, mux_match (st_mux st').*1 r = Some (length (st_mux st))) →
  ServeHTTP i st' r w = Some (Add handler (rt_middleware served ++ rt_middleware registered) r w).
Proof.
  intros Hi Hj Hext HH Hm. unfold Handle in HH.
  destruct (splitMethodPattern methodPattern) as [[method pattern]|]; [|done]. simpl in HH.
  rewrite Hj in HH. simpl in HH. destruct (mux_accepts _ _); [|done]. injection HH as <-.
  unfold ServeHTTP. cbn [st_routers]. rewrite Hi. cbn [mbind option_bind]. f_equal.
  rewrite Add_app. apply Add_ext; [|exact Hext]. intros r0 w0. unfold mux_ServeHTTP.
  rewrite Hm. cbn [st_mux mbind option_bind]. by rewrite list_lookup_middle.
Qed.

Lemma exec_keeps o st st' i rt :
  exec o st = Some st' → st_routers st !! i = Some rt → uses i o = false → st_routers st' !! i = Some rt.
Proof.
  destruct o as [j mw additional|j prefix|j mp h]; cbn [exec uses]; intros E Hi Hu.
  - unfold Use in E. apply bool_decide_eq_false in Hu.
    destruct (st_routers st !! j); [|done]. injection E as <-. unfold set_router. cbn [st_routers].
    by rewrite list_lookup_insert_ne.
  - unfold Group in E. destruct (HasSuffix prefix "/"); [done|].
    destruct (st_routers st !! j); [|done]. injection E as <-. cbn [st_routers].
    by apply lookup_app_l_Some.
  - unfold Handle in E. destruct (splitMethodPattern mp) as [[method pattern]|]; [|done].
    simpl in E. destruct (st_routers st !! j); [|done]. simpl in E.
    destruct (mux_accepts _ _); [|done]. by injection E as <-.
Qed.

Lemma run_keeps ops st st' i rt :
  run ops st = Some st' → st_routers st !! i = Some rt → forallb (λ o, negb (uses i o)) ops = true →
  st_routers st' !! i = Some rt.
Proof.
  revert st. induction ops as [|o ops IH]; intros st Hr Hi Hu; [by injection Hr as <-|].
  simpl in Hr, Hu. apply andb_true_iff in Hu as [Ho Hu]. apply negb_true_iff in Ho.
  destruct (exec o st) as [st1|] eqn:He; [|done]. eapply IH; [exact Hr | by eapply exec_keeps | exact Hu].
Qed.

(** A group has its parent's prefix and then its own, and the middleware its
    parent had when it was made; what is added to the parent later is not the
    group's. *)
Theorem group_inherits i prefix st g st1 ops st2 parent :
  st_routers st !! i = Some parent → Group i prefix st = Some (g, st1) → run ops st1 = Some st2 →
  forallb (λ o, negb (uses g o)) ops = true →
  st_routers st2 !! g = Some {| rt_prefix := rt_prefix parent +:+ prefix;
                                rt_middleware := rt_middleware parent |}.
Proof.
  intros Hi HG Hr Hu. unfold Group in HG. destruct (HasSuffix prefix "/"); [done|].
  rewrite Hi in HG. injection HG as <- <-. eapply run_keeps; [exact Hr | | exact Hu].
  cbn [st_routers]. by rewrite list_lookup_middle.
Qed.

End Serve.

(** ** Witnesses *)

(** A mux that routes every request to its first pattern. *)
Definition first_pattern : ServeMux := {|
  mux_accepts := λ ps p, negb (bool_decide (p ∈ ps));
  mux_match := λ ps _, if bool_decide (ps = []) then None else Some 0%nat;
  mux_fallback := λ _ _ w, http_Error "404 page not found" 404 w |}.

(** A handler that gives back the connection of its request. *)
Definition releasing (r : Request) (w : World) : World :=
  match ctx_PgConn (req_Ctx r) with
  | Some conn => release conn (HTML 200 "ok" w)
  | None => HTML 500 "no connection" w
  end.

Definition anon_pool : Middleware := Postgres (H := full_pool) [WithAnonAuthz "anon"].
Definition pool_router : Store :=
  default NewRouter (Use 0 anon_pool [] NewRouter).

Lemma Postgres_extensional `{PgxPool} authorizers : extensional (Postgres authorizers).
Proof.
  intros h h' r w E. unfold Postgres. destruct (authorize authorizers (req_Ctx r)) as [c|]; [|done].
  destruct (ctx_OIDCRoleClaim c); [|done]. destruct (pool_Acquire w); [apply E | done].
Qed.

(** A route on the router that serves it takes two connections of the pool;
    the handler knows the second and gives it back, the first is lost. *)
Lemma route_middleware_witness :
  ServeHTTP (SM := first_pattern) 0
    (default NewRouter (Handle (SM := first_pattern) 0 "GET /x" releasing pool_router))
    (client_request "") initial_world
  = Some (Add releasing [anon_pool; anon_pool] (client_request "") initial_world) ∧
  let w := Add releasing [anon_pool; anon_pool] (client_request "") initial_world in
  w_acquired w = 2%nat ∧ w_released w = [1%nat].
Proof.
  split; [|vm_compute; auto].
  apply (route_middleware (SM := first_pattern) 0 0 "GET /x" releasing pool_router
    (default NewRouter (Handle (SM := first_pattern) 0 "GET /x" releasing pool_router))
    {| rt_prefix := ""; rt_middleware := [anon_pool] |} {| rt_prefix := ""; rt_middleware := [anon_pool] |});
    [reflexivity | reflexivity | | reflexivity | reflexivity].
  constructor; [apply Postgres_extensional | constructor].
Defined.

Lemma group_inherits_witness :
  let st1 := default (0%nat, NewRouter) (Group 0 "/api" pool_router) in
  let st2 := default NewRouter
    (run (SM := first_pattern) [OUse 0 (cors defaultCORSOptions) []; OHandle 1 "GET /x" releasing] st1.2) in
  st_routers st2 !! 1%nat = Some {| rt_prefix := "/api"; rt_middleware := [anon_pool] |} ∧
  (st_mux st2).*1 = ["GET /api/x"] ∧ (length ∘ rt_middleware) <$> st_routers st2 !! 0%nat = Some 2%nat.
Proof.
  split; [|split; reflexivity].
  apply (group_inherits (SM := first_pattern) 0 "/api" pool_router 1
    (default (0%nat, NewRouter) (Group 0 "/api" pool_router)).2
    [OUse 0 (cors defaultCORSOptions) []; OHandle 1 "GET /x" releasing] _
    {| rt_prefix := ""; rt_middleware := [anon_pool] |}); reflexivity.
Defined.

(** * The server, and the helpers of handlers

    Every router of one [NewRouter] has the same [http.Server]: the options set it
    up, listening gives it an address and the router that serves. The certificates
    are those of file Support; what listening answers is an argument. After it the
    helpers of context.go that handlers may use. *)

Local Open Scope Z_scope.

(** ** The server *)

Record TLSServerConfig := { tc_MinVersion : Z; tc_Certificates : list (string * string) }.
Definition VersionTLS12 : Z := 0x0303.

(** [Handler] is the number of a router; the settings the package does not touch
    are [hs_settings]. *)
Record HttpServer := {
  hs_Addr : string; hs_Handler : option nat; hs_TLSConfig : option TLSServerConfig; hs_settings : gmap string Z
}.
Definition new_server : HttpServer := {| hs_Addr := ""; hs_Handler := None; hs_TLSConfig := None; hs_settings := ∅ |}.

Definition set_TLSConfig (c : option TLSServerConfig) (s : HttpServer) : HttpServer :=
  {| hs_Addr := hs_Addr s; hs_Handler := hs_Handler s; hs_TLSConfig := c; hs_settings := hs_settings s |}.

Section Options.
Context `{CL : CertLibs} (Dir : string → string).

(** An option of a router works on the server and the file system; [Err] is
    [log.Fatalf]. *)
Definition RouterOption : Type := HttpServer → gmap string string → res cert_error HttpServer * gmap string string.

Definition WithServerOptions (opts : list (HttpServer → HttpServer)) : RouterOption :=
  λ s fs, (Ok (foldl (λ s opt, opt s) s opts), fs).

Definition WithTLS (certFile keyFile : string) : RouterOption := λ s fs,
  let '(certPath, keyPath) :=
    if bool_decide (certFile = "") || bool_decide (keyFile = "") then ("./tls/tls.crt", "./tls/tls.key")
    else (certFile, keyFile) in
  match LoadOrGenerateCert Dir certPath keyPath fs with
  | (Err e, fs) => (Err e, fs)
  | (Ok cert, fs) => (Ok (set_TLSConfig (Some {| tc_MinVersion := VersionTLS12; tc_Certificates := [cert] |}) s), fs)
  end.

Fixpoint apply_options (opts : list RouterOption) (s : HttpServer) (fs : gmap string string)
    : res cert_error HttpServer * gmap string string :=
  match opts with
  | [] => (Ok s, fs)
  | opt :: opts => match opt s fs with
                   | (Err e, fs) => (Err e, fs)
                   | (Ok s, fs) => apply_options opts s fs
                   end
  end.

(** The routers and the server that they share. *)
Definition NewRouterWith (opts : list RouterOption) (fs : gmap string string)
    : res cert_error (Store * HttpServer) * gmap string string :=
  match apply_options opts new_server fs with
  | (Err e, fs) => (Err e, fs)
  | (Ok s, fs) => (Ok (NewRouter, s), fs)
  end.
End Options.

(** The calls of the server that block. *)
Inductive listen_call := CListenAndServe (s : HttpServer) | CListenAndServeTLS (s : HttpServer).
Class Listener := { listen_result : listen_call → option string; shutdown_result : option string }.

Section Listen.
Context `{LI : Listener}.

Definition listening (i : nat) (addr : string) (s : HttpServer) : HttpServer :=
  {| hs_Addr := addr; hs_Handler := Some i; hs_TLSConfig := hs_TLSConfig s; hs_settings := hs_settings s |}.

(** [ListenAndServe] of router [i]: the server it leaves, the call, and its error. *)
Definition ListenAndServe (i : nat) (addr : string) (s : HttpServer) : HttpServer * listen_call * option string :=
  let s := listening i addr s in
  let call := match hs_TLSConfig s with Some _ => CListenAndServeTLS s | None => CListenAndServe s end in
  (s, call, listen_result call).

Definition Router_Shutdown (s : HttpServer) : option string := shutdown_result.
End Listen.

(** The loop of [applyMiddleware]: from the last index to the first. *)
Fixpoint apply_from (i : nat) (h : Handler) (mw : list Middleware) : Handler :=
  match i with
  | O => h
  | S i => apply_from i (match mw !! i with Some m => m h | None => h end) mw
  end.
Definition applyMiddleware (h : Handler) (mw : list Middleware) : Handler := apply_from (length mw) h mw.

Section Serving.
Context `{SM : ServeMux}.

Definition HandleFunc (i : nat) (methodPattern : string) (handler : Handler) (st : Store) : option Store :=
  Handle i methodPattern handler st.

(** What the server does with a request: its handler is asked for its middleware
    when the request arrives. *)
Definition serve_request (st : Store) (s : HttpServer) (r : Request) (w : World) : option World :=
  i ← hs_Handler s; ServeHTTP i st r w.
End Serving.

(** ** Values of the context, context.go *)

(** [OIDCUser]: a nil map counts as no user. *)
Definition OIDCUser (r : Request) : option (gmap string any) := ctx_OIDCUser (req_Ctx r).
Definition BasicAuthUser (r : Request) : option string := ctx_BasicAuth (req_Ctx r).

(** ** Reading a body *)

Record bindOptions := { maxBytes : Z }.
Definition BindOption : Type := bindOptions → bindOptions.
Definition WithMaxBytes (n : Z) : BindOption := λ o, {| maxBytes := n |}.
Definition default_bind : bindOptions := {| maxBytes := Z.of_nat defaultMaxBodyBytes |}.

Definition is_container (j : json) : bool := match j with JArr _ | JObj _ => true | _ => false end.

(** The first value of a stream, as the decoder finds it: it wants one more
    character, or the end of the body, after a value that is no object or array;
    [cut] says that the stream ends with the error of the limit. *)
Definition Decode (cut : bool) (s : string) : option json :=
  '(j, rest) ← parse_value (2 * len s + 2) maxNestingDepth s;
  if cut && bool_decide (rest = "") && negb (is_container j) then None else Some j.

(** [Bind(r, &dst, opts...)] into an [any]. *)
Definition BindAny `{GoFloat} (opts : list BindOption) (r : Request) : option any :=
  let o := foldl (λ o opt, opt o) default_bind opts in
  let n := Z.to_nat (maxBytes o) in
  j ← Decode (n <? len (req_Body r))%nat (take n (req_Body r)); to_any j.

(** ** Writing a response *)

Definition writeBody (statusCode : Z) (contentType : string) (b : body) (w : World) : World :=
  write statusCode b (set_header "Content-Type" contentType w).
Definition Text (statusCode : Z) (text : string) (w : World) : World :=
  writeBody statusCode "text/plain; charset=utf-8" (BText text) w.
Definition Blob (statusCode : Z) (contentType : string) (data : string) (w : World) : World :=
  writeBody statusCode contentType (BText data) w.

(** ** Properties *)

Lemma apply_from_spec mw h : ∀ l, apply_from (length mw) h (mw ++ l) = Add h mw.
Proof.
  induction mw as [|m mw IH] using rev_ind in h |- *; intros l; [done|].
  rewrite length_app, Nat.add_1_r. cbn [apply_from]. rewrite <-app_assoc. cbn [app].
  rewrite list_lookup_middle by done. rewrite IH. by rewrite Add_app.
Qed.

(** The loop of the router builds what [middleware.Add] builds: the first
    middleware is the outermost. *)
Theorem applyMiddleware_Add h mw : applyMiddleware h mw = Add h mw.
Proof. unfold applyMiddleware. rewrite <-(app_nil_r mw) at 2. apply apply_from_spec. Qed.

Section Properties.
Context `{CL : CertLibs} `{LI : Listener} `{SM : ServeMux} (Dir : string → string).

(** A router made with TLS listens with TLS only, at version 1.2 at least, and with
    a certificate that it has just made: whatever files it was given are overwritten. *)
Theorem tls_certificate_is_new certFile keyFile fs st s fs' i addr :
  NewRouterWith [WithTLS Dir certFile keyFile] fs = (Ok (st, s), fs') →
  ∃ cert key, ecdsa_GenerateKey = Some key ∧ x509_CreateCertificate key = Some cert ∧
    hs_TLSConfig s = Some {| tc_MinVersion := VersionTLS12; tc_Certificates := [(cert, key)] |} ∧
    (ListenAndServe i addr s).1.2 = CListenAndServeTLS (listening i addr s).
Proof.
  unfold NewRouterWith, apply_options, WithTLS.
  destruct (if bool_decide (certFile = "") || bool_decide (keyFile = "") then _ else _) as [certPath keyPath].
  destruct (LoadOrGenerateCert Dir certPath keyPath fs) as [[[cert key]|e] fs1] eqn:E; [|done]. intros [= <- <- <-].
  exists cert, key. unfold LoadOrGenerateCert in E. destruct ecdsa_GenerateKey as [priv|]; [|done].
  destruct (x509_CreateCertificate priv) as [der|] eqn:Hd; [|done]. destruct (negb _); [done|].
  destruct (writeCert _ _ _) as [[?|?] fs2]; [|done]. destruct (writeKey _ _ _) as [[?|?] fs3]; [|done].
  injection E as <- <- _. by split_and!.
Qed.

(** The router that listens last serves every route of the mux, those of its
    parents and of other groups too: a request runs the middleware that this router
    has when it arrives, then that of the route's router at its registration. *)
Theorem listening_router_serves i j addr s s' call err methodPattern handler st st' served registered r w :
  ListenAndServe i addr s = (s', call, err) →
  st_routers st !! i = Some served → st_routers st !! j = Some registered → Forall extensional (rt_middleware served) →
  HandleFunc j methodPattern handler st = Some st' →
  (∀ r, mux_match (st_mux st').*1 r = Some (length (st_mux st))) →
  serve_request st' s' r w = Some (Add handler (rt_middleware served ++ rt_middleware registered) r w).
Proof.
  intros [= <- _ _] Hi Hj Hext HH Hm. unfold serve_request. cbn [hs_Handler mbind option_bind].
  by eapply route_middleware.
Qed.
End Properties.

Lemma take_app_more n s t : (len s ≤ n)%nat → take n (s +:+ t) = s +:+ take (n - len s) t.
Proof.
  revert n. induction s as [|c s IH]; intros n H; [by rewrite Nat.sub_0_r|]. destruct n as [|n]; [cbn in H; lia|].
  rewrite !app_cons_str. cbn [take len Nat.sub]. f_equal. apply IH. cbn in H. lia.
Qed.

Lemma follow_take n t : follow t = true → follow (take n t) = true.
Proof. by destruct n, t. Qed.

(** A body that begins with an object or an array within the limit is read as that
    value: nothing after it counts. The last option sets the limit. *)
Theorem bind_reads `{GoFloat} opts n j rest r :
  req_Body r = print_json j +:+ rest → wf_json j → is_container j = true → json_depth j <= maxNestingDepth →
  follow rest = true → Z.of_nat (len (print_json j)) <= n →
  BindAny (opts ++ [WithMaxBytes n]) r = to_any j.
Proof.
  intros Hb Hwf Hc Hd Hf Hn. unfold BindAny. rewrite foldl_app. cbn [foldl WithMaxBytes maxBytes]. rewrite Hb.
  rewrite take_app_more by lia. unfold Decode.
  rewrite print_read; [|done| |done|by apply follow_take].
  - cbn [mbind option_bind]. rewrite Hc, andb_false_r. done.
  - pose proof (size_len j Hwf). rewrite len_app. lia.
Qed.

(** A number at the end of what may be read is refused, an object is not. *)
Example bind_limit :
  let r b := {| req_Method := "POST"; req_Path := "/"; req_Query := ∅; req_Header := ∅; req_Ctx := background;
                req_Body := b; req_ContentLength := Z.of_nat (len b) |} in
  BindAny (H := exact_floats) [WithMaxBytes 2] (r "{}x") = Some (AObj ∅) ∧
  BindAny (H := exact_floats) [WithMaxBytes 2] (r "nul") = None ∧
  BindAny (H := exact_floats) [WithMaxBytes 4] (r "null ") = None ∧
  BindAny (H := exact_floats) [WithMaxBytes 5] (r "null ") = Some ANil.
Proof. vm_compute. done. Qed.

(** The texts are written as they are, after the header that names their kind. *)
Theorem text_response status text w :
  w_written (Text status text w) = w_written w ++
    [{| rsp_status := status; rsp_headers := <["Content-Type" := ["text/plain; charset=utf-8"]]> (w_headers w);
        rsp_body := BText text |}] ∧ w_sql (Text status text w) = w_sql w.
Proof. done. Qed.

(** ** Witnesses *)

Definition quiet_listener : Listener := {| listen_result := λ _, None; shutdown_result := None |}.

(** Listening on a group: a route of the parent runs the middleware of both. *)
Lemma listening_router_serves_witness :
  let st1 := default (0%nat, NewRouter) (Group 0 "/api" pool_router) in
  let st2 := default NewRouter (HandleFunc (SM := first_pattern) 0 "GET /x" releasing st1.2) in
  serve_request (SM := first_pattern) st2 (ListenAndServe (LI := quiet_listener) 1 ":80" new_server).1.1 (client_request "")
    initial_world = Some (Add releasing [anon_pool; anon_pool] (client_request "") initial_world).
Proof.
  apply (listening_router_serves (LI := quiet_listener) (SM := first_pattern) 1 0 ":80" new_server
    (listening 1 ":80" new_server) (CListenAndServe (listening 1 ":80" new_server)) None "GET /x" releasing
    (default (0%nat, NewRouter) (Group 0 "/api" pool_router)).2 _
    {| rt_prefix := "/api"; rt_middleware := [anon_pool] |} {| rt_prefix := ""; rt_middleware := [anon_pool] |});
    [reflexivity | reflexivity | reflexivity | | reflexivity | reflexivity].
  constructor; [apply Postgres_extensional | constructor].
Defined.

(** * The in-memory cache, middleware/cache.go

    Items with an expiry. The time of a call is an argument; times never go back
    ([time.Now] reads a monotonic clock). *)

Record cacheItem := { it_value : any; it_expiration : Z }.
Abbreviation Cache := (gmap string cacheItem).

Definition NewCache : Cache := ∅.

Definition Set_ (key : string) (value : any) (duration now : Z) (c : Cache) : Cache :=
  <[key := {| it_value := value; it_expiration := now + duration |}]> c.

(** [time.Now().After(item.expiration)] *)
Definition expired (now : Z) (i : cacheItem) : bool := it_expiration i <? now.

(** The value with whether there is one; an expired item is removed. *)
Definition Get (key : string) (now : Z) (c : Cache) : option any * Cache :=
  match c !! key with
  | None => (None, c)
  | Some item => if expired now item then (None, delete key c) else (Some (it_value item), c)
  end.

Definition CleanupExpired (now : Z) (c : Cache) : Cache := filter (λ ki, expired now ki.2 = false) c.

(** ** What a reader sees *)

Inductive call := CSet (key : string) (value : any) (duration : Z) | CGet (key : string) | CCleanup.

Definition exec_op (c : Cache) (tc : Z * call) : Cache :=
  match tc.2 with
  | CSet key value duration => Set_ key value duration tc.1 c
  | CGet key => (Get key tc.1 c).2
  | CCleanup => CleanupExpired tc.1 c
  end.
Definition run_ops (calls : list (Z * call)) : Cache := foldl exec_op NewCache calls.

(** The last item set under a key, whatever was removed since. *)
Definition last_set (key : string) (calls : list (Z * call)) : option cacheItem :=
  foldl (λ o tc, match tc.2 with
                 | CSet k value duration =>
                     if bool_decide (k = key) then Some {| it_value := value; it_expiration := tc.1 + duration |} else o
                 | _ => o
                 end) None calls.

(** The calls come in the order of their times, the last not after [now]. *)
Definition ordered (calls : list (Z * call)) (now : Z) : Prop := StronglySorted Z.le (calls.*1 ++ [now]).

Lemma ordered_snoc calls t x now : ordered (calls ++ [(t, x)]) now → ordered calls t ∧ t ≤ now.
Proof.
  unfold ordered. rewrite fmap_app. intros H. apply StronglySorted_app in H as (H2 & H1 & _). split; [exact H1|].
  specialize (H2 t now). apply H2; [|by left]. apply elem_of_app. right. by left.
Qed.

(** The state is what was set last, but for items that have expired. *)
Definition agrees (now : Z) (c : Cache) (last : string → option cacheItem) : Prop :=
  ∀ k, c !! k = last k ∨ (c !! k = None ∧ ∃ i, last k = Some i ∧ expired now i = true).

Lemma agrees_run calls now : ordered calls now → agrees now (run_ops calls) (λ k, last_set k calls).
Proof.
  revert now. induction calls as [|[t x] calls IH] using rev_ind; intros now Ho.
  { intros k. left. by apply lookup_empty. }
  apply ordered_snoc in Ho as [Ho Hle]. specialize (IH t Ho).
  unfold run_ops, last_set. rewrite foldl_app. fold (run_ops calls). cbn [foldl exec_op fst snd].
  assert (∀ i, expired t i = true → expired now i = true) as Hexp.
  { intros i. unfold expired. rewrite !Z.ltb_lt. lia. }
  intros k. rewrite foldl_app. cbn [foldl snd fst]. fold (last_set k calls). specialize (IH k).
  assert ((run_ops calls) !! k = last_set k calls ∨ (run_ops calls !! k = None ∧
    ∃ i, last_set k calls = Some i ∧ expired now i = true)) as IH' by naive_solver.
  destruct x as [key value duration|key|]; unfold exec_op; cbn [fst snd].
  - unfold Set_. case_bool_decide as Hk; [subst; left; apply lookup_insert_eq|].
    by rewrite lookup_insert_ne.
  - unfold Get. destruct (run_ops calls !! key) as [item|] eqn:Hi; [|exact IH'].
    destruct (expired t item) eqn:He; [|exact IH']. cbn [snd].
    destruct (decide (key = k)) as [->|Hk]; [|by rewrite lookup_delete_ne].
    rewrite lookup_delete_eq. destruct IH as [IH|[IH _]]; [|congruence].
    right. split; [done|]. exists item. split; [congruence | by apply Hexp].
  - unfold CleanupExpired. destruct (run_ops calls !! k) as [item|] eqn:Hi.
    + destruct (expired t item) eqn:He.
      * right. split.
        -- apply map_lookup_filter_None. right. intros i Hi'. rewrite Hi in Hi'. injection Hi' as <-. simpl. congruence.
        -- destruct IH as [IH|[IH _]]; [|congruence]. exists item. split; [congruence | by apply Hexp].
      * left. rewrite (map_lookup_filter_Some_2 _ _ k item); [|done|done]. destruct IH as [IH|[IH _]]; congruence.
    + assert (filter (λ ki : string * cacheItem, expired t ki.2 = false) (run_ops calls) !! k = None) as ->;
        [|by destruct IH' as [?|[_ ?]]; [left | right]].
      apply map_lookup_filter_None. by left.
Qed.

(** A read returns the value set last under its key, if that has not
    expired, and nothing otherwise: removing items is never seen. *)
Theorem cache_get calls key now :
  ordered calls now →
  (Get key now (run_ops calls)).1 =
    match last_set key calls with
    | Some item => if expired now item then None else Some (it_value item)
    | None => None
    end.
Proof.
  intros Ho. pose proof (agrees_run calls now Ho key) as [E|[E (i & Hl & He)]]; unfold Get; rewrite E.
  - destruct (last_set key calls) as [item|]; [|done]. by destruct (expired now item).
  - by rewrite Hl, He.
Qed.

Lemma cache_get_witness :
  let calls := [(0, CSet "k" (AStr "v") 10); (5, CCleanup); (12, CGet "k"); (13, CSet "k" (AStr "w") 4)] in
  ordered calls 17 ∧ (Get "k" 17 (run_ops calls)).1 = Some (AStr "w").
Proof.
  intros calls. assert (ordered calls 17) as Ho by (unfold ordered; simpl; repeat constructor; lia).
  split; [exact Ho|]. rewrite (cache_get calls "k" 17 Ho). vm_compute. reflexivity.
Defined.
