(* ===== verification/CacheLife.v ===== *)
(** * CacheLife: making, initializing and closing the schema cache, and its JSON,
    [pkg/pgx/schema/schema.go].

    File SchemaCache has the cache while it runs. Here are its beginning, whose
    errors leave things open or closed, its end, which closes the channel that a
    reload may be sending to, and the document that its handler serves. *)

From S2P Require Import Prelude GoStrings GoStringFacts GoAny Json JsonFacts.
From S2P Require Import Schema SchemaCache SchemaCacheProps FilterSQL Query Http Middleware.
Local Open Scope Z_scope.

(** ** Making and initializing *)

Class PgxPoolNew := { pgxpool_New : string → option string; first_Acquire : string → option string }.

Inductive new_error := CreatePool (e : string) | PoolAcquire (e : string).

(** [NewCache]: the error, and whether the pool is open afterwards. *)
Definition NewSchemaCache `{PgxPoolNew} (connString : string) : option new_error * bool :=
  match pgxpool_New connString with
  | Some e => (Some (CreatePool e), false)
  | None => match first_Acquire connString with
            | Some e => (Some (PoolAcquire e), false)
            | None => (None, true)
            end
  end.

Inductive cache_init_error (E : Type) := InitialLoad (e : E) | ListenError (e : string).
Arguments InitialLoad {E} e. Arguments ListenError {E} e.

Record Life (DB : Type) := {
  lf_cache : Cache DB;
  lf_cancelled : bool;           (* the context of [Init] *)
  lf_closed : bool;              (* the channel of [Watch] *)
  lf_panic : option string
}.
Arguments lf_cache {DB}. Arguments lf_cancelled {DB}. Arguments lf_closed {DB}. Arguments lf_panic {DB}.

Section Life.
Context {DB E : Type} (load : DB → res E tables_map).

(** [Init] on a new cache: the load, its snapshot into the empty channel, LISTEN. A
    cache whose LISTEN fails keeps its tables and its snapshot. *)
Definition cache_Init (db : DB) (listen : option string) : option (cache_init_error E) * option (Life DB) :=
  match load db with
  | Err e => (Some (InitialLoad e), None)
  | Ok tables =>
      let c := sent (init db tables) Loaded in
      match listen with
      | Some e => (Some (ListenError e),
                   Some {| lf_cache := set_phase c Stopped; lf_cancelled := true; lf_closed := false; lf_panic := None |})
      | None => (None, Some {| lf_cache := c; lf_cancelled := false; lf_closed := false; lf_panic := None |})
      end
  end.

Definition with_cache (c : Cache DB) (l : Life DB) : Life DB :=
  {| lf_cache := c; lf_cancelled := lf_cancelled l; lf_closed := lf_closed l; lf_panic := lf_panic l |}.
Definition panicked (e : string) (l : Life DB) : Life DB :=
  {| lf_cache := lf_cache l; lf_cancelled := lf_cancelled l; lf_closed := lf_closed l; lf_panic := Some e |}.

(** [Close] in two: the context, the connection and the pool; then the channel. *)
Definition close_cancel (l : Life DB) : Life DB :=
  {| lf_cache := lf_cache l; lf_cancelled := true; lf_closed := lf_closed l; lf_panic := lf_panic l |}.
Definition close_watch (l : Life DB) : Life DB :=
  if lf_closed l then panicked "close of closed channel" l
  else {| lf_cache := lf_cache l; lf_cancelled := lf_cancelled l; lf_closed := true; lf_panic := lf_panic l |}.
Definition Close (l : Life DB) : Life DB := close_watch (close_cancel l).

(** Once the context is done the updating goroutine finishes its send, or stops;
    a send to the closed channel panics, one that has been waiting too. *)
Inductive lf_step (l : Life DB) : Life DB → Prop :=
| life_runs c :
    lf_panic l = None → lf_cancelled l = false → step load (lf_cache l) c → lf_step l (with_cache c l)
| life_sends next :
    lf_panic l = None → lf_cancelled l = true → lf_closed l = false → c_phase (lf_cache l) = Sending next →
    (length (c_watch (lf_cache l)) < watch_capacity)%nat → lf_step l (with_cache (sent (lf_cache l) next) l)
| life_send_panics next :
    lf_panic l = None → lf_closed l = true → c_phase (lf_cache l) = Sending next →
    lf_step l (panicked "send on closed channel" l)
| life_stops :
    lf_panic l = None → lf_cancelled l = true → (∀ next, c_phase (lf_cache l) ≠ Sending next) →
    lf_step l (with_cache (set_phase (lf_cache l) Stopped) l)
| life_receives t ts :
    lf_panic l = None → c_watch (lf_cache l) = t :: ts → lf_step l (with_cache (received (lf_cache l) t ts) l)
| life_change db :
    lf_panic l = None → lf_step l (with_cache (changed (lf_cache l) db) l).

Inductive lf_steps (l : Life DB) : Life DB → Prop :=
| life_none : lf_steps l l
| life_more l' l'' : lf_steps l l' → lf_step l' l'' → lf_steps l l''.

(** A cache that has been initialized is a state of the machine of SchemaCache, with
    its snapshot ready for the first reader. *)
Theorem Init_reachable db listen l :
  cache_Init db listen = (None, Some l) →
  reachable load (lf_cache l) ∧ ∃ tables, load db = Ok tables ∧ c_watch (lf_cache l) = [tables] ∧ Snapshot (lf_cache l) = tables.
Proof.
  unfold cache_Init. destruct (load db) as [tables|e] eqn:El; [|done]. destruct listen; [done|]. intros [= <-]. cbn [lf_cache].
  split; [|by exists tables].
  eapply reach_step; [by apply reach_init|]. apply step_send; [done|cbn; unfold watch_capacity; lia].
Qed.

Definition idle (c : Cache DB) : Prop := ∀ next, c_phase c ≠ Sending next.

(** Closing a cache that is not in the middle of a reload stops it for good: no
    panic, no load after it, and readers get what was in the channel. *)
Theorem close_when_idle l l' :
  lf_panic l = None → lf_closed l = false → idle (lf_cache l) → lf_steps (Close l) l' →
  lf_panic l' = None ∧ c_loads (lf_cache l') = c_loads (lf_cache l) ∧ c_tables (lf_cache l') = c_tables (lf_cache l) ∧
  c_seen (lf_cache l') ++ c_watch (lf_cache l') = c_seen (lf_cache l) ++ c_watch (lf_cache l).
Proof.
  intros Hp Hc Hi Hs.
  enough (lf_cancelled l' = true ∧ idle (lf_cache l') ∧ lf_panic l' = None ∧ c_loads (lf_cache l') = c_loads (lf_cache l) ∧
    c_tables (lf_cache l') = c_tables (lf_cache l) ∧
    c_seen (lf_cache l') ++ c_watch (lf_cache l') = c_seen (lf_cache l) ++ c_watch (lf_cache l)) as (? & ? & ?) by done.
  induction Hs as [|l1 l2 _ (Hca & Hid & Hp1 & Hl & Ht & Hw) Hstep].
  - unfold Close, close_watch. cbn [close_cancel lf_closed]. rewrite Hc. cbn. by split_and!.
  - destruct Hstep as [c _ Hf _|next _ _ _ Hn _|next _ _ Hn|_ _ _|t ts _ Hts|db _]; try congruence;
      try (by destruct (Hid next)); cbn [with_cache lf_cancelled lf_panic lf_cache]; split_and!; try done.
    cbn [received c_seen c_watch]. rewrite <-Hw, Hts, <-app_assoc. done.
Qed.

(** Closing it while a reload is handing over its snapshot panics: that is the only
    thing the updating goroutine can still do. *)
Theorem close_during_reload l next :
  lf_panic l = None → c_phase (lf_cache l) = Sending next → lf_closed l = false →
  (∃ l', lf_step (Close l) l' ∧ lf_panic l' = Some "send on closed channel") ∧
  ∀ l', lf_steps (Close l) l' → lf_panic l' = Some "send on closed channel" ∨ c_phase (lf_cache l') = Sending next.
Proof.
  intros Hp Hn Hc. assert (Close l = {| lf_cache := lf_cache l; lf_cancelled := true; lf_closed := true; lf_panic := None |}) as ->.
  { unfold Close, close_watch. cbn [close_cancel lf_closed]. by rewrite Hc, <-Hp. }
  split; [eexists; split; [by eapply life_send_panics|done]|].
  intros l' Hs. enough ((lf_panic l' = Some "send on closed channel" ∨ lf_panic l' = None ∧ c_phase (lf_cache l') = Sending next) ∧
    lf_cancelled l' = true ∧ lf_closed l' = true) as [[?|[_ ?]] _] by auto.
  induction Hs as [|l1 l2 _ ([He|[He Hph]] & Hca & Hcl) Hstep]; [by split; [right|]| |].
  - destruct Hstep; congruence.
  - destruct Hstep as [c _ Hf _|n _ _ Hf _ _|n _ _ _|_ _ Hno|t ts _ Hts|db _]; try congruence;
      cbn [with_cache panicked lf_cancelled lf_panic lf_cache lf_closed]; split; try done; try (by left); try (by right).
Qed.

(** A second [Close] panics. *)
Theorem close_twice l : lf_closed l = false → lf_panic (Close (Close l)) = Some "close of closed channel".
Proof. intros Hc. unfold Close, close_watch. cbn [close_cancel lf_closed]. rewrite Hc. done. Qed.

End Life.

(** ** Waiting *)

(** [backoff + jitter()]; [Int63n(n)] is at least 0 and less than [n]. *)
Definition jitter (Int63n : Z → Z) : Z := Int63n second.
Definition reconnect_wait (Int63n : Z → Z) (attempt : nat) : Z := backoff_at attempt + jitter Int63n.

Theorem reconnect_wait_bounds Int63n attempt :
  (∀ n, 0 < n → 0 <= Int63n n < n) → second <= reconnect_wait Int63n attempt < maxBackoff + second.
Proof.
  intros H. unfold reconnect_wait, jitter. specialize (H second ltac:(done)).
  assert (second <= backoff_at attempt <= maxBackoff) as ?.
  { induction attempt as [|n IH]; [by vm_compute|]. cbn [backoff_at]. unfold next_backoff.
    unfold maxBackoff, second in *. lia. }
  lia.
Qed.

(** ** The document of [SchemaHandler] *)

Definition TableType_string (t : TableType) : string :=
  match t with
  | TypeTable => "TABLE" | TypeView => "VIEW" | TypeMaterializedView => "MATERIALIZED VIEW" | OtherTableType s => s
  end.
Definition TypeKind_string (k : TypeKind) : string :=
  match k with
  | KindNone => "" | KindBase => "b" | KindComposite => "c" | KindDomain => "d" | KindEnum => "e" | KindPseudo => "p"
  | KindRange => "r" | KindMultiRange => "m" | OtherKind s => s
  end.

(** An empty string marked so is left out; a nil slice is null, and the slices of
    the cache are nil or have elements. *)
Definition omit_empty (name value : string) : list (string * json) := if bool_decide (value = "") then [] else [(name, JStr value)].
Definition slice_json {A} (f : A → json) (l : list A) : json := match l with [] => JNull | _ => JArr (f <$> l) end.

Definition column_json (c : Column) : json :=
  JObj ([("name", JStr (col_Name c)); ("data_type", JStr (col_DataType c))] ++ omit_empty "udt_schema" (col_UDTSchema c) ++
        omit_empty "udt_name" (col_UDTName c) ++ omit_empty "type_kind" (TypeKind_string (col_TypeKind c)) ++
        omit_empty "elem_kind" (TypeKind_string (col_ElemKind c)) ++
        [("is_nullable", JBool (col_IsNullable c)); ("is_primary_key", JBool (col_IsPrimaryKey c))]).
Definition foreign_key_json (f : ForeignKey) : json :=
  JObj [("column", JStr (fk_Column f)); ("referenced_table", JStr (fk_ReferencedTable f));
        ("referenced_column", JStr (fk_ReferencedColumn f))].
Definition table_json (t : Table) : json :=
  JObj ([("schema", JStr (tbl_Schema t)); ("name", JStr (tbl_Name t)); ("type", JStr (TableType_string (tbl_Type t)));
         ("columns", slice_json column_json (tbl_Columns t)); ("primary_keys", slice_json JStr (tbl_PrimaryKeys t));
         ("foreign_keys", slice_json foreign_key_json (tbl_ForeignKeys t))] ++ omit_empty "view_query" (tbl_ViewQuery t)).

(** A map is printed by its keys in order. *)
Definition tables_json (tables : tables_map) : json :=
  JObj (merge_sort key_le ((λ kv : string * Table, (kv.1, table_json kv.2)) <$> map_to_list tables)).

Definition schema_endpoint (path : list string) : string :=
  match path with p :: _ => if bool_decide (p = "") then "/api/schema" else p | [] => "/api/schema" end.

(** The handler: the encoder writes the document and a line break; strings and
    booleans can always be encoded, so its error is never taken. *)
Definition schema_document (tables : tables_map) : string := print_json (tables_json tables) +:+ String (byte_of 10) "".
Definition SchemaHandler {DB} (c : Cache DB) : Handler :=
  λ r w, write 200 (BText (schema_document (Snapshot c))) (set_header "Content-Type" "application/json" w).

Definition column_texts (c : Column) : list string :=
  [col_Name c; col_DataType c; col_UDTSchema c; col_UDTName c; TypeKind_string (col_TypeKind c); TypeKind_string (col_ElemKind c)].
Definition foreign_key_texts (f : ForeignKey) : list string := [fk_Column f; fk_ReferencedTable f; fk_ReferencedColumn f].
Definition table_texts (t : Table) : list string :=
  [tbl_Schema t; tbl_Name t; TableType_string (tbl_Type t); tbl_ViewQuery t] ++ tbl_PrimaryKeys t ++
  concat (column_texts <$> tbl_Columns t) ++ concat (foreign_key_texts <$> tbl_ForeignKeys t).
Definition utf8 (s : string) : Prop := valid_utf8 s = true.

Definition member_ok (kv : string * json) : Prop := valid_utf8 kv.1 = true ∧ wf_json kv.2.
Lemma omit_ok name value : utf8 name → utf8 value → Forall member_ok (omit_empty name value).
Proof. intros. unfold omit_empty. case_bool_decide; [done|]. by constructor. Qed.

(** No part of the document is deeper than its kind. *)
Definition shallow_json (n : Z) (j : json) : Prop := wf_json j ∧ json_depth j <= n.

Lemma depth_members n kvs : 0 <= n → Forall (λ kv : string * json, valid_utf8 kv.1 = true ∧ shallow_json n kv.2) kvs → shallow_json (1 + n) (JObj kvs).
Proof.
  intros Hn H. split; [apply wf_JObj; eapply Forall_impl; [exact H|]; by intros kv (? & ? & ?)|].
  cbn [json_depth]. assert (foldr Z.max 0 ((λ kv, json_depth kv.2) <$> kvs) <= n); [|lia].
  induction H as [|kv l (_ & _ & Hd) _ IH]; [done|]. cbn. lia.
Qed.
Lemma depth_slice {A} n (f : A → json) l : 0 <= n → Forall (λ x, shallow_json n (f x)) l → shallow_json (1 + n) (slice_json f l).
Proof.
  intros Hn H. destruct l as [|x l]; [split; [done|cbn; lia]|]. unfold slice_json. split.
  - apply wf_JArr, Forall_fmap. eapply Forall_impl; [exact H|]. by intros ? [].
  - cbn [json_depth]. assert (foldr Z.max 0 (json_depth <$> (f <$> x :: l)) <= n); [|lia].
    induction H as [|y l' [_ Hd] _ IH]; [done|]. cbn. cbn in IH. lia.
Qed.
Lemma depth_str n s : 0 <= n → utf8 s → shallow_json n (JStr s).
Proof. by split. Qed.
Lemma depth_omit n name value : 0 <= n → utf8 name → utf8 value →
  Forall (λ kv : string * json, valid_utf8 kv.1 = true ∧ shallow_json n kv.2) (omit_empty name value).
Proof. intros. unfold omit_empty. case_bool_decide; [done|]. constructor; [split; [done|by apply depth_str]|done]. Qed.

Lemma column_shallow c : Forall utf8 (column_texts c) → shallow_json 1 (column_json c).
Proof.
  intros H. repeat (apply Forall_cons in H as [? H]). apply (depth_members 0); [done|].
  rewrite !Forall_app. split_and!; try (by apply depth_omit); by repeat constructor.
Qed.
Lemma foreign_key_shallow f : Forall utf8 (foreign_key_texts f) → shallow_json 1 (foreign_key_json f).
Proof. intros H. repeat (apply Forall_cons in H as [? H]). apply (depth_members 0); [done|]. by repeat constructor. Qed.

Lemma all_of {A} (texts : A → list string) l : Forall utf8 (concat (texts <$> l)) → Forall (λ x, Forall utf8 (texts x)) l.
Proof. induction l as [|x l IH]; [done|]. cbn. rewrite Forall_app. intros [? ?]. constructor; auto. Qed.

Lemma table_shallow t : Forall utf8 (table_texts t) → shallow_json 3 (table_json t).
Proof.
  unfold table_texts. rewrite !Forall_app. intros (H & Hp & Hc & Hf). repeat (apply Forall_cons in H as [? H]).
  apply (depth_members 2); [done|]. apply Forall_app. split; [|by apply depth_omit].
  repeat (apply Forall_cons_2; [split; [reflexivity|]|]); try (by apply depth_str); [| | |by constructor]; cbn [snd].
  - apply (depth_slice 1); [done|]. eapply Forall_impl; [by apply all_of|]. apply column_shallow.
  - apply (depth_slice 1); [done|]. eapply Forall_impl; [exact Hp|]. intros. by apply depth_str.
  - apply (depth_slice 1); [done|]. eapply Forall_impl; [by apply all_of|]. apply foreign_key_shallow.
Qed.

Lemma tables_shallow tables :
  map_Forall (λ k t, utf8 k ∧ Forall utf8 (table_texts t)) tables → shallow_json 4 (tables_json tables).
Proof.
  intros H. apply (depth_members 3); [done|]. rewrite merge_sort_Permutation. apply Forall_fmap.
  apply map_Forall_to_list in H. eapply Forall_impl; [exact H|]. intros [k t] [Hk Ht]. split; [done|]. by apply table_shallow.
Qed.

(** What is served is the JSON of the snapshot, one member for every table of it, in
    the order of the keys. *)
Theorem schema_document_reads {DB} (c : Cache DB) r w :
  map_Forall (λ k t, utf8 k ∧ Forall utf8 (table_texts t)) (Snapshot c) →
  ∃ doc kvs, w_written (SchemaHandler c r w) = w_written w ++
      [{| rsp_status := 200; rsp_headers := <["Content-Type" := ["application/json"]]> (w_headers w); rsp_body := BText doc |}] ∧
    parse_json doc = Some (JObj kvs) ∧ kvs ≡ₚ (λ kv, (kv.1, table_json kv.2)) <$> map_to_list (Snapshot c).
Proof.
  intros [Hwf Hd]%tables_shallow. exists (schema_document (Snapshot c)). eexists. split; [done|]. split.
  - unfold parse_json, schema_document. rewrite print_read; [|done| |unfold maxNestingDepth; lia|done].
    + cbn [mbind option_bind]. reflexivity.
    + pose proof (size_len _ Hwf). rewrite len_app. lia.
  - apply merge_sort_Permutation.
Qed.

Example schema_endpoints : schema_endpoint [] = "/api/schema" ∧ schema_endpoint [""] = "/api/schema" ∧ schema_endpoint ["/s"; "/t"] = "/s".
Proof. done. Qed.

(** ** Witnesses *)

(** A state that the cache reaches: a change has been loaded and is being handed over. *)
Definition reloading : Life bool := {| lf_cache := run_3; lf_cancelled := false; lf_closed := false; lf_panic := None |}.

Lemma close_during_reload_witness :
  reachable (E := unit) toggled (lf_cache reloading) ∧
  ∃ l', lf_step (E := unit) toggled (Close reloading) l' ∧ lf_panic l' = Some "send on closed channel".
Proof.
  split; [exact run_3_reachable|]. apply (close_during_reload (E := unit) toggled reloading Listening); reflexivity.
Defined.

(** Closed while it listens, and read to the end. *)
Definition listening_life : Life bool :=
  {| lf_cache := run_2; lf_cancelled := false; lf_closed := false; lf_panic := None |}.
Lemma close_when_idle_witness : lf_panic (with_cache (set_phase run_2 Stopped) (Close listening_life)) = None.
Proof.
  apply (close_when_idle (E := unit) toggled listening_life); [reflexivity | reflexivity | intros next; discriminate |].
  eapply life_more; [apply life_none|]. apply (life_stops (E := unit) toggled (Close listening_life)); [reflexivity.. |].
  intros next. discriminate.
Defined.
