(* ===== verification/Transform.v ===== *)
(** * Transform: extract, filter and replace, and their chains,
    [pkg/pipeline/transform/].

    A transformation gets a pointer to an event and returns a pointer and an
    error; it may change the event in place, copy it, and write to the array of
    the schema's fields, which copies of an event share. So a transformation is
    a function on a heap of events and arrays. The values of before and after
    are never changed in place by this code and need no location. *)

From S2P Require Import Prelude GoStrings GoAny Cdc.
Local Open Scope Z_scope.

(** ** The heap *)

Record Heap := {
  h_events : gmap nat Event;
  h_fields : gmap nat (list Field);
  h_next : nat                       (* the next free location of an event *)
}.

Definition put_event (p : nat) (e : Event) (h : Heap) : Heap :=
  {| h_events := <[p := e]> (h_events h); h_fields := h_fields h; h_next := h_next h |}.
Definition put_fields (l : nat) (fs : list Field) (h : Heap) : Heap :=
  {| h_events := h_events h; h_fields := <[l := fs]> (h_fields h); h_next := h_next h |}.
(** [&x] of a fresh variable *)
Definition alloc (e : Event) (h : Heap) : nat * Heap :=
  (h_next h, {| h_events := <[h_next h := e]> (h_events h); h_fields := h_fields h; h_next := S (h_next h) |}).

Inductive transform_error :=
| NoFields                           (* extract: at least one field is required *)
| NoCriteria                         (* filter: at least one filter criteria required *)
| InvalidTablePattern (p : string)
| InvalidOperation (op : string)
| NoReplacement
| InvalidReplacementType (t : string)
| InvalidRegex (p : string)
| MissingSource                      (* invalid CDC event: missing schema or table *)
| MissingOperation
| InvalidConfigType (name : string)
| TransformNotFound (name : string)
| DecodeFailed (type : string)
| UnknownType (type : string)
| NilEvent.

(** What a call leaves: a pointer and an error, or a panic. *)
Inductive outcome :=
| Returned (ev : option nat) (err : option transform_error)
| Panicked.

Definition Func : Type := Heap → option nat → outcome * Heap.

(** [*cdc]: the event behind a pointer, or a panic. *)
Definition deref (h : Heap) (cdc : option nat) : option (nat * Event) :=
  p ← cdc; e ← h_events h !! p; Some (p, e).

(** ** Extract *)

Record ExtractConfig := { ex_Fields : list string }.

Definition extract_Validate (c : ExtractConfig) : option transform_error :=
  match ex_Fields c with [] => Some NoFields | _ => None end.

(** The loop over the fields: those that are in the object. *)
Definition extract_fields (fields : list string) (data : any) : gmap string any :=
  match data with
  | AObj m =>
      foldl (λ acc field, match m !! field with Some value => <[field := value]> acc | None => acc end)
        ∅ fields
  | _ => ∅
  end.

Definition extract_event (c : ExtractConfig) (e : Event) : Event :=
  WithAfter (AObj (extract_fields (ex_Fields c) (pay_After (ev_Payload e))))
    (WithBefore (AObj (extract_fields (ex_Fields c) (pay_Before (ev_Payload e)))) e).

Definition Extract (config : ExtractConfig) : Func := λ h cdc,
  match extract_Validate config with
  | Some err => (Returned cdc (Some err), h)
  | None =>
      match deref h cdc with
      | None => (Panicked, h)
      | Some (p, e) => (Returned (Some p) None, put_event p (extract_event config e) h)
      end
  end.

(** ** Filter *)

Class Regexp := {
  regexp : Type;
  Compile : string → option regexp;
  MatchString : regexp → string → bool;
  ReplaceAllString : regexp → string → string → string
}.

(** [filepath.Match]; [None] is ErrBadPattern. *)
Class PathMatch := { path_match : string → string → option bool }.

Record FilterConfig := {
  fc_TablePattern : string;
  fc_Tables : list string;
  fc_ExcludeTables : list string;
  fc_Operations : list string
}.

Record tableRef := { ref_schema : string; ref_table : string; ref_isGlob : bool }.

Definition parseTableRef (ref : string) : tableRef :=
  if bool_decide (ref = "*.*") then {| ref_schema := "*"; ref_table := "*"; ref_isGlob := true |}
  else match Split ref "." with
  | [s; t] => {| ref_schema := s; ref_table := t; ref_isGlob := mem_byte s "*" || mem_byte t "*" |}
  | _ => {| ref_schema := ""; ref_table := ref; ref_isGlob := mem_byte ref "*" |}
  end.

Section Filter.
Context `{RE : Regexp} `{PM : PathMatch}.

(** [matched, _ := filepath.Match(...)] *)
Definition matched (pattern name : string) : bool := default false (path_match pattern name).

Definition matchesTableRef (source : Source) (ref : tableRef) : bool :=
  if ref_isGlob ref then
    if bool_decide (ref_schema ref = "*") && bool_decide (ref_table ref = "*") then true
    else if negb (bool_decide (ref_schema ref = "*")) && bool_decide (ref_table ref = "*") then
      matched (ref_schema ref) (src_Schema source)
    else if bool_decide (ref_schema ref = "*") && negb (bool_decide (ref_table ref = "*")) then
      matched (ref_table ref) (src_Table source)
    else matched (ref_schema ref) (src_Schema source) && matched (ref_table ref) (src_Table source)
  else if negb (bool_decide (ref_schema ref = "")) && negb (bool_decide (ref_schema ref = src_Schema source))
  then false
  else bool_decide (ref_table ref = src_Table source).

Definition validOps : list string := ["c"; "u"; "d"; "r"].

Definition filter_Validate (c : FilterConfig) : option transform_error :=
  if bool_decide (fc_Tables c = []) && bool_decide (fc_ExcludeTables c = []) &&
     bool_decide (fc_TablePattern c = "") && bool_decide (fc_Operations c = [])
  then Some NoCriteria
  else if negb (bool_decide (fc_TablePattern c = "")) && negb (bool_decide (is_Some (Compile (fc_TablePattern c))))
  then Some (InvalidTablePattern (fc_TablePattern c))
  else match List.find (λ op, negb (bool_decide (op ∈ validOps))) (fc_Operations c) with
       | Some op => Some (InvalidOperation op)
       | None => None
       end.

(** The checks in order: an error, or whether the event passes. *)
Definition filter_decide (c : FilterConfig) (e : Event) : res transform_error bool :=
  let source := pay_Source (ev_Payload e) in
  if bool_decide (src_Schema source = "") || bool_decide (src_Table source = "") then Err MissingSource else
  let op := pay_Op (ev_Payload e) in
  let? opMatched :=
    if bool_decide (fc_Operations c = []) then Ok true
    else if bool_decide (op = "") then Err MissingOperation
    else Ok (bool_decide (op ∈ fc_Operations c)) in
  if negb opMatched then Ok false else
  if existsb (matchesTableRef source) (parseTableRef <$> fc_ExcludeTables c) then Ok false else
  if negb (bool_decide (fc_Tables c = [])) &&
     negb (existsb (matchesTableRef source) (parseTableRef <$> fc_Tables c)) then Ok false else
  match (if bool_decide (fc_TablePattern c = "") then None else Compile (fc_TablePattern c)) with
  | Some tableRegex =>
      Ok (MatchString tableRegex (src_Schema source +:+ "." +:+ src_Table source) ||
          MatchString tableRegex (src_Table source))
  | None => Ok true
  end.

Definition Filter (config : FilterConfig) : Func :=
  match filter_Validate config with
  | Some err => λ h _, (Returned None (Some err), h)
  | None => λ h cdc,
      match cdc with
      | None => (Returned None (Some MissingSource), h)
      | Some p =>
          match h_events h !! p with
          | None => (Panicked, h)
          | Some e =>
              match filter_decide config e with
              | Err err => (Returned None (Some err), h)
              | Ok false => (Returned None None, h)
              | Ok true => (Returned cdc None, h)
              end
          end
      end
  end.

End Filter.

(** ** Replace *)

Record RegexReplacement := { rr_Type : string; rr_Pattern : string; rr_Replace : string }.

Record ReplaceConfig := {
  rc_Schemas : gmap string string;
  rc_Tables : gmap string string;
  rc_Columns : gmap string string;
  rc_Regex : list RegexReplacement
}.

Definition isValidReplacementType (t : string) : bool :=
  bool_decide (t = "schema") || bool_decide (t = "table") || bool_decide (t = "column").

Definition new_name (replacements : gmap string string) (k : string) : string :=
  default k (replacements !! k).

Definition replaceMapKeys `{GR : GoRange} (data : any) (replacements : gmap string string) : any :=
  match data with
  | AObj m => AObj (foldl (λ newMap '(k, v), <[new_name replacements k := v]> newMap) ∅ (range m))
  | _ => data
  end.

(** The body of the loop over the schema's fields. *)
Definition rename_field (columns : gmap string string) (field : Field) : Field :=
  match columns !! fld_Field field with
  | Some newName =>
      mkField newName (fld_Type field) (fld_Optional field)
        (if bool_decide (fld_Name field = "") then fld_Name field else newName) (fld_Fields field)
  | None => field
  end.

Section Replace.
Context `{RE : Regexp} `{GR : GoRange}.

Fixpoint regex_Validate (l : list RegexReplacement) : option transform_error :=
  match l with
  | [] => None
  | r :: l =>
      if negb (isValidReplacementType (rr_Type r)) then Some (InvalidReplacementType (rr_Type r))
      else match Compile (rr_Pattern r) with
           | None => Some (InvalidRegex (rr_Pattern r))
           | Some _ => regex_Validate l
           end
  end.

Definition replace_Validate (c : ReplaceConfig) : option transform_error :=
  if bool_decide (rc_Schemas c = ∅) && bool_decide (rc_Tables c = ∅) &&
     bool_decide (rc_Columns c = ∅) && bool_decide (rc_Regex c = [])
  then Some NoReplacement
  else regex_Validate (rc_Regex c).

(** One regular expression on the names of the source; one for columns does
    nothing. [MustCompile] does not panic: the pattern has been checked. *)
Definition regex_step (source : Source) (r : RegexReplacement) : Source :=
  match Compile (rr_Pattern r) with
  | None => source
  | Some re =>
      if bool_decide (rr_Type r = "schema") then
        source_WithSchema (ReplaceAllString re (src_Schema source) (rr_Replace r)) source
      else if bool_decide (rr_Type r = "table") then
        source_WithTable (ReplaceAllString re (src_Table source) (rr_Replace r)) source
      else source
  end.

Definition replace_source (c : ReplaceConfig) (source : Source) : Source :=
  let source := source_WithSchema (new_name (rc_Schemas c) (src_Schema source)) source in
  let source := source_WithTable (new_name (rc_Tables c) (src_Table source)) source in
  foldl regex_step source (rc_Regex c).

Definition Replace (config : ReplaceConfig) : Func := λ h cdc,
  match replace_Validate config with
  | Some err => (Returned cdc (Some err), h)
  | None =>
      match deref h cdc with
      | None => (Panicked, h)
      | Some (_, e) =>
          let current := WithSource (replace_source config (pay_Source (ev_Payload e))) e in
          if bool_decide (rc_Columns config = ∅) then
            let '(p, h) := alloc current h in (Returned (Some p) None, h)
          else
            let current := WithBefore (replaceMapKeys (pay_Before (ev_Payload current)) (rc_Columns config)) current in
            let current := WithAfter (replaceMapKeys (pay_After (ev_Payload current)) (rc_Columns config)) current in
            let h := match sch_Fields (ev_Schema current) with
                     | None => h
                     | Some l => put_fields l (rename_field (rc_Columns config) <$> default [] (h_fields h !! l)) h
                     end in
            let '(p, h) := alloc current h in (Returned (Some p) None, h)
      end
  end.

End Replace.

(** ** Registry and chains *)

Record Transformation := { tr_Config : gmap string any; tr_Type : string }.

Inductive TransformConfig :=
| ExtractC (c : ExtractConfig)
| FilterC (c : FilterConfig)
| ReplaceC (c : ReplaceConfig).

(** [mapstructure.Decode] into each of the three structs. *)
Class Mapstructure := {
  decode_extract : gmap string any → option ExtractConfig;
  decode_filter : gmap string any → option FilterConfig;
  decode_replace : gmap string any → option ReplaceConfig
}.

Section Chain.
Context `{RE : Regexp} `{PM : PathMatch} `{GR : GoRange} `{MS : Mapstructure}.

Notation Registry := (gmap string (TransformConfig → Func)).

Definition Register (name : string) (factory : TransformConfig → Func) (r : Registry) : Registry :=
  <[name := factory]> r.
Definition Get (name : string) (r : Registry) : res transform_error (TransformConfig → Func) :=
  match r !! name with Some f => Ok f | None => Err (TransformNotFound name) end.

Definition bad_config (name : string) : Func := λ h cdc, (Returned cdc (Some (InvalidConfigType name)), h).

Definition RegisterBuiltins (r : Registry) : Registry :=
  Register "replace" (λ c, match c with ReplaceC c => Replace c | _ => bad_config "replace" end)
    (Register "filter" (λ c, match c with FilterC c => Filter c | _ => bad_config "extract" end)
      (Register "extract" (λ c, match c with ExtractC c => Extract c | _ => bad_config "extract" end) r)).

Definition ToConfig (t : Transformation) : res transform_error TransformConfig :=
  let decoded {A} (o : option A) (f : A → TransformConfig) :=
    match o with Some c => Ok (f c) | None => Err (DecodeFailed (tr_Type t)) end in
  if bool_decide (tr_Type t = "extract") then decoded (decode_extract (tr_Config t)) ExtractC
  else if bool_decide (tr_Type t = "filter") then decoded (decode_filter (tr_Config t)) FilterC
  else if bool_decide (tr_Type t = "replace") then decoded (decode_replace (tr_Config t)) ReplaceC
  else Err (UnknownType (tr_Type t)).

(** The returned closure: run one after the other, stop at an error or at nil. *)
Fixpoint run_chain (transforms : list Func) : Func := λ h current,
  match transforms with
  | [] => (Returned current None, h)
  | t :: transforms =>
      match t h current with
      | (Panicked, h) => (Panicked, h)
      | (Returned _ (Some err), h) => (Returned None (Some err), h)
      | (Returned None None, h) => (Returned None None, h)
      | (Returned (Some p) None, h) => run_chain transforms h (Some p)
      end
  end.

Definition chain_step (registry : Registry) (cfg : Transformation) : res transform_error Func :=
  let? factory := Get (tr_Type cfg) registry in
  let? transformConfig := ToConfig cfg in
  Ok (factory transformConfig).

Definition Chain (registry : Registry) (configs : list Transformation) : res transform_error Func :=
  let? transforms := mapM_res (chain_step registry) configs in
  Ok (run_chain transforms).

End Chain.
