(* ===== verification/TransformProps.v ===== *)
(** * TransformProps: what the transformations and their chains do.

    Extract keeps exactly the configured fields; Filter passes exactly the
    events its criteria select and touches nothing; Replace leaves the original
    event alone and renames columns one to one unless two names fall together;
    chains compose, never panic on a live event, and leave other events alone.
    What a copy of an event does share is the array of the schema's fields. *)

From S2P Require Import Prelude GoStrings GoStringFacts Paths GoAny Cdc Transform.
Local Open Scope Z_scope.

(** ** Extract *)

Lemma extract_fields_spec fields m k :
  extract_fields fields (AObj m) !! k = if decide (k ∈ fields) then m !! k else None.
Proof.
  unfold extract_fields. assert (∀ l acc,
    foldl (λ (acc : gmap string any) field, match m !! field with Some value => <[field := value]> acc | None => acc end) acc l !! k
    = if decide (k ∈ l ∧ is_Some (m !! k)) then m !! k else acc !! k) as H.
  { induction l as [|f l IH]; intros acc; cbn [foldl].
    { rewrite decide_False; [done|]. by intros [?%elem_of_nil _]. }
    rewrite IH. destruct (decide (k ∈ l ∧ is_Some (m !! k))) as [[Hk Hm]|Hn].
    { rewrite decide_True; [done|]. split; [by constructor | done]. }
    destruct (decide (f = k)) as [->|Hne].
    - destruct (m !! k) as [v|] eqn:E.
      + rewrite lookup_insert_eq, decide_True; [done|]. split; [constructor | eauto].
      + rewrite decide_False; [done|]. by intros [_ [? ?]].
    - rewrite (decide_False (P := k ∈ f :: l ∧ _)).
      + destruct (m !! f); [by rewrite lookup_insert_ne by done | done].
      + intros [[?|?]%elem_of_cons ?]; [by subst | by apply Hn]. }
  rewrite H, lookup_empty. destruct (decide (k ∈ fields)) as [Hk|Hk].
  - case_decide as Hd; [done|]. destruct (m !! k) eqn:E; [|done]. by destruct Hd.
  - rewrite decide_False; [done|]. by intros [? _].
Qed.

Definition object (v : any) : gmap string any := match v with AObj m => m | _ => ∅ end.

Lemma extract_fields_lookup fields v k :
  extract_fields fields v !! k = if decide (k ∈ fields) then object v !! k else None.
Proof.
  destruct v; try apply extract_fields_spec; cbn [object extract_fields]; rewrite !lookup_empty;
    by destruct (decide _).
Qed.

(** Extract replaces before and after, in place, by objects that hold exactly
    the configured fields which the old objects hold, with their values; values
    that are no objects become empty ones, all other parts of the event and the
    other events stay, and extracting again changes nothing. *)
Theorem extract_spec c h p e :
  extract_Validate c = None → h_events h !! p = Some e →
  ∃ before after e', Extract c h (Some p) = (Returned (Some p) None, put_event p e' h) ∧
    e' = WithAfter (AObj after) (WithBefore (AObj before) e) ∧
    (∀ k, before !! k = if decide (k ∈ ex_Fields c) then object (pay_Before (ev_Payload e)) !! k else None) ∧
    (∀ k, after !! k = if decide (k ∈ ex_Fields c) then object (pay_After (ev_Payload e)) !! k else None) ∧
    Extract c (put_event p e' h) (Some p) = (Returned (Some p) None, put_event p e' h).
Proof.
  intros Hv He.
  exists (extract_fields (ex_Fields c) (pay_Before (ev_Payload e))),
         (extract_fields (ex_Fields c) (pay_After (ev_Payload e))), (extract_event c e).
  assert (∀ h e, h_events h !! p = Some e →
    Extract c h (Some p) = (Returned (Some p) None, put_event p (extract_event c e) h)) as Hx.
  { intros h' e' H. unfold Extract. rewrite Hv. unfold deref. cbn. by rewrite H. }
  split; [by apply Hx|]. split; [done|]. split; [intros k; apply extract_fields_lookup|].
  split; [intros k; apply extract_fields_lookup|].
  rewrite (Hx _ (extract_event c e)) by apply lookup_insert_eq. f_equal.
  assert (∀ v, extract_fields (ex_Fields c) (AObj (extract_fields (ex_Fields c) v)) = extract_fields (ex_Fields c) v) as Hi.
  { intros v. apply map_eq. intros k. rewrite !extract_fields_lookup. cbn [object].
    rewrite extract_fields_lookup. by destruct (decide _). }
  unfold extract_event at 1. cbn [ev_Payload pay_Before pay_After WithAfter WithBefore set_payload extract_event].
  rewrite !Hi. unfold put_event. cbn [h_events h_fields h_next]. by rewrite insert_insert_eq.
Qed.

(** ** Filter *)

Section Filter.
Context `{RE : Regexp} `{PM : PathMatch}.

Lemma existsb_refs source refs :
  existsb (matchesTableRef source) (parseTableRef <$> refs) = true ↔
  ∃ t, t ∈ refs ∧ matchesTableRef source (parseTableRef t) = true.
Proof.
  rewrite List.existsb_exists. split.
  - intros (r & Hr & Hm). apply list_elem_of_In, list_elem_of_fmap in Hr as (t & -> & Ht). eauto.
  - intros (t & Ht & Hm). exists (parseTableRef t). split; [|done].
    apply list_elem_of_In, list_elem_of_fmap. eauto.
Qed.

(** An empty pattern matches the empty name only. *)
Class PathMatchLaw := { path_match_empty name : path_match "" name = Some (bool_decide (name = "")) }.

(** The tables that a reference names, by its text: [schema.table], with wildcards
    in either part, where a part that is just a star takes any name; [.table] and
    [table] in every schema, without wildcards. A wildcard without a schema names
    nothing, also the single star that the documentation gives for all tables. *)
Definition free (s : string) : Prop := mem_byte s "." = false.
Definition part_takes (part name : string) : Prop := part = "*" ∨ path_match part name = Some true.
Inductive refers (schema table : string) : string → Prop :=
| refers_exact s t :
    free s → free t → mem_byte (s +:+ "." +:+ t) "*" = false → s = "" ∨ s = schema → t = table →
    refers schema table (s +:+ "." +:+ t)
| refers_pattern s t :
    free s → free t → mem_byte (s +:+ "." +:+ t) "*" = true → part_takes s schema → part_takes t table →
    refers schema table (s +:+ "." +:+ t)
| refers_name t :
    (∀ s u, free s → free u → t ≠ s +:+ "." +:+ u) → mem_byte t "*" = false → t = table →
    refers schema table t.

Lemma split_two s t : free s → free t → Split (s +:+ "." +:+ t) "." = [s; t].
Proof. intros Hs Ht. change ("." +:+ t) with (String "." t). by rewrite Split_free, Split_free_all. Qed.

(** A reference has two parts around one dot, or it has not. *)
Lemma ref_cases ref :
  (∃ s t, ref = s +:+ "." +:+ t ∧ free s ∧ free t) ∨
  ((∀ s t, free s → free t → ref ≠ s +:+ "." +:+ t) ∧
   parseTableRef ref = {| ref_schema := ""; ref_table := ref; ref_isGlob := mem_byte ref "*" |}).
Proof.
  pose proof (Join_Split ref ".") as Ej. pose proof (Split_words_free ref ".") as Hf.
  destruct (Split ref ".") as [|a [|b [|d l]]] eqn:E.
  2,4: right; split; [intros s t Hs Ht ->; by rewrite split_two in E|].
  - by destruct (Split_nonempty ref ".").
  - unfold parseTableRef. rewrite E. by rewrite bool_decide_eq_false_2 by (intros ->; done).
  - unfold parseTableRef. rewrite E. by rewrite bool_decide_eq_false_2 by (intros ->; done).
  - left. exists a, b. inversion Hf as [|? ? Ha Hf']; subst. inversion Hf' as [|? ? Hb _]; subst. by split_and!.
Qed.

Lemma matched_true pattern name : matched pattern name = true ↔ path_match pattern name = Some true.
Proof. unfold matched. destruct (path_match pattern name) as [[]|]; naive_solver. Qed.

(** The wildcards of two parts. *)
Lemma glob_parts source s t :
  matchesTableRef source {| ref_schema := s; ref_table := t; ref_isGlob := true |} = true ↔
  part_takes s (src_Schema source) ∧ part_takes t (src_Table source).
Proof.
  unfold matchesTableRef, part_takes. cbn [ref_isGlob ref_schema ref_table].
  destruct (bool_decide_reflect (s = "*")), (bool_decide_reflect (t = "*")); cbn [andb negb];
    rewrite ?andb_true_iff, ?matched_true; naive_solver.
Qed.

(** The code's test is that definition. *)
Lemma matches_refers `{PL : !PathMatchLaw} source ref :
  src_Schema source ≠ "" →
  matchesTableRef source (parseTableRef ref) = true ↔ refers (src_Schema source) (src_Table source) ref.
Proof.
  intros Hne. destruct (ref_cases ref) as [(s & t & -> & Hs & Ht)|[Hno Hp]].
  - assert (parseTableRef (s +:+ "." +:+ t) =
      {| ref_schema := s; ref_table := t; ref_isGlob := mem_byte (s +:+ "." +:+ t) "*" |}) as Hp.
    { unfold parseTableRef. rewrite split_two by done. rewrite !mem_byte_app. change (mem_byte "." "*") with false. cbn [orb].
      case_bool_decide as E; [|done]. assert (Split (s +:+ "." +:+ t) "." = ["*"; "*"]) as E' by (by rewrite E).
      rewrite split_two in E' by done. by injection E' as -> ->. }
    rewrite Hp. split.
    + destruct (mem_byte _ "*") eqn:Hg; [intros [? ?]%glob_parts; by apply refers_pattern|]. unfold matchesTableRef.
      cbn [ref_isGlob ref_schema ref_table]. destruct (negb _ && _) eqn:E; [done|]. intros H%bool_decide_eq_true.
      apply refers_exact; try done. apply andb_false_iff in E as [E|E]; bool_simp; auto.
    + intros H. inversion H as [s' t' Hs' Ht' Hg Hsch Htab E|s' t' Hs' Ht' Hg Hsch Htab E|t' Hno Hg Htab E].
      1,2: apply (f_equal (λ x, Split x ".")) in E; rewrite !split_two in E by done; injection E as -> ->; rewrite Hg.
      * unfold matchesTableRef. cbn [ref_isGlob ref_schema ref_table]. destruct (negb _ && _) eqn:E; [|by apply bool_decide_eq_true].
        apply andb_true_iff in E as [E1 E2]. bool_simp. naive_solver.
      * by apply glob_parts.
      * by destruct (Hno s t).
  - rewrite Hp. destruct (mem_byte ref "*") eqn:Hg.
    + rewrite glob_parts. unfold part_takes. rewrite path_match_empty. split.
      * intros [[?|[= ?%bool_decide_eq_true]] _]; done.
      * intros H. inversion H as [s' t' ? ? ? ? ? E|s' t' ? ? ? ? ? E|]; [by destruct (Hno s' t')..|congruence].
    + unfold matchesTableRef. cbn [ref_isGlob ref_schema ref_table]. rewrite (bool_decide_eq_true_2 ("" = "")) by done.
      cbn [negb andb]. rewrite bool_decide_eq_true. split; [intros ->; by apply refers_name|].
      intros H. inversion H as [s' t' ? ? ? ? ? E|s' t' ? ? ? ? ? E|]; [by destruct (Hno s' t')..|done].
Qed.

(** What a configuration selects: events of named tables and of a listed operation,
    if any are listed, of no table that an excluded reference names, of one that a
    listed reference names, if any are listed, and of a name that the pattern takes,
    if there is one. *)
Record selects (c : FilterConfig) (schema table : string) (op : Operation) : Prop := {
  sel_schema : schema ≠ "";
  sel_table : table ≠ "";
  sel_op : fc_Operations c = [] ∨ op ∈ fc_Operations c;
  sel_exclude t : t ∈ fc_ExcludeTables c → ¬ refers schema table t;
  sel_include : fc_Tables c = [] ∨ ∃ t, t ∈ fc_Tables c ∧ refers schema table t;
  sel_pattern re : fc_TablePattern c ≠ "" → Compile (fc_TablePattern c) = Some re →
    MatchString re (schema +:+ "." +:+ table) = true ∨ MatchString re table = true
}.

Lemma valid_ops c : filter_Validate c = None → "" ∉ fc_Operations c.
Proof.
  unfold filter_Validate. destruct (_ && _); [done|]. destruct (_ && _); [done|].
  destruct (List.find _ _) eqn:E; [done|]. intros _ Hin. apply list_elem_of_In in Hin.
  by apply (List.find_none _ _ E) in Hin.
Qed.

Lemma filter_decide_true `{PL : !PathMatchLaw} c e :
  let source := pay_Source (ev_Payload e) in
  filter_Validate c = None →
  filter_decide c e = Ok true ↔ selects c (src_Schema source) (src_Table source) (pay_Op (ev_Payload e)).
Proof.
  intros source Hops%valid_ops. unfold filter_decide. fold source. set (op := pay_Op (ev_Payload e)).
  destruct (_ || _) eqn:Hne.
  { split; [done|]. intros []. apply orb_true_iff in Hne as [H%bool_decide_eq_true|H%bool_decide_eq_true]; done. }
  apply orb_false_iff in Hne as [Hne%bool_decide_eq_false Hnt%bool_decide_eq_false].
  assert (∀ t, matchesTableRef source (parseTableRef t) = true ↔ refers (src_Schema source) (src_Table source) t) as Href
    by (intros; by apply matches_refers).
  assert ((if bool_decide (fc_Operations c = []) then Ok true
           else if bool_decide (op = "") then Err MissingOperation
           else Ok (bool_decide (op ∈ fc_Operations c))) = Ok true ↔
          fc_Operations c = [] ∨ op ∈ fc_Operations c) as Hop.
  { case_bool_decide as Ho; [naive_solver|]. case_bool_decide as Hop.
    - split; [done|]. intros [?|Hin]; [done|]. rewrite Hop in Hin. done.
    - split; [intros [= ?%bool_decide_eq_true]; by right|]. intros [?|?]; [done|]. by rewrite bool_decide_eq_true_2. }
  destruct (if bool_decide (fc_Operations c = []) then _ else _) as [[]|err]; cbn [res_bind negb];
    [|split; [done | intros Hs; destruct (sel_op _ _ _ _ Hs) as [Hs'|Hs']; (assert (Ok false = Ok true) by (apply Hop; auto)); done]..
     |split; [done | intros Hs; destruct (sel_op _ _ _ _ Hs) as [Hs'|Hs']; (assert (Err err = Ok true) by (apply Hop; auto)); done]].
  destruct (existsb _ (parseTableRef <$> fc_ExcludeTables c)) eqn:Hex.
  { split; [done|]. intros Hs. apply existsb_refs in Hex as (t & Ht & Hm). by apply Href, (sel_exclude _ _ _ _ Hs t Ht) in Hm. }
  assert (∀ t, t ∈ fc_ExcludeTables c → ¬ refers (src_Schema source) (src_Table source) t) as Hexc.
  { intros t Ht Hm%Href. assert (existsb (matchesTableRef source) (parseTableRef <$> fc_ExcludeTables c) = true)
      by (apply existsb_refs; eauto). congruence. }
  clear Hex. destruct (negb (bool_decide (fc_Tables c = [])) && _) eqn:Hin.
  { split; [done|]. intros Hs. bool_simp. destruct (sel_include _ _ _ _ Hs) as [?|(t & Ht & Hm%Href)]; [done|].
    assert (existsb (matchesTableRef source) (parseTableRef <$> fc_Tables c) = true) by (apply existsb_refs; eauto). congruence. }
  assert (fc_Tables c = [] ∨ ∃ t, t ∈ fc_Tables c ∧ refers (src_Schema source) (src_Table source) t) as Hinc.
  { apply andb_false_iff in Hin as [Hin|Hin]; bool_simp; [by left|]. right. apply existsb_refs in Hin as (t & Ht & Hm).
    exists t. split; [done|]. by apply Href. }
  clear Hin. case_bool_decide as Hpat.
  { split; [intros _|done]. constructor; [done | done | by apply Hop | done | done | by intros re Hp]. }
  destruct (Compile (fc_TablePattern c)) as [re|] eqn:Hc.
  - split.
    + intros [= Hm%orb_true_iff]. constructor; [done | done | by apply Hop | done | done | ].
      intros re' _ Hre. rewrite Hc in Hre. by injection Hre as <-.
    + intros Hs. f_equal. apply orb_true_iff. by apply (sel_pattern _ _ _ _ Hs).
  - split; [intros _|done]. constructor; [done | done | by apply Hop | done | done | congruence].
Qed.

(** C36: a valid filter passes on the very event, and changes nothing, exactly
    when it is selected: of a named table, of a listed operation, of no table that an
    excluded reference names, of one that a listed reference names, and of a name
    that the pattern takes; otherwise it returns nil, with an error only when the
    names or the operation are missing. What a reference names is defined by its
    text alone; a wildcard without a schema, such as [*], names no table. *)
Theorem filter_spec `{PL : !PathMatchLaw} c h p e :
  filter_Validate c = None → h_events h !! p = Some e →
  let source := pay_Source (ev_Payload e) in
  let selected := selects c (src_Schema source) (src_Table source) (pay_Op (ev_Payload e)) in
  ∃ o, Filter c h (Some p) = (o, h) ∧
    (selected → o = Returned (Some p) None) ∧
    (¬ selected →
       o = Returned None None ∨
       o = Returned None (Some MissingSource) ∧ (src_Schema source = "" ∨ src_Table source = "") ∨
       o = Returned None (Some MissingOperation) ∧ pay_Op (ev_Payload e) = "" ∧ fc_Operations c ≠ []).
Proof.
  intros Hv He source selected. unfold Filter. rewrite Hv, He. pose proof (filter_decide_true c e Hv) as Hd.
  destruct (filter_decide c e) as [[]|err] eqn:E; (eexists; split; [done|]).
  - split; [done|]. intros []. by apply Hd.
  - split; [intros Hs%Hd; done|]. by left.
  - split; [intros Hs%Hd; done|]. intros _. right. revert E. unfold filter_decide.
    destruct (_ || _) eqn:Hne.
    { intros [= <-]. left. split; [done|].
      apply orb_true_iff in Hne as [H%bool_decide_eq_true|H%bool_decide_eq_true]; auto. }
    intros [E|(b & _ & E)]%res_bind_err; [|by repeat case_match].
    case_bool_decide; [done|]. case_bool_decide; [|done]. injection E as <-. auto.
Qed.

(** ** Table references *)

(** A reference without wildcards names one table, or one table name in every
    schema. *)
Definition dotless (s : string) : Prop := mem_byte s "." = false ∧ s ≠ "".

Lemma exact_ref source t :
  mem_byte t "*" = false → HasPrefix t "." = false → dotless (src_Schema source) → dotless (src_Table source) →
  matchesTableRef source (parseTableRef t) =
    bool_decide (t = src_Table source ∨ t = src_Schema source +:+ "." +:+ src_Table source).
Proof.
  intros Hg Hp [Hs Hs'] [Ht Ht']. unfold parseTableRef.
  rewrite bool_decide_eq_false_2 by (intros ->; done).
  pose proof (Join_Split t ".") as Ej.
  assert (Split (src_Schema source +:+ "." +:+ src_Table source) "." = [src_Schema source; src_Table source]) as Hss
    by (change ("." +:+ ?t) with (String "." t); by rewrite Split_free, Split_free_all).
  assert (Split (src_Table source) "." = [src_Table source]) as Hst by (by apply Split_free_all).
  assert (∀ l, Split t "." = l → (t = src_Table source → l = [src_Table source]) ∧
    (t = src_Schema source +:+ "." +:+ src_Table source → l = [src_Schema source; src_Table source])) as Hl
    by (intros l <-; split; intros ->; done).
  destruct (Split t ".") as [|a [|b [|d l]]] eqn:E; specialize (Hl _ eq_refl) as [Hl1 Hl2].
  - by destruct (Split_nonempty t ".").
  - simpl in Ej. subst a. unfold matchesTableRef. cbn [ref_isGlob ref_schema ref_table]. rewrite Hg.
    rewrite (bool_decide_eq_true_2 ("" = "")) by done. cbn [negb andb].
    apply bool_decide_ext. split; [by left|]. intros [?|H]; [done|]. by apply Hl2 in H.
  - rewrite Join_cons in Ej. cbn [Join] in Ej.
    assert (mem_byte a "*" = false ∧ mem_byte b "*" = false) as [Ha Hb].
    { rewrite <-Ej in Hg. unfold mem_byte in *. apply bool_decide_eq_false in Hg.
      split; apply bool_decide_eq_false; intros Hin; apply Hg; rewrite !chars_app, !elem_of_app; auto. }
    unfold matchesTableRef. cbn [ref_isGlob ref_schema ref_table]. rewrite Ha, Hb. cbn [orb].
    assert (a ≠ "") as Hne by (intros ->; rewrite <-Ej in Hp; done).
    rewrite (bool_decide_eq_false_2 (a = "")) by done. cbn [negb andb].
    case_bool_decide as Ha'; cbn [negb].
    + apply bool_decide_ext. rewrite <-Ej, Ha'. split; [intros ->; by right|].
      intros [H|H]; rewrite <-Ej, Ha' in *; [by apply Hl1 in H | apply Hl2 in H; congruence].
    + symmetry. apply bool_decide_eq_false_2. intros [H|H]; [by apply Hl1 in H | apply Hl2 in H; congruence].
  - unfold matchesTableRef. cbn [ref_isGlob ref_schema ref_table]. rewrite Hg.
    rewrite (bool_decide_eq_true_2 ("" = "")) by done. cbn [negb andb].
    apply bool_decide_ext. split; [by left|]. intros [?|H]; [done|]. by apply Hl2 in H.
Qed.

(** A list of table names without wildcards selects exactly the events of the
    tables that are listed by name, or by schema and name. *)
Theorem exact_tables_filter tables excluded h p e :
  let c := {| fc_TablePattern := ""; fc_Tables := tables; fc_ExcludeTables := excluded; fc_Operations := [] |} in
  let source := pay_Source (ev_Payload e) in
  let names := [src_Table source; src_Schema source +:+ "." +:+ src_Table source] in
  h_events h !! p = Some e → tables ≠ [] →
  Forall (λ t, mem_byte t "*" = false ∧ HasPrefix t "." = false) (tables ++ excluded) →
  dotless (src_Schema source) → dotless (src_Table source) →
  Filter c h (Some p) =
    (if existsb (λ t, bool_decide (t ∈ names)) tables && negb (existsb (λ t, bool_decide (t ∈ names)) excluded)
     then Returned (Some p) None else Returned None None, h).
Proof.
  intros c source names He Hne Hall Hs Ht.
  assert (∀ t, t ∈ tables ++ excluded →
    matchesTableRef source (parseTableRef t) = bool_decide (t ∈ names)) as Href.
  { intros t [Hg Hp]%(proj1 (Forall_forall _ _) Hall). rewrite exact_ref by done.
    apply bool_decide_ext. unfold names. set_solver. }
  assert (∀ l, (∀ t, t ∈ l → t ∈ tables ++ excluded) →
    existsb (matchesTableRef source) (parseTableRef <$> l) = existsb (λ t, bool_decide (t ∈ names)) l) as Hex.
  { induction l as [|t l IH]; intros Hl; [done|]. cbn [fmap list_fmap existsb].
    rewrite Href by (apply Hl; constructor). f_equal. apply IH. intros t' Ht'. apply Hl. by constructor. }
  unfold Filter. assert (filter_Validate c = None) as ->.
  { unfold filter_Validate. cbn. rewrite (bool_decide_eq_false_2 (tables = [])) by done. done. }
  rewrite He. unfold filter_decide. fold source. cbn [fc_Operations fc_ExcludeTables fc_Tables fc_TablePattern c].
  rewrite (bool_decide_eq_false_2 (src_Schema source = "")), (bool_decide_eq_false_2 (src_Table source = ""))
    by (by destruct Hs, Ht). cbn [orb].
  rewrite (bool_decide_eq_true_2 ([] = [])) by done. cbn [res_bind negb].
  rewrite (bool_decide_eq_false_2 (tables = [])) by done. cbn [negb andb].
  rewrite !Hex by (intros; rewrite elem_of_app; auto).
  rewrite (bool_decide_eq_true_2 ("" = "")) by done.
  destruct (existsb _ excluded); [by rewrite andb_false_r|]. by destruct (existsb _ tables).
Qed.

(** A wildcard without a schema selects no event at all, neither [*] nor
    [user*]: the schema is compared with an empty pattern. *)
Theorem bare_wildcard_matches_nothing `{PL : !PathMatchLaw} source ref :
  mem_byte ref "*" = true → mem_byte ref "." = false → src_Schema source ≠ "" →
  matchesTableRef source (parseTableRef ref) = false.
Proof.
  intros Hg Hd Hs. unfold parseTableRef. rewrite bool_decide_eq_false_2 by (intros ->; done).
  rewrite Split_free_all by done. unfold matchesTableRef. cbn [ref_isGlob ref_schema ref_table]. rewrite Hg.
  rewrite (bool_decide_eq_false_2 ("" = "*")) by done. cbn [negb andb].
  assert (matched "" (src_Schema source) = false) as Hm.
  { unfold matched. rewrite path_match_empty. by rewrite bool_decide_eq_false_2. }
  rewrite Hm. by destruct (bool_decide (ref = "*")).
Qed.

End Filter.

(** ** Replace *)

Section Replace.
Context `{RE : Regexp} `{GR : GoRange}.

Definition one_to_one (replacements : gmap string string) (m : gmap string any) : Prop :=
  ∀ k k', is_Some (m !! k) → is_Some (m !! k') →
    new_name replacements k = new_name replacements k' → k = k'.

Lemma rename_fold replacements l acc :
  NoDup (new_name replacements <$> l.*1) →
  foldl (λ (newMap : gmap string any) '(k, v), <[new_name replacements k := v]> newMap) acc l =
  list_to_map ((λ kv, (new_name replacements kv.1, kv.2)) <$> l) ∪ acc.
Proof.
  revert acc. induction l as [|[k v] l IH]; intros acc; cbn [fmap list_fmap foldl].
  { intros _. symmetry. exact (left_id_L ∅ (∪) acc). }
  intros [Hk Hl]%NoDup_cons. rewrite IH by done. rewrite list_to_map_cons. cbn [fst snd].
  rewrite <-insert_union_l, <-insert_union_r; [done|]. apply not_elem_of_list_to_map_1.
  rewrite <-list_fmap_compose in *. intros Hin. apply Hk.
  apply list_elem_of_fmap in Hin as ([k' v'] & E & Hin). cbn in E.
  apply list_elem_of_fmap. exists k'. split; [done|]. apply list_elem_of_fmap. by exists (k', v').
Qed.

(** When no two columns get one name, renaming keeps every value, each under
    its new name, whatever the order in which the map is visited. *)
Theorem replaceMapKeys_spec replacements m :
  one_to_one replacements m →
  ∃ m', replaceMapKeys (AObj m) replacements = AObj m' ∧ size m' = size m ∧
    (∀ k v, m' !! k = Some v ↔ ∃ k', m !! k' = Some v ∧ new_name replacements k' = k).
Proof.
  intros Hinj. unfold replaceMapKeys. eexists. split; [done|].
  assert (∀ kv, kv ∈ range m ↔ m !! kv.1 = Some kv.2) as Hin
    by (intros [k v]; by rewrite range_perm, elem_of_map_to_list).
  assert (NoDup (range m).*1) as Hnd by (rewrite range_perm; apply NoDup_fst_map_to_list).
  assert (NoDup (new_name replacements <$> (range m).*1)) as Hnd'.
  { apply (NoDup_fmap_2_strong (new_name replacements)); [|done]. intros k k' Hk Hk'. 
    apply list_elem_of_fmap in Hk as ([? v] & -> & Hk%Hin). apply list_elem_of_fmap in Hk' as ([? v'] & -> & Hk'%Hin).
    apply Hinj; cbn in *; eauto. }
  rewrite rename_fold by done. rewrite (right_id_L ∅ (∪)).

  assert (NoDup (((λ kv, (new_name replacements kv.1, kv.2)) <$> range m).*1)) as Hnd''
    by (rewrite <-list_fmap_compose in Hnd'; rewrite <-list_fmap_compose; exact Hnd').
  split.
  - rewrite <-!length_map_to_list, (Permutation_length (map_to_list_to_map _ Hnd'')).
    by rewrite length_fmap, (Permutation_length (range_perm m)).
  - intros k v. rewrite <-elem_of_list_to_map by done. rewrite list_elem_of_fmap. split.
    + intros ([k' v'] & [= -> ->] & Hk%Hin). eauto.
    + intros (k' & Hk & <-). exists (k', v). split; [done|]. by apply Hin.
Qed.

(** Replace leaves the event it is given as it was and returns a new one with
    the source renamed; what the two share is the array of schema fields, which
    a renaming of columns writes to. *)
Theorem replace_spec c h p e :
  replace_Validate c = None → h_events h !! p = Some e → h_events h !! h_next h = None →
  ∃ e' h', Replace c h (Some p) = (Returned (Some (h_next h)) None, h') ∧
    h_events h' = <[h_next h := e']> (h_events h) ∧ h_events h' !! p = Some e ∧
    pay_Source (ev_Payload e') = replace_source c (pay_Source (ev_Payload e)) ∧
    ev_Schema e' = ev_Schema e ∧ pay_Op (ev_Payload e') = pay_Op (ev_Payload e) ∧
    (rc_Columns c = ∅ → h_fields h' = h_fields h ∧
       pay_Before (ev_Payload e') = pay_Before (ev_Payload e) ∧ pay_After (ev_Payload e') = pay_After (ev_Payload e)) ∧
    (rc_Columns c ≠ ∅ →
       pay_Before (ev_Payload e') = replaceMapKeys (pay_Before (ev_Payload e)) (rc_Columns c) ∧
       pay_After (ev_Payload e') = replaceMapKeys (pay_After (ev_Payload e)) (rc_Columns c) ∧
       ∀ l, sch_Fields (ev_Schema e) = Some l →
         h_fields h' !! l = Some (rename_field (rc_Columns c) <$> default [] (h_fields h !! l))).
Proof.
  intros Hv He Hfree. assert (h_next h ≠ p) as Hne by congruence.
  unfold Replace, deref. rewrite Hv. cbn [mbind option_bind]. rewrite He. cbn [mbind option_bind].
  case_bool_decide as Hc.
  - eexists _, _. split; [reflexivity|]. cbn [h_events]. split; [reflexivity|].
    rewrite lookup_insert_ne by done. by split_and!.
  - destruct (sch_Fields (ev_Schema e)) as [l|] eqn:El; cbn [ev_Schema WithSource WithBefore WithAfter set_payload];
      rewrite El; (eexists _, _; split; [reflexivity|]); cbn [alloc put_fields h_events h_fields h_next];
      (split; [reflexivity|]); rewrite lookup_insert_ne by done; split_and!; try done.
    intros _. split_and!; try done. intros l' [= <-]. apply lookup_insert_eq.
Qed.

End Replace.

(** A renaming onto a column that exists loses one of the two values, and which
    one depends on the order of the visit. *)
Example renamed_columns_collide :
  let m := AObj {["a" := ABool true; "b" := ABool false]} in
  replaceMapKeys (GR := range_up) m {["a" := "b"]} ≠ replaceMapKeys (GR := range_down) m {["a" := "b"]}.
Proof. intros m. vm_compute. discriminate. Qed.

(** ** Chains *)

Section Chain.
Context `{RE : Regexp} `{PM : PathMatch} `{GR : GoRange} `{MS : Mapstructure}.

(** Chains compose: running one list after the other is running the joined
    list, which stops where the first one stops. *)
Theorem run_chain_app fs gs h p :
  run_chain (fs ++ gs) h (Some p) =
  match run_chain fs h (Some p) with
  | (Returned (Some q) None, h') => run_chain gs h' (Some q)
  | stopped => stopped
  end.
Proof.
  revert h p. induction fs as [|f fs IH]; intros h p; [done|]. cbn [app run_chain].
  destruct (f h (Some p)) as [[[q|] [err|]|] h']; try done.
Qed.

(** [keeps h p h']: from [h] to [h'], only the event at [p] may have changed and
    events may have been added. *)
Record keeps (h : Heap) (p : nat) (h' : Heap) : Prop := {
  keep_events q : q ≠ p → (q < h_next h)%nat → h_events h' !! q = h_events h !! q;
  keep_next : (h_next h ≤ h_next h')%nat;
  keep_bound : (∀ q, is_Some (h_events h !! q) → (q < h_next h)%nat) →
               ∀ q, is_Some (h_events h' !! q) → (q < h_next h')%nat
}.

Definition renames_columns (c : TransformConfig) : bool :=
  match c with ReplaceC c => negb (bool_decide (rc_Columns c = ∅)) | _ => false end.

Definition in_heap (h : Heap) : Prop := ∀ q, is_Some (h_events h !! q) → (q < h_next h)%nat.

(** The outcomes of a transformation on a live event. *)
Definition live_outcome (p : nat) (h h' : Heap) (o : outcome) : Prop :=
  match o with
  | Panicked => False
  | Returned (Some q) None => is_Some (h_events h' !! q) ∧ (q = p ∨ (h_next h ≤ q)%nat)
  | Returned _ _ => True
  end.

(** What one transformation does to the heap, whatever its type. *)
(** The registered factory gets the configuration of its own type. *)
Lemma builtin_step (r : gmap string (TransformConfig → Func)) f t :
  chain_step (RegisterBuiltins r) t = Ok f →
  ∃ c, ToConfig t = Ok c ∧
    f = match c with ExtractC c => Extract c | FilterC c => Filter c | ReplaceC c => Replace c end.
Proof.
  unfold chain_step. intros (factory & Hg & (c & Hc & [= <-])%res_bind_ok)%res_bind_ok.
  exists c. split; [done|]. unfold ToConfig in Hc. unfold Get, RegisterBuiltins, Register in Hg.
  case_bool_decide as H1; [|case_bool_decide as H2; [|case_bool_decide as H3; [|done]]].
  - rewrite H1, !lookup_insert_ne, lookup_insert_eq in Hg by done. injection Hg as <-.
    destruct (decode_extract _); [|done]. by injection Hc as <-.
  - rewrite H2, lookup_insert_ne, lookup_insert_eq in Hg by done. injection Hg as <-.
    destruct (decode_filter _); [|done]. by injection Hc as <-.
  - rewrite H3, lookup_insert_eq in Hg. injection Hg as <-.
    destruct (decode_replace _); [|done]. by injection Hc as <-.
Qed.

Lemma keeps_refl h p : keeps h p h.
Proof. by constructor. Qed.

Lemma keeps_put h p e : is_Some (h_events h !! p) → keeps h p (put_event p e h).
Proof.
  intros Hp. constructor; cbn [put_event h_events h_next]; [|done|].
  - intros q Hq _. by rewrite lookup_insert_ne.
  - intros Hin q Hq. apply Hin. destruct (decide (q = p)) as [->|Hne]; [done|].
    by rewrite lookup_insert_ne in Hq.
Qed.

Lemma keeps_alloc h p e : keeps h p (alloc e h).2.
Proof.
  constructor; cbn [alloc snd h_events h_next]; [|lia|].
  - intros q _ Hq. rewrite lookup_insert_ne; [done | lia].
  - intros Hin q Hq. destruct (decide (q = h_next h)) as [->|Hne]; [lia|].
    rewrite lookup_insert_ne in Hq by done. apply Hin in Hq. lia.
Qed.

(** What one transformation does to the heap, whatever its type. *)
Lemma builtin_frame c h p :
  is_Some (h_events h !! p) →
  let f := match c with ExtractC c => Extract c | FilterC c => Filter c | ReplaceC c => Replace c end in
  let '(o, h') := f h (Some p) in
  live_outcome p h h' o ∧ keeps h p h' ∧ (renames_columns c = false → h_fields h' = h_fields h).
Proof.
  intros Hp. destruct c as [c|c|c]; cbv zeta.
  - unfold Extract, deref. destruct (extract_Validate c); [split_and!; [done | apply keeps_refl | done]|].
    destruct Hp as [e He]. cbn [mbind option_bind]. rewrite He. cbn [mbind option_bind].
    split_and!; [split; [cbn; rewrite lookup_insert_eq; eauto | by left] | apply keeps_put; eauto | done].
  - unfold Filter. destruct (filter_Validate c); [split_and!; [done | apply keeps_refl | done]|].
    destruct Hp as [e He]. rewrite He. destruct (filter_decide c e) as [[]|];
      (split_and!; [try done | apply keeps_refl | done]). split; [eauto | by left].
  - unfold Replace, deref. destruct (replace_Validate c); [split_and!; [done | apply keeps_refl | done]|].
    destruct Hp as [e He]. cbn [mbind option_bind]. rewrite He. cbn [mbind option_bind renames_columns].
    assert (∀ h1 e1, h_events h1 = h_events h → h_next h1 = h_next h →
      live_outcome p h (alloc e1 h1).2 (Returned (Some (alloc e1 h1).1) None) ∧ keeps h p (alloc e1 h1).2) as Ha.
    { intros h1 e1 E1 E2. split; [split|].
      - cbn. by rewrite lookup_insert_eq.
      - right. cbn. by rewrite E2.
      - destruct (keeps_alloc h1 p e1) as [H1 H2 H3]. constructor; [|by rewrite <-E2|].
        + intros q Hq Hlt. rewrite <-E1. apply H1; [done | by rewrite E2].
        + intros Hin. apply H3. by rewrite E1, E2. }
    case_bool_decide as Hc.
    + destruct (Ha h (WithSource (replace_source c (pay_Source (ev_Payload e))) e) eq_refl eq_refl) as [H1 H2].
      by split_and!.
    + cbv zeta. match goal with |- context [alloc ?e1 ?h1] => destruct (Ha h1 e1) as [H1 H2] end;
        [by destruct (sch_Fields _)..|]. by split_and!.
Qed.

Lemma keeps_trans h p h1 q h2 :
  (q = p ∨ (h_next h ≤ q)%nat) → keeps h p h1 → keeps h1 q h2 → keeps h p h2.
Proof.
  intros Hq [He Hn Hb] [He' Hn' Hb']. constructor; [|lia|by auto].
  intros x Hx Hlt. rewrite He' by lia. by apply He.
Qed.

(** A chain of the built-in transformations run on a live event never
    panics; it ends in an error, in nil, or in a live event, which is the given
    one or a new one; no other event of the heap changes; and unless a column
    is renamed, no array of schema fields changes either. *)
Theorem chain_frame r ts f h p :
  Chain (RegisterBuiltins r) ts = Ok f → is_Some (h_events h !! p) → in_heap h →
  let '(o, h') := f h (Some p) in
  live_outcome p h h' o ∧ (∀ q err, o ≠ Returned (Some q) (Some err)) ∧ keeps h p h' ∧
  (Forall (λ t, ∀ c, ToConfig t = Ok c → renames_columns c = false) ts → h_fields h' = h_fields h).
Proof.
  unfold Chain. intros (fs & Hfs%mapM_res_ok & [= <-])%res_bind_ok. revert h p.
  induction Hfs as [|t f ts fs Ht _ IH]; intros h p Hp Hin; cbn [run_chain].
  { split_and!; [split; [done | by left] | done | apply keeps_refl | done]. }
  apply builtin_step in Ht as (c & Hc & ->). pose proof (builtin_frame c h p Hp) as Hf. cbv zeta in Hf.
  destruct (_ h (Some p)) as [[[q|] [err|]|] h1]; destruct Hf as (Hl & Hk & Hfields);
    try (split_and!; [done | done | done | intros Hall%Forall_cons_1; destruct Hall; auto]); [].
  destruct Hl as [Hq Hqp]. specialize (IH h1 q Hq (keep_bound _ _ _ Hk Hin)).
  destruct (run_chain fs h1 (Some q)) as [o h2]. destruct IH as (Hl' & Herr & Hk' & Hf').
  split_and!; [|exact Herr|exact (keeps_trans _ _ _ _ _ Hqp Hk Hk')|].
  - destruct o as [[x|] [err|]|]; try done. destruct Hl' as [Hx Hxq]. split; [done|].
    pose proof (keep_next _ _ _ Hk). destruct Hxq as [->|?]; [done|]. right. lia.
  - intros [Ht Hall]%Forall_cons_1. rewrite Hf' by done. by apply Hfields, Ht.
Qed.

End Chain.

(** ** Witnesses *)

Definition no_regexp : Regexp :=
  {| regexp := unit; Compile := λ _, None; MatchString := λ _ _, false; ReplaceAllString := λ _ s _, s |}.
(** Patterns without brackets, with one wildcard at most. *)
Definition star_match : PathMatch := {|
  path_match := λ pattern name,
    Some (match IndexByte pattern "*" with
          | None => bool_decide (pattern = name)
          | Some i => HasPrefix name (take i pattern) && HasSuffix name (drop (S i) pattern)
          end) |}.
Lemma star_match_law : PathMatchLaw (PM := star_match).
Proof. split. intros name. cbn. f_equal. apply bool_decide_ext. naive_solver. Qed.

Definition strings_of (v : any) : list string :=
  match v with AArr l => omap (λ x, match x with AStr s => Some s | _ => None end) l | _ => [] end.
Definition string_map_of (v : any) : gmap string string :=
  match v with AObj m => omap (λ x, match x with AStr s => Some s | _ => None end) m | _ => ∅ end.
Definition field_of (k : string) (m : gmap string any) : any := default ANil (m !! k).
Definition plain_decode : Mapstructure := {|
  decode_extract := λ m, Some {| ex_Fields := strings_of (field_of "fields" m) |};
  decode_filter := λ m, Some {| fc_TablePattern := ""; fc_Tables := strings_of (field_of "tables" m);
    fc_ExcludeTables := strings_of (field_of "excludeTables" m); fc_Operations := strings_of (field_of "operations" m) |};
  decode_replace := λ m, Some {| rc_Schemas := string_map_of (field_of "schemas" m);
    rc_Tables := string_map_of (field_of "tables" m); rc_Columns := string_map_of (field_of "columns" m);
    rc_Regex := [] |} |}.

(** An insert into [public.users], with an array of schema fields. *)
Definition users_source : Source :=
  source_WithTable "users" (source_WithSchema "public" (NewSourceBuilder "postgres" "pg")).
Definition user_event : Event :=
  set_schema {| sch_Type := "struct"; sch_Optional := false; sch_Name := "users"; sch_Fields := Some 0%nat |}
    (WithAfter (AObj {["id" := AInt KInt64 7; "name" := AStr "ann"]})
      (WithOperation OpCreate (WithSource users_source NewEventBuilder))).
Definition user_fields : list Field :=
  [mkField "id" "int64" false "" []; mkField "name" "string" true "name" []].
Definition user_heap : Heap := {| h_events := {[0%nat := user_event]}; h_fields := {[0%nat := user_fields]}; h_next := 1 |}.

Lemma extract_spec_witness :
  ∃ e', Extract {| ex_Fields := ["name"; "age"] |} user_heap (Some 0%nat) = (Returned (Some 0%nat) None, put_event 0 e' user_heap) ∧
    object (pay_After (ev_Payload e')) !! "name" = Some (AStr "ann") ∧
    object (pay_After (ev_Payload e')) !! "id" = None.
Proof.
  destruct (extract_spec {| ex_Fields := ["name"; "age"] |} user_heap 0 user_event eq_refl eq_refl)
    as (before & after & e' & Hx & -> & _ & Ha & _).
  eexists. split; [exact Hx|]. cbn [WithAfter set_payload ev_Payload pay_After object]. rewrite !Ha.
  split; vm_compute; reflexivity.
Defined.

Definition users_only : FilterConfig :=
  {| fc_TablePattern := ""; fc_Tables := ["public.users"]; fc_ExcludeTables := []; fc_Operations := ["c"] |}.

Lemma filter_spec_witness :
  selects (RE := no_regexp) (PM := star_match) users_only "public" "users" "c" ∧
  Filter (RE := no_regexp) (PM := star_match) users_only user_heap (Some 0%nat) = (Returned (Some 0%nat) None, user_heap).
Proof.
  assert (selects (RE := no_regexp) (PM := star_match) users_only "public" "users" "c") as Hs.
  { constructor; cbn; try discriminate.
    - right. constructor.
    - intros t Ht. by apply elem_of_nil in Ht.
    - right. exists "public.users". split; [constructor|]. by apply (refers_exact (PM := star_match) "public" "users" "public" "users"); [..|right|]. }
  split; [exact Hs|].
  destruct (filter_spec (RE := no_regexp) (PM := star_match) (PL := star_match_law) users_only user_heap 0 user_event) as (o & -> & H & _);
    [vm_compute; reflexivity..|]. by rewrite (H Hs).
Defined.

(** A star alone names no table, unlike the documentation's example of it. *)
Example star_names_nothing : ¬ refers (PM := star_match) "public" "users" "*".
Proof.
  intros H. apply (matches_refers (PM := star_match) (PL := star_match_law) users_source "*") in H; [|done].
  vm_compute in H. discriminate H.
Qed.

Lemma exact_tables_filter_witness :
  Filter (RE := no_regexp) (PM := star_match)
    {| fc_TablePattern := ""; fc_Tables := ["users"; "app.users"]; fc_ExcludeTables := ["public.users"]; fc_Operations := [] |}
    user_heap (Some 0%nat) = (Returned None None, user_heap).
Proof.
  rewrite (exact_tables_filter (RE := no_regexp) (PM := star_match) ["users"; "app.users"] ["public.users"]
    user_heap 0 user_event).
  - reflexivity.
  - reflexivity.
  - discriminate.
  - repeat constructor.
  - split; [vm_compute; reflexivity | discriminate].
  - split; [vm_compute; reflexivity | discriminate].
Defined.

Lemma bare_wildcard_matches_nothing_witness :
  matchesTableRef (PM := star_match) users_source (parseTableRef "*") = false ∧
  matchesTableRef (PM := star_match) users_source (parseTableRef "user*") = false.
Proof.
  split; apply (bare_wildcard_matches_nothing (PM := star_match) (PL := star_match_law)); vm_compute;
    try reflexivity; discriminate.
Defined.

Lemma replaceMapKeys_spec_witness :
  ∃ m', replaceMapKeys (GR := range_down) (AObj {["a" := ABool true; "b" := ABool false]}) {["a" := "b"; "b" := "a"]} = AObj m' ∧
    m' !! "b" = Some (ABool true) ∧ m' !! "a" = Some (ABool false).
Proof.
  destruct (replaceMapKeys_spec (GR := range_down) {["a" := "b"; "b" := "a"]}
    {["a" := ABool true; "b" := ABool false]}) as (m' & Hm & _ & Hk).
  - intros k k' [v Hk] [v' Hk'].
    rewrite lookup_insert_Some, lookup_singleton_Some in Hk. rewrite lookup_insert_Some, lookup_singleton_Some in Hk'.
    destruct Hk as [[<- _]|[_ [<- _]]], Hk' as [[<- _]|[_ [<- _]]]; vm_compute; try reflexivity; discriminate.
  - exists m'. split; [exact Hm|]. split; apply Hk; [exists "a" | exists "b"]; split; vm_compute; reflexivity.
Defined.

Definition rename_id : ReplaceConfig :=
  {| rc_Schemas := {["public" := "app"]}; rc_Tables := ∅; rc_Columns := {["id" := "key"]}; rc_Regex := [] |}.

Lemma replace_spec_witness :
  ∃ e' h', Replace (RE := no_regexp) (GR := range_up) rename_id user_heap (Some 0%nat) = (Returned (Some 1%nat) None, h') ∧
    h_events h' !! 1%nat = Some e' ∧ src_Schema (pay_Source (ev_Payload e')) = "app" ∧
    fld_Field <$> default [] (h_fields h' !! 0%nat) = ["key"; "name"].
Proof.
  destruct (replace_spec (RE := no_regexp) (GR := range_up) rename_id user_heap 0 user_event)
    as (e' & h' & Hr & He & _ & Hs & _ & _ & _ & Hf); [vm_compute; reflexivity..|].
  exists e', h'. split; [exact Hr|]. split; [rewrite He; apply lookup_insert_eq|]. rewrite Hs.
  split; [vm_compute; reflexivity|].
  destruct Hf as (_ & _ & Hl); [vm_compute; discriminate|]. rewrite (Hl 0%nat eq_refl). vm_compute. reflexivity.
Defined.

Definition filter_and_extract : list Transformation :=
  [{| tr_Config := {["tables" := AArr [AStr "public.users"]]}; tr_Type := "filter" |};
   {| tr_Config := {["fields" := AArr [AStr "name"]]}; tr_Type := "extract" |}].

Definition demo_chain (ts : list Transformation) : res transform_error Func :=
  Chain (MS := plain_decode) (RegisterBuiltins (RE := no_regexp) (PM := star_match) (GR := range_up) ∅) ts.

Lemma chain_frame_witness :
  ∃ f, demo_chain filter_and_extract = Ok f ∧
    let '(o, h') := f user_heap (Some 0%nat) in o ≠ Panicked ∧ h_fields h' = h_fields user_heap.
Proof.
  assert (∃ f, demo_chain filter_and_extract = Ok f) as [f Hf] by (eexists; reflexivity).
  exists f. split; [exact Hf|].
  assert (in_heap user_heap) as Hin.
  { intros q [e Hq]. cbn in Hq. apply lookup_singleton_Some in Hq as [<- _]. cbn. lia. }
  pose proof (chain_frame (RE := no_regexp) (PM := star_match) (GR := range_up) (MS := plain_decode) ∅
    filter_and_extract f user_heap 0 Hf (ltac:(eexists; reflexivity)) Hin) as H.
  destruct (f user_heap (Some 0%nat)) as [o h']. destruct H as (Hl & _ & _ & H). split.
  - intros ->. exact Hl.
  - apply H. repeat constructor; intros c Hc; vm_compute in Hc; injection Hc as <-; reflexivity.
Defined.
