(* ===== verification/Crud.v ===== *)
(** * Crud: rows written from maps, [pkg/pgx/crud.go].

    The statements are built while a Go map is visited, in an order the runtime
    chooses (class [GoRange]). The connection is an argument: what it answers to a
    statement may depend on the statements before. *)

From S2P Require Import Prelude GoStrings GoStringFacts SqlText GoAny FilterSQL FilterTests FilterBinds.
Local Open Scope Z_scope.

(** [conn.Exec]: the number of rows affected. *)
Class PgxConn := { conn_Exec : list (string * argList) → string → argList → res string Z }.

Inductive crud_error :=
| BadData | InsertFailed (e : string) | UpdateFailed (e : string) | NoWhere | NoRowsUpdated | BadJSON.

Record queryBuilder := {
  qb_schema : string;
  qb_table : string;
  qb_columns : list string;
  qb_values : list any;
  qb_nextIndex : Z
}.

Definition newQueryBuilder (tableName : string) (schema : list string) : queryBuilder :=
  let schemaName := match schema with
                    | s :: _ => if bool_decide (s = "") then "public" else s
                    | [] => "public"
                    end in
  {| qb_schema := schemaName; qb_table := tableName; qb_columns := []; qb_values := []; qb_nextIndex := 1 |}.

Definition addValue (column : string) (value : any) (qb : queryBuilder) : queryBuilder :=
  {| qb_schema := qb_schema qb; qb_table := qb_table qb; qb_columns := qb_columns qb ++ [column];
     qb_values := qb_values qb ++ [value]; qb_nextIndex := qb_nextIndex qb |}.

Definition placeholder (qb : queryBuilder) : string * queryBuilder :=
  (String "$" (Itoa (qb_nextIndex qb)),
   {| qb_schema := qb_schema qb; qb_table := qb_table qb; qb_columns := qb_columns qb;
      qb_values := qb_values qb; qb_nextIndex := qb_nextIndex qb + 1 |}).

Section Crud.
Context `{PI : PgxIdentifier} `{GR : GoRange} `{PC : PgxConn}.

Definition tableIdentifier (qb : queryBuilder) : string := Sanitize [qb_schema qb; qb_table qb].

(** The body of the loop of [InsertRow]. *)
Definition insert_step (st : list string * list string * queryBuilder) (kv : string * any)
    : list string * list string * queryBuilder :=
  let '(columns, placeholders, qb) := st in
  let '(key, value) := kv in
  let '(ph, qb) := placeholder qb in
  (columns ++ [Sanitize [key]], placeholders ++ [ph], addValue "" value qb).

(** The error, and the statements run. *)
Definition InsertRow (tableName : string) (data : any) (schema : list string)
    (log : list (string * argList)) : option crud_error * list (string * argList) :=
  let qb := newQueryBuilder tableName schema in
  match data with
  | AObj dataMap =>
      let '(columns, placeholders, qb) := foldl insert_step ([], [], qb) (range dataMap) in
      let query := "INSERT INTO " +:+ tableIdentifier qb +:+ " (" +:+ Join columns ", " +:+
                   ") VALUES (" +:+ Join placeholders ", " +:+ ")" in
      match conn_Exec log query (qb_values qb) with
      | Err e => (Some (InsertFailed e), log ++ [(query, qb_values qb)])
      | Ok _ => (None, log ++ [(query, qb_values qb)])
      end
  | _ => (Some BadData, log)
  end.

(** The body of the two loops of [UpdateRow]. *)
Definition assign_step (st : list string * queryBuilder) (kv : string * any) : list string * queryBuilder :=
  let '(clauses, qb) := st in
  let '(key, value) := kv in
  let '(ph, qb) := placeholder qb in
  (clauses ++ [Sanitize [key] +:+ " = " +:+ ph], addValue "" value qb).

Definition UpdateRow (tableName : string) (data : any) (where_ : gmap string any) (schema : list string)
    (log : list (string * argList)) : option crud_error * list (string * argList) :=
  let qb := newQueryBuilder tableName schema in
  match data with
  | AObj dataMap =>
      let '(setClauses, qb) := foldl assign_step ([], qb) (range dataMap) in
      let '(whereClauses, qb) := foldl assign_step ([], qb) (range where_) in
      if bool_decide (length whereClauses = 0%nat) then (Some NoWhere, log) else
      let query := "UPDATE " +:+ tableIdentifier qb +:+ " SET " +:+ Join setClauses ", " +:+
                   " WHERE " +:+ Join whereClauses " AND " in
      match conn_Exec log query (qb_values qb) with
      | Err e => (Some (UpdateFailed e), log ++ [(query, qb_values qb)])
      | Ok n => (if n =? 0 then Some NoRowsUpdated else None, log ++ [(query, qb_values qb)])
      end
  | _ => (Some BadData, log)
  end.

(** [json.Unmarshal] into a map: an object, or null for a nil map. *)
Context (json_unmarshal : string → option any).
Definition parseJSON (data : string) : option (gmap string any) :=
  match json_unmarshal data with
  | Some (AObj m) => Some m
  | Some ANil => Some ∅
  | _ => None
  end.

Definition InsertRowJSON (tableName jsonData : string) (schema : list string) (log : list (string * argList)) :=
  match parseJSON jsonData with
  | None => (Some BadJSON, log)
  | Some m => InsertRow tableName (AObj m) schema log
  end.
Definition UpdateRowJSON (tableName jsonData : string) (where_ : gmap string any) (schema : list string)
    (log : list (string * argList)) :=
  match parseJSON jsonData with
  | None => (Some BadJSON, log)
  | Some m => UpdateRow tableName (AObj m) where_ schema log
  end.

(** ** The statements *)

(** An assignment to the [i]-th parameter. *)
Definition assign (i : nat) (key : string) : string := Sanitize [key] +:+ " = " +:+ dollar i.
(** The keys with their places from [n] on. *)
Definition assigns (n : nat) (l : list (string * any)) : list string :=
  imap (λ i kv, assign (n + i) kv.1) l.

Lemma insert_fold l columns phs qb n :
  qb_nextIndex qb = Z.of_nat n →
  foldl insert_step (columns, phs, qb) l =
    (columns ++ ((λ kv, Sanitize [kv.1]) <$> l), phs ++ (dollar <$> seq n (length l)),
     {| qb_schema := qb_schema qb; qb_table := qb_table qb;
        qb_columns := qb_columns qb ++ replicate (length l) ""; qb_values := qb_values qb ++ l.*2;
        qb_nextIndex := Z.of_nat (n + length l) |}).
Proof.
  revert columns phs qb n. induction l as [|[k v] l IH]; intros columns phs qb n Hn.
  - simpl. rewrite !app_nil_r, Nat.add_0_r, <-Hn. by destruct qb.
  - cbn [foldl insert_step placeholder]. rewrite (IH _ _ _ (S n)) by (simpl; lia).
    cbn [addValue qb_schema qb_table qb_columns qb_values qb_nextIndex fmap list_fmap length seq replicate].
    rewrite <-!app_assoc, Hn. by rewrite Nat.add_succ_comm.
Qed.

Lemma assign_fold l clauses qb n :
  qb_nextIndex qb = Z.of_nat n →
  foldl assign_step (clauses, qb) l =
    (clauses ++ assigns n l,
     {| qb_schema := qb_schema qb; qb_table := qb_table qb;
        qb_columns := qb_columns qb ++ replicate (length l) ""; qb_values := qb_values qb ++ l.*2;
        qb_nextIndex := Z.of_nat (n + length l) |}).
Proof.
  revert clauses qb n. induction l as [|[k v] l IH]; intros clauses qb n Hn.
  - unfold assigns. simpl. rewrite !app_nil_r, Nat.add_0_r, <-Hn. by destruct qb.
  - cbn [foldl assign_step placeholder]. rewrite (IH _ _ (S n)) by (simpl; lia).
    cbn [addValue qb_schema qb_table qb_columns qb_values qb_nextIndex fmap list_fmap length replicate].
    unfold assigns. rewrite imap_cons, <-!app_assoc, Nat.add_succ_comm, Nat.add_0_r, Hn. do 3 f_equal.
    apply imap_ext. intros i x _. unfold compose. by rewrite Nat.add_succ_comm.
Qed.

Definition table_of (tableName : string) (schema : list string) : string :=
  tableIdentifier (newQueryBuilder tableName schema).

Definition insert_sql (table : string) (l : list (string * any)) : string :=
  "INSERT INTO " +:+ table +:+ " (" +:+ Join ((λ kv, Sanitize [kv.1]) <$> l) ", " +:+
  ") VALUES (" +:+ Join (dollar <$> seq 1 (length l)) ", " +:+ ")".
Definition update_sql (table : string) (l lw : list (string * any)) : string :=
  "UPDATE " +:+ table +:+ " SET " +:+ Join (assigns 1 l) ", " +:+
  " WHERE " +:+ Join (assigns (S (length l)) lw) " AND ".

Lemma InsertRow_eq tableName m schema log :
  InsertRow tableName (AObj m) schema log =
    let query := insert_sql (table_of tableName schema) (range m) in
    (match conn_Exec log query (range m).*2 with Err e => Some (InsertFailed e) | Ok _ => None end,
     log ++ [(query, (range m).*2)]).
Proof.
  unfold InsertRow. rewrite (insert_fold _ _ _ _ 1) by done. cbv zeta. cbn [qb_values app].
  by destruct (conn_Exec _ _ _).
Qed.

Lemma UpdateRow_eq tableName m where_ schema log :
  UpdateRow tableName (AObj m) where_ schema log =
    if bool_decide (where_ = ∅) then (Some NoWhere, log) else
    let query := update_sql (table_of tableName schema) (range m) (range where_) in
    let args := (range m).*2 ++ (range where_).*2 in
    (match conn_Exec log query args with
     | Err e => Some (UpdateFailed e)
     | Ok n => if n =? 0 then Some NoRowsUpdated else None
     end, log ++ [(query, args)]).
Proof.
  unfold UpdateRow. rewrite (assign_fold _ _ _ 1) by done. cbn iota beta.
  rewrite (assign_fold _ _ _ (S (length (range m)))) by done. cbn [app qb_values newQueryBuilder].
  replace (bool_decide (length (assigns (S (length (range m))) (range where_)) = 0%nat))
    with (bool_decide (where_ = ∅)).
  2:{ apply bool_decide_ext. unfold assigns. rewrite length_imap, (Permutation_length (range_perm where_)).
      rewrite length_map_to_list. symmetry. apply map_size_empty_iff. }
  case_bool_decide; [done|]. cbv zeta. by destruct (conn_Exec _ _ _).
Qed.

Context `{PL : !PgxIdentifierLaw}.

Lemma assign_piece i key : sql_piece (assign i key) [Z.of_nat i].
Proof.
  apply (sql_closed_app _ _ []); [apply sanitize_closed|].
  apply (sql_closed_app _ _ []); [by apply sql_closed_plain | apply sql_piece_param; lia].
Qed.

Lemma assigns_piece n l sep :
  all_bytes plain_char sep = true → sql_delim sep →
  sql_piece (Join (assigns n l) sep) (Z.of_nat <$> seq n (length l)).
Proof.
  intros Hp Hd.
  pose proof (sql_piece_Join (imap (λ i kv, (assign (n + i) kv.1, [Z.of_nat (n + i)])) l) sep) as H.
  assert ((imap (λ i kv, (assign (n + i) kv.1, [Z.of_nat (n + i)])) l).*1 = assigns n l) as E1
    by (unfold assigns; by rewrite fmap_imap).
  assert (concat (imap (λ i kv, (assign (n + i) kv.1, [Z.of_nat (n + i)])) l).*2
          = Z.of_nat <$> seq n (length l)) as E2.
  { rewrite fmap_imap. clear. revert n. induction l as [|kv l IH]; intros n; [done|].
    rewrite imap_cons. cbn [concat length seq fmap list_fmap app]. rewrite <-IH. unfold compose. simpl.
    rewrite Nat.add_0_r. do 2 f_equal. apply imap_ext. intros i x _. simpl. by rewrite Nat.add_succ_r. }
  rewrite E1, E2 in H. apply H; [|done..]. apply Forall_lookup. intros i x Hx.
  rewrite list_lookup_imap in Hx. destruct (l !! i); [|done]. injection Hx as <-. apply assign_piece.
Qed.

Lemma delim_space t : sql_delim (String " " t).
Proof. by eexists _, _. Qed.

(** A row is inserted by one statement that names every column of the map
    once, in the order of the visit, and binds its value to the parameter at the
    same place; the text mentions the parameters $1 to $n and no value. *)
Theorem insert_row_binds tableName m schema log :
  ∃ l, l ≡ₚ map_to_list m ∧
    let sql := insert_sql (table_of tableName schema) l in
    (InsertRow tableName (AObj m) schema log).2 = log ++ [(sql, l.*2)] ∧
    placeholders sql = Z.of_nat <$> seq 1 (size m).
Proof.
  exists (range m). split; [apply range_perm|]. cbv zeta. rewrite InsertRow_eq. split; [done|].
  rewrite <-length_map_to_list, <-(Permutation_length (range_perm m)).
  apply sql_piece_placeholders. unfold insert_sql.
  apply (sql_closed_app _ _ []); [by apply sql_closed_plain|].
  apply (sql_closed_app _ _ []); [apply sanitize_closed|].
  apply (sql_closed_app _ _ []); [by apply sql_closed_plain|].
  apply (sql_closed_app _ _ []).
  { apply sql_closed_join; [|by apply sql_closed_plain].
    apply Forall_fmap, Forall_true. intros kv. apply sanitize_closed. }
  apply (sql_closed_app _ _ []); [by apply sql_closed_plain|].
  match goal with |- sql_piece _ ?ids => rewrite <-(app_nil_r ids) end.
  apply sql_piece_app; [apply dollars_piece | by apply sql_closed_piece, sql_closed_plain | by eexists _, _].
Qed.

(** An update without conditions is refused without a statement; otherwise
    one statement assigns every column of the map and compares every column of the
    conditions, each bound to its own value. *)
Theorem update_row_binds tableName m where_ schema log :
  if bool_decide (where_ = ∅) then UpdateRow tableName (AObj m) where_ schema log = (Some NoWhere, log)
  else ∃ l lw, l ≡ₚ map_to_list m ∧ lw ≡ₚ map_to_list where_ ∧
    let sql := update_sql (table_of tableName schema) l lw in
    (UpdateRow tableName (AObj m) where_ schema log).2 = log ++ [(sql, l.*2 ++ lw.*2)] ∧
    placeholders sql = Z.of_nat <$> seq 1 (size m + size where_).
Proof.
  rewrite UpdateRow_eq. case_bool_decide as Hw; [done|]. exists (range m), (range where_).
  split; [apply range_perm|]. split; [apply range_perm|]. split; [done|].
  rewrite <-!length_map_to_list, <-(Permutation_length (range_perm m)), <-(Permutation_length (range_perm where_)).
  apply sql_piece_placeholders. unfold update_sql. rewrite seq_app, fmap_app.
  apply (sql_closed_app _ _ []); [by apply sql_closed_plain|].
  apply (sql_closed_app _ _ []); [apply sanitize_closed|].
  apply (sql_closed_app _ _ []); [by apply sql_closed_plain|].
  apply sql_piece_app; [by apply assigns_piece; [|by eexists _, _] | | by eexists _, _].
  apply (sql_closed_app _ _ []); [by apply sql_closed_plain|].
  by apply assigns_piece; [|by eexists _, _].
Qed.

End Crud.

(** An empty map gives an UPDATE that assigns nothing, which PostgreSQL refuses. *)
Example empty_update `{GR : GoRange} (accepting : PgxConn) :
  (UpdateRow (PI := quoting_identifier) "t" (AObj ∅) {["id" := AInt KInt 1]} [] []).2 =
    [(bq "UPDATE `public`.`t` SET  WHERE `id` = $1", [AInt KInt 1])].
Proof.
  rewrite UpdateRow_eq, bool_decide_eq_false_2 by done. cbv zeta. cbn [snd app].
  pose proof (range_perm (∅ : gmap string any)) as H0. rewrite map_to_list_empty in H0. apply Permutation_nil_r in H0 as ->.
  pose proof (range_perm ({["id" := AInt KInt 1]} : gmap string any)) as H1. rewrite map_to_list_singleton in H1.
  apply Permutation_singleton_r in H1 as ->. reflexivity.
Qed.
