(* ===== verification/PeerPG.v ===== *)
(** * PeerPG: publishing to PostgreSQL, [pkg/pipeline/peer/pg/peer.go].

    The sink that writes the rows of change events with the statements of file
    Crud. The pool and the tables are what [Connect] left in the peer; the tables
    are replaced by every load of the schema cache. *)

From S2P Require Import Prelude GoStrings GoStringFacts SqlText GoAny Schema FilterSQL FilterBinds.
From S2P Require Import FilterTests Crud Cdc.
Local Open Scope Z_scope.

Record PeerPG := { pg_pool : bool; pg_tables : gmap string Table }.

Inductive pub_error :=
| NotConnected | NoTableName | NoTable (name : string) | CrudError (e : crud_error)
| BeforeMissing | NoPrimaryKeyValues (name : string) | UnknownOperation.

(** The conditions of an update: the primary key columns that the old row has. *)
Definition pk_where (primaryKeys : list string) (before : gmap string any) : gmap string any :=
  foldl (λ w pk, match before !! pk with Some val => <[pk := val]> w | None => w end) ∅ primaryKeys.

Definition log_t : Type := list (string * argList).
Definition crud_result (r : option crud_error * log_t) : option pub_error * log_t := (CrudError <$> r.1, r.2).

Section Pub.
Context `{PI : PgxIdentifier} `{GR : GoRange} `{PC : PgxConn}.

(** [Pub]; [None] is the panic of a type assertion. *)
Definition Pub (p : PeerPG) (event : Event) (log : log_t) : option (option pub_error * log_t) :=
  let pay := ev_Payload event in
  if negb (pg_pool p) || is_nil (pay_After pay) then Some (Some NotConnected, log) else
  let tableName := src_Table (pay_Source pay) in
  let schemaName := src_Schema (pay_Source pay) in
  let fullTableName := full_name schemaName tableName in
  if bool_decide (tableName = "") then Some (Some NoTableName, log) else
  match pg_tables p !! fullTableName with
  | None => Some (Some (NoTable fullTableName), log)
  | Some table =>
      let op := pay_Op pay in
      if bool_decide (op = OpCreate) then
        Some (crud_result (InsertRow tableName (pay_After pay) [schemaName] log))
      else if bool_decide (op = OpUpdate) then
        if is_nil (pay_Before pay) then Some (Some BeforeMissing, log) else
        match tbl_PrimaryKeys table, pay_Before pay with
        | [], _ => Some (Some (NoPrimaryKeyValues fullTableName), log)
        | pks, AObj before =>
            let where_ := pk_where pks before in
            if bool_decide (where_ = ∅) then Some (Some (NoPrimaryKeyValues fullTableName), log)
            else Some (crud_result (UpdateRow tableName (pay_After pay) where_ [schemaName] log))
        | _, _ => None
        end
      else if bool_decide (op = OpDelete) || bool_decide (op = OpTruncate) then Some (None, log)
      else Some (Some UnknownOperation, log)
  end.

(** ** What is written *)

Lemma pk_where_lookup pks before k :
  pk_where pks before !! k = if bool_decide (k ∈ pks) then before !! k else None.
Proof.
  unfold pk_where.
  assert (∀ w, foldl (λ w pk, match before !! pk with Some val => <[pk := val]> w | None => w end) w pks !! k
    = if bool_decide (k ∈ pks) then match before !! k with Some v => Some v | None => w !! k end else w !! k) as ->.
  { induction pks as [|pk pks IH]; intros w; [done|]. cbn [foldl]. rewrite IH.
    destruct (decide (k = pk)) as [->|Hne].
    - rewrite (bool_decide_eq_true_2 (pk ∈ pk :: pks)) by by left.
      destruct (before !! pk) as [v|] eqn:Hb; [|by case_bool_decide].
      rewrite lookup_insert_eq. by case_bool_decide.
    - replace (bool_decide (k ∈ pk :: pks)) with (bool_decide (k ∈ pks))
        by (apply bool_decide_ext; rewrite elem_of_cons; naive_solver).
      destruct (before !! pk); [|done]. by rewrite lookup_insert_ne. }
  case_bool_decide; [|done]. by destruct (before !! k).
Qed.

Context `{PL : !PgxIdentifierLaw}.

(** The statement for an update: every column of the new row, under the
    conditions [where_]. *)
Definition updates (tableName schemaName : string) (after where_ : gmap string any) (st : string * argList) : Prop :=
  ∃ l lw, l ≡ₚ map_to_list after ∧ lw ≡ₚ map_to_list where_ ∧
    st = (update_sql (table_of tableName [schemaName]) l lw, l.*2 ++ lw.*2) ∧
    placeholders st.1 = Z.of_nat <$> seq 1 (size after + size where_).
Definition inserts (tableName schemaName : string) (after : gmap string any) (st : string * argList) : Prop :=
  ∃ l, l ≡ₚ map_to_list after ∧
    st = (insert_sql (table_of tableName [schemaName]) l, l.*2) ∧
    placeholders st.1 = Z.of_nat <$> seq 1 (size after).

(** C18: publishing an event runs one statement at most: for a creation the
    INSERT of the new row into the table of the event, for an update the UPDATE of
    that table by the primary key columns the old row has, with their old values;
    anything else runs none. It panics only on an old row that is no map. *)
Theorem pub_writes p event log :
  let pay := ev_Payload event in
  let tableName := src_Table (pay_Source pay) in
  let schemaName := src_Schema (pay_Source pay) in
  match Pub p event log with
  | None => ∀ before, pay_Before pay ≠ AObj before
  | Some (_, log') =>
      log' = log ∨ ∃ table after st,
        pg_tables p !! full_name schemaName tableName = Some table ∧
        pay_After pay = AObj after ∧ log' = log ++ [st] ∧
        (pay_Op pay = OpCreate ∧ inserts tableName schemaName after st ∨
         ∃ before where_, pay_Op pay = OpUpdate ∧ pay_Before pay = AObj before ∧ where_ ≠ ∅ ∧
           (∀ k, where_ !! k = if bool_decide (k ∈ tbl_PrimaryKeys table) then before !! k else None) ∧
           updates tableName schemaName after where_ st)
  end.
Proof.
  cbv zeta. unfold Pub. destruct (_ || _); [by left|]. case_bool_decide; [by left|].
  destruct (pg_tables p !! _) as [table|] eqn:Ht; [|by left]. case_bool_decide as Hc.
  { destruct (pay_After (ev_Payload event)) as [| | | | | |after|] eqn:Ha; try by left.
    destruct (insert_row_binds (src_Table (pay_Source (ev_Payload event))) after
      [src_Schema (pay_Source (ev_Payload event))] log) as (l & Hl & E & Hp).
    right. exists table, after. eexists. split_and!; [done|done|exact E|]. left. split; [done|].
    by exists l. }
  case_bool_decide as Hu.
  2:{ destruct (_ || _); by left. }
  destruct (is_nil (pay_Before (ev_Payload event))) eqn:Hn; [by left|].
  destruct (tbl_PrimaryKeys table) as [|pk pks] eqn:Hpk; [by left|].
  destruct (pay_Before (ev_Payload event)) as [| | | | | |before|] eqn:Hb; try done.
  case_bool_decide as Hw; [by left|].
  destruct (pay_After (ev_Payload event)) as [| | | | | |after|] eqn:Ha; try by left.
  pose proof (update_row_binds (src_Table (pay_Source (ev_Payload event))) after
    (pk_where (pk :: pks) before) [src_Schema (pay_Source (ev_Payload event))] log) as Hup.
  rewrite bool_decide_eq_false_2 in Hup by done. destruct Hup as (l & lw & Hl & Hlw & E & Hp).
  right. exists table, after. eexists. split_and!; [done|done|exact E|]. right.
  exists before, (pk_where (pk :: pks) before). split_and!; [done|done|done| |by exists l, lw].
  intros k. rewrite Hpk. apply pk_where_lookup.
Qed.

End Pub.

(** A deletion has no new row, so it is reported as a lost connection: the case
    for deletions is never reached. *)
Theorem delete_reports_not_connected `{PgxIdentifier} `{GoRange} `{PgxConn} p event log :
  pay_Op (ev_Payload event) = OpDelete → pay_After (ev_Payload event) = ANil →
  Pub p event log = Some (Some NotConnected, log).
Proof. intros _ Ha. unfold Pub. rewrite Ha. simpl. by rewrite orb_true_r. Qed.

(** When the old row has only a part of the key, the update goes by that part:
    it changes every row that agrees on it. *)
Definition lines_table : Table := {|
  tbl_Schema := "public"; tbl_Name := "lines"; tbl_Type := TypeTable; tbl_Columns := [];
  tbl_PrimaryKeys := ["order"; "line"]; tbl_ForeignKeys := []; tbl_ViewQuery := "" |}.
Definition lines_event : Event := {|
  ev_Schema := {| sch_Type := "struct"; sch_Optional := false; sch_Name := ""; sch_Fields := None |};
  ev_Payload := {| pay_Before := AObj {["order" := AInt KInt 7]};
    pay_After := AObj {["qty" := AInt KInt 2]};
    pay_Source := source_WithTable "lines" (source_WithSchema "public" zeroSource);
    pay_Op := OpUpdate; pay_TsMs := 0; pay_Transaction := None |} |}.
Definition lines_peer : PeerPG := {| pg_pool := true; pg_tables := {["public.lines" := lines_table]} |}.
Definition one_row : PgxConn := {| conn_Exec := λ _ _ _, Ok 1 |}.

Example partial_key_update :
  Pub (PI := quoting_identifier) (GR := range_up) (PC := one_row) lines_peer lines_event [] =
    Some (None, [(bq "UPDATE `public`.`lines` SET `qty` = $1 WHERE `order` = $2",
                  [AInt KInt 2; AInt KInt 7])]).
Proof. vm_compute. reflexivity. Qed.

Lemma pub_writes_witness :
  ∃ table after st,
    pg_tables lines_peer !! "public.lines" = Some table ∧
    pay_After (ev_Payload lines_event) = AObj after ∧
    Pub (PI := quoting_identifier) (GR := range_up) (PC := one_row) lines_peer lines_event [] = Some (None, [st]).
Proof.
  pose proof (pub_writes (PI := quoting_identifier) (GR := range_up) (PC := one_row)
    (PL := quoting_identifier_law) lines_peer lines_event []) as H.
  cbv zeta in H. rewrite partial_key_update in H.
  destruct H as [H|(table & after & st & Ht & Ha & Hl & _)]; [discriminate H|].
  exists table, after, st. split_and!; [exact Ht | exact Ha |]. rewrite partial_key_update, Hl. reflexivity.
Defined.
