(* ===== verification/PeerConnect.v ===== *)
(** * PeerConnect: the connections of peers, [peer/pg/peer.go],
    [peer/clickhouse/peer.go], [peer/debug/peer.go], the example of a plugin, and
    [connector.go] with the plugins of [manager.go].

    A connector is registered once, in the [init] of its package, and all peers of
    that kind share the one value: connecting the next peer changes the connection
    of those before it. The connections of the PostgreSQL peer are numbered
    resources, each open or closed. *)

From S2P Require Import Prelude GoStrings GoAny Support.
Local Open Scope Z_scope.

(** ** connector.go: the registry *)

Inductive ConnectorType := ConnectorTypeUnknown | ConnectorTypePub | ConnectorTypeSub | ConnectorTypePubSub.
#[export] Instance ConnectorType_eq_dec : EqDecision ConnectorType.
Proof. solve_decision. Defined.

Definition RegisterConnector {C} (name : string) (c : C) (connectors : gmap string C) : gmap string C := <[name := c]> connectors.

(** [peer.Connector()]: whatever is registered under the name now; [None] is nil. *)
Definition peer_Connector {C} (connectorName : string) (connectors : gmap string C) : option C := connectors !! connectorName.

(** Plugins of Go: opening a file, and its symbol of the name, which is a connector
    or something else. *)
Class GoPlugin (C : Type) := {
  plugin_Open : string → res string (string → res string (option C))
}.
Definition RegisterConnectorPlugin `{GoPlugin C} (path name : string) (connectors : gmap string C) :
    option string * gmap string C :=
  match plugin_Open path with
  | Err e => (Some e, connectors)
  | Ok lookup =>
      match lookup "Connector" with
      | Err e => (Some e, connectors)
      | Ok None => (Some "invalid connector plugin", connectors)
      | Ok (Some c) => (None, RegisterConnector name c connectors)
      end
  end.

(** A plugin that is registered under a name that is taken replaces the connector of
    every peer of that kind, also of those that are connected; one that cannot be
    loaded changes nothing. *)
Theorem plugin_replaces `{GoPlugin C} path name connectors err connectors' :
  RegisterConnectorPlugin path name connectors = (err, connectors') →
  (∀ other, other ≠ name → peer_Connector other connectors' = peer_Connector other connectors) ∧
  match err with
  | Some _ => connectors' = connectors
  | None => ∃ lookup c, plugin_Open path = Ok lookup ∧ lookup "Connector" = Ok (Some c) ∧ peer_Connector name connectors' = Some c
  end.
Proof.
  unfold RegisterConnectorPlugin, peer_Connector, RegisterConnector.
  destruct (plugin_Open path) as [lookup|e]; [|by intros [= <- <-]].
  destruct (lookup "Connector") as [[c|]|e] eqn:El; [|by intros [= <- <-]..]. intros [= <- <-]. split.
  - intros other Ho. by rewrite lookup_insert_ne.
  - exists lookup, c. split_and!; [done|done|]. apply lookup_insert_eq.
Qed.

(** ** The PostgreSQL peer *)

Inductive resource_kind := ReplConn | Pool | CachePool.
#[export] Instance resource_kind_eq_dec : EqDecision resource_kind.
Proof. solve_decision. Defined.
Record resource := { rs_kind : resource_kind; rs_dsn : string; rs_open : bool }.

(** The settings; the replication settings as they are decoded. *)
Record PGConfig := { pg_ConnString : string; pg_Replication : any }.

Record PeerPG := {
  pp_pool : option nat; pp_conn : option nat; pp_cfg : PGConfig; pp_schemaCache : option nat;
  pp_resources : list resource }.
Definition new_peer : PeerPG :=
  {| pp_pool := None; pp_conn := None; pp_cfg := {| pg_ConnString := ""; pg_Replication := ANil |};
     pp_schemaCache := None; pp_resources := [] |}.

(** The libraries: decoding settings into the ones there are, the [replication]
    parameter of a connection string, and connecting. *)
Class PGLibs := {
  json_into : string → PGConfig → option PGConfig;
  replication_param : string → option (option string);     (* [None]: not a connection string *)
  open_resource : resource_kind → string → option string;  (* an error *)
  pool_Ping : string → option string;
  cache_Init : string → option string
}.

Inductive pg_error := ConfigParse | BadConnString | ConnectError (e : string) | PingError (e : string)
  | CacheError (e : string) | CacheInitError (e : string).

Definition set_cfg (c : PGConfig) (p : PeerPG) : PeerPG :=
  {| pp_pool := pp_pool p; pp_conn := pp_conn p; pp_cfg := c; pp_schemaCache := pp_schemaCache p; pp_resources := pp_resources p |}.
(** A new resource, open, and its number. *)
Definition opened (k : resource_kind) (dsn : string) (p : PeerPG) : nat * list resource :=
  (length (pp_resources p), pp_resources p ++ [{| rs_kind := k; rs_dsn := dsn; rs_open := true |}]).
Definition close_at (i : nat) (rs : list resource) : list resource :=
  alter (λ r, {| rs_kind := rs_kind r; rs_dsn := rs_dsn r; rs_open := false |}) i rs.
Definition close_pool (p : PeerPG) : PeerPG :=
  {| pp_pool := pp_pool p; pp_conn := pp_conn p; pp_cfg := pp_cfg p; pp_schemaCache := pp_schemaCache p;
     pp_resources := match pp_pool p with Some i => close_at i (pp_resources p) | None => pp_resources p end |}.
Definition close_cache (p : PeerPG) : PeerPG :=
  {| pp_pool := pp_pool p; pp_conn := pp_conn p; pp_cfg := pp_cfg p; pp_schemaCache := pp_schemaCache p;
     pp_resources := match pp_schemaCache p with Some i => close_at i (pp_resources p) | None => pp_resources p end |}.

Section PG.
Context `{PL : PGLibs}.

Definition set_pool (dsn : string) (p : PeerPG) : PeerPG :=
  let '(i, rs) := opened Pool dsn p in
  {| pp_pool := Some i; pp_conn := pp_conn p; pp_cfg := pp_cfg p; pp_schemaCache := pp_schemaCache p; pp_resources := rs |}.
Definition set_conn (dsn : string) (p : PeerPG) : PeerPG :=
  let '(i, rs) := opened ReplConn dsn p in
  {| pp_pool := pp_pool p; pp_conn := Some i; pp_cfg := pp_cfg p; pp_schemaCache := pp_schemaCache p; pp_resources := rs |}.
Definition set_cache (dsn : string) (p : PeerPG) : PeerPG :=
  let '(i, rs) := opened CachePool dsn p in
  {| pp_pool := pp_pool p; pp_conn := pp_conn p; pp_cfg := pp_cfg p; pp_schemaCache := Some i; pp_resources := rs |}.

(** A connection that fails leaves a nil pointer. *)
Definition no_conn (p : PeerPG) : PeerPG :=
  {| pp_pool := pp_pool p; pp_conn := None; pp_cfg := pp_cfg p; pp_schemaCache := pp_schemaCache p; pp_resources := pp_resources p |}.
Definition no_pool (p : PeerPG) : PeerPG :=
  {| pp_pool := None; pp_conn := pp_conn p; pp_cfg := pp_cfg p; pp_schemaCache := pp_schemaCache p; pp_resources := pp_resources p |}.
Definition no_cache (p : PeerPG) : PeerPG :=
  {| pp_pool := pp_pool p; pp_conn := pp_conn p; pp_cfg := pp_cfg p; pp_schemaCache := None; pp_resources := pp_resources p |}.

Definition Connect (config : string) (p : PeerPG) : option pg_error * PeerPG :=
  match json_into config (pp_cfg p) with
  | None => (Some ConfigParse, p)
  | Some cfg =>
      let p := set_cfg cfg p in
      let dsn := pg_ConnString cfg in
      match replication_param dsn with
      | None => (Some BadConnString, p)
      | Some replication =>
          if bool_decide (replication = Some "database") then
            match open_resource ReplConn dsn with
            | Some e => (Some (ConnectError e), no_conn p)
            | None => (None, set_conn dsn p)
            end
          else
            match open_resource Pool dsn with
            | Some e => (Some (ConnectError e), no_pool p)
            | None =>
                let p := set_pool dsn p in
                match pool_Ping dsn with
                | Some e => (Some (PingError e), close_pool p)
                | None =>
                    match open_resource CachePool dsn with
                    | Some e => (Some (CacheError e), close_pool (no_cache p))
                    | None =>
                        let p := set_cache dsn p in
                        match cache_Init dsn with
                        | Some e => (Some (CacheInitError e), close_cache (close_pool p))
                        | None => (None, p)
                        end
                    end
                end
            end
      end
  end.

(** [Sub] streams on the replication connection, with the settings of the last
    [Connect]; [None] is [errNotConnected]. *)
Definition Sub (p : PeerPG) : option (string * any) :=
  (λ i, (default "" (rs_dsn <$> pp_resources p !! i), pg_Replication (pp_cfg p))) <$> pp_conn p.

(** The database [Pub] writes to. *)
Definition pub_target (p : PeerPG) : option resource := i ← pp_pool p; pp_resources p !! i.

Definition Disconnect (p : PeerPG) : PeerPG :=
  let p := close_pool p in
  {| pp_pool := pp_pool p; pp_conn := pp_conn p; pp_cfg := pp_cfg p; pp_schemaCache := pp_schemaCache p;
     pp_resources := match pp_conn p with Some i => close_at i (pp_resources p) | None => pp_resources p end |}.

(** ** Invariant *)

(** The numbers a peer holds are those of resources of their kind. *)
Definition holds_kind (p : PeerPG) (o : option nat) (k : resource_kind) : Prop :=
  ∀ i, o = Some i → ∃ r, pp_resources p !! i = Some r ∧ rs_kind r = k.
Definition wf (p : PeerPG) : Prop :=
  holds_kind p (pp_pool p) Pool ∧ holds_kind p (pp_conn p) ReplConn ∧ holds_kind p (pp_schemaCache p) CachePool.

Lemma close_at_kind i rs j r :
  rs !! j = Some r → ∃ r', close_at i rs !! j = Some r' ∧ rs_kind r' = rs_kind r ∧ rs_dsn r' = rs_dsn r ∧
    rs_open r' = (if bool_decide (i = j) then false else rs_open r).
Proof.
  intros H. unfold close_at. destruct (decide (i = j)) as [->|Hne].
  - rewrite list_lookup_alter_eq, H, bool_decide_eq_true_2 by done. by eexists.
  - rewrite list_lookup_alter_ne, bool_decide_eq_false_2 by done. by exists r.
Qed.

Lemma holds_mono p p' o k :
  (∀ i r, pp_resources p !! i = Some r → ∃ r', pp_resources p' !! i = Some r' ∧ rs_kind r' = rs_kind r) →
  holds_kind p o k → holds_kind p' o k.
Proof.
  intros Hmono H i Hi. destruct (H i Hi) as (r & Hr & Hk). destruct (Hmono i r Hr) as (r' & ? & Hk').
  exists r'. split; [done|]. by rewrite Hk'.
Qed.

(** The ways a step changes the resources. *)
Definition grown (p p' : PeerPG) : Prop :=
  ∀ i r, pp_resources p !! i = Some r →
    ∃ r', pp_resources p' !! i = Some r' ∧ rs_kind r' = rs_kind r ∧ rs_dsn r' = rs_dsn r.
Lemma grown_refl p p' : pp_resources p' = pp_resources p → grown p p'.
Proof. intros E i r Hr. rewrite E. by exists r. Qed.
Lemma grown_trans p p' p'' : grown p p' → grown p' p'' → grown p p''.
Proof.
  intros H1 H2 i r Hr. destruct (H1 i r Hr) as (r1 & Hr1 & K1 & D1). destruct (H2 i r1 Hr1) as (r2 & Hr2 & K2 & D2).
  exists r2. by rewrite K2, D2.
Qed.
Lemma grown_open p p' r : pp_resources p' = pp_resources p ++ [r] → grown p p'.
Proof. intros E i x Hx. rewrite E. exists x. split; [by apply lookup_app_l_Some|done]. Qed.
Lemma grown_close p p' i : pp_resources p' = close_at i (pp_resources p) → grown p p'.
Proof. intros E j r Hr. destruct (close_at_kind i _ j r Hr) as (r' & Hr' & K & D & _). rewrite E. by exists r'. Qed.
Lemma holds_grown p p' o k : grown p p' → holds_kind p o k → holds_kind p' o k.
Proof. intros Hg. apply holds_mono. intros i r Hr. destruct (Hg i r Hr) as (r' & ? & ? & _). by exists r'. Qed.
Lemma holds_none p k : holds_kind p None k.
Proof. by intros i ?. Qed.
Lemma holds_new p rs k dsn b :
  pp_resources p = rs ++ [{| rs_kind := k; rs_dsn := dsn; rs_open := b |}] → holds_kind p (Some (length rs)) k.
Proof. intros E i [= <-]. rewrite E. eexists. split; [by apply list_lookup_middle|done]. Qed.

Create HintDb peers.
Hint Resolve holds_none : peers.

Lemma wf_opened_pool dsn p : wf p → wf (set_pool dsn p).
Proof.
  intros (Hp & Hc & Hs). assert (grown p (set_pool dsn p)) as Hg by by eapply grown_open.
  split_and!; [by eapply holds_new | by apply (holds_grown p) | by apply (holds_grown p)].
Qed.
Lemma wf_opened_conn dsn p : wf p → wf (set_conn dsn p).
Proof.
  intros (Hp & Hc & Hs). assert (grown p (set_conn dsn p)) as Hg by by eapply grown_open.
  split_and!; [by apply (holds_grown p) | by eapply holds_new | by apply (holds_grown p)].
Qed.
Lemma wf_opened_cache dsn p : wf p → wf (set_cache dsn p).
Proof.
  intros (Hp & Hc & Hs). assert (grown p (set_cache dsn p)) as Hg by by eapply grown_open.
  split_and!; [by apply (holds_grown p) | by apply (holds_grown p) | by eapply holds_new].
Qed.
Lemma grown_close_pool p : grown p (close_pool p).
Proof. unfold close_pool. destruct (pp_pool p) eqn:E; [by eapply grown_close | by apply grown_refl]. Qed.
Lemma grown_close_cache p : grown p (close_cache p).
Proof. unfold close_cache. destruct (pp_schemaCache p) eqn:E; [by eapply grown_close | by apply grown_refl]. Qed.
Lemma wf_grown p p' :
  grown p p' → pp_pool p' = pp_pool p → pp_conn p' = pp_conn p → pp_schemaCache p' = pp_schemaCache p → wf p → wf p'.
Proof. intros Hg E1 E2 E3 (Hp & Hc & Hs). unfold wf. rewrite E1, E2, E3. split_and!; by apply (holds_grown p). Qed.
Lemma wf_close_pool p : wf p → wf (close_pool p).
Proof. apply wf_grown; [apply grown_close_pool|done..]. Qed.
Lemma wf_close_cache p : wf p → wf (close_cache p).
Proof. apply wf_grown; [apply grown_close_cache|done..]. Qed.
Lemma wf_no_pool p : wf p → wf (no_pool p).
Proof. intros (Hp & Hc & Hs). by split_and!. Qed.
Lemma wf_no_conn p : wf p → wf (no_conn p).
Proof. intros (Hp & Hc & Hs). by split_and!. Qed.
Lemma wf_no_cache p : wf p → wf (no_cache p).
Proof. intros (Hp & Hc & Hs). by split_and!. Qed.
Hint Resolve wf_opened_pool wf_opened_conn wf_opened_cache wf_close_pool wf_close_cache wf_no_pool wf_no_conn wf_no_cache : peers.

Theorem Connect_wf config p : wf p → wf (Connect config p).2.
Proof.
  intros Hwf. unfold Connect. destruct (json_into _ _) as [cfg|]; [|done].
  assert (wf (set_cfg cfg p)) by done. destruct (replication_param _); [|done].
  case_bool_decide; repeat case_match; cbn [snd]; auto with peers.
Qed.

(** A successful connection to a database for writing makes its pool the one that
    every peer of the connector writes to. *)
Lemma Connect_target config p p' cfg :
  Connect config p = (None, p') → json_into config (pp_cfg p) = Some cfg →
  replication_param (pg_ConnString cfg) ≠ Some (Some "database") →
  pub_target p' = Some {| rs_kind := Pool; rs_dsn := pg_ConnString cfg; rs_open := true |}.
Proof.
  intros H Hj Hr. unfold Connect in H. rewrite Hj in H. destruct (replication_param _) as [o|]; [|done].
  case_bool_decide as Hd; [by subst|]. repeat case_match; try done. injection H as <-.
  unfold pub_target. cbn [pp_pool set_cache set_pool opened pp_resources mbind option_bind set_cfg].
  rewrite <-app_assoc. by apply list_lookup_middle.
Qed.

(** The connection for reading leaves the one for writing alone. *)
Lemma Connect_replication config p p' cfg :
  Connect config p = (None, p') → json_into config (pp_cfg p) = Some cfg →
  replication_param (pg_ConnString cfg) = Some (Some "database") →
  wf p → pub_target p' = pub_target p ∧ Sub p' = Some (pg_ConnString cfg, pg_Replication cfg).
Proof.
  intros H Hj Hr (Hp & _). unfold Connect in H. rewrite Hj, Hr, bool_decide_eq_true_2 in H by done.
  destruct (open_resource _ _); [done|]. injection H as <-. split.
  - unfold pub_target. cbn [pp_pool set_conn opened pp_resources mbind option_bind set_cfg].
    destruct (pp_pool p) as [i|]; [|done]. destruct (Hp i eq_refl) as (r & E & _). cbn [mbind option_bind].
    rewrite E. by apply lookup_app_l_Some.
  - unfold Sub. cbn [pp_conn set_conn opened pp_resources set_cfg pp_cfg]. cbn [fmap option_fmap option_map].
    by rewrite list_lookup_middle.
Qed.

(** The peers of one configuration connect one after the other, in its order. *)
Fixpoint connect_all (configs : list string) (p : PeerPG) : option pg_error * PeerPG :=
  match configs with
  | [] => (None, p)
  | c :: configs => match Connect c p with (None, p) => connect_all configs p | r => r end
  end.

Lemma connect_all_app cs cs' p p' :
  connect_all (cs ++ cs') p = (None, p') → ∃ p1, connect_all cs p = (None, p1) ∧ connect_all cs' p1 = (None, p').
Proof.
  revert p. induction cs as [|c cs IH]; intros p H; cbn [app connect_all] in *; [by exists p|].
  destruct (Connect c p) as [[e|] p1]; [done|]. by apply IH.
Qed.

(** The settings a configuration decodes to, whatever is there before: those of a
    database for writing. *)
Definition writes_to (config dsn : string) : Prop :=
  ∀ old, ∃ repl, json_into config old = Some {| pg_ConnString := dsn; pg_Replication := repl |} ∧
    replication_param dsn ≠ Some (Some "database").
Definition replicates_from (config dsn : string) : Prop :=
  ∀ old, ∃ repl, json_into config old = Some {| pg_ConnString := dsn; pg_Replication := repl |} ∧
    replication_param dsn = Some (Some "database").

Lemma connect_all_wf cs p : wf p → wf (connect_all cs p).2.
Proof.
  revert p. induction cs as [|c cs IH]; intros p H; [done|]. cbn [connect_all].
  pose proof (Connect_wf c p H) as H'. destruct (Connect c p) as [[e|] p1]; [done|]. by apply IH.
Qed.

(** C34: of several PostgreSQL sinks only the last one is written to: whatever peer
    an event is published for, it goes to the database of the sink that was
    connected last. *)
Theorem last_sink_wins before sink dsn sources p :
  connect_all (before ++ sink :: sources) new_peer = (None, p) →
  writes_to sink dsn → Forall (λ s, ∃ d, replicates_from s d) sources →
  pub_target p = Some {| rs_kind := Pool; rs_dsn := dsn; rs_open := true |}.
Proof.
  intros H Hs Hsrc. apply connect_all_app in H as (p1 & H1 & H).
  assert (wf p1) as Hwf.
  { pose proof (connect_all_wf before new_peer) as Hw. rewrite H1 in Hw. apply Hw. by split_and!; intros i ?. }
  cbn [connect_all] in H. destruct (Hs (pp_cfg p1)) as (repl & Hj & Hr).
  pose proof (Connect_wf sink p1 Hwf) as Hwf2.
  destruct (Connect sink p1) as [[e|] p2] eqn:Hc; [done|].
  pose proof (Connect_target sink p1 p2 _ Hc Hj Hr) as Ht. cbn [pg_ConnString] in Ht. cbn [snd] in Hwf2.
  clear Hc H1 Hwf Hj. revert p2 H Ht Hwf2. induction Hsrc as [|s sources [d Hd] _ IH]; intros p2 H Ht Hwf2.
  - by injection H as <-.
  - cbn [connect_all] in H. destruct (Hd (pp_cfg p2)) as (repl' & Hj' & Hr').
    pose proof (Connect_wf s p2 Hwf2) as Hwf3.
    destruct (Connect s p2) as [[e|] p3] eqn:Hc; [done|]. apply (IH p3); [done| |done].
    destruct (Connect_replication s p2 p3 _ Hc Hj' Hr' Hwf2) as [-> _]. done.
Qed.

(** The pools of the sinks before stay open, held by nobody. *)
Theorem earlier_pool_leaks a b da db p :
  connect_all [a; b] new_peer = (None, p) → writes_to a da → writes_to b db →
  ∃ i, pp_resources p !! i = Some {| rs_kind := Pool; rs_dsn := da; rs_open := true |} ∧ pp_pool p ≠ Some i ∧
    pp_resources (Disconnect p) !! i = Some {| rs_kind := Pool; rs_dsn := da; rs_open := true |}.
Proof.
  intros H Ha Hb. cbn [connect_all] in H. destruct (Ha (pp_cfg new_peer)) as (ra & Hja & Hra).
  unfold Connect in H. rewrite Hja in H. cbn [pg_ConnString] in H.
  destruct (replication_param da) as [oa|]; [|done]. rewrite bool_decide_eq_false_2 in H by congruence.
  destruct (open_resource Pool da); [done|]. destruct (pool_Ping da); [done|].
  destruct (open_resource CachePool da); [done|]. destruct (cache_Init da); [done|].
  destruct (Hb {| pg_ConnString := da; pg_Replication := ra |}) as (rb & Hjb & Hrb).
  cbn [pp_cfg set_cache set_pool set_cfg opened] in H. rewrite Hjb in H. cbn [pg_ConnString] in H.
  destruct (replication_param db) as [ob|]; [|done]. rewrite bool_decide_eq_false_2 in H by congruence.
  destruct (open_resource Pool db); [done|]. destruct (pool_Ping db); [done|].
  destruct (open_resource CachePool db); [done|]. destruct (cache_Init db); [done|]. injection H as <-.
  exists 0%nat. by split_and!.
Qed.

(** [Disconnect] does not stop the schema cache. *)
Theorem disconnect_keeps_cache p i r :
  pp_schemaCache p = Some i → pp_pool p ≠ Some i → pp_conn p ≠ Some i → pp_resources p !! i = Some r →
  pp_resources (Disconnect p) !! i = Some r.
Proof.
  intros Hs Hp Hc Hr. unfold Disconnect. cbn [pp_resources pp_conn].
  assert (pp_resources (close_pool p) !! i = Some r) as E.
  { unfold close_pool. cbn [pp_resources]. destruct (pp_pool p) as [j|]; [|done].
    unfold close_at. rewrite list_lookup_alter_ne; congruence. }
  change (pp_conn (close_pool p)) with (pp_conn p). destruct (pp_conn p) as [j|]; [|done].
  unfold close_at. rewrite list_lookup_alter_ne; congruence.
Qed.

End PG.

(** ** ClickHouse and debug *)

Record ClickHouseOptions := { ch_Addr : list string; ch_Database : string; ch_Username : string; ch_Password : string }.
Definition clickhouse_defaults (getenv : Environ) (o : ClickHouseOptions) : ClickHouseOptions := {|
  ch_Addr := match ch_Addr o with [] => [GetEnvOrDefault getenv "PIGO_CLICKHOUSE_ADDR" "localhost:9000"] | a => a end;
  ch_Database := if bool_decide (ch_Database o = "") then GetEnvOrDefault getenv "PIGO_CLICKHOUSE_AUTH_DATABASE" "default" else ch_Database o;
  ch_Username := if bool_decide (ch_Username o = "") then GetEnvOrDefault getenv "PIGO_CLICKHOUSE_AUTH_USERNAME" "default" else ch_Username o;
  ch_Password := if bool_decide (ch_Password o = "") then GetEnvOrDefault getenv "PIGO_CLICKHOUSE_AUTH_PASSWORD" "" else ch_Password o |}.

Class ClickHouse := {
  ch_decode : string → option ClickHouseOptions;
  ch_Open : ClickHouseOptions → option string;
  ch_Ping : ClickHouseOptions → option string }.
(** The options of the connection made, or the error. *)
Definition clickhouse_Connect `{ClickHouse} (getenv : Environ) (config : option string) : res string ClickHouseOptions :=
  let? o := match config with
            | None => Ok {| ch_Addr := []; ch_Database := ""; ch_Username := ""; ch_Password := "" |}
            | Some c => match ch_decode c with Some o => Ok o | None => Err "failed to parse ClickHouse config" end
            end in
  let o := clickhouse_defaults getenv o in
  match ch_Open o with
  | Some e => Err ("failed to connect to ClickHouse: " +:+ e)
  | None => match ch_Ping o with Some e => Err ("failed to ping ClickHouse: " +:+ e) | None => Ok o end
  end.

Lemma clickhouse_defaults_idempotent getenv o : clickhouse_defaults getenv (clickhouse_defaults getenv o) = clickhouse_defaults getenv o.
Proof.
  unfold clickhouse_defaults, GetEnvOrDefault. destruct o as [a d u p].
  cbn [ch_Addr ch_Database ch_Username ch_Password]. destruct a; f_equal; by repeat case_bool_decide.
Qed.

(** Publishing to ClickHouse succeeds and sends nothing: it has no statement. *)
Definition clickhouse_Pub {Event} (e : Event) : option string := None.
Definition clickhouse_Sub : res string unit := Err "connector type mismatch".
Definition clickhouse_Type : ConnectorType := ConnectorTypePub.
(** [Disconnect]: [conn] answers the closing of the connection, if there is one. *)
Definition clickhouse_Disconnect (conn : option (option string)) : option string :=
  match conn with Some err => err | None => None end.

(** The peers that only log: publishing succeeds and nothing is sent. *)
Definition debug_Pub {Event} (e : Event) : option string := None.
Definition debug_Connect (config : string) : option string := None.
Definition debug_Sub : res string unit := Err "connector type mismatch".
Definition debug_Type : ConnectorType := ConnectorTypePub.
Definition debug_Disconnect : option string := None.

Definition example_Pub {Event} (e : Event) : option string := None.
Definition example_Connect (config : string) : option string := None.
Definition example_Sub : res string unit := Err "connector type mismatch".
Definition example_Type : ConnectorType := ConnectorTypePub.
Definition example_Disconnect : option string := None.

(** ** Witness *)

(** Settings that are a connection string; one that ends in [!] is for replication. *)
#[local] Instance plain_libs : PGLibs := {|
  json_into := λ config old, Some {| pg_ConnString := config; pg_Replication := pg_Replication old |};
  replication_param := λ dsn, Some (if HasSuffix dsn "!" then Some "database" else None);
  open_resource := λ _ _, None; pool_Ping := λ _, None; cache_Init := λ _, None |}.
Lemma last_sink_wins_witness :
  let p := (connect_all ["orders"; "archive"; "orders!"] new_peer).2 in
  pub_target p = Some {| rs_kind := Pool; rs_dsn := "archive"; rs_open := true |}.
Proof.
  apply (last_sink_wins (PL := plain_libs) ["orders"] "archive" "archive" ["orders!"]); [reflexivity|..].
  - intros old. by eexists.
  - constructor; [|constructor]. exists "orders!". intros old. by eexists.
Defined.
