(* ===== verification/Replication.v ===== *)
(** * Replication: change events from PostgreSQL, [pkg/pglogrepl].

    The source of the pipeline: [Stream] prepares publication and slot on the
    server (stream.go, pglogrepl.go), then a loop receives messages of the
    replication protocol, keeps the relations it is told about, and turns changed
    rows into events (process_v2.go, util.go, codec.go).

    The server's answers, the parsing of the protocol ([jackc/pglogrepl]) and the
    decoders of column types ([pgtype]) are arguments. *)

From S2P Require Import Prelude GoStrings GoAny Cdc.
Local Open Scope Z_scope.

(** ** Configuration, pglogrepl.go *)

Definition Op : Type := string.
Definition OpInsert : Op := "insert".
Definition OpUpdate_ : Op := "update".
Definition OpDelete_ : Op := "delete".
Definition OpTruncate_ : Op := "truncate".

Definition second : Z := 1000000000.
Definition defaultStandbyUpdateInterval : Z := 10 * second.
Definition defaultBufferSize : Z := 1000.
Definition defaultPublication : string := "pigo_pub".
Definition defaultSlot : string := "pigo_slot".
Definition defaultPlugin : string := "pgoutput".
Definition minPgVersionGeneratedCols : Z := 180000.

Definition PublishGeneratedColumnsUnset : string := "".
Definition PublishGeneratedColumnsNone : string := "none".
Definition PublishGeneratedColumnsStored : string := "stored".

(** [ReplicaIdentity] is read by nothing. *)
Record Config := {
  cfg_Publication : string; cfg_Slot : string; cfg_Plugin : string; cfg_Tables : list string;
  cfg_Ops : list Op; cfg_PartitionRoot : bool; cfg_StandbyUpdateInterval : Z;
  cfg_ReplicaIdentity : gmap string string; cfg_BufferSize : Z; cfg_PublishGeneratedColumns : string
}.

Definition DefaultConfig : Config := {|
  cfg_Publication := defaultPublication; cfg_Slot := defaultSlot; cfg_Plugin := defaultPlugin;
  cfg_Tables := []; cfg_Ops := [OpInsert; OpUpdate_; OpDelete_; OpTruncate_]; cfg_PartitionRoot := false;
  cfg_StandbyUpdateInterval := defaultStandbyUpdateInterval; cfg_ReplicaIdentity := ∅;
  cfg_BufferSize := defaultBufferSize; cfg_PublishGeneratedColumns := PublishGeneratedColumnsUnset |}.

Inductive config_error :=
| ConfigNil | InvalidOperation (op : Op) | IntervalTooShort | InvalidGeneratedColumns (s : string).

(** The first error, if any. *)
Definition validateConfig (cfg : option Config) : option config_error :=
  match cfg with
  | None => Some ConfigNil
  | Some cfg =>
      match List.find (λ op, negb (bool_decide (op ∈ [OpInsert; OpUpdate_; OpDelete_; OpTruncate_]))) (cfg_Ops cfg) with
      | Some op => Some (InvalidOperation op)
      | None =>
          if cfg_StandbyUpdateInterval cfg <? second then Some IntervalTooShort
          else if bool_decide (cfg_PublishGeneratedColumns cfg ∈
                    [PublishGeneratedColumnsUnset; PublishGeneratedColumnsNone; PublishGeneratedColumnsStored])
          then None else Some (InvalidGeneratedColumns (cfg_PublishGeneratedColumns cfg))
      end
  end.

(** [cmp.Or] *)
Definition or_string (s t : string) : string := if bool_decide (s = "") then t else s.
Definition or_int (a b : Z) : Z := if a =? 0 then b else a.

(** The result is the caller's struct, changed in place. *)
Definition mergeWithDefaults (cfg : option Config) : Config :=
  let def := DefaultConfig in
  match cfg with
  | None => def
  | Some cfg => {|
      cfg_Publication := or_string (cfg_Publication cfg) (cfg_Publication def);
      cfg_Slot := or_string (cfg_Slot cfg) (cfg_Slot def);
      cfg_Plugin := or_string (cfg_Plugin cfg) (cfg_Plugin def);
      cfg_Tables := cfg_Tables cfg;
      cfg_Ops := match cfg_Ops cfg with [] => cfg_Ops def | ops => ops end;
      cfg_PartitionRoot := cfg_PartitionRoot cfg;
      cfg_StandbyUpdateInterval := or_int (cfg_StandbyUpdateInterval cfg) (cfg_StandbyUpdateInterval def);
      cfg_ReplicaIdentity := cfg_ReplicaIdentity cfg;
      cfg_BufferSize := or_int (cfg_BufferSize cfg) (cfg_BufferSize def);
      cfg_PublishGeneratedColumns := cfg_PublishGeneratedColumns cfg |}
  end.

(** ** Publications and slots, stream.go *)

Inductive request :=
| RExec (sql : string)
| RIdentifySystem
| RCreateReplicationSlot (name plugin : string)
| RStartReplication (slot : string) (pos : Z) (pluginArgs : list string).

(** What the server answers to a request, after those before. A query's answer is
    a list of results, each a list of rows, each a list of columns. *)
Class ReplServer := {
  srv_Exec : list request → string → res string (list (list (list string)));
  srv_IdentifySystem : list request → res string Z;
  srv_CreateReplicationSlot : list request → string → string → res string unit;
  srv_StartReplication : list request → string → Z → list string → res string unit
}.

Inductive error :=
| NilConnection
| BadConfig (e : config_error)
| ServerError (e : string)
| InvalidTableName | InvalidColumnName
| NoVersion | ParseVersion (s : string)
| NeedsNewerServer (columns : string) (version : Z)
| Wrapped (context : string) (e : error).

(** A computation sends requests; [None] is a panic. *)
Definition M (A : Type) : Type := list request → option (res error A) * list request.

#[export] Instance M_ret : MRet M := λ A a log, (Some (Ok a), log).
#[export] Instance M_bind : MBind M := λ A B f m log,
  match m log with
  | (Some (Ok a), log) => f a log
  | (Some (Err e), log) => (Some (Err e), log)
  | (None, log) => (None, log)
  end.
Definition throw {A} (e : error) : M A := λ log, (Some (Err e), log).
Definition panics {A} : M A := λ log, (None, log).

(** [if err != nil { return fmt.Errorf(context, err) }] *)
Definition wrapped {A} (context : string) (m : M A) : M A := λ log,
  let '(r, log) := m log in (map_err (Wrapped context) <$> r, log).

Section Setup.
Context `{RS : ReplServer}.

Definition send {A} (r : request) (answer : list request → res string A) : M A := λ log,
  (Some (map_err ServerError (answer log)), log ++ [r]).

Definition Exec_ReadAll (sql : string) : M (list (list (list string))) :=
  send (RExec sql) (λ log, srv_Exec log sql).

(** [rows[0].Rows[0][0]] behind the tests that there is a result with a row. *)
Definition first_cell (rows : list (list (list string))) : M (option string) :=
  match rows with
  | (row :: _) :: _ => match row with cell :: _ => mret (Some cell) | [] => panics end
  | _ => mret None
  end.

Definition exists_sql (table column value : string) : string :=
  "SELECT EXISTS (SELECT 1 FROM " +:+ table +:+ " WHERE " +:+ column +:+ " = '" +:+ value +:+ "')".

Definition checkExists (table column value : string) : M bool :=
  if negb (bool_decide (table ∈ ["pg_publication"; "pg_replication_slots"])) then throw InvalidTableName
  else if negb (bool_decide (column ∈ ["pubname"; "slot_name"])) then throw InvalidColumnName
  else
    rows ← wrapped "check exists" (Exec_ReadAll (exists_sql table column value));
    cell ← first_cell rows;
    mret (bool_decide (cell = Some "t")).

Definition serverVersionNum : M Z :=
  rows ← wrapped "query server_version_num" (Exec_ReadAll "SHOW server_version_num");
  cell ← first_cell rows;
  match cell with
  | None => throw NoVersion
  | Some s => match Atoi s with Some n => mret n | None => throw (ParseVersion s) end
  end.

Record tablePattern := { tp_allTables : bool; tp_schemas : list string; tp_tables : list string }.

Fixpoint parse_patterns (patterns : list string) (tp : tablePattern) : tablePattern :=
  match patterns with
  | [] => tp
  | p :: patterns =>
      if bool_decide (p = "*") || bool_decide (p = "*.*") then
        {| tp_allTables := true; tp_schemas := []; tp_tables := [] |}
      else match LastIndex p ".*" with
           | Some (S _ as idx) =>
               parse_patterns patterns {| tp_allTables := tp_allTables tp;
                 tp_schemas := tp_schemas tp ++ [take idx p]; tp_tables := tp_tables tp |}
           | _ =>
               parse_patterns patterns {| tp_allTables := tp_allTables tp;
                 tp_schemas := tp_schemas tp; tp_tables := tp_tables tp ++ [p] |}
           end
  end.
Definition parsePublicationTables (patterns : list string) : tablePattern :=
  parse_patterns patterns {| tp_allTables := false; tp_schemas := []; tp_tables := [] |}.

Definition publication_object (pubObj : tablePattern) : string :=
  if tp_allTables pubObj then " FOR ALL TABLES"
  else match tp_schemas pubObj, tp_tables pubObj with
       | (_ :: _) as schemas, _ => " FOR TABLES IN SCHEMA " +:+ Join schemas ", "
       | [], (_ :: _) as tables => " FOR TABLE " +:+ Join tables ", "
       | [], [] => ""
       end.

(** The parameter for generated columns, which asks for the server's version. *)
Definition generated_param (cfg : Config) : M (list string) :=
  if bool_decide (cfg_PublishGeneratedColumns cfg = PublishGeneratedColumnsUnset) then mret []
  else
    verNum ← wrapped "checking server version for publish_generated_columns" serverVersionNum;
    if verNum <? minPgVersionGeneratedCols then throw (NeedsNewerServer (cfg_PublishGeneratedColumns cfg) verNum)
    else mret ["publish_generated_columns = '" +:+ cfg_PublishGeneratedColumns cfg +:+ "'"].

Definition publish_params (cfg : Config) : list string :=
  match cfg_Ops cfg with [] => [] | ops => ["publish = '" +:+ Join ops ", " +:+ "'"] end ++
  (if cfg_PartitionRoot cfg then ["publish_via_partition_root = true"] else []).

Definition create_sql (cfg : Config) (params : list string) : string :=
  "CREATE PUBLICATION " +:+ cfg_Publication cfg +:+ publication_object (parsePublicationTables (cfg_Tables cfg)) +:+
  match params with [] => "" | _ => " WITH (" +:+ Join params ", " +:+ ")" end.
Definition alter_sql (cfg : Config) (params : list string) : string :=
  "ALTER PUBLICATION " +:+ cfg_Publication cfg +:+ " SET (" +:+ Join params ", " +:+ ")".

Definition reconcilePublication (cfg : Config) : M unit :=
  params ← generated_param cfg;
  match params with
  | [] => mret tt
  | _ => _ ← wrapped "alter publication" (Exec_ReadAll (alter_sql cfg params)); mret tt
  end.

Definition ensurePublication (cfg : Config) : M unit :=
  exists_ ← checkExists "pg_publication" "pubname" (cfg_Publication cfg);
  if (exists_ : bool) then wrapped "alter publication" (reconcilePublication cfg)
  else
    generated ← generated_param cfg;
    _ ← wrapped "create publication" (Exec_ReadAll (create_sql cfg (publish_params cfg ++ generated)));
    mret tt.

Definition ensureSlot (name plugin : string) : M unit :=
  exists_ ← checkExists "pg_replication_slots" "slot_name" name;
  if (exists_ : bool) then mret tt
  else send (RCreateReplicationSlot name plugin) (λ log, srv_CreateReplicationSlot log name plugin).

Definition plugin_args (cfg : Config) : list string :=
  ["proto_version '4'"; "publication_names '" +:+ cfg_Publication cfg +:+ "'"; "messages 'true'"; "streaming 'true'"].

Definition setupReplication (cfg : Config) : M unit :=
  _ ← wrapped "publication" (ensurePublication cfg);
  pos ← wrapped "identify system" (send RIdentifySystem srv_IdentifySystem);
  _ ← wrapped "slot" (ensureSlot (cfg_Slot cfg) (cfg_Plugin cfg));
  send (RStartReplication (cfg_Slot cfg) pos (plugin_args cfg))
       (λ log, srv_StartReplication log (cfg_Slot cfg) pos (plugin_args cfg)).

(** The configuration that the goroutine is started with. The channel of events
    cannot be made with a negative capacity. *)
Definition Stream (conn : bool) (cfg : option Config) : M Config :=
  if negb conn then throw NilConnection else
  let cfg := mergeWithDefaults cfg in
  match validateConfig (Some cfg) with
  | Some e => throw (Wrapped "invalid configuration" (BadConfig e))
  | None =>
      if cfg_BufferSize cfg <? 0 then panics
      else _ ← wrapped "setup replication" (setupReplication cfg); mret cfg
  end.

End Setup.

(** ** Messages and columns, process_v2.go, util.go and codec.go *)

Record RelationColumn := { rc_Name : string; rc_DataType : Z }.
Record RelationMessageV2 := {
  rel_RelationID : Z; rel_Namespace : string; rel_RelationName : string; rel_Columns : list RelationColumn
}.
Record TupleDataColumn := { tc_DataType : ascii; tc_Data : string }.
Abbreviation TupleData := (list TupleDataColumn).

(** The messages that the program looks at, with the fields it reads; a tuple is
    a pointer. *)
Inductive logicalMessage :=
| RelationMsg (r : RelationMessageV2)
| InsertMsg (Xid RelationID : Z) (Tuple : option TupleData)
| UpdateMsg (Xid RelationID : Z) (OldTuple NewTuple : option TupleData)
| DeleteMsg (Xid RelationID : Z) (OldTuple : option TupleData)
| TruncateMsg (Xid : Z) (RelationIDs : list Z)
| StreamStartMsg
| StreamStopMsg
| OtherMsg.

(** [pgtype.NewMap]: the decoders of the types it knows, by OID. *)
Class PgTypes := { builtin_codec : Z → option (string → res string any); UUIDOID : Z }.

Abbreviation Relations := (gmap Z RelationMessageV2).
Definition typeMap : Type := Z → option (string → res string any).

(** The [DecodeValue] of the codec for UUIDs. *)
Definition uuid_DecodeValue (src : string) : res string any := Ok (AStr src).

Definition newTypeMap `{PT : PgTypes} : typeMap := λ oid,
  if oid =? UUIDOID then Some uuid_DecodeValue else builtin_codec oid.

Definition decodeTextColumnData (mi : typeMap) (data : string) (dataType : Z) : res string any :=
  match mi dataType with
  | Some DecodeValue => DecodeValue data
  | None => Ok (AStr data)
  end.

Definition decodeColumn (col : TupleDataColumn) (tm : typeMap) (dataType : Z) : any :=
  if bool_decide (tc_DataType col = "n"%char) then ANil
  else if bool_decide (tc_DataType col = "u"%char) then ANil
  else if bool_decide (tc_DataType col = "t"%char) then
    match decodeTextColumnData tm (tc_Data col) dataType with Ok val => val | Err _ => ANil end
  else ANil.

(** The loops over the columns of a tuple; [None] is the panic of an index out of
    the relation's columns. *)
Fixpoint tuple_values (tm : typeMap) (columns : list RelationColumn) (tuple : TupleData) (values : gmap string any)
    : option (gmap string any) :=
  match tuple, columns with
  | [], _ => Some values
  | _ :: _, [] => None
  | col :: tuple, rc :: columns =>
      tuple_values tm columns tuple (<[rc_Name rc := decodeColumn col tm (rc_DataType rc)]> values)
  end.

Definition zeroEvent : Event := {|
  ev_Schema := {| sch_Type := ""; sch_Optional := false; sch_Name := ""; sch_Fields := None |};
  ev_Payload := {| pay_Before := ANil; pay_After := ANil; pay_Source := zeroSource; pay_Op := "";
                   pay_TsMs := 0; pay_Transaction := None |} |}.

Definition event_source (serverName dbName : string) (rel : RelationMessageV2) (xid lsn ts : Z) : Source :=
  source_WithTimestamp ts (source_WithTransaction xid lsn (source_WithTable (rel_RelationName rel)
    (source_WithSchema (rel_Namespace rel) (source_WithDatabase dbName (NewSourceBuilder "postgresql" serverName))))).

(** A handler reads the clock twice, [ts]. [None] is a panic. *)
Definition handleInsertMessageV2 (xid relationID : Z) (tuple : option TupleData) (relations : Relations)
    (tm : typeMap) (serverName dbName : string) (lsn : Z) (ts : Z * Z) : option Event :=
  match relations !! relationID with
  | None => Some zeroEvent
  | Some rel =>
      tuple ← tuple;
      values ← tuple_values tm (rel_Columns rel) tuple ∅;
      let source := event_source serverName dbName rel xid lsn ts.1 in
      Some (WithTimestamp ts.2 (WithAfter (AObj values) (WithOperation OpCreate (WithSource source NewEventBuilder))))
  end.

Definition handleUpdateMessageV2 (xid relationID : Z) (oldTuple newTuple : option TupleData) (relations : Relations)
    (tm : typeMap) (serverName dbName : string) (lsn : Z) (ts : Z * Z) : option Event :=
  match relations !! relationID with
  | None => Some zeroEvent
  | Some rel =>
      oldValues ← tuple_values tm (rel_Columns rel) (default [] oldTuple) ∅;
      newValues ← tuple_values tm (rel_Columns rel) (default [] newTuple) ∅;
      let source := event_source serverName dbName rel xid lsn ts.1 in
      Some (WithTimestamp ts.2 (WithAfter (AObj newValues) (WithBefore (AObj oldValues)
             (WithOperation OpUpdate (WithSource source NewEventBuilder)))))
  end.

Definition handleDeleteMessageV2 (xid relationID : Z) (oldTuple : option TupleData) (relations : Relations)
    (tm : typeMap) (serverName dbName : string) (lsn : Z) (ts : Z * Z) : option Event :=
  match relations !! relationID with
  | None => Some zeroEvent
  | Some rel =>
      oldTuple ← oldTuple;
      oldValues ← tuple_values tm (rel_Columns rel) oldTuple ∅;
      let source := event_source serverName dbName rel xid lsn ts.1 in
      Some (WithTimestamp ts.2 (WithBefore (AObj oldValues) (WithOperation OpDelete (WithSource source NewEventBuilder))))
  end.

(** The relations of the message are not read: the first one that a visit of the
    map comes to is taken. *)
Definition handleTruncateMessageV2 `{GR : GoRange} (xid : Z) (relations : Relations)
    (serverName dbName : string) (lsn : Z) (ts : Z * Z) : Event :=
  match range relations with
  | [] => zeroEvent
  | (_, rel) :: _ =>
      let source := event_source serverName dbName rel xid lsn ts.1 in
      WithTimestamp ts.2 (WithOperation OpTruncate (WithSource source NewEventBuilder))
  end.

(** ** Receiving, stream.go *)

Record XLogData := { xld_WALStart : Z; xld_WALData : string }.

(** The parsers of the replication protocol; [None] is an error. *)
Class WalParser := {
  PrimaryKeepaliveMessageByteID : ascii;
  XLogDataByteID : ascii;
  ParsePrimaryKeepaliveMessage : string → option Z;     (* its ServerWALEnd *)
  ParseXLogData : string → option XLogData;
  ParseV2 : string → bool → option logicalMessage
}.

(** What [ReceiveMessage] returned: an error that is a timeout or not, a message
    of type CopyData or another. *)
Inductive received := RecvTimeout | RecvError | RecvCopyData (data : string) | RecvOther.

(** One turn of the loop, with the readings of the clock (two in the loop, two for
    an event), whether the status can be sent, and what is received. *)
Record turn := {
  tn_now : Z; tn_later : Z; tn_standby_ok : bool; tn_msg : received; tn_ts : Z * Z
}.

(** The variables of the loop, with the events sent to the channel and the
    positions reported to the server, oldest first. *)
Record Loop := {
  lp_relations : Relations; lp_nextStandby : Z; lp_walPos : Z; lp_inStream : bool;
  lp_events : list Event; lp_status : list Z
}.

Inductive outcome :=
| Goes (s : Loop)      (* to the next turn *)
| Returns (s : Loop)   (* the channel is closed *)
| Exits                (* the process ends *)
| Panics.

Definition set_relations (m : Relations) (s : Loop) : Loop :=
  {| lp_relations := m; lp_nextStandby := lp_nextStandby s; lp_walPos := lp_walPos s;
     lp_inStream := lp_inStream s; lp_events := lp_events s; lp_status := lp_status s |}.
Definition set_inStream (b : bool) (s : Loop) : Loop :=
  {| lp_relations := lp_relations s; lp_nextStandby := lp_nextStandby s; lp_walPos := lp_walPos s;
     lp_inStream := b; lp_events := lp_events s; lp_status := lp_status s |}.
Definition add_event (e : Event) (s : Loop) : Loop :=
  {| lp_relations := lp_relations s; lp_nextStandby := lp_nextStandby s; lp_walPos := lp_walPos s;
     lp_inStream := lp_inStream s; lp_events := lp_events s ++ [e]; lp_status := lp_status s |}.
Definition see_position (pos : Z) (s : Loop) : Loop :=
  {| lp_relations := lp_relations s; lp_nextStandby := lp_nextStandby s;
     lp_walPos := if lp_walPos s <? pos then pos else lp_walPos s;
     lp_inStream := lp_inStream s; lp_events := lp_events s; lp_status := lp_status s |}.
Definition report (next : Z) (s : Loop) : Loop :=
  {| lp_relations := lp_relations s; lp_nextStandby := next; lp_walPos := lp_walPos s;
     lp_inStream := lp_inStream s; lp_events := lp_events s; lp_status := lp_status s ++ [lp_walPos s] |}.

Section Receive.
Context `{WP : WalParser} `{PT : PgTypes} `{GR : GoRange}.

(** The event of a message; the outer [None] is a panic, the inner one no event.
    The position that an event carries is its transaction's number. *)
Definition message_event (relations : Relations) (tm : typeMap) (dbName dbHost : string) (msg : logicalMessage)
    (ts : Z * Z) : option (option Event) :=
  match msg with
  | InsertMsg xid id tuple => Some <$> handleInsertMessageV2 xid id tuple relations tm dbHost dbName xid ts
  | UpdateMsg xid id old new => Some <$> handleUpdateMessageV2 xid id old new relations tm dbHost dbName xid ts
  | DeleteMsg xid id old => Some <$> handleDeleteMessageV2 xid id old relations tm dbHost dbName xid ts
  | TruncateMsg xid _ => Some (Some (handleTruncateMessageV2 xid relations dbHost dbName xid ts))
  | _ => Some None
  end.

(** The assignments of the cases, and the event that is sent then. *)
Definition apply_message (msg : logicalMessage) (event : option Event) (s : Loop) : Loop :=
  let s := match msg with
           | RelationMsg r => set_relations (<[rel_RelationID r := r]> (lp_relations s)) s
           | StreamStartMsg => set_inStream true s
           | StreamStopMsg => set_inStream false s
           | _ => s
           end in
  match event with Some e => add_event e s | None => s end.

Definition processV2 (walData dbName dbHost : string) (tm : typeMap) (ts : Z * Z) (s : Loop) : outcome :=
  match ParseV2 walData (lp_inStream s) with
  | None => Exits
  | Some msg =>
      match message_event (lp_relations s) tm dbName dbHost msg ts with
      | None => Panics
      | Some event => Goes (apply_message msg event s)
      end
  end.

(** The settings of the goroutine: the interval, and the server's address. *)
Context (interval : Z) (serverAddr : string).

Definition receive (tn : turn) (s : Loop) : outcome :=
  match tn_msg tn with
  | RecvTimeout | RecvOther => Goes s
  | RecvError => Returns s
  | RecvCopyData EmptyString => Panics
  | RecvCopyData (String id data) =>
      if bool_decide (id = PrimaryKeepaliveMessageByteID) then
        match ParsePrimaryKeepaliveMessage data with
        | None => Goes s
        | Some serverWALEnd => Goes (see_position serverWALEnd s)
        end
      else if bool_decide (id = XLogDataByteID) then
        match ParseXLogData data with
        | None => Goes s
        | Some xld => processV2 (xld_WALData xld) "" serverAddr newTypeMap (tn_ts tn) (see_position (xld_WALStart xld) s)
        end
      else Goes s
  end.

(** The status is sent when its time has passed. *)
Definition stream_turn (tn : turn) (s : Loop) : outcome :=
  if lp_nextStandby s <? tn_now tn then
    if tn_standby_ok tn then receive tn (report (tn_later tn + interval) s) else Returns s
  else receive tn s.

(** The loop over the turns that there are. *)
Fixpoint stream_loop (turns : list turn) (s : Loop) : outcome :=
  match turns with
  | [] => Goes s
  | tn :: turns => match stream_turn tn s with Goes s => stream_loop turns s | o => o end
  end.

Definition streamEvents (now : Z) (turns : list turn) : outcome :=
  stream_loop turns {| lp_relations := ∅; lp_nextStandby := now + interval; lp_walPos := 0; lp_inStream := false;
                       lp_events := []; lp_status := [] |}.

End Receive.
