(* ===== verification/ReplicationSetup.v ===== *)
(** * ReplicationSetup: how a replication is started.

    Defaults and validation of the configuration, the patterns of tables, and the
    requests that are sent before streaming begins. *)

From S2P Require Import Prelude GoStrings GoStringFacts GoAny Replication.
Local Open Scope Z_scope.

(** ** Configuration *)

Theorem mergeWithDefaults_idempotent cfg :
  mergeWithDefaults (Some (mergeWithDefaults cfg)) = mergeWithDefaults cfg.
Proof.
  assert (∀ s t, or_string (or_string s t) t = or_string s t) as Hs.
  { intros s t. unfold or_string. repeat case_bool_decide; congruence. }
  assert (∀ a b, or_int (or_int a b) b = or_int a b) as Hi.
  { intros a b. unfold or_int. destruct (Z.eqb_spec a 0) as [Ha|Ha]; [by destruct (b =? 0)|].
    by rewrite (proj2 (Z.eqb_neq a 0) Ha). }
  destruct cfg as [cfg|]; [|done]. cbn. rewrite !Hs, !Hi. by destruct (cfg_Ops cfg).
Qed.

(** The configurations that are accepted. *)
Lemma validateConfig_ok cfg :
  validateConfig (Some cfg) = None ↔
  Forall (λ op, op ∈ [OpInsert; OpUpdate_; OpDelete_; OpTruncate_]) (cfg_Ops cfg) ∧
  second ≤ cfg_StandbyUpdateInterval cfg ∧
  cfg_PublishGeneratedColumns cfg ∈
    [PublishGeneratedColumnsUnset; PublishGeneratedColumnsNone; PublishGeneratedColumnsStored].
Proof.
  unfold validateConfig. destruct (List.find _ (cfg_Ops cfg)) as [op|] eqn:Hf.
  - apply List.find_some in Hf as [Hin Hop]. bool_simp. split; [done|]. intros (Hall & _).
    rewrite Forall_forall in Hall. by destruct (Hop (Hall op (proj2 (list_elem_of_In _ _) Hin))).
  - rewrite Forall_forall. destruct (Z.ltb_spec (cfg_StandbyUpdateInterval cfg) second).
    { split; [done|]. intros (_ & ? & _). lia. }
    case_bool_decide; [|by split; [|intros (_ & _ & ?)]].
    split; [|done]. intros _. split_and!; [|done|done]. intros op Hin%list_elem_of_In.
    pose proof (List.find_none _ _ Hf op Hin) as Hn. by apply negb_false_iff, bool_decide_eq_true in Hn.
Qed.

(** ** Publications *)

Definition is_all (p : string) : bool := bool_decide (p = "*") || bool_decide (p = "*.*").
Definition schema_of (p : string) : option string :=
  match LastIndex p ".*" with Some (S _ as idx) => Some (take idx p) | _ => None end.

(** The patterns: all tables if one says so; else the schemas and the tables named,
    each in their order. *)
Theorem parsePublicationTables_spec patterns :
  parsePublicationTables patterns =
  if existsb is_all patterns then {| tp_allTables := true; tp_schemas := []; tp_tables := [] |}
  else {| tp_allTables := false; tp_schemas := omap schema_of patterns;
          tp_tables := filter (λ p, schema_of p = None) patterns |}.
Proof.
  unfold parsePublicationTables.
  assert (∀ ss ts, parse_patterns patterns {| tp_allTables := false; tp_schemas := ss; tp_tables := ts |} =
    if existsb is_all patterns then {| tp_allTables := true; tp_schemas := []; tp_tables := [] |}
    else {| tp_allTables := false; tp_schemas := ss ++ omap schema_of patterns;
            tp_tables := ts ++ filter (λ p, schema_of p = None) patterns |}) as Hgen; [|apply Hgen].
  induction patterns as [|p patterns IH]; intros ss ts; [by rewrite !app_nil_r|].
  cbn [parse_patterns existsb]. fold (is_all p). destruct (is_all p) eqn:Ha; [done|]. cbn [orb].
  transitivity (match schema_of p with
    | Some s => parse_patterns patterns {| tp_allTables := false; tp_schemas := ss ++ [s]; tp_tables := ts |}
    | None => parse_patterns patterns {| tp_allTables := false; tp_schemas := ss; tp_tables := ts ++ [p] |}
    end).
  { unfold schema_of. by destruct (LastIndex p ".*") as [[|n]|]. }
  rewrite filter_cons. cbn [omap list_omap]. destruct (schema_of p) as [s|] eqn:Hs; rewrite IH.
  - rewrite decide_False by done. by rewrite <-app_assoc.
  - rewrite decide_True by done. by rewrite <-app_assoc.
Qed.

Lemma schema_pattern s : s ≠ "" → schema_of (s +:+ ".*") = Some s.
Proof.
  intros Hs. unfold schema_of. replace (LastIndex (s +:+ ".*") ".*") with (Some (len s)).
  - destruct s as [|c s]; [done|]. f_equal. exact (take_app (String c s) ".*").
  - clear Hs. induction s as [|c s IH]; [done|]. rewrite app_cons_str. cbn [LastIndex]. by rewrite <-IH.
Qed.

(** Tables beside a schema are left out of the publication. *)
Theorem tables_dropped tp : tp_allTables tp = false → tp_schemas tp ≠ [] →
  publication_object tp = " FOR TABLES IN SCHEMA " +:+ Join (tp_schemas tp) ", ".
Proof. intros Ha Hs. unfold publication_object. rewrite Ha. by destruct (tp_schemas tp). Qed.

(** ** Requests *)

Section Requests.
Context `{RS : ReplServer}.

Lemma M_bind_ok {A B} (m : M A) (f : A → M B) b log log' :
  (m ≫= f) log = (Some (Ok b), log') ↔ ∃ a log1, m log = (Some (Ok a), log1) ∧ f a log1 = (Some (Ok b), log').
Proof.
  unfold mbind, M_bind. destruct (m log) as [[[a|e]|] log1]; split; try done; try naive_solver.
Qed.
Lemma M_ret_ok {A} (a b : A) log log' : (mret a : M A) log = (Some (Ok b), log') ↔ a = b ∧ log = log'.
Proof. unfold mret, M_ret. naive_solver. Qed.
Lemma wrapped_ok {A} context (m : M A) a log log' :
  wrapped context m log = (Some (Ok a), log') ↔ m log = (Some (Ok a), log').
Proof. unfold wrapped. destruct (m log) as [[[?|?]|] ?]; cbn; naive_solver. Qed.
Lemma send_ok {A} r (answer : list request → res string A) a log log' :
  send r answer log = (Some (Ok a), log') ↔ answer log = Ok a ∧ log' = log ++ [r].
Proof. unfold send. destruct (answer log); cbn; naive_solver. Qed.

(** The first cell of an answer. *)
Definition cell_of (rows : list (list (list string))) : option string :=
  match rows with ((cell :: _) :: _) :: _ => Some cell | _ => None end.
Definition asked (log : list request) (sql : string) : option string :=
  match srv_Exec log sql with Ok rows => cell_of rows | Err _ => None end.
Definition answered (log : list request) (sql : string) : Prop := ∃ rows, srv_Exec log sql = Ok rows.

Lemma first_cell_ok rows o log log' :
  first_cell rows log = (Some (Ok o), log') → o = cell_of rows ∧ log' = log.
Proof. destruct rows as [|[|[|cell row] rows] results]; cbn; try done; by intros [= <- <-]. Qed.

Lemma checkExists_ok table column value b log log' :
  checkExists table column value log = (Some (Ok b), log') →
  let sql := exists_sql table column value in
  b = bool_decide (asked log sql = Some "t") ∧ log' = log ++ [RExec sql].
Proof.
  unfold checkExists. do 2 (case_bool_decide; cbn [negb]; [|done]).
  intros (rows & log1 & [E ->]%wrapped_ok%send_ok & E1)%M_bind_ok. cbv beta in E.
  apply M_bind_ok in E1 as (o & log2 & [-> ->]%first_cell_ok & [<- <-]%M_ret_ok).
  unfold asked. by rewrite E.
Qed.

Definition version_sql : string := "SHOW server_version_num".
Definition generated_clause (cfg : Config) : string :=
  "publish_generated_columns = '" +:+ cfg_PublishGeneratedColumns cfg +:+ "'".

(** The clause for generated columns: none if unset; else the server said that it
    is new enough. *)
Definition generated_requests (cfg : Config) (log : list request) (params : list string) (reqs : list request) : Prop :=
  if bool_decide (cfg_PublishGeneratedColumns cfg = PublishGeneratedColumnsUnset) then params = [] ∧ reqs = []
  else params = [generated_clause cfg] ∧ reqs = [RExec version_sql] ∧
       ∃ s v, asked log version_sql = Some s ∧ Atoi s = Some v ∧ minPgVersionGeneratedCols ≤ v.

Lemma generated_param_ok cfg params log log' :
  generated_param cfg log = (Some (Ok params), log') →
  ∃ reqs, log' = log ++ reqs ∧ generated_requests cfg log params reqs.
Proof.
  unfold generated_param, generated_requests. case_bool_decide.
  { intros [<- <-]%M_ret_ok. exists []. by rewrite app_nil_r. }
  intros (v & log1 & E%wrapped_ok & E1)%M_bind_ok. exists [RExec version_sql].
  unfold serverVersionNum in E. apply M_bind_ok in E as (rows & log2 & [Er ->]%wrapped_ok%send_ok & E).
  apply M_bind_ok in E as (o & log3 & [-> ->]%first_cell_ok & E).
  destruct (cell_of rows) as [s|] eqn:Hc; [|done]. destruct (Atoi s) as [n|] eqn:Hn; [|done].
  apply M_ret_ok in E as [-> <-]. destruct (Z.ltb_spec v minPgVersionGeneratedCols); [done|].
  apply M_ret_ok in E1 as [<- <-]. split_and!; [done..|]. exists s, v. split_and!; [|done|done].
  unfold asked, version_sql. cbv beta in Er. by rewrite Er.
Qed.

(** The publication: found by its name and, at most, altered, or made. *)
Definition publication_sql (cfg : Config) : string := exists_sql "pg_publication" "pubname" (cfg_Publication cfg).
Inductive publication_requests (cfg : Config) (log : list request) : list request → Prop :=
| publication_kept params reqs :
    asked log (publication_sql cfg) = Some "t" →
    generated_requests cfg (log ++ [RExec (publication_sql cfg)]) params reqs →
    publication_requests cfg log (RExec (publication_sql cfg) :: reqs ++
      match params with [] => [] | _ => [RExec (alter_sql cfg params)] end)
| publication_made params reqs :
    asked log (publication_sql cfg) ≠ Some "t" →
    generated_requests cfg (log ++ [RExec (publication_sql cfg)]) params reqs →
    publication_requests cfg log (RExec (publication_sql cfg) :: reqs ++
      [RExec (create_sql cfg (publish_params cfg ++ params))]).

Definition slot_sql (cfg : Config) : string := exists_sql "pg_replication_slots" "slot_name" (cfg_Slot cfg).
Definition slot_requests (cfg : Config) (log : list request) : list request :=
  RExec (slot_sql cfg) :: if bool_decide (asked log (slot_sql cfg) = Some "t") then []
                          else [RCreateReplicationSlot (cfg_Slot cfg) (cfg_Plugin cfg)].

Lemma ensurePublication_ok cfg log log' :
  ensurePublication cfg log = (Some (Ok tt), log') → ∃ reqs, log' = log ++ reqs ∧ publication_requests cfg log reqs.
Proof.
  unfold ensurePublication. intros (b & log1 & [-> ->]%checkExists_ok & E)%M_bind_ok.
  fold (publication_sql cfg) in E. destruct (bool_decide_reflect (asked log (publication_sql cfg) = Some "t")) as [Ht|Ht].
  - apply wrapped_ok in E. unfold reconcilePublication in E.
    apply M_bind_ok in E as (params & log2 & (reqs & -> & Hg)%generated_param_ok & E).
    eexists. split; [|by eapply publication_kept]. rewrite <-app_assoc in E. destruct params as [|q params].
    + apply M_ret_ok in E as [_ <-]. by rewrite app_nil_r.
    + apply M_bind_ok in E as (rows & log3 & [_ ->]%wrapped_ok%send_ok & [_ <-]%M_ret_ok).
      by rewrite <-!app_assoc.
  - apply M_bind_ok in E as (params & log2 & (reqs & -> & Hg)%generated_param_ok & E).
    apply M_bind_ok in E as (rows & log3 & [_ ->]%wrapped_ok%send_ok & [_ <-]%M_ret_ok).
    eexists. split; [|by eapply publication_made]. by rewrite <-!app_assoc.
Qed.

Lemma ensureSlot_ok cfg log log' :
  ensureSlot (cfg_Slot cfg) (cfg_Plugin cfg) log = (Some (Ok tt), log') → log' = log ++ slot_requests cfg log.
Proof.
  unfold ensureSlot, slot_requests. intros (b & log1 & [-> ->]%checkExists_ok & E)%M_bind_ok.
  fold (slot_sql cfg) in E. case_bool_decide.
  - by apply M_ret_ok in E as [_ <-].
  - apply send_ok in E as [_ ->]. by rewrite <-app_assoc.
Qed.

(** C20: replication starts on an open connection with a valid configuration only,
    the given one with its gaps filled, after these requests: the publication is
    looked for and made if it is missing, with generated columns only if the server
    said that it knows them; the slot is made if it is missing; and the position
    that streaming starts from is the server's current one, also for a slot that
    was there before. *)
Theorem stream_requests conn cfg log cfg' log' :
  Stream conn cfg log = (Some (Ok cfg'), log') →
  conn = true ∧ cfg' = mergeWithDefaults cfg ∧ validateConfig (Some cfg') = None ∧ 0 ≤ cfg_BufferSize cfg' ∧
  ∃ publication pos, publication_requests cfg' log publication ∧
    srv_IdentifySystem (log ++ publication) = Ok pos ∧
    let log1 := log ++ publication ++ [RIdentifySystem] in
    log' = log1 ++ slot_requests cfg' log1 ++ [RStartReplication (cfg_Slot cfg') pos (plugin_args cfg')].
Proof.
  unfold Stream. destruct conn; [|done]. cbn [negb].
  destruct (validateConfig (Some (mergeWithDefaults cfg))) eqn:Hv; [done|].
  destruct (Z.ltb_spec (cfg_BufferSize (mergeWithDefaults cfg)) 0); [done|].
  intros ([] & log1 & E%wrapped_ok & [<- <-]%M_ret_ok)%M_bind_ok. split_and!; [done..|].
  unfold setupReplication in E.
  apply M_bind_ok in E as ([] & log2 & (publication & -> & Hp)%wrapped_ok%ensurePublication_ok & E).
  apply M_bind_ok in E as (pos & log3 & [Hpos ->]%wrapped_ok%send_ok & E).
  apply M_bind_ok in E as ([] & log4 & ->%wrapped_ok%ensureSlot_ok & E).
  apply send_ok in E as [_ ->]. exists publication, pos. split_and!; [done|done|]. by rewrite <-!app_assoc.
Qed.

(** A refusal or a panic before anything is asked of the server. *)
Theorem stream_refuses conn cfg log :
  conn = false ∨ validateConfig (Some (mergeWithDefaults cfg)) ≠ None ∨ cfg_BufferSize (mergeWithDefaults cfg) < 0 →
  ∃ r, Stream conn cfg log = (r, log) ∧ ∀ cfg', r ≠ Some (Ok cfg').
Proof.
  intros H. unfold Stream. destruct conn; cbn [negb]; [|by eexists].
  destruct (validateConfig (Some (mergeWithDefaults cfg))); [by eexists|].
  destruct H as [?|[?|Hlt]]; [done..|]. rewrite (proj2 (Z.ltb_lt _ _) Hlt). by eexists.
Qed.

End Requests.

(** A server with neither the publication nor the slot, at version 18. *)
Definition new_server : ReplServer := {|
  srv_Exec := λ _ sql, if HasPrefix sql "SHOW" then Ok [[["180001"]]] else Ok [[["f"]]];
  srv_IdentifySystem := λ _, Ok 4711;
  srv_CreateReplicationSlot := λ _ _ _, Ok tt;
  srv_StartReplication := λ _ _ _ _, Ok tt |}.

Definition demo_config : Config := {|
  cfg_Publication := ""; cfg_Slot := ""; cfg_Plugin := ""; cfg_Tables := ["public.users"; "audit.*"]; cfg_Ops := [];
  cfg_PartitionRoot := false; cfg_StandbyUpdateInterval := 0; cfg_ReplicaIdentity := ∅; cfg_BufferSize := 0;
  cfg_PublishGeneratedColumns := "stored" |}.

Definition demo_requests : list request := [
  RExec "SELECT EXISTS (SELECT 1 FROM pg_publication WHERE pubname = 'pigo_pub')";
  RExec "SHOW server_version_num";
  RExec ("CREATE PUBLICATION pigo_pub FOR TABLES IN SCHEMA audit WITH " +:+
         "(publish = 'insert, update, delete, truncate', publish_generated_columns = 'stored')");
  RIdentifySystem;
  RExec "SELECT EXISTS (SELECT 1 FROM pg_replication_slots WHERE slot_name = 'pigo_slot')";
  RCreateReplicationSlot "pigo_slot" "pgoutput";
  RStartReplication "pigo_slot" 4711
    ["proto_version '4'"; "publication_names 'pigo_pub'"; "messages 'true'"; "streaming 'true'"]].

(** The table [public.users] that was asked for is not published. *)
Example table_beside_schema :
  Stream (RS := new_server) true (Some demo_config) [] =
    (Some (Ok (mergeWithDefaults (Some demo_config))), demo_requests).
Proof. vm_compute. reflexivity. Qed.

Lemma stream_requests_witness :
  ∃ publication pos, publication_requests (RS := new_server) (mergeWithDefaults (Some demo_config)) [] publication ∧
    demo_requests = publication ++ [RIdentifySystem] ++
      slot_requests (RS := new_server) (mergeWithDefaults (Some demo_config)) (publication ++ [RIdentifySystem]) ++
      [RStartReplication "pigo_slot" pos (plugin_args (mergeWithDefaults (Some demo_config)))].
Proof.
  destruct (stream_requests (RS := new_server) true (Some demo_config) [] _ _ table_beside_schema)
    as (_ & _ & _ & _ & publication & pos & Hp & _ & Hl).
  exists publication, pos. split; [exact Hp|]. cbv zeta in Hl. cbn [app] in Hl. rewrite <-app_assoc in Hl. exact Hl.
Defined.

Example tables_named :
  publication_object (parsePublicationTables ["orders"; "public.users"]) = " FOR TABLE orders, public.users" ∧
  publication_object (parsePublicationTables ["orders"; "*"; "a.*"]) = " FOR ALL TABLES".
Proof. vm_compute. auto. Qed.
