(* ===== verification/ReplicationProps.v ===== *)
(** * ReplicationProps: what the source of change events does.

    Tuples become rows by the names of the relation's columns; the loop refines a
    reading of the messages in order, each against the last relation of its
    number; positions reported to the server never go back nor ahead; the loop
    goes on while the server keeps to the protocol; what becomes of the events in
    the sink of file PeerPG. *)

From S2P Require Import Prelude GoStrings GoStringFacts GoAny SqlText FilterSQL Cdc Replication.
From S2P Require Import Schema FilterBinds FilterTests Crud PeerPG.
Local Open Scope Z_scope.

(** ** Rows *)

Definition named_columns (columns : list RelationColumn) : list string := rc_Name <$> columns.

Lemma tuple_values_panics tm columns tuple values :
  tuple_values tm columns tuple values = None ↔ (length columns < length tuple)%nat.
Proof.
  revert tuple values. induction columns as [|rc columns IH]; intros [|col tuple] values; cbn.
  1-3: (split; [done|lia]) || (split; [lia|done]).
  rewrite IH. lia.
Qed.

Lemma tuple_values_other tm columns tuple values row k :
  tuple_values tm columns tuple values = Some row → k ∉ named_columns columns → row !! k = values !! k.
Proof.
  revert tuple values. induction columns as [|rc columns IH]; intros [|col tuple] values E Hk; cbn in E;
    simplify_eq; try done.
  apply not_elem_of_cons in Hk as [Hk1 Hk2]. by rewrite (IH _ _ E Hk2), lookup_insert_ne.
Qed.

(** The row of a tuple: under the name of each of its columns, its value; no
    other names. *)
Lemma tuple_values_spec tm columns tuple row :
  NoDup (named_columns columns) → tuple_values tm columns tuple ∅ = Some row →
  ∀ k v, row !! k = Some v ↔ ∃ i rc col, columns !! i = Some rc ∧ tuple !! i = Some col ∧
    rc_Name rc = k ∧ v = decodeColumn col tm (rc_DataType rc).
Proof.
  intros Hnd E k v.
  assert (∀ values, (∀ rc, rc ∈ columns → values !! rc_Name rc = None) →
    tuple_values tm columns tuple values = Some row →
    (row !! k = Some v ↔ values !! k = Some v ∨ ∃ i rc col, columns !! i = Some rc ∧ tuple !! i = Some col ∧
      rc_Name rc = k ∧ v = decodeColumn col tm (rc_DataType rc))) as Hgen.
  2:{ rewrite (Hgen ∅); [|by intros|done]. rewrite lookup_empty. split; [by intros [?|?]|by right]. }
  clear E. revert tuple Hnd. induction columns as [|rc columns IH]; intros [|col tuple] Hnd values Hv E;
    cbn in E; simplify_eq.
  - split; [by left|]. by intros [?|(i & ? & ? & ? & ? & _)].
  - split; [by left|]. by intros [?|(i & ? & ? & ? & ? & _)].
  - apply NoDup_cons in Hnd as [Hni Hnd]. rewrite (IH tuple Hnd _) with (2 := E).
    2:{ intros rc' Hin. rewrite lookup_insert_ne; [by apply Hv; right|].
        intros Heq. apply Hni. rewrite Heq. by apply list_elem_of_fmap_2. }
    rewrite lookup_insert_Some. split.
    + intros [[[<- <-]|[Hne Hk]]|(i & rc' & col' & H1 & H2 & H3)]; [|by left|].
      * right. by exists 0%nat, rc, col.
      * right. by exists (S i), rc', col'.
    + intros [Hk|(i & rc' & col' & H1 & H2 & H3 & H4)].
      * left. right. split; [|done]. intros Heq. specialize (Hv rc (list_elem_of_here _ _)). congruence.
      * destruct i as [|i]; cbn in H1, H2; simplify_eq; [by left; left|]. right. by exists i, rc', col'.
Qed.

(** ** The meaning of a sequence of messages *)

(** A message with the readings of the clock at its turn. *)
Abbreviation timed := (logicalMessage * (Z * Z))%type.

(** The last relation of a number that the messages define. *)
Definition last_relation (ms : list timed) (id : Z) : option RelationMessageV2 :=
  last (omap (λ m : timed, match m.1 with
                           | RelationMsg r => if bool_decide (rel_RelationID r = id) then Some r else None
                           | _ => None
                           end) ms).

Definition row_of (tm : typeMap) (rel : RelationMessageV2) (tuple : TupleData) (row : gmap string any) : Prop :=
  (length tuple ≤ length (rel_Columns rel))%nat ∧
  ∀ k v, row !! k = Some v ↔ ∃ i rc col, rel_Columns rel !! i = Some rc ∧ tuple !! i = Some col ∧
    rc_Name rc = k ∧ v = decodeColumn col tm (rc_DataType rc).

(** A change to a row of [rel]. *)
Definition change (serverAddr : string) (op : Operation) (before after : any) (rel : RelationMessageV2) (xid : Z)
    (ts : Z * Z) : Event := {|
  ev_Schema := {| sch_Type := "struct"; sch_Optional := false; sch_Name := ""; sch_Fields := None |};
  ev_Payload := {|
    pay_Before := before; pay_After := after;
    pay_Source := {| src_Version := "1.0"; src_Connector := "postgresql"; src_Name := serverAddr; src_TsMs := ts.1;
                     src_Snapshot := false; src_Db := ""; src_Sequence := "[0,0]"; src_Schema := rel_Namespace rel;
                     src_Table := rel_RelationName rel; src_TxID := xid; src_Lsn := xid; src_Xmin := None |};
    pay_Op := op; pay_TsMs := ts.2; pay_Transaction := None |} |}.

(** The event of a message, if any, by the relations [rels] known before it. *)
Inductive means (tm : typeMap) (addr : string) (rels : Z → option RelationMessageV2) : timed → option Event → Prop :=
| means_insert xid id rel tuple row ts :
    rels id = Some rel → row_of tm rel tuple row →
    means tm addr rels (InsertMsg xid id (Some tuple), ts) (Some (change addr OpCreate ANil (AObj row) rel xid ts))
| means_update xid id rel old new before after ts :
    rels id = Some rel → row_of tm rel (default [] old) before → row_of tm rel (default [] new) after →
    means tm addr rels (UpdateMsg xid id old new, ts)
      (Some (change addr OpUpdate (AObj before) (AObj after) rel xid ts))
| means_delete xid id rel old before ts :
    rels id = Some rel → row_of tm rel old before →
    means tm addr rels (DeleteMsg xid id (Some old), ts) (Some (change addr OpDelete (AObj before) ANil rel xid ts))
| means_truncate xid ids id rel ts :
    rels id = Some rel →
    means tm addr rels (TruncateMsg xid ids, ts) (Some (change addr OpTruncate ANil ANil rel xid ts))
| means_truncate_unknown xid ids ts :
    (∀ id, rels id = None) → means tm addr rels (TruncateMsg xid ids, ts) (Some zeroEvent)
| means_unknown m xid id ts :
    (∃ t, m = InsertMsg xid id t) ∨ (∃ o n, m = UpdateMsg xid id o n) ∨ (∃ o, m = DeleteMsg xid id o) →
    rels id = None → means tm addr rels (m, ts) (Some zeroEvent)
| means_nothing m ts :
    (∃ r, m = RelationMsg r) ∨ m = StreamStartMsg ∨ m = StreamStopMsg ∨ m = OtherMsg →
    means tm addr rels (m, ts) None.

(** Relations have distinct columns, and tuples fit them. *)
Definition distinct_columns (m : timed) : Prop :=
  match m.1 with RelationMsg r => NoDup (named_columns (rel_Columns r)) | _ => True end.

(** The relations known matter by their lookups only. *)
#[export] Instance means_proper tm addr :
  Proper (pointwise_relation Z eq ==> eq ==> eq ==> impl) (means tm addr).
Proof.
  intros rels rels' Hr m _ <- e _ <- H. assert (∀ id, rels id = rels' id) as Hr' by exact Hr.
  destruct H; econstructor; eauto; try (by rewrite <-Hr'); intros; by rewrite <-Hr'.
Qed.

Lemma row_of_values tm rel tuple row :
  NoDup (named_columns (rel_Columns rel)) → tuple_values tm (rel_Columns rel) tuple ∅ = Some row →
  row_of tm rel tuple row.
Proof.
  intros Hnd E. split; [|by apply tuple_values_spec].
  destruct (decide (length tuple ≤ length (rel_Columns rel))%nat) as [|Hlt]; [done|].
  assert (tuple_values tm (rel_Columns rel) tuple ∅ = None) by (apply tuple_values_panics; lia). congruence.
Qed.

Section Messages.
Context `{GR : GoRange}.

Lemma message_event_means relations tm addr m ts e :
  (∀ id rel, relations !! id = Some rel → NoDup (named_columns (rel_Columns rel))) →
  message_event relations tm "" addr m ts = Some e → means tm addr (λ id, relations !! id) (m, ts) e.
Proof.
  intros Hnd E. destruct m as [r|xid id tuple|xid id old new|xid id old|xid ids| | |]; cbn in E;
    try (injection E as <-; apply means_nothing; naive_solver).
  - unfold handleInsertMessageV2 in E. destruct (relations !! id) as [rel|] eqn:Hr.
    + destruct tuple as [tuple|]; [|done]. cbn in E. apply fmap_Some in E as (ev & E & ->).
      apply bind_Some in E as (row & E & [= <-]).
      apply (means_insert tm addr (λ id, relations !! id) xid id rel tuple); [done|].
      apply row_of_values; [by apply (Hnd id)|done].
    + cbn in E. injection E as <-. apply (means_unknown _ _ _ _ xid id); naive_solver.
  - unfold handleUpdateMessageV2 in E. destruct (relations !! id) as [rel|] eqn:Hr.
    + apply fmap_Some in E as (ev & E & ->). apply bind_Some in E as (before & Eb & E).
      apply bind_Some in E as (after & Ea & [= <-]).
      apply (means_update tm addr (λ id, relations !! id) xid id rel old new); [done| |];
        (apply row_of_values; [by apply (Hnd id)|done]).
    + cbn in E. injection E as <-. apply (means_unknown _ _ _ _ xid id); naive_solver.
  - unfold handleDeleteMessageV2 in E. destruct (relations !! id) as [rel|] eqn:Hr.
    + destruct old as [old|]; [|done]. cbn in E. apply fmap_Some in E as (ev & E & ->).
      apply bind_Some in E as (row & E & [= <-]).
      apply (means_delete tm addr (λ id, relations !! id) xid id rel old); [done|].
      apply row_of_values; [by apply (Hnd id)|done].
    + cbn in E. injection E as <-. apply (means_unknown _ _ _ _ xid id); naive_solver.
  - injection E as <-. unfold handleTruncateMessageV2. pose proof (range_perm relations) as Hp.
    destruct (range relations) as [|[id rel] l].
    + apply means_truncate_unknown. intros id. apply Permutation_nil in Hp.
      apply map_to_list_empty_iff in Hp as ->. apply lookup_empty.
    + apply (means_truncate tm addr (λ id, relations !! id) xid ids id rel).
      apply elem_of_map_to_list. rewrite <-Hp. by left.
Qed.

(** The tuples that the message needs are there and fit their relation. *)
Definition fits (rels : Z → option RelationMessageV2) (m : logicalMessage) : Prop :=
  match m with
  | InsertMsg _ id t | DeleteMsg _ id t =>
      ∀ rel, rels id = Some rel → ∃ t', t = Some t' ∧ (length t' ≤ length (rel_Columns rel))%nat
  | UpdateMsg _ id o n =>
      ∀ rel, rels id = Some rel → (length (default [] o) ≤ length (rel_Columns rel))%nat ∧
                                  (length (default [] n) ≤ length (rel_Columns rel))%nat
  | _ => True
  end.

Lemma tuple_values_fit tm columns tuple values :
  (length tuple ≤ length columns)%nat → ∃ row, tuple_values tm columns tuple values = Some row.
Proof.
  intros Hl. destruct (tuple_values tm columns tuple values) as [row|] eqn:E; [by exists row|].
  apply tuple_values_panics in E. lia.
Qed.

(** No panic exactly for messages that fit. *)
Lemma message_event_total relations tm dbName dbHost m ts :
  fits (λ id, relations !! id) m ↔ message_event relations tm dbName dbHost m ts ≠ None.
Proof.
  destruct m as [r|xid id tuple|xid id old new|xid id old|xid ids| | |]; cbn; try done;
    unfold handleInsertMessageV2, handleUpdateMessageV2, handleDeleteMessageV2;
    destruct (relations !! id) as [rel|]; try done.
  - split.
    + intros H. destruct (H rel eq_refl) as (t & -> & Hl). cbn.
      by destruct (tuple_values_fit tm _ _ ∅ Hl) as (row & ->).
    + intros H rel' [= <-]. destruct tuple as [t|]; [|done]. exists t. split; [done|].
      apply Nat.nlt_ge. intros Hlt%(tuple_values_panics tm _ _ ∅). cbn in H. by rewrite Hlt in H.
  - split.
    + intros H. destruct (H rel eq_refl) as [Ho Hn].
      destruct (tuple_values_fit tm _ _ ∅ Ho) as (row & ->), (tuple_values_fit tm _ _ ∅ Hn) as (row' & Hr). cbn.
      by rewrite Hr.
    + intros H rel' [= <-]. split; apply Nat.nlt_ge; intros Hlt%(tuple_values_panics tm _ _ ∅); rewrite Hlt in H;
        [done|]. by destruct (tuple_values tm (rel_Columns rel) (default [] old) ∅).
  - split.
    + intros H. destruct (H rel eq_refl) as (t & -> & Hl). cbn.
      by destruct (tuple_values_fit tm _ _ ∅ Hl) as (row & ->).
    + intros H rel' [= <-]. destruct old as [t|]; [|done]. exists t. split; [done|].
      apply Nat.nlt_ge. intros Hlt%(tuple_values_panics tm _ _ ∅). cbn in H. by rewrite Hlt in H.
Qed.

End Messages.

(** ** The loop *)

Section Loop.
Context `{WP : WalParser} `{PT : PgTypes} `{GR : GoRange}.
Context (interval : Z) (serverAddr : string).

(** The position and the data of a turn. *)
Definition position (tn : turn) : option Z :=
  match tn_msg tn with
  | RecvCopyData (String id data) =>
      if bool_decide (id = PrimaryKeepaliveMessageByteID) then ParsePrimaryKeepaliveMessage data
      else if bool_decide (id = XLogDataByteID) then xld_WALStart <$> ParseXLogData data else None
  | _ => None
  end.
Definition wal_data (tn : turn) : option string :=
  match tn_msg tn with
  | RecvCopyData (String id data) =>
      if bool_decide (id = PrimaryKeepaliveMessageByteID) then None
      else if bool_decide (id = XLogDataByteID) then xld_WALData <$> ParseXLogData data else None
  | _ => None
  end.

(** How the data is parsed depends on the stream messages before. *)
Definition next_inStream (b : bool) (m : timed) : bool :=
  match m.1 with StreamStartMsg => true | StreamStopMsg => false | _ => b end.
Definition turn_message (b : bool) (tn : turn) : option timed :=
  d ← wal_data tn; m ← ParseV2 d b; Some (m, tn_ts tn).

Fixpoint messages (b : bool) (turns : list turn) : list timed :=
  match turns with
  | [] => []
  | tn :: turns =>
      match turn_message b tn with
      | Some m => m :: messages (next_inStream b m) turns
      | None => messages b turns
      end
  end.
Definition in_stream (b : bool) (turns : list turn) : bool := foldl next_inStream b (messages b turns).

Lemma messages_snoc b turns tn :
  messages b (turns ++ [tn]) = messages b turns ++ option_list (turn_message (in_stream b turns) tn).
Proof.
  unfold in_stream. revert b. induction turns as [|x turns IH]; intros b; cbn [app messages foldl].
  - by destruct (turn_message b tn).
  - destruct (turn_message b x) as [m|]; cbn [app foldl]; [f_equal|]; apply IH.
Qed.

Lemma stream_loop_app t1 t2 s :
  stream_loop interval serverAddr (t1 ++ t2) s =
  match stream_loop interval serverAddr t1 s with Goes s => stream_loop interval serverAddr t2 s | o => o end.
Proof.
  revert s. induction t1 as [|tn t1 IH]; intros s; cbn [app stream_loop]; [done|].
  destruct (stream_turn interval serverAddr tn s); [apply IH|done..].
Qed.

(** A status before the turn, if its time has passed. *)
Definition reported (tn : turn) (s : Loop) : Loop :=
  if lp_nextStandby s <? tn_now tn then report (tn_later tn + interval) s else s.
Definition seen (tn : turn) (s : Loop) : Loop :=
  match position tn with Some p => see_position p s | None => s end.

(** What one turn does. *)
Lemma stream_turn_goes tn s s' :
  stream_turn interval serverAddr tn s = Goes s' →
  match turn_message (lp_inStream s) tn with
  | None => s' = seen tn (reported tn s)
  | Some m => ∃ e, message_event (lp_relations s) newTypeMap "" serverAddr m.1 m.2 = Some e ∧
                   s' = apply_message m.1 e (seen tn (reported tn s))
  end.
Proof.
  unfold stream_turn, reported. intros E.
  assert (∃ s0, (if lp_nextStandby s <? tn_now tn then report (tn_later tn + interval) s else s) = s0 ∧
    receive serverAddr tn s0 = Goes s' ∧ lp_relations s0 = lp_relations s ∧ lp_inStream s0 = lp_inStream s)
    as (s0 & -> & E0 & Hr & Hi).
  { destruct (_ <? _); [destruct (tn_standby_ok tn); [|done]|]; by eexists. }
  clear E. rewrite <-Hr, <-Hi. clear Hr Hi. revert E0.
  unfold receive, turn_message, seen, position, wal_data.
  destruct (tn_msg tn) as [| |[|id data]|]; try done; try (by intros [= <-]).
  case_bool_decide; [by destruct (ParsePrimaryKeepaliveMessage data); intros [= <-]|].
  case_bool_decide; [|by intros [= <-]].
  destruct (ParseXLogData data) as [[pos d]|]; [|by intros [= <-]]. cbn. unfold processV2. cbn.
  destruct (ParseV2 d (lp_inStream s0)) as [m|]; [cbn|done].
  destruct (message_event (lp_relations s0) newTypeMap "" serverAddr m (tn_ts tn)) as [e|] eqn:He; [|done].
  intros [= <-]. by exists e.
Qed.

(** The highest position received. *)
Definition highest (turns : list turn) : Z := foldl Z.max 0 (omap position turns).

(** The events of the messages, each by the relations defined before it. *)
Definition decoded (ms : list timed) (evs : list (option Event)) : Prop :=
  length evs = length ms ∧
  ∀ i m, ms !! i = Some m → ∃ e, evs !! i = Some e ∧
    means newTypeMap serverAddr (last_relation (firstn i ms)) m e.

Lemma decoded_snoc ms evs m e :
  decoded ms evs → means newTypeMap serverAddr (last_relation ms) m e → decoded (ms ++ [m]) (evs ++ [e]).
Proof.
  intros [Hl H] Hm. split; [by rewrite !length_app, Hl|]. intros i m' Hi.
  destruct (decide (i < length ms)%nat) as [Hlt|Hge].
  - rewrite lookup_app_l in Hi by done. rewrite lookup_app_l by lia.
    rewrite firstn_app, (proj2 (Nat.sub_0_le i (length ms))), app_nil_r by lia. by apply H.
  - apply lookup_lt_Some in Hi as Hlt. rewrite length_app in Hlt. cbn in Hlt.
    assert (i = length ms) as -> by lia. rewrite list_lookup_middle in Hi by done. injection Hi as <-.
    exists e. split; [by apply list_lookup_middle|]. by rewrite firstn_app, Nat.sub_diag, firstn_all, app_nil_r.
Qed.

Lemma last_relation_snoc ms m id :
  last_relation (ms ++ [m]) id =
  match m.1 with
  | RelationMsg r => if bool_decide (rel_RelationID r = id) then Some r else last_relation ms id
  | _ => last_relation ms id
  end.
Proof.
  unfold last_relation. rewrite omap_app. cbn. destruct m as [[r|?|?|?|?| | |] ts]; cbn; try by rewrite app_nil_r.
  case_bool_decide; [by rewrite last_snoc|by rewrite app_nil_r].
Qed.

Lemma last_relation_distinct ms id rel :
  Forall distinct_columns ms → last_relation ms id = Some rel → NoDup (named_columns (rel_Columns rel)).
Proof.
  intros H. induction ms as [|m ms IH] using rev_ind; [done|]. rewrite last_relation_snoc.
  apply Forall_app in H as [H Hm]. apply Forall_cons_1 in Hm as [Hm _]. destruct m as [[r|?|?|?|?| | |] ts]; cbn in *; auto.
  case_bool_decide; [by intros [= <-]|auto].
Qed.

(** What holds after some turns. *)
Record tracks (turns : list turn) (s : Loop) : Prop := {
  tr_mode : lp_inStream s = in_stream false turns;
  tr_relations : ∀ id, lp_relations s !! id = last_relation (messages false turns) id;
  tr_events : ∃ evs, decoded (messages false turns) evs ∧ lp_events s = omap id evs;
  tr_position : lp_walPos s = highest turns
}.

Lemma apply_message_tracks m e s :
  let s' := apply_message m e s in
  lp_walPos s' = lp_walPos s ∧ lp_status s' = lp_status s ∧ lp_events s' = lp_events s ++ option_list e ∧
  (∀ ts, lp_inStream s' = next_inStream (lp_inStream s) (m, ts)) ∧
  (∀ id, lp_relations s' !! id = match m with
                                 | RelationMsg r => if bool_decide (rel_RelationID r = id) then Some r
                                                    else lp_relations s !! id
                                 | _ => lp_relations s !! id
                                 end).
Proof.
  destruct e, m; cbn; rewrite ?app_nil_r; split_and!; try done; intros id; try case_bool_decide; subst;
    rewrite ?lookup_insert_eq, ?lookup_insert_ne by done; try done.
Qed.

Lemma seen_reported tn s :
  let s' := seen tn (reported tn s) in
  lp_relations s' = lp_relations s ∧ lp_inStream s' = lp_inStream s ∧ lp_events s' = lp_events s ∧
  lp_walPos s' = default (lp_walPos s) (Z.max (lp_walPos s) <$> position tn) ∧
  (lp_status s' = lp_status s ∨ lp_status s' = lp_status s ++ [lp_walPos s]).
Proof.
  unfold seen, reported. destruct (position tn) as [p|], (_ <? _); cbn; split_and!; auto;
    destruct (Z.ltb_spec (lp_walPos s) p); lia.
Qed.

Lemma highest_snoc turns tn : highest (turns ++ [tn]) = default (highest turns) (Z.max (highest turns) <$> position tn).
Proof. unfold highest. rewrite omap_app, foldl_app. cbn. by destruct (position tn). Qed.

Lemma tracks_turn turns tn s s' :
  Forall distinct_columns (messages false (turns ++ [tn])) → tracks turns s →
  stream_turn interval serverAddr tn s = Goes s' → tracks (turns ++ [tn]) s'.
Proof.
  intros Hd [Hi Hr (evs & Hevs & He) Hp] E%stream_turn_goes.
  destruct (seen_reported tn s) as (Hr' & Hi' & He' & Hp' & _). rewrite Hi in E.
  rewrite messages_snoc in Hd. apply Forall_app in Hd as [Hd _].
  pose proof (messages_snoc false turns tn) as Hms.
  destruct (turn_message (in_stream false turns) tn) as [m|] eqn:Hm.
  - change (option_list (Some m)) with [m] in Hms. destruct E as (e & Hme & ->).
    destruct (apply_message_tracks m.1 e (seen tn (reported tn s))) as (A1 & _ & A3 & A4 & A5). split.
    + unfold in_stream in *. rewrite (A4 m.2), Hi', Hi, Hms, foldl_app. by destruct m.
    + intros id. rewrite A5, Hms, last_relation_snoc, Hr', Hr. by destruct m.1.
    + exists (evs ++ [e]). rewrite A3, He', He, omap_app, Hms. split; [|by destruct e].
      apply decoded_snoc; [done|]. destruct m as [m ts].
      eapply means_proper; [|reflexivity..|apply message_event_means; [|exact Hme]]; [exact Hr|].
      intros id rel Hid. rewrite Hr in Hid. by apply (last_relation_distinct _ id _ Hd).
    + by rewrite A1, Hp', Hp, highest_snoc.
  - change (option_list (@None timed)) with (@nil timed) in Hms. subst s'. rewrite app_nil_r in Hms. split.
    + unfold in_stream in *. by rewrite Hi', Hi, Hms.
    + intros id. by rewrite Hr', Hr, Hms.
    + exists evs. by rewrite He', He, Hms.
    + by rewrite Hp', Hp, highest_snoc.
Qed.

Lemma tracks_stream now turns s :
  Forall distinct_columns (messages false turns) → streamEvents interval serverAddr now turns = Goes s → tracks turns s.
Proof.
  unfold streamEvents. revert s. induction turns as [|tn turns IH] using rev_ind; intros s Hd E.
  - injection E as <-. split; [done|intros id; apply lookup_empty| |done]. by exists [].
  - rewrite stream_loop_app in E. destruct (stream_loop _ _ turns _) as [s0| | |] eqn:E0; try done.
    cbn in E. destruct (stream_turn _ _ tn s0) as [s1| | |] eqn:E1; simplify_eq.
    apply (tracks_turn turns tn s0); [done|apply IH; [|done]|done].
    rewrite messages_snoc in Hd. by apply Forall_app in Hd as [Hd _].
Qed.

(** C13: the loop decodes the messages in the order they come, each change against
    the last relation of its number that was defined before it: its event has the
    relation's schema and table, and rows that hold under each column's name the
    decoded value of that column and nothing else; a change to a relation that was
    never defined becomes an empty event. The relations kept are the last ones. *)
Theorem stream_refines now turns s :
  Forall distinct_columns (messages false turns) →
  streamEvents interval serverAddr now turns = Goes s →
  (∀ id, lp_relations s !! id = last_relation (messages false turns) id) ∧
  ∃ evs, decoded (messages false turns) evs ∧ lp_events s = omap id evs.
Proof. intros Hd E. by destruct (tracks_stream now turns s Hd E). Qed.

(** ** Positions *)

Lemma turn_advances tn s s' :
  stream_turn interval serverAddr tn s = Goes s' →
  lp_walPos s' = default (lp_walPos s) (Z.max (lp_walPos s) <$> position tn) ∧
  (lp_status s' = lp_status s ∨ lp_status s' = lp_status s ++ [lp_walPos s]) ∧
  lp_events s `prefix_of` lp_events s'.
Proof.
  intros E%stream_turn_goes. destruct (seen_reported tn s) as (_ & _ & He & Hp & Hs).
  destruct (turn_message _ tn) as [m|]; [|subst s'; by rewrite Hp, He].
  destruct E as (e & _ & ->).
  destruct (apply_message_tracks m.1 e (seen tn (reported tn s))) as (A1 & A2 & A3 & _).
  rewrite A1, A2, A3, Hp, He. split_and!; [done|done|by apply prefix_app_r].
Qed.

Lemma stream_prefix now turns tn s :
  streamEvents interval serverAddr now (turns ++ [tn]) = Goes s →
  ∃ s0, streamEvents interval serverAddr now turns = Goes s0 ∧ stream_turn interval serverAddr tn s0 = Goes s.
Proof.
  unfold streamEvents. rewrite stream_loop_app. destruct (stream_loop _ _ turns _) as [s0| | |]; try done.
  cbn. intros E. exists s0. split; [done|]. by destruct (stream_turn _ _ tn s0).
Qed.

Lemma stream_position now turns s : streamEvents interval serverAddr now turns = Goes s → lp_walPos s = highest turns.
Proof.
  revert s. induction turns as [|tn turns IH] using rev_ind; intros s E; [by injection E as <-|].
  apply stream_prefix in E as (s0 & E0 & E). apply turn_advances in E as (-> & _).
  by rewrite highest_snoc, (IH s0 E0).
Qed.

Lemma le_highest turns tn : highest turns ≤ highest (turns ++ [tn]).
Proof. rewrite highest_snoc. destruct (position tn); cbn; lia. Qed.

Lemma sorted_le_snoc (l : list Z) a b : StronglySorted Z.le (l ++ [a]) → a ≤ b → StronglySorted Z.le (l ++ [b]).
Proof.
  intros H Hab. apply StronglySorted_app in H as (H & Hl & _). apply StronglySorted_app. split_and!; [|done|].
  - intros x y Hx Hy. apply list_elem_of_singleton in Hy as ->. transitivity a; [|done].
    apply H; [done|by left].
  - repeat constructor.
Qed.

(** C14: the position that the loop keeps is the highest one received, and the
    positions reported to the server never decrease and are never ahead of it;
    each was the highest one at an earlier turn, and the events of all messages
    received by then had been handed to the channel. *)
Theorem reported_positions now turns s :
  streamEvents interval serverAddr now turns = Goes s →
  lp_walPos s = highest turns ∧ StronglySorted Z.le (lp_status s ++ [lp_walPos s]) ∧
  ∀ p, p ∈ lp_status s → ∃ k sk, (k < length turns)%nat ∧ p = highest (firstn k turns) ∧
    streamEvents interval serverAddr now (firstn k turns) = Goes sk ∧ lp_events sk `prefix_of` lp_events s.
Proof.
  intros E. split; [by apply (stream_position now)|]. revert s E.
  induction turns as [|tn turns IH] using rev_ind; intros s E.
  { injection E as <-. split; [repeat constructor|]. cbn. by intros p ?%not_elem_of_nil. }
  rewrite (stream_position now (turns ++ [tn]) s E). apply stream_prefix in E as (s0 & E0 & E).
  destruct (IH s0 E0) as [Hsort Hpast]. rewrite (stream_position now turns s0 E0) in Hsort.
  apply turn_advances in E as (_ & Hst & Hev). rewrite (stream_position now turns s0 E0) in Hst.
  assert (∀ k, (k ≤ length turns)%nat → firstn k (turns ++ [tn]) = firstn k turns) as Hk.
  { intros k Hk. by rewrite firstn_app, (proj2 (Nat.sub_0_le _ _) Hk), app_nil_r. }
  rewrite length_app. split.
  - pose proof (sorted_le_snoc _ _ _ Hsort (le_highest turns tn)) as Hsort'.
    destruct Hst as [-> | ->]; [done|]. apply StronglySorted_app. split_and!; [|done|repeat constructor].
    intros x y Hx Hy%list_elem_of_singleton. subst y. apply StronglySorted_app in Hsort' as (Hle & _ & _).
    apply elem_of_app in Hx as [Hx | ->%list_elem_of_singleton]; [apply Hle; [done|by left]|apply le_highest].
  - intros p Hp. assert (p ∈ lp_status s0 ∨ p = highest turns) as [Hp' | ->].
    { destruct Hst as [E1|E1]; rewrite E1 in Hp; [by left|]. by apply elem_of_app in Hp as [?|?%list_elem_of_singleton]; auto. }
    + destruct (Hpast p Hp') as (k & sk & Hlt & -> & Ek & Hpre). exists k, sk. rewrite Hk by lia.
      split_and!; [cbn; lia|done|done|by etransitivity].
    + exists (length turns), s0. rewrite Hk, firstn_all by done. split_and!; [cbn; lia|done|done|done].
Qed.

(** ** Progress *)

(** The server's part of the protocol: what is received can be read. *)
Record received_well (turns : list turn) : Prop := {
  rw_turn i tn : turns !! i = Some tn →
    tn_standby_ok tn = true ∧ tn_msg tn ≠ RecvError ∧ tn_msg tn ≠ RecvCopyData "" ∧
    ∀ d, wal_data tn = Some d → ParseV2 d (in_stream false (firstn i turns)) ≠ None;
  rw_fits i m : messages false turns !! i = Some m →
    distinct_columns m ∧ fits (last_relation (firstn i (messages false turns))) m.1
}.

Lemma fits_ext rels rels' m : (∀ id, rels id = rels' id) → fits rels m → fits rels' m.
Proof. intros H. destruct m; cbn; try done; intros Hf rel Hr; apply Hf; by rewrite H. Qed.

Lemma received_well_prefix turns tn : received_well (turns ++ [tn]) → received_well turns.
Proof.
  intros [H1 H2]. split.
  - intros i x Hi. apply lookup_lt_Some in Hi as Hlt. destruct (H1 i x) as (A & B & C & D); [by apply lookup_app_l_Some|].
    split_and!; [done..|]. intros d Hd. specialize (D d Hd).
    by rewrite firstn_app, (proj2 (Nat.sub_0_le _ _)), app_nil_r in D by lia.
  - intros i m Hi. apply lookup_lt_Some in Hi as Hlt. specialize (H2 i m). rewrite messages_snoc in H2.
    destruct H2 as [A B]; [by apply lookup_app_l_Some|]. split; [done|].
    by rewrite firstn_app, (proj2 (Nat.sub_0_le _ _)), app_nil_r in B by lia.
Qed.

Lemma received_well_distinct turns : received_well turns → Forall distinct_columns (messages false turns).
Proof. intros [_ H]. apply Forall_lookup. intros i m Hi. by destruct (H i m Hi). Qed.

(** The message of a turn can be parsed and decoded. *)
Lemma receive_goes tn s :
  tn_msg tn ≠ RecvError → tn_msg tn ≠ RecvCopyData "" →
  (∀ d, wal_data tn = Some d → ParseV2 d (lp_inStream s) ≠ None) →
  (∀ m, turn_message (lp_inStream s) tn = Some m →
    message_event (lp_relations s) newTypeMap "" serverAddr m.1 m.2 ≠ None) →
  ∃ s', receive serverAddr tn s = Goes s'.
Proof.
  intros Hne Hnil Hparse Hfit.
  unfold receive, turn_message, wal_data in *. destruct (tn_msg tn) as [| |[|id data]|]; try done; try by eexists.
  case_bool_decide; [destruct (ParsePrimaryKeepaliveMessage data); by eexists|].
  case_bool_decide; [|by eexists]. destruct (ParseXLogData data) as [[pos d]|]; [|by eexists].
  cbn in *. unfold processV2. cbn. specialize (Hparse d eq_refl).
  destruct (ParseV2 d (lp_inStream s)) as [m|]; [|done]. specialize (Hfit (m, tn_ts tn) eq_refl). cbn in *.
  destruct (message_event _ _ _ _ m _) as [e|]; [by eexists|done].
Qed.

(** C19: the loop neither ends nor panics while the server keeps to the protocol:
    every turn goes on to the next. *)
Theorem stream_goes now turns :
  received_well turns → ∃ s, streamEvents interval serverAddr now turns = Goes s.
Proof.
  induction turns as [|tn turns IH] using rev_ind; intros Hw; [by eexists|].
  destruct (IH (received_well_prefix _ _ Hw)) as (s0 & E0).
  destruct (tracks_stream now turns s0 (received_well_distinct _ (received_well_prefix _ _ Hw)) E0) as [Hi Hr _ _].
  destruct (rw_turn _ Hw (length turns) tn) as (Hok & Hne & Hnil & Hparse); [by apply list_lookup_middle|].
  rewrite firstn_app, Nat.sub_diag, firstn_all, app_nil_r, <-Hi in Hparse.
  assert (∀ m, turn_message (lp_inStream s0) tn = Some m →
    message_event (lp_relations s0) newTypeMap "" serverAddr m.1 m.2 ≠ None) as Hfit.
  { intros m Hm. apply message_event_total. rewrite Hi in Hm.
    destruct (rw_fits _ Hw (length (messages false turns)) m) as [_ Hf].
    - rewrite messages_snoc, Hm. by apply list_lookup_middle.
    - rewrite messages_snoc, Hm, firstn_app, Nat.sub_diag, firstn_all, app_nil_r in Hf. by eapply fits_ext, Hf. }
  unfold streamEvents in *. rewrite stream_loop_app, E0. cbn. unfold stream_turn. rewrite Hok.
  destruct (receive_goes tn (report (tn_later tn + interval) s0)) as (s1 & E1); [done..|].
  destruct (receive_goes tn s0) as (s2 & E2); [done..|]. rewrite E1, E2.
  destruct (_ <? _); by eexists.
Qed.

End Loop.

(** ** The events in the sink for PostgreSQL *)

(** The new row holds nil for a value that the server did not send because it is
    unchanged. *)
Lemma unchanged_is_nil tm addr rels xid id rel old new ts e i rc col :
  means tm addr rels (UpdateMsg xid id old (Some new), ts) (Some e) → rels id = Some rel →
  rel_Columns rel !! i = Some rc → new !! i = Some col → tc_DataType col = "u"%char →
  pay_Op (ev_Payload e) = OpUpdate ∧ src_Table (pay_Source (ev_Payload e)) = rel_RelationName rel ∧
  src_Schema (pay_Source (ev_Payload e)) = rel_Namespace rel ∧
  ∃ before after, pay_Before (ev_Payload e) = AObj before ∧ pay_After (ev_Payload e) = AObj after ∧
    after !! rc_Name rc = Some ANil.
Proof.
  intros Hm Hr Hrc Hcol Hu. inversion Hm as [|? ? rel' ? ? before after ? Hrel Hb Ha| | | |? ? ? ? Hk Hn|? ? Hk]; subst.
  - assert (rel' = rel) as -> by congruence. cbn. split_and!; [done..|]. exists before, after. split_and!; [done..|].
    destruct Ha as [_ Ha]. apply Ha. exists i, rc, col. split_and!; [done..|]. unfold decodeColumn. rewrite Hu.
    by rewrite bool_decide_eq_false_2, bool_decide_eq_true_2.
  - destruct Hk as [(t & [=])|[(o & n & [= <- <- <- <-])|(o & [=])]]. congruence.
Qed.

(** An update that leaves a column as it is, so that its value is not sent,
    sets the column to NULL in the table it is published to, unless nothing is
    updated at all. *)
Theorem unchanged_overwritten `{PI : PgxIdentifier} `{GR : GoRange} `{PC : PgxConn} `{PL : !PgxIdentifierLaw}
    tm addr rels xid id rel old new ts e i rc col p log :
  means tm addr rels (UpdateMsg xid id old (Some new), ts) (Some e) → rels id = Some rel →
  rel_Columns rel !! i = Some rc → new !! i = Some col → tc_DataType col = "u"%char →
  ∃ err log', Pub p e log = Some (err, log') ∧
    (log' = log ∨ ∃ l lw, (rc_Name rc, ANil) ∈ l ∧
       log' = log ++ [(update_sql (table_of (rel_RelationName rel) [rel_Namespace rel]) l lw, l.*2 ++ lw.*2)]).
Proof.
  intros Hm Hr Hrc Hcol Hu.
  destruct (unchanged_is_nil _ _ _ _ _ _ _ _ _ _ _ _ _ Hm Hr Hrc Hcol Hu) as (Hop & Ht & Hs & before & after & Hb & Ha & Hk).
  unfold Pub. rewrite Hop, Ha, Hb, Ht, Hs. cbn [is_nil orb]. destruct (negb _ || _); [by do 2 eexists; split; [|left]|].
  case_bool_decide; [by do 2 eexists; split; [|left]|]. destruct (pg_tables p !! _) as [table|]; [|by do 2 eexists; split; [|left]].
  rewrite bool_decide_eq_false_2, bool_decide_eq_true_2 by done.
  destruct (tbl_PrimaryKeys table) as [|pk pks]; [by do 2 eexists; split; [|left]|].
  case_bool_decide as Hw; [by do 2 eexists; split; [|left]|].
  pose proof (update_row_binds (rel_RelationName rel) after (pk_where (pk :: pks) before) [rel_Namespace rel] log) as Hup.
  rewrite bool_decide_eq_false_2 in Hup by done. destruct Hup as (l & lw & Hl & _ & E & _).
  do 2 eexists. split; [reflexivity|]. right. exists l, lw. split; [|exact E].
  rewrite Hl. by apply elem_of_map_to_list.
Qed.

(** Deletions and truncations are answered with an error. *)
Theorem deletions_refused `{PI : PgxIdentifier} `{GR : GoRange} `{PC : PgxConn} tm addr rels m ts e p log :
  means tm addr rels (m, ts) (Some e) →
  (∃ xid id old, m = DeleteMsg xid id old) ∨ (∃ xid ids, m = TruncateMsg xid ids) →
  Pub p e log = Some (Some NotConnected, log).
Proof.
  intros Hm Hk. assert (pay_After (ev_Payload e) = ANil) as Ha.
  { inversion Hm; subst; try done; naive_solver. }
  unfold Pub. rewrite Ha. cbn. by rewrite orb_true_r.
Qed.

(** ** Examples *)

Definition users_rel : RelationMessageV2 := {|
  rel_RelationID := 1; rel_Namespace := "public"; rel_RelationName := "users";
  rel_Columns := [{| rc_Name := "id"; rc_DataType := 23 |}; {| rc_Name := "bio"; rc_DataType := 25 |}] |}.
Definition logs_rel : RelationMessageV2 := {|
  rel_RelationID := 2; rel_Namespace := "public"; rel_RelationName := "logs";
  rel_Columns := [{| rc_Name := "id"; rc_DataType := 23 |}] |}.
Definition col (c : ascii) (s : string) : TupleDataColumn := {| tc_DataType := c; tc_Data := s |}.

(** Messages as words; a position, a colon and a word as data of the log. *)
Definition demo_message (s : string) (inStream : bool) : option logicalMessage :=
  if bool_decide (s = "users") then Some (RelationMsg users_rel)
  else if bool_decide (s = "logs") then Some (RelationMsg logs_rel)
  else if bool_decide (s = "insert") then Some (InsertMsg 7 1 (Some [col "t" "12"; col "t" "hi"]))
  else if bool_decide (s = "update") then Some (UpdateMsg 8 1 (Some [col "t" "12"; col "n" ""]) (Some [col "t" "12"; col "u" ""]))
  else if bool_decide (s = "truncate") then Some (TruncateMsg 9 [2])
  else None.
Definition demo_wal : WalParser := {|
  PrimaryKeepaliveMessageByteID := "k"; XLogDataByteID := "w"; ParsePrimaryKeepaliveMessage := Atoi;
  ParseXLogData s := '(a, b) ← Cut s ":"; pos ← Atoi a; Some {| xld_WALStart := pos; xld_WALData := b |};
  ParseV2 := demo_message |}.
Definition demo_types : PgTypes := {|
  builtin_codec oid := if oid =? 23 then Some (λ s, match Atoi s with Some n => Ok (AInt KInt32 n) | None => Err s end)
                       else None;
  UUIDOID := 2950 |}.
Definition at_time (now : Z) (data : string) : turn := {|
  tn_now := now; tn_later := now; tn_standby_ok := true; tn_msg := RecvCopyData data; tn_ts := (now, now) |}.
Definition demo_turns : list turn := [
  at_time 1 "w10:users"; at_time 2 "w20:insert"; at_time 12 "k15"; at_time 13 "w30:update"; at_time 30 "k40" ].
Definition demo_state : Loop := {|
  lp_relations := {[1 := users_rel]}; lp_nextStandby := 40; lp_walPos := 40; lp_inStream := false;
  lp_events := [
    change "db:5432" OpCreate ANil (AObj {["id" := AInt KInt32 12; "bio" := AStr "hi"]}) users_rel 7 (2, 2);
    change "db:5432" OpUpdate (AObj {["id" := AInt KInt32 12; "bio" := ANil]})
      (AObj {["id" := AInt KInt32 12; "bio" := ANil]}) users_rel 8 (13, 13)];
  lp_status := [20; 30] |}.

Lemma demo_run : streamEvents (WP := demo_wal) (PT := demo_types) (GR := range_up) 10 "db:5432" 0 demo_turns = Goes demo_state.
Proof. vm_compute. reflexivity. Qed.

Lemma users_distinct ts : distinct_columns (RelationMsg users_rel, ts).
Proof. change (NoDup ["id"; "bio"]). apply (bool_decide_unpack _). vm_compute. done. Qed.
Lemma demo_distinct : Forall distinct_columns (messages (WP := demo_wal) false demo_turns).
Proof.
  vm_compute messages. repeat apply Forall_cons_2; [apply (users_distinct (1, 1))|exact I|exact I|apply Forall_nil_2].
Qed.

Lemma stream_refines_witness :
  ∃ evs, decoded (PT := demo_types) "db:5432" (messages (WP := demo_wal) false demo_turns) evs ∧
    lp_events demo_state = omap id evs.
Proof.
  exact (proj2 (stream_refines (WP := demo_wal) (PT := demo_types) (GR := range_up) 10 "db:5432" 0 demo_turns demo_state
    demo_distinct demo_run)).
Defined.

Lemma reported_positions_witness :
  lp_walPos demo_state = 40 ∧ StronglySorted Z.le [20; 30; 40].
Proof.
  destruct (reported_positions (WP := demo_wal) (PT := demo_types) (GR := range_up) 10 "db:5432" 0 demo_turns demo_state
    demo_run) as (Hp & Hs & _). split; [exact Hp | exact Hs].
Defined.

Lemma demo_well : received_well (WP := demo_wal) demo_turns.
Proof.
  split.
  - intros i tn Hi. do 5 (destruct i as [|i]; [injection Hi as <-; split_and!; [done..|]; by intros d [= <-]|]). done.
  - intros i m Hi. vm_compute messages in Hi |- *.
    destruct i as [|[|[|i]]]; [| | |done]; injection Hi as <-; (split; [exact I || apply (users_distinct (1, 1))|]);
      cbn; [exact I| |]; intros rel [= <-]; [eexists; split; [done|cbn; lia]|cbn; lia].
Qed.

Lemma stream_goes_witness :
  ∃ s, streamEvents (WP := demo_wal) (PT := demo_types) (GR := range_up) 10 "db:5432" 0 demo_turns = Goes s.
Proof.
  exact (stream_goes (WP := demo_wal) (PT := demo_types) (GR := range_up) 10 "db:5432" 0 demo_turns demo_well).
Defined.

(** What a truncation of [logs] is taken for depends on the order of visiting. *)
Example truncation_of_any_relation :
  let relations : Relations := {[1 := users_rel; 2 := logs_rel]} in
  let table (e : option (option Event)) :=
    match e with Some (Some e) => src_Table (pay_Source (ev_Payload e)) | _ => "" end in
  let event (GR : GoRange) := message_event (GR := GR) relations (newTypeMap (PT := demo_types)) "" "db" (TruncateMsg 9 [2]) (1, 1) in
  table (event range_up) = "logs" ∧ table (event range_down) = "users".
Proof. vm_compute. auto. Qed.

(** The table [users] with its key, in the sink. *)
Definition users_table : Table := {|
  tbl_Schema := "public"; tbl_Name := "users"; tbl_Type := TypeTable; tbl_Columns := [];
  tbl_PrimaryKeys := ["id"]; tbl_ForeignKeys := []; tbl_ViewQuery := "" |}.
Definition users_peer : PeerPG := {| pg_pool := true; pg_tables := {["public.users" := users_table]} |}.
Definition users_update : Event :=
  change "db:5432" OpUpdate (AObj {["id" := AInt KInt32 12; "bio" := ANil]})
    (AObj {["id" := AInt KInt32 12; "bio" := ANil]}) users_rel 8 (13, 13).

Lemma users_update_means :
  means (newTypeMap (PT := demo_types)) "db:5432" (λ id, if id =? 1 then Some users_rel else None)
    (UpdateMsg 8 1 (Some [col "t" "12"; col "n" ""]) (Some [col "t" "12"; col "u" ""]), (13, 13)) (Some users_update).
Proof.
  apply (means_update _ _ _ 8 1 users_rel (Some [col "t" "12"; col "n" ""]) (Some [col "t" "12"; col "u" ""]));
    [done| |]; (apply row_of_values; [exact (users_distinct (0, 0))|vm_compute; reflexivity]).
Qed.

Lemma unchanged_overwritten_witness :
  ∃ l lw, ("bio", ANil) ∈ l ∧
    Pub (PI := quoting_identifier) (GR := range_up) (PC := one_row) users_peer users_update [] =
      Some (None, [(update_sql (PI := quoting_identifier) (table_of (PI := quoting_identifier) "users" ["public"]) l lw,
                    l.*2 ++ lw.*2)]).
Proof.
  destruct (unchanged_overwritten (PI := quoting_identifier) (GR := range_up) (PC := one_row)
    (PL := quoting_identifier_law) _ _ _ 8 1 users_rel _ _ _ _ 1 _ _ users_peer [] users_update_means
    eq_refl eq_refl eq_refl eq_refl) as (err & log' & E & [H|(l & lw & Hin & H)]).
  - exfalso. rewrite H in E. revert E. vm_compute. discriminate.
  - exists l, lw. split; [exact Hin|]. rewrite H in E. rewrite E. f_equal. f_equal.
    revert E. clear. generalize (l.*2 ++ lw.*2). intros args. vm_compute Pub. congruence.
Defined.
