(* ===== verification/SqlStore.v ===== *)
(** * SqlStore: a database that reads statements.

    What the statements of file Crud mean to PostgreSQL: a reader of INSERT and
    UPDATE texts with quoted names and numbered parameters, and their effect on
    tables of rows with NOT NULL and UNIQUE primary keys. It knows nothing of how
    the program makes its texts. An instance of [PgxConn] answers from the tables
    that the statements before have left. *)

From S2P Require Import Prelude GoStrings GoStringFacts SqlText GoAny FilterSQL FilterTests Crud.
Local Open Scope Z_scope.

(** ** Reading statements *)

Fixpoint eat (p s : string) : option string :=
  match p, s with
  | EmptyString, _ => Some s
  | String a p, String b s => if bool_decide (a = b) then eat p s else None
  | String _ _, EmptyString => None
  end.

(** The name after an opening quote, with doubled quotes, and what follows it. *)
Fixpoint quoted_body (s : string) : option (string * string) :=
  match s with
  | EmptyString => None
  | String c s =>
      if bool_decide (c = dquote) then
        match s with
        | String d s' =>
            if bool_decide (d = dquote) then '(k, rest) ← quoted_body s'; Some (String dquote k, rest)
            else Some ("", s)
        | EmptyString => Some ("", "")
        end
      else '(k, rest) ← quoted_body s; Some (String c k, rest)
  end.
Definition read_name (s : string) : option (string * string) :=
  match s with
  | String c s => if bool_decide (c = dquote) then quoted_body s else None
  | EmptyString => None
  end.
Definition read_table (s : string) : option (string * string * string) :=
  '(schema, s) ← read_name s; s ← eat "." s; '(table, s) ← read_name s; Some (schema, table, s).
Definition read_param (s : string) : option (nat * string) :=
  s ← eat "$" s;
  let k := span isDigit s in
  v ← digits_val 0 (take k s);
  Some (Z.to_nat v, drop k s).
Definition read_assign (s : string) : option (string * nat * string) :=
  '(name, s) ← read_name s; s ← eat " = " s; '(i, s) ← read_param s; Some (name, i, s).

(** One item or more, separated by [sep]; every item takes a byte at least. *)
Fixpoint read_list {A} (fuel : nat) (item : string → option (A * string)) (sep s : string) : option (list A * string) :=
  '(x, rest) ← item s;
  match fuel, eat sep rest with
  | S fuel, Some rest => '(l, rest) ← read_list fuel item sep rest; Some (x :: l, rest)
  | _, _ => Some ([x], rest)
  end.
Definition read_items {A} (item : string → option (A * string)) (sep s : string) := read_list (len s) item sep s.

Inductive stmt :=
| Insert (table : string * string) (columns : list string) (params : list nat)
| Update (table : string * string) (sets conds : list (string * nat)).

Definition read_insert (s : string) : option stmt :=
  '(table, s) ← read_table s; s ← eat " (" s;
  '(columns, s) ← read_items read_name ", " s; s ← eat ") VALUES (" s;
  '(params, s) ← read_items read_param ", " s;
  if bool_decide (s = ")") then Some (Insert table columns params) else None.
Definition read_update (s : string) : option stmt :=
  '(table, s) ← read_table s; s ← eat " SET " s;
  '(sets, s) ← read_items read_assign ", " s; s ← eat " WHERE " s;
  '(conds, s) ← read_items read_assign " AND " s;
  if bool_decide (s = "") then Some (Update table sets conds) else None.
Definition read_stmt (s : string) : option stmt :=
  match eat "INSERT INTO " s with
  | Some s => read_insert s
  | None => s ← eat "UPDATE " s; read_update s
  end.

(** ** Tables *)

Abbreviation row := (gmap string any).
Record STable := { st_cols : list string; st_pk : list string; st_rows : list row }.
Definition with_rows (rows : list row) (t : STable) : STable :=
  {| st_cols := st_cols t; st_pk := st_pk t; st_rows := rows |}.
Abbreviation DB := (gmap (string * string) STable).

(** Equality of the database on values; it is never true of null. *)
Class SqlEq := { sql_eq : any → any → bool }.
Class SqlEqLaw `{SE : SqlEq} := {
  sql_eq_refl v : v ≠ ANil → sql_eq v v = true;
  sql_eq_comm v w : sql_eq v w = sql_eq w v;
  sql_eq_null v : sql_eq ANil v = false
}.

Section Store.
Context `{SE : SqlEq}.

(** A row under the conditions [conds]. *)
Definition matches (conds : list (string * any)) (r : row) : bool :=
  forallb (λ cv, match r !! cv.1 with Some w => sql_eq w cv.2 | None => false end) conds.

Definition same_key (pk : list string) (r r' : row) : bool :=
  negb (bool_decide (pk = [])) &&
  forallb (λ k, match r !! k, r' !! k with Some v, Some w => sql_eq v w | _, _ => false end) pk.
Fixpoint unique_keys (pk : list string) (rows : list row) : bool :=
  match rows with
  | [] => true
  | r :: rows => forallb (λ r', negb (same_key pk r r')) rows && unique_keys pk rows
  end.

(** A row has exactly the columns, and no null in its key. *)
Definition row_ok (t : STable) (r : row) : bool :=
  bool_decide (dom r = list_to_set (st_cols t)) &&
  forallb (λ k, match r !! k with Some v => negb (is_nil v) | None => false end) (st_pk t).
Definition valid (t : STable) : bool := forallb (row_ok t) (st_rows t) && unique_keys (st_pk t) (st_rows t).

Definition param (args : list any) (i : nat) : option any :=
  match i with O => None | S i => args !! i end.
Definition bound (args : list any) (l : list (string * nat)) : option (list (string * any)) :=
  mapM (λ ci, v ← param args ci.2; Some (ci.1, v)) l.

(** The arguments are as many as the parameters. *)
Definition counts (args : list any) (params : list nat) : bool := bool_decide (length args = foldr max 0%nat params).
Definition known (t : STable) (columns : list string) : bool :=
  bool_decide (NoDup columns) && forallb (λ c, bool_decide (c ∈ st_cols t)) columns.

(** The number of rows affected and the tables after; [None] is an error. Columns
    that an INSERT does not name are null. *)
Definition run_stmt (db : DB) (st : stmt) (args : argList) : option (Z * DB) :=
  match st with
  | Insert table columns params =>
      t ← db !! table;
      if negb (bool_decide (length columns = length params) && counts args params && known t columns) then None else
      values ← bound args (zip columns params);
      let r := list_to_map values ∪ gset_to_gmap ANil (list_to_set (st_cols t)) in
      let t := with_rows (st_rows t ++ [r]) t in
      if valid t then Some (1, <[table := t]> db) else None
  | Update table sets conds =>
      t ← db !! table;
      if negb (counts args (sets.*2 ++ conds.*2) && known t sets.*1 && forallb (λ c, bool_decide (c ∈ st_cols t)) conds.*1)
      then None else
      values ← bound args sets;
      conditions ← bound args conds;
      let rows := (λ r, if matches conditions r then list_to_map values ∪ r else r) <$> st_rows t in
      let n := length (List.filter (matches conditions) (st_rows t)) in
      let t := with_rows rows t in
      if valid t then Some (Z.of_nat n, <[table := t]> db) else None
  end.

Definition exec_sql (db : DB) (sql : string) (args : argList) : res string (Z * DB) :=
  match st ← read_stmt sql; run_stmt db st args with
  | Some r => Ok r
  | None => Err "statement refused"
  end.

(** A refused statement changes nothing. *)
Definition replay (db : DB) (log : list (string * argList)) : DB :=
  foldl (λ db st, match exec_sql db st.1 st.2 with Ok (_, db) => db | Err _ => db end) db log.

Definition sql_conn (db : DB) : PgxConn := {|
  conn_Exec := λ log sql args, match exec_sql (replay db log) sql args with Ok (n, _) => Ok n | Err e => Err e end |}.

(** ** Facts *)

Lemma replay_snoc db log sql args n db' :
  exec_sql (replay db log) sql args = Ok (n, db') → replay db (log ++ [(sql, args)]) = db'.
Proof. unfold replay. rewrite foldl_app. cbn [foldl fst snd]. by intros ->. Qed.

Lemma unique_keys_split pk l1 r l2 r' :
  unique_keys pk (l1 ++ r :: l2) = true → r' ∈ l1 ++ l2 → same_key pk r r' = false ∨ same_key pk r' r = false.
Proof.
  induction l1 as [|x l1 IH]; cbn [app unique_keys]; intros [Hx H]%andb_true_iff Hin.
  - left. rewrite forallb_forall in Hx. apply negb_true_iff, Hx. by apply list_elem_of_In.
  - apply elem_of_cons in Hin as [->|Hin]; [|by apply IH].
    right. rewrite forallb_forall in Hx. apply negb_true_iff, Hx. apply in_or_app. right. by left.
Qed.

End Store.
