(* ===== verification/Replica.v ===== *)
(** * Replica: a sink that follows its source.

    Replication and the PostgreSQL sink put together: the events of file
    Replication, published with file PeerPG on the database of file SqlStore, keep
    its tables equal to those of the source; inserts do so in any order, up to the
    order of the rows. *)

From S2P Require Import Prelude GoStrings GoStringFacts SqlText GoAny Schema FilterSQL FilterTests FilterBinds.
From S2P Require Import Crud Cdc PeerPG Replication ReplicationProps SqlStore.
Local Open Scope Z_scope.

(** ** The statements of Crud are read back *)

(** What may follow a name or a parameter. *)
Definition ends (s : string) : Prop :=
  match s with EmptyString => True | String c _ => c ≠ dquote ∧ isDigit c = false end.
Definition no_nul (s : string) : Prop := mem_byte s Ascii.zero = false.

(** Quoted names mean themselves to the database. *)
Class PgxIdentifierReads `{PI : PgxIdentifier} := {
  reads_name k rest : no_nul k → ends rest → read_name (Sanitize [k] +:+ rest) = Some (k, rest);
  reads_table s t rest : no_nul s → no_nul t → ends rest →
    read_table (Sanitize [s; t] +:+ rest) = Some (s, t, rest)
}.

Lemma eat_app p s : eat p (p +:+ s) = Some s.
Proof. induction p as [|c p IH]; [done|]. rewrite app_cons_str. cbn [eat]. by rewrite bool_decide_eq_true_2. Qed.

Lemma no_nul_cons c s : no_nul (String c s) → c ≠ Ascii.zero ∧ no_nul s.
Proof.
  unfold no_nul, mem_byte. cbn [String.list_ascii_of_string]. intros H%bool_decide_eq_false. rewrite elem_of_cons in H.
  split; [by intros ->; apply H; left|]. apply bool_decide_eq_false. by intros ?; apply H; right.
Qed.

Lemma quoted_body_escape s rest :
  no_nul s → ends rest → quoted_body (ident_escape s +:+ String dquote rest) = Some (s, rest).
Proof.
  intros Hs Hr. induction s as [|c s IH].
  - cbn [ident_escape]. rewrite app_nil_l_str. cbn [quoted_body]. rewrite bool_decide_eq_true_2 by done. destruct rest as [|d rest]; [done|].
    destruct Hr as [Hd _]. by rewrite bool_decide_eq_false_2.
  - apply no_nul_cons in Hs as [Hc Hs]. cbn [ident_escape]. rewrite bool_decide_eq_false_2 by done.
    case_bool_decide as Hq.
    + subst c. rewrite !app_cons_str. cbn [quoted_body]. rewrite !bool_decide_eq_true_2 by done. by rewrite IH.
    + rewrite app_cons_str. cbn [quoted_body]. rewrite bool_decide_eq_false_2 by done. by rewrite IH.
Qed.

Lemma read_name_quote s rest :
  no_nul s → ends rest → read_name (quote (ident_escape s) +:+ rest) = Some (s, rest).
Proof.
  intros Hs Hr. unfold quote. rewrite app_cons_str. cbn [read_name]. rewrite bool_decide_eq_true_2 by done.
  rewrite app_assoc_str. by apply quoted_body_escape.
Qed.

Lemma quoting_identifier_reads : PgxIdentifierReads (PI := quoting_identifier).
Proof.
  split.
  - intros k rest Hk Hr. by apply read_name_quote.
  - intros s t rest Hs Ht Hr. unfold read_table.
    change (Sanitize [s; t]) with (quote (ident_escape s) +:+ "." +:+ quote (ident_escape t)).
    rewrite !app_assoc_str, read_name_quote by done. cbn [mbind option_bind].
    rewrite eat_app. cbn [mbind option_bind]. by rewrite read_name_quote.
Qed.

Lemma read_param_dollar i rest : ends rest → read_param (dollar i +:+ rest) = Some (i, rest).
Proof.
  intros Hr. unfold read_param, dollar. rewrite app_cons_str.
  change (String "$" ?s) with ("$" +:+ s). rewrite eat_app. cbn [mbind option_bind].
  destruct (Itoa_spec (Z.of_nat i)) as (sg & c & s & E & Hc & Hs & [(_ & -> & Hv)|(? & _)]); [|lia].
  rewrite E, app_nil_l_str. set (ds := String c s) in *.
  assert (all_bytes isDigit ds = true) as Hds by (subst ds; cbn [all_bytes]; by rewrite Hc).
  rewrite span_app; [|done|].
  2:{ intros d u ->. apply Hr. }
  rewrite take_app, drop_app, Hv. cbn [mbind option_bind]. by rewrite Nat2Z.id.
Qed.

(** [s] is read as [x], whatever follows. *)
Definition reads {A} (item : string → option (A * string)) (x : A) (s : string) : Prop :=
  ∀ rest, ends rest → item (s +:+ rest) = Some (x, rest).

Lemma read_list_Join {A} item sep (l : list (A * string)) tail fuel :
  l ≠ [] → Forall (λ x, reads item x.1 x.2) l → (∀ t, ends (sep +:+ t)) → ends tail → eat sep tail = None →
  (length l ≤ S fuel)%nat → read_list fuel item sep (Join l.*2 sep +:+ tail) = Some (l.*1, tail).
Proof.
  intros Hne Hl Hsep Htail Heat. revert fuel. induction Hl as [|[x s] l Hx Hl IH]; intros fuel Hf; [done|]. cbn [fst snd] in Hx.
  destruct l as [|y l].
  - destruct fuel; cbn [fmap list_fmap Join fst snd read_list]; rewrite (Hx tail Htail); cbn [mbind option_bind];
      by rewrite ?Heat.
  - destruct fuel as [|fuel]; [cbn in Hf; lia|].
    change (Join ((x, s) :: y :: l).*2 sep) with (s +:+ sep +:+ Join (y :: l).*2 sep).
    rewrite !app_assoc_str. cbn [read_list]. rewrite (Hx _ (Hsep _)). cbn [mbind option_bind].
    rewrite eat_app, IH by (done || (cbn in *; lia)). done.
Qed.

Lemma length_Join (l : list string) sep : sep ≠ "" → (length l ≤ S (len (Join l sep)))%nat.
Proof.
  intros Hs. induction l as [|x [|y l] IH]; [cbn; lia..|]. rewrite Join_cons, !len_app.
  destruct sep as [|c sep]; [done|]. cbn [length String.length] in *. lia.
Qed.

Lemma read_items_Join {A B} item sep (f : B → A) (g : B → string) (l : list B) tail :
  l ≠ [] → Forall (λ b, reads item (f b) (g b)) l → (∀ t, ends (sep +:+ t)) → sep ≠ "" → ends tail →
  eat sep tail = None → read_items item sep (Join (g <$> l) sep +:+ tail) = Some (f <$> l, tail).
Proof.
  intros Hne Hl Hsep Hs Htail Heat. pose proof (read_list_Join item sep ((λ b, (f b, g b)) <$> l) tail) as H.
  rewrite <-!list_fmap_compose in H. unfold read_items. apply H; try done.
  - by destruct l.
  - by apply Forall_fmap.
  - rewrite len_app, length_fmap. pose proof (length_Join (g <$> l) sep Hs) as Hj. rewrite length_fmap in Hj. lia.
Qed.

Section Read.
Context `{PI : PgxIdentifier} `{PR : !PgxIdentifierReads}.

(** Names to values, each with the place of its parameter. *)
Definition numbered (n : nat) (l : list (string * any)) : list (string * nat) := imap (λ i kv, (kv.1, (n + i)%nat)) l.

Lemma numbered_cons n kv l : numbered n (kv :: l) = (kv.1, n) :: numbered (S n) l.
Proof.
  unfold numbered. rewrite imap_cons, Nat.add_0_r. f_equal. apply imap_ext. intros i x _. unfold compose.
  by rewrite Nat.add_succ_r.
Qed.
Lemma assigns_cons n kv l : assigns n (kv :: l) = assign n kv.1 :: assigns (S n) l.
Proof.
  unfold assigns. rewrite imap_cons, Nat.add_0_r. f_equal. apply imap_ext. intros i x _. unfold compose.
  by rewrite Nat.add_succ_r.
Qed.

Lemma read_assigns n l sep tail :
  l ≠ [] → Forall (λ kv, no_nul kv.1) l → (∀ t, ends (sep +:+ t)) → sep ≠ "" → ends tail → eat sep tail = None →
  read_items read_assign sep (Join (assigns n l) sep +:+ tail) = Some (numbered n l, tail).
Proof.
  intros Hne Hl Hsep Hs Htail Heat.
  pose proof (read_items_Join read_assign sep fst snd (zip (numbered n l) (assigns n l)) tail) as H.
  assert (length (numbered n l) = length (assigns n l)) as Hlen by (unfold numbered, assigns; by rewrite !length_imap).
  rewrite fst_zip, snd_zip in H by lia. apply H; try done.
  { destruct l; [done|]. by rewrite numbered_cons, assigns_cons. }
  clear -Hl PR. revert n. induction Hl as [|kv l Hk Hl IH]; intros n; [constructor|].
  rewrite numbered_cons, assigns_cons. cbn [zip zip_with]. constructor; [|apply IH].
  intros rest Hr. unfold read_assign, assign. cbn [fst snd]. rewrite !app_assoc_str, reads_name by done.
  cbn [mbind option_bind]. rewrite eat_app. cbn [mbind option_bind]. by rewrite read_param_dollar.
Qed.

Lemma read_insert_sql schema table l :
  schema ≠ "" → no_nul schema → no_nul table → l ≠ [] → Forall (λ kv, no_nul kv.1) l →
  read_stmt (insert_sql (table_of table [schema]) l) = Some (Insert (schema, table) l.*1 (seq 1 (length l))).
Proof.
  intros Hne Hs Ht Hl Hn. unfold read_stmt, insert_sql.
  assert (table_of table [schema] = Sanitize [schema; table]) as ->.
  { unfold table_of, tableIdentifier, newQueryBuilder. cbn. by rewrite bool_decide_eq_false_2. }
  rewrite eat_app. unfold read_insert. rewrite reads_table by done. cbn [mbind option_bind]. rewrite eat_app.
  cbn [mbind option_bind].
  rewrite (read_items_Join read_name ", " fst (λ kv, Sanitize [kv.1])); try done.
  2:{ eapply Forall_impl; [exact Hn|]. intros kv Hk rest Hr. by apply reads_name. }
  cbn [mbind option_bind]. rewrite eat_app. cbn [mbind option_bind].
  rewrite (read_items_Join read_param ", " id dollar); try done.
  - by rewrite list_fmap_id.
  - by destruct l.
  - apply Forall_true. intros i rest Hr. by apply read_param_dollar.
Qed.

Lemma read_update_sql schema table l lw :
  schema ≠ "" → no_nul schema → no_nul table → l ≠ [] → lw ≠ [] →
  Forall (λ kv, no_nul kv.1) l → Forall (λ kv, no_nul kv.1) lw →
  read_stmt (update_sql (table_of table [schema]) l lw) =
    Some (Update (schema, table) (numbered 1 l) (numbered (S (length l)) lw)).
Proof.
  intros Hne Hs Ht Hl Hlw Hn Hnw. unfold read_stmt, update_sql.
  assert (table_of table [schema] = Sanitize [schema; table]) as ->.
  { unfold table_of, tableIdentifier, newQueryBuilder. cbn. by rewrite bool_decide_eq_false_2. }
  set (t := Sanitize [schema; table]). change (eat "INSERT INTO " ("UPDATE " +:+ ?s)) with (@None string). cbn iota beta.
  rewrite eat_app. cbn [mbind option_bind]. unfold read_update. subst t. rewrite reads_table by done.
  cbn [mbind option_bind]. rewrite eat_app. cbn [mbind option_bind].
  rewrite read_assigns; try done. cbn [mbind option_bind]. rewrite eat_app. cbn [mbind option_bind].
  pose proof (read_assigns (S (length l)) lw " AND " "") as H. rewrite app_nil_r_str in H.
  by rewrite H.
Qed.

End Read.

(** ** What they do *)

Lemma numbered_fst n l : (numbered n l).*1 = l.*1.
Proof. unfold numbered. rewrite fmap_imap. revert n. induction l as [|x l IH]; intros n; [done|]. rewrite imap_cons. cbn. f_equal. apply (IH (S n)). Qed.
Lemma numbered_snd n l : (numbered n l).*2 = seq n (length l).
Proof.
  revert n. induction l as [|x l IH]; intros n; [done|]. rewrite numbered_cons. cbn [fmap list_fmap length seq]. cbn.
  by rewrite <-IH.
Qed.
Lemma numbered_zip l : zip l.*1 (seq 1 (length l)) = numbered 1 l.
Proof. by rewrite <-(numbered_fst 1), <-numbered_snd, zip_fst_snd. Qed.

Lemma bound_numbered pre l post :
  bound (pre ++ l.*2 ++ post) (numbered (S (length pre)) l) = Some l.
Proof.
  revert pre. induction l as [|[k v] l IH]; intros pre; [done|]. rewrite numbered_cons. unfold bound.
  cbn [mapM]. cbn [fst snd param].
  rewrite lookup_app_r, Nat.sub_diag by lia. cbn [fmap list_fmap app lookup list_lookup mbind option_bind].
  specialize (IH (pre ++ [v])). rewrite length_app, Nat.add_1_r, <-app_assoc in IH. cbn [app] in IH.
  unfold bound in IH. cbn [snd]. rewrite IH. done.
Qed.

Lemma max_seq n k : foldr max 0%nat (seq n k) = match k with O => 0%nat | S k => (n + k)%nat end.
Proof. revert n. induction k as [|k IH]; intros n; [done|]. cbn [seq foldr]. rewrite IH. destruct k; lia. Qed.
Lemma counts_seq args k : length args = k → counts args (seq 1 k) = true.
Proof. intros <-. apply bool_decide_eq_true. rewrite max_seq. by destruct (length args). Qed.

Section Effects.
Context `{SE : SqlEq} `{SL : !SqlEqLaw}.

Lemma row_ok_dom t r : row_ok t r = true → ∀ k, is_Some (r !! k) ↔ k ∈ st_cols t.
Proof.
  intros [Hd _]%andb_true_iff. apply bool_decide_eq_true in Hd. intros k.
  rewrite <-elem_of_dom, Hd. apply elem_of_list_to_set.
Qed.
Lemma row_ok_key t r k : row_ok t r = true → k ∈ st_pk t → ∃ v, r !! k = Some v ∧ v ≠ ANil.
Proof.
  intros [_ Hk]%andb_true_iff Hin. rewrite forallb_forall in Hk. apply list_elem_of_In, Hk in Hin.
  destruct (r !! k) as [v|]; [|done]. exists v. split; [done|]. by intros ->.
Qed.
Lemma valid_row t r : valid t = true → r ∈ st_rows t → row_ok t r = true.
Proof. intros [H _]%andb_true_iff Hr. rewrite forallb_forall in H. by apply H, list_elem_of_In. Qed.

Lemma known_columns t (l : list (string * any)) r : row_ok t r = true → l ≡ₚ map_to_list r → known t l.*1 = true.
Proof.
  intros Hr Hl. apply andb_true_iff. split.
  - apply bool_decide_eq_true. rewrite Hl. apply NoDup_fst_map_to_list.
  - apply forallb_forall. intros k Hk%list_elem_of_In. apply bool_decide_eq_true, (row_ok_dom t r Hr).
    rewrite Hl in Hk. apply list_elem_of_fmap in Hk as ([k' v] & -> & Hk). apply elem_of_map_to_list in Hk. by exists v.
Qed.
Lemma list_to_map_range (l : list (string * any)) (m : row) : l ≡ₚ map_to_list m → list_to_map l = m.
Proof.
  intros Hl. rewrite (list_to_map_proper l (map_to_list m)); [apply list_to_map_to_list| |done].
  rewrite Hl. apply NoDup_fst_map_to_list.
Qed.
(** A full row leaves nothing of what it is laid over. *)
Lemma full_row (r r' : row) t : row_ok t r = true → (∀ k, is_Some (r' !! k) → k ∈ st_cols t) → r ∪ r' = r.
Proof.
  intros Hr Hr'. apply map_eq. intros k. rewrite lookup_union. destruct (r' !! k) as [v|] eqn:E.
  - assert (is_Some (r !! k)) as [w ->]; [|done]. apply (row_ok_dom t r Hr), Hr'. by exists v.
  - by destruct (r !! k).
Qed.

Context `{PI : PgxIdentifier} `{PR : !PgxIdentifierReads}.

Lemma exec_insert db schema table t l r :
  schema ≠ "" → no_nul schema → no_nul table → Forall no_nul (st_cols t) → st_cols t ≠ [] →
  db !! (schema, table) = Some t → l ≡ₚ map_to_list r → valid (with_rows (st_rows t ++ [r]) t) = true →
  exec_sql db (insert_sql (table_of table [schema]) l) l.*2 =
    Ok (1, <[(schema, table) := with_rows (st_rows t ++ [r]) t]> db).
Proof.
  intros Hs1 Hs2 Ht Hc Hne Hdb Hl Hv.
  assert (row_ok t r = true) as Hr by (apply (valid_row _ r Hv), elem_of_app; right; by left).
  pose proof (row_ok_dom t r Hr) as Hdom. pose proof (known_columns t l r Hr Hl) as Hk.
  unfold exec_sql. rewrite read_insert_sql; try done.
  2:{ intros ->. destruct (st_cols t) as [|c cols] eqn:Ec; [done|]. destruct (proj2 (Hdom c)) as [v Hcv]; [by left|].
      apply elem_of_map_to_list in Hcv. rewrite <-Hl in Hcv. by apply not_elem_of_nil in Hcv. }
  2:{ apply Forall_forall. intros [k v] Hin. rewrite Hl in Hin. apply elem_of_map_to_list in Hin.
      rewrite Forall_forall in Hc. apply Hc, Hdom. by exists v. }
  cbn [mbind option_bind]. unfold run_stmt. rewrite Hdb. cbn [mbind option_bind].
  rewrite bool_decide_eq_true_2 by (rewrite length_fmap, length_seq; done).
  rewrite counts_seq by (by rewrite length_fmap). rewrite Hk. cbn [andb negb].
  rewrite numbered_zip. pose proof (bound_numbered [] l []) as Hb. rewrite app_nil_r in Hb. cbn [app length] in Hb.
  rewrite Hb. cbn [mbind option_bind]. rewrite (list_to_map_range l r Hl), (full_row r _ t Hr).
  - by rewrite Hv.
  - intros k [v [Hin _]%lookup_gset_to_gmap_Some]. by apply elem_of_list_to_set in Hin.
Qed.

Lemma same_key_comm pk r r' : same_key pk r r' = same_key pk r' r.
Proof.
  unfold same_key. f_equal. induction pk as [|k pk IH]; [done|]. cbn. rewrite IH. f_equal.
  destruct (r !! k), (r' !! k); try done. apply sql_eq_comm.
Qed.

(** The conditions of an update find the rows with the key of the old one. *)
Lemma matches_key t before lw r :
  row_ok t before = true → st_pk t ≠ [] → lw ≡ₚ map_to_list (pk_where (st_pk t) before) →
  matches lw r = same_key (st_pk t) r before.
Proof.
  intros Hb Hpk Hlw. unfold same_key. rewrite bool_decide_eq_false_2 by done. cbn [negb andb].
  apply eq_true_iff_eq. unfold matches. rewrite !forallb_forall. split.
  - intros H k Hk%list_elem_of_In. destruct (row_ok_key t before k Hb Hk) as (v & Hv & _). rewrite Hv.
    specialize (H (k, v)). apply H, list_elem_of_In. rewrite Hlw. apply elem_of_map_to_list.
    by rewrite pk_where_lookup, bool_decide_eq_true_2.
  - intros H [k v] Hin%list_elem_of_In. rewrite Hlw in Hin. apply elem_of_map_to_list in Hin.
    rewrite pk_where_lookup in Hin. case_bool_decide as Hk; [|done]. apply list_elem_of_In, H in Hk.
    by rewrite Hin in Hk.
Qed.

Lemma same_key_refl t r : row_ok t r = true → st_pk t ≠ [] → same_key (st_pk t) r r = true.
Proof.
  intros Hr Hpk. unfold same_key. rewrite bool_decide_eq_false_2 by done. cbn. apply forallb_forall.
  intros k Hk%list_elem_of_In. destruct (row_ok_key t r k Hr Hk) as (v & -> & Hv). by apply sql_eq_refl.
Qed.

Lemma no_match_filter {A} (f : A → bool) l : Forall (λ x, f x = false) l → List.filter f l = [].
Proof. induction 1 as [|x l Hx H IH]; [done|]. cbn. by rewrite Hx. Qed.
Lemma map_none {A} (f : A → bool) (g : A → A) l : Forall (λ x, f x = false) l → (λ x, if f x then g x else x) <$> l = l.
Proof. induction 1 as [|x l Hx H IH]; [done|]. cbn. rewrite Hx. by f_equal. Qed.

Lemma exec_update db schema table t l lw l1 l2 before after :
  schema ≠ "" → no_nul schema → no_nul table → Forall no_nul (st_cols t) → st_pk t ≠ [] →
  db !! (schema, table) = Some t → st_rows t = l1 ++ before :: l2 → valid t = true →
  l ≡ₚ map_to_list after → lw ≡ₚ map_to_list (pk_where (st_pk t) before) →
  valid (with_rows (l1 ++ after :: l2) t) = true →
  exec_sql db (update_sql (table_of table [schema]) l lw) (l.*2 ++ lw.*2) =
    Ok (1, <[(schema, table) := with_rows (l1 ++ after :: l2) t]> db).
Proof.
  intros Hs1 Hs2 Ht Hc Hpk Hdb Hrows Hv Hl Hlw Hv'.
  assert (row_ok t after = true) as Ha by (apply (valid_row _ after Hv'), elem_of_app; right; by left).
  assert (row_ok t before = true) as Hb by (apply (valid_row _ before Hv); rewrite Hrows; apply elem_of_app; right; by left).
  pose proof (row_ok_dom t after Ha) as Hda. pose proof (row_ok_dom t before Hb) as Hdb'.
  assert (∀ k v, (k, v) ∈ lw → k ∈ st_cols t) as Hlwc.
  { intros k v Hin. rewrite Hlw in Hin. apply elem_of_map_to_list in Hin. rewrite pk_where_lookup in Hin.
    case_bool_decide; [|done]. apply Hdb'. by exists v. }
  assert (∀ k v, (k, v) ∈ l → k ∈ st_cols t) as Hlc.
  { intros k v Hin. rewrite Hl in Hin. apply elem_of_map_to_list in Hin. apply Hda. by exists v. }
  destruct (st_pk t) as [|pk pks] eqn:Epk; [done|]. rewrite <-Epk in *. clear Hpk.
  assert (st_pk t ≠ []) as Hpk by (by rewrite Epk).
  assert (∃ v, before !! pk = Some v) as [v0 Hv0].
  { destruct (row_ok_key t before pk Hb) as (v & ? & _); [rewrite Epk; by left|by exists v]. }
  rewrite Forall_forall in Hc. unfold exec_sql. rewrite read_update_sql; try done.
  2:{ intros ->. assert (is_Some (after !! pk)) as [v Hin] by (apply Hda, Hdb'; by exists v0).
      apply elem_of_map_to_list in Hin. rewrite <-Hl in Hin. by apply not_elem_of_nil in Hin. }
  2:{ intros ->. assert ((pk, v0) ∈ map_to_list (pk_where (st_pk t) before)) as Hin.
      { apply elem_of_map_to_list. rewrite pk_where_lookup, bool_decide_eq_true_2; [done|]. rewrite Epk. by left. }
      rewrite <-Hlw in Hin. by apply not_elem_of_nil in Hin. }
  2:{ apply Forall_forall. intros [k v] Hin. by eapply Hc, Hlc. }
  2:{ apply Forall_forall. intros [k v] Hin. by eapply Hc, Hlwc. }
  cbn [mbind option_bind]. unfold run_stmt. rewrite Hdb. cbn [mbind option_bind].
  rewrite !numbered_fst, !numbered_snd, <-seq_app, counts_seq by (by rewrite length_app, !length_fmap).
  rewrite (known_columns t l after Ha Hl).
  assert (forallb (λ c, bool_decide (c ∈ st_cols t)) lw.*1 = true) as ->.
  { apply forallb_forall. intros k Hk%list_elem_of_In. apply list_elem_of_fmap in Hk as ([k' v] & -> & Hin).
    apply bool_decide_eq_true. by eapply Hlwc. }
  cbn [andb negb]. pose proof (bound_numbered [] l lw.*2) as Hbl. cbn [app length] in Hbl. rewrite Hbl.
  cbn [mbind option_bind]. pose proof (bound_numbered l.*2 lw []) as Hbd. rewrite length_fmap, app_nil_r in Hbd.
  rewrite Hbd. cbn [mbind option_bind]. rewrite (list_to_map_range l after Hl).
  assert (∀ r, r ∈ l1 ++ l2 → matches lw r = false) as Hothers.
  { intros r Hin. rewrite (matches_key t before lw r Hb Hpk Hlw). apply andb_true_iff in Hv as [_ Hu].
    rewrite Hrows in Hu. destruct (unique_keys_split _ _ _ _ r Hu Hin) as [E|E]; [by rewrite same_key_comm|done]. }
  assert (matches lw before = true) as Hself.
  { rewrite (matches_key t before lw before Hb Hpk Hlw). by apply same_key_refl. }
  assert (Forall (λ r, matches lw r = false) l1) as H1.
  { apply Forall_forall. intros r Hr. apply Hothers, elem_of_app. by left. }
  assert (Forall (λ r, matches lw r = false) l2) as H2.
  { apply Forall_forall. intros r Hr. apply Hothers, elem_of_app. by right. }
  rewrite Hrows, fmap_app, fmap_cons, Hself, !map_none by done.
  rewrite List.filter_app. cbn [List.filter]. rewrite Hself, !no_match_filter by done.
  rewrite (full_row after before t Ha). { by rewrite Hv'. }
  intros k Hk. by apply Hdb'.
Qed.

End Effects.

(** ** The source *)

Section Source.
Context `{SE : SqlEq} `{PT : PgTypes}.

(** The tuple of a row as the server sends it in full: null, or a text that the
    decoder of the column's type reads as the value. *)
Definition sends_value (col : TupleDataColumn) (rc : RelationColumn) (v : any) : Prop :=
  tc_DataType col = "n"%char ∧ v = ANil ∨
  tc_DataType col = "t"%char ∧ decodeTextColumnData newTypeMap (tc_Data col) (rc_DataType rc) = Ok v.
Definition sends (rel : RelationMessageV2) (tuple : TupleData) (r : row) : Prop :=
  length tuple = length (rel_Columns rel) ∧
  ∀ i rc col, rel_Columns rel !! i = Some rc → tuple !! i = Some col →
    ∃ v, r !! rc_Name rc = Some v ∧ sends_value col rc v.

Definition table_name (rel : RelationMessageV2) : string * string := (rel_Namespace rel, rel_RelationName rel).

(** A message and what had happened in the source's tables: a row inserted, a row
    updated whose old and new values are both sent, or nothing. The constraints of
    the tables hold after it. *)
Inductive source_step (rels : Z → option RelationMessageV2) : timed → DB → DB → Prop :=
| source_insert xid id rel t tuple r ts db :
    rels id = Some rel → db !! table_name rel = Some t → named_columns (rel_Columns rel) = st_cols t →
    sends rel tuple r → valid (with_rows (st_rows t ++ [r]) t) = true →
    source_step rels (InsertMsg xid id (Some tuple), ts) db (<[table_name rel := with_rows (st_rows t ++ [r]) t]> db)
| source_update xid id rel t old new l1 l2 before after ts db :
    rels id = Some rel → db !! table_name rel = Some t → named_columns (rel_Columns rel) = st_cols t →
    st_pk t ≠ [] → st_rows t = l1 ++ before :: l2 → sends rel old before → sends rel new after →
    valid (with_rows (l1 ++ after :: l2) t) = true →
    source_step rels (UpdateMsg xid id (Some old) (Some new), ts) db
      (<[table_name rel := with_rows (l1 ++ after :: l2) t]> db)
| source_nothing m ts db :
    (∃ r, m = RelationMsg r) ∨ m = StreamStartMsg ∨ m = StreamStopMsg ∨ m = OtherMsg →
    source_step rels (m, ts) db db.

Inductive source_run (db0 : DB) : list timed → DB → Prop :=
| run_nil : source_run db0 [] db0
| run_snoc ms m db db' :
    source_run db0 ms db → source_step (last_relation ms) m db db' → source_run db0 (ms ++ [m]) db'.

Lemma sends_row rel t tuple r row :
  row_of newTypeMap rel tuple row → sends rel tuple r → named_columns (rel_Columns rel) = st_cols t →
  row_ok t r = true → row = r.
Proof.
  intros [_ Hrow] [Hlen Hs] Hn Hr. pose proof (row_ok_dom t r Hr) as Hdom. rewrite <-Hn in Hdom.
  assert (∀ i rc col, rel_Columns rel !! i = Some rc → tuple !! i = Some col →
            r !! rc_Name rc = Some (decodeColumn col newTypeMap (rc_DataType rc))) as Hdec.
  { intros i rc col Hi Ht. destruct (Hs i rc col Hi Ht) as (v & -> & [[Hn' ->]|[Ht' Hd]]); unfold decodeColumn.
    - by rewrite bool_decide_eq_true_2.
    - rewrite !Ht', !bool_decide_eq_false_2, bool_decide_eq_true_2 by done. by rewrite Hd. }
  apply map_eq. intros k. destruct (row !! k) as [v|] eqn:Ek.
  - apply Hrow in Ek as (i & rc & col & Hi & Ht & <- & ->). by erewrite Hdec.
  - destruct (r !! k) as [v|] eqn:Er; [|done]. exfalso.
    assert (k ∈ named_columns (rel_Columns rel)) as Hk by (apply Hdom; by exists v).
    apply list_elem_of_fmap in Hk as (rc & -> & Hk). apply list_elem_of_lookup in Hk as [i Hi].
    destruct (lookup_lt_is_Some_2 tuple i) as [col Ht]; [rewrite Hlen; by apply lookup_lt_Some in Hi|].
    assert (row !! rc_Name rc = Some (decodeColumn col newTypeMap (rc_DataType rc))) as Hsome
      by (apply Hrow; by exists i, rc, col). congruence.
Qed.

End Source.

(** ** The sink *)

Section Sink.
Context `{SE : SqlEq} `{SL : !SqlEqLaw} `{PT : PgTypes} `{PI : PgxIdentifier} `{PR : !PgxIdentifierReads} `{GR : GoRange}.

(** Events published one after the other: what [Pub] returned, and the log. *)
Fixpoint pub_all `{PC : PgxConn} (p : PeerPG) (events : list Event) (log : log_t) : option (list (option pub_error) * log_t) :=
  match events with
  | [] => Some ([], log)
  | e :: events => '(err, log) ← Pub p e log; '(errs, log) ← pub_all p events log; Some (err :: errs, log)
  end.

Lemma pub_all_app `{PC : PgxConn} p es es' log :
  pub_all p (es ++ es') log =
  ('(errs, log) ← pub_all p es log; '(errs', log) ← pub_all p es' log; Some (errs ++ errs', log)).
Proof.
  revert log. induction es as [|e es IH]; intros log; cbn [app pub_all].
  - cbn [mbind option_bind app]. by destruct (pub_all p es' log) as [[? ?]|].
  - destruct (Pub p e log) as [[err log1]|]; [|done]. cbn [mbind option_bind]. rewrite IH.
    destruct (pub_all p es log1) as [[errs log2]|]; [|done]. cbn [mbind option_bind].
    by destruct (pub_all p es' log2) as [[? ?]|].
Qed.

(** The peer is connected and has read the tables, which have names that SQL can
    express and keep their constraints. *)
Definition table_ready (p : PeerPG) (name : string * string) (t : STable) : Prop :=
  name.1 ≠ "" ∧ name.2 ≠ "" ∧ no_nul name.1 ∧ no_nul name.2 ∧ Forall no_nul (st_cols t) ∧ st_cols t ≠ [] ∧
  valid t = true ∧
  ∃ T, pg_tables p !! full_name name.1 name.2 = Some T ∧ tbl_PrimaryKeys T = st_pk t.
Definition ready (p : PeerPG) (db : DB) : Prop := pg_pool p = true ∧ map_Forall (table_ready p) db.

Lemma ready_insert p db name t rows :
  ready p db → db !! name = Some t → valid (with_rows rows t) = true → ready p (<[name := with_rows rows t]> db).
Proof.
  intros [Hp Hdb] Ht Hv. split; [done|]. intros name' t' [[<- <-]|[_ H]]%lookup_insert_Some; [|by apply Hdb].
  destruct (Hdb _ _ Ht) as (?&?&?&?&?&?&_&?). by split_and!.
Qed.

Context (db0 : DB).

Lemma pub_insert p addr rel xid ts r t log db :
  ready p db → replay db0 log = db → db !! table_name rel = Some t →
  valid (with_rows (st_rows t ++ [r]) t) = true →
  ∃ log', Pub (PC := sql_conn db0) p (change addr OpCreate ANil (AObj r) rel xid ts) log = Some (None, log') ∧
    replay db0 log' = <[table_name rel := with_rows (st_rows t ++ [r]) t]> db.
Proof.
  intros [Hp Hdb] Hlog Ht Hv. destruct (Hdb _ _ Ht) as (Hs & Htb & Hn1 & Hn2 & Hc & Hne & _ & T & HT & Hpk).
  unfold Pub, change. cbn [ev_Payload pay_After pay_Source src_Table src_Schema pay_Op is_nil].
  rewrite Hp. cbn [negb orb]. rewrite bool_decide_eq_false_2 by done. cbn [table_name fst snd] in HT. rewrite HT.
  rewrite bool_decide_eq_true_2 by done. rewrite InsertRow_eq. cbv zeta.
  pose proof (exec_insert db _ _ t (range r) r Hs Hn1 Hn2 Hc Hne Ht (range_perm r) Hv) as Hex.
  cbn [table_name fst snd] in Hex.
  unfold conn_Exec at 1. cbn [sql_conn]. rewrite Hlog, Hex. eexists. split; [reflexivity|].
  cbn [snd]. apply (replay_snoc _ _ _ _ 1). by rewrite Hlog.
Qed.

Lemma pub_update p addr rel xid ts t l1 l2 before after log db :
  ready p db → replay db0 log = db → db !! table_name rel = Some t → st_pk t ≠ [] →
  st_rows t = l1 ++ before :: l2 → valid (with_rows (l1 ++ after :: l2) t) = true →
  ∃ log', Pub (PC := sql_conn db0) p (change addr OpUpdate (AObj before) (AObj after) rel xid ts) log = Some (None, log') ∧
    replay db0 log' = <[table_name rel := with_rows (l1 ++ after :: l2) t]> db.
Proof.
  intros [Hp Hdb] Hlog Ht Hk Hrows Hv. destruct (Hdb _ _ Ht) as (Hs & Htb & Hn1 & Hn2 & Hc & Hne & Hvt & T & HT & Hpk).
  unfold Pub, change. cbn [ev_Payload pay_After pay_Before pay_Source src_Table src_Schema pay_Op is_nil].
  rewrite Hp. cbn [negb orb]. rewrite bool_decide_eq_false_2 by done. cbn [table_name fst snd] in HT. rewrite HT.
  rewrite bool_decide_eq_false_2 by done. rewrite bool_decide_eq_true_2 by done. rewrite Hpk.
  destruct (st_pk t) as [|pk pks] eqn:Epk; [done|]. rewrite <-Epk in *.
  assert (pk_where (st_pk t) before ≠ ∅) as Hw.
  { intros E. destruct (row_ok_key t before pk) as (v & Hv0 & _).
    - apply (valid_row _ _ Hvt). rewrite Hrows. apply elem_of_app. right. by left.
    - rewrite Epk. by left.
    - assert (pk_where (st_pk t) before !! pk = Some v) as Hl.
      { rewrite pk_where_lookup, bool_decide_eq_true_2; [done|]. rewrite Epk. by left. }
      by rewrite E in Hl. }
  rewrite bool_decide_eq_false_2 by done. rewrite UpdateRow_eq, bool_decide_eq_false_2 by done. cbv zeta.
  pose proof (exec_update db _ _ t (range after) (range (pk_where (st_pk t) before)) l1 l2 before after
    Hs Hn1 Hn2 Hc Hk Ht Hrows Hvt (range_perm _) (range_perm _) Hv) as Hex.
  cbn [table_name fst snd] in Hex.
  unfold conn_Exec at 1. cbn [sql_conn]. rewrite Hlog, Hex. eexists. split; [reflexivity|].
  cbn [snd]. apply (replay_snoc _ _ _ _ 1). by rewrite Hlog.
Qed.

Lemma decoded_unsnoc addr ms m evs :
  decoded addr (ms ++ [m]) evs →
  ∃ evs' e, evs = evs' ++ [e] ∧ decoded addr ms evs' ∧ means newTypeMap addr (last_relation ms) m e.
Proof.
  intros [Hl H]. destruct evs as [|e evs _] using rev_ind; [rewrite length_app in Hl; cbn in Hl; lia|].
  rewrite !length_app in Hl. cbn in Hl. exists evs, e. split_and!; [done| |].
  - split; [lia|]. intros i m' Hi. pose proof (lookup_lt_Some _ _ _ Hi) as Hlt.
    destruct (H i m') as (e' & He & Hm); [by rewrite lookup_app_l|]. exists e'.
    rewrite lookup_app_l in He by lia. split; [done|].
    by rewrite firstn_app, (proj2 (Nat.sub_0_le i (length ms))), app_nil_r in Hm by lia.
  - destruct (H (length ms) m) as (e' & He & Hm); [by apply list_lookup_middle|].
    rewrite firstn_app, Nat.sub_diag, firstn_all, app_nil_r in Hm.
    replace (length ms) with (length evs) in He by lia. rewrite list_lookup_middle in He by done. by injection He as <-.
Qed.

(** One message: its event, if it has one, does to the sink what was done to the
    source. *)
Lemma step_followed p addr ms m db db' e log :
  source_step (last_relation ms) m db db' → means newTypeMap addr (last_relation ms) m e →
  ready p db → replay db0 log = db →
  ready p db' ∧ ∃ errs log', pub_all (PC := sql_conn db0) p (option_list e) log = Some (errs, log') ∧
    Forall (eq None) errs ∧ replay db0 log' = db'.
Proof.
  intros Hs Hm Hr Hlog. destruct Hs as [xid id rel t tuple r ts db Hrel Ht Hn Hsend Hv
    |xid id rel t old new l1 l2 before after ts db Hrel Ht Hn Hk Hrows Hb Ha Hv|m ts db Hm'].
  - split; [by apply (ready_insert p db _ t)|].
    assert (∃ row, e = Some (change addr OpCreate ANil (AObj row) rel xid ts) ∧ row_of newTypeMap rel tuple row)
      as (row & -> & Hrow).
    { inversion Hm; subst; naive_solver congruence. }
    assert (row = r) as -> by (apply (sends_row rel (with_rows (st_rows t ++ [r]) t) tuple); [done..|];
      apply (valid_row _ _ Hv), elem_of_app; right; by left).
    destruct (pub_insert p addr rel xid ts r t log db Hr Hlog Ht Hv) as (log' & Hp & Hlog').
    exists [None], log'. change (option_list (Some ?e)) with [e]. cbn [pub_all]. rewrite Hp. cbn [mbind option_bind]. by repeat constructor.
  - split; [by apply (ready_insert p db _ t)|].
    assert (∃ row row', e = Some (change addr OpUpdate (AObj row) (AObj row') rel xid ts) ∧
      row_of newTypeMap rel old row ∧ row_of newTypeMap rel new row') as (row & row' & -> & Hrow & Hrow').
    { inversion Hm; subst; naive_solver congruence. }
    assert (valid t = true) as Hvt by (destruct Hr as [_ Hr]; by destruct (Hr _ _ Ht) as (?&?&?&?&?&?&?&?)).
    assert (row = before) as -> by (apply (sends_row rel t old); [done..|];
      apply (valid_row _ _ Hvt); rewrite Hrows; apply elem_of_app; right; by left).
    assert (row' = after) as -> by (apply (sends_row rel (with_rows (l1 ++ after :: l2) t) new); [done..|];
      apply (valid_row _ _ Hv), elem_of_app; right; by left).
    destruct (pub_update p addr rel xid ts t l1 l2 before after log db Hr Hlog Ht Hk Hrows Hv) as (log' & Hp & Hlog').
    exists [None], log'. change (option_list (Some ?e)) with [e]. cbn [pub_all]. rewrite Hp. cbn [mbind option_bind]. by repeat constructor.
  - split; [done|]. assert (e = None) as -> by (inversion Hm; subst; naive_solver). by exists [], log.
Qed.

Lemma run_followed p addr ms db evs :
  ready p db0 → source_run db0 ms db → decoded addr ms evs →
  ready p db ∧ ∃ errs log, pub_all (PC := sql_conn db0) p (omap id evs) [] = Some (errs, log) ∧
    Forall (eq None) errs ∧ replay db0 log = db.
Proof.
  intros Hr Hrun. revert evs. induction Hrun as [|ms m db db' Hrun IH Hs]; intros evs Hd.
  - destruct Hd as [Hl _]. destruct evs; [|done]. split; [done|]. by exists [], [].
  - apply decoded_unsnoc in Hd as (evs' & e & -> & Hd & Hm). destruct (IH _ Hd) as (Hr' & errs & log & Hp & He & Hlog).
    destruct (step_followed p addr ms m db db' e log Hs Hm Hr' Hlog) as (Hr'' & errs' & log' & Hp' & He' & Hlog').
    split; [done|]. exists (errs ++ errs'), log'. rewrite omap_app, pub_all_app, Hp. cbn [mbind option_bind].
    replace (omap id [e]) with (option_list e) by (by destruct e). rewrite Hp'. cbn [mbind option_bind].
    split_and!; [done| |done]. by apply Forall_app.
Qed.

(** ** Inserts in any order

    Rows that were only ever inserted leave, in whatever order their events are
    written, the same rows in the sink, up to their order in the table. *)

Definition same_table (t t' : STable) : Prop :=
  st_cols t = st_cols t' ∧ st_pk t = st_pk t' ∧ st_rows t ≡ₚ st_rows t'.
Definition same_rows (db db' : DB) : Prop := ∀ name, option_Forall2 same_table (db !! name) (db' !! name).

Definition rows_for (name : string * string) (ins : list ((string * string) * row)) : list row :=
  omap (λ kr, if decide (kr.1 = name) then Some kr.2 else None) ins.
Definition add_rows (ins : list ((string * string) * row)) (db : DB) : DB :=
  map_imap (λ name t, Some (with_rows (st_rows t ++ rows_for name ins) t)) db.

Lemma add_rows_lookup ins db name :
  add_rows ins db !! name = (λ t, with_rows (st_rows t ++ rows_for name ins) t) <$> db !! name.
Proof. unfold add_rows. rewrite map_lookup_imap. by destruct (db !! name). Qed.
Lemma add_rows_nil db : add_rows [] db = db.
Proof. apply map_eq. intros name. rewrite add_rows_lookup. destruct (db !! name) as [[cols pk rows]|]; [|done]. cbn. by rewrite app_nil_r. Qed.
Lemma add_rows_snoc ins db name t r :
  add_rows ins db !! name = Some t →
  add_rows (ins ++ [(name, r)]) db = <[name := with_rows (st_rows t ++ [r]) t]> (add_rows ins db).
Proof.
  intros Ht. apply map_eq. intros k. rewrite add_rows_lookup. unfold rows_for. rewrite omap_app. cbn [omap list_omap fst snd].
  destruct (decide (name = k)) as [<-|Hne].
  - rewrite lookup_insert_eq. rewrite add_rows_lookup in Ht. destruct (db !! name) as [t0|]; [|done]. cbn in Ht |- *.
    injection Ht as <-. unfold with_rows. cbn. by rewrite app_assoc.
  - rewrite lookup_insert_ne, app_nil_r by done. by rewrite add_rows_lookup.
Qed.
Lemma add_rows_perm ins ins' db : ins ≡ₚ ins' → same_rows (add_rows ins db) (add_rows ins' db).
Proof.
  intros Hp name. rewrite !add_rows_lookup. destruct (db !! name) as [t|]; constructor. split_and!; [done..|]. cbn.
  unfold rows_for. by rewrite Hp.
Qed.

Lemma unique_keys_app pk l l' : unique_keys pk (l ++ l') = true → unique_keys pk l = true.
Proof.
  induction l as [|r l IH]; [done|]. cbn [app unique_keys]. rewrite forallb_app, !andb_true_iff. tauto.
Qed.
Lemma unique_keys_perm pk l l' : l ≡ₚ l' → unique_keys pk l = unique_keys pk l'.
Proof.
  assert (∀ (f : row → bool) l l', l ≡ₚ l' → forallb f l = forallb f l') as Hf.
  { intros f l0 l0'. induction 1 as [|x ? ? _ IH|x y ?|? ? ? _ IH1 _ IH2]; cbn; [done|by rewrite IH| |congruence].
    by destruct (f x), (f y). }
  induction 1 as [|r l l' Hp IH|r r' l|? ? ? _ IH1 _ IH2]; [done| | |congruence].
  - cbn [unique_keys]. by rewrite IH, (Hf _ l l').
  - cbn [unique_keys forallb]. rewrite (same_key_comm pk r r').
    destruct (same_key pk r' r), (forallb _ l), (forallb _ l), (unique_keys pk l); done.
Qed.
Lemma valid_same t t' : same_table t t' → valid t = true → valid t' = true.
Proof.
  intros (Hc & Hk & Hr) [H1 H2]%andb_true_iff. apply andb_true_iff. split.
  - rewrite forallb_forall in *. intros r Hin%list_elem_of_In. rewrite <-Hr in Hin. apply list_elem_of_In, H1 in Hin.
    unfold row_ok in *. by rewrite <-Hc, <-Hk.
  - by rewrite <-Hk, <-(unique_keys_perm _ _ _ Hr).
Qed.
Lemma valid_prefix t l l' : valid (with_rows (l ++ l') t) = true → valid (with_rows l t) = true.
Proof.
  intros [H1 H2]%andb_true_iff. cbn [with_rows st_rows st_pk] in *. rewrite forallb_app in H1.
  apply andb_true_iff in H1 as [H1 _]. apply andb_true_iff. split; [exact H1|]. by eapply unique_keys_app.
Qed.

(** The event that tells of a row in a table of the sink. *)
Definition tells (e : Event) (kr : (string * string) * row) : Prop :=
  ∃ addr rel xid ts, kr.1 = table_name rel ∧ e = change addr OpCreate ANil (AObj kr.2) rel xid ts ∧ is_Some (db0 !! kr.1).

Definition not_update (m : timed) : Prop := match m.1 with UpdateMsg _ _ _ _ => False | _ => True end.

Lemma source_inserts p addr ms db evs :
  ready p db0 → source_run db0 ms db → Forall not_update ms → decoded addr ms evs →
  ∃ ins, db = add_rows ins db0 ∧ ready p db ∧ Forall2 tells (omap id evs) ins.
Proof.
  intros Hr Hrun. revert evs. induction Hrun as [|ms m db db' Hrun IH Hs]; intros evs Hno Hd.
  { exists []. rewrite add_rows_nil. destruct Hd as [Hl _]. destruct evs; [|done]. split_and!; [done|done|constructor]. }
  apply Forall_app in Hno as [Hno Hm']. apply Forall_cons_1 in Hm' as [Hm' _].
  apply decoded_unsnoc in Hd as (evs' & e & -> & Hd & Hm). destruct (IH _ Hno Hd) as (ins & Edb & Hr' & Hf).
  rewrite omap_app. destruct Hs as [xid id rel t tuple r ts db Hrel Ht Hn Hsend Hv|xid id rel t old new l1 l2 b a ts db|m ts db Hno']; subst db.
  - exists (ins ++ [(table_name rel, r)]). split; [by rewrite (add_rows_snoc _ _ _ t)|]. split; [by apply (ready_insert p _ _ t)|].
    apply Forall2_app; [done|].
    assert (∃ row, e = Some (change addr OpCreate ANil (AObj row) rel xid ts) ∧ row_of newTypeMap rel tuple row)
      as (row & -> & Hrow) by (inversion Hm; subst; naive_solver congruence).
    assert (row = r) as -> by (apply (sends_row rel (with_rows (st_rows t ++ [r]) t) tuple); [done..|];
      apply (valid_row _ _ Hv), elem_of_app; right; by left).
    repeat constructor. exists addr, rel, xid, ts. split_and!; [done..|]. rewrite add_rows_lookup in Ht.
    cbn. destruct (db0 !! table_name rel); [by eexists|done].
  - exact (False_rect _ Hm').
  - exists ins. split; [done|]. split; [done|]. assert (e = None) as -> by (inversion Hm; subst; naive_solver). by rewrite app_nil_r.
Qed.

Lemma pub_inserts p es ins :
  ready p db0 → Forall2 tells es ins → (∀ name t, add_rows ins db0 !! name = Some t → valid t = true) →
  ∃ errs log, pub_all (PC := sql_conn db0) p es [] = Some (errs, log) ∧ Forall (eq None) errs ∧
    replay db0 log = add_rows ins db0 ∧ ready p (add_rows ins db0).
Proof.
  intros Hr Hf. revert ins Hf. induction es as [|e es IH] using rev_ind; intros ins Hf Hv.
  { apply Forall2_nil_inv_l in Hf as ->. exists [], []. rewrite add_rows_nil. by split_and!. }
  apply Forall2_app_inv_l in Hf as (ins' & kr & Hf & He & ->). apply Forall2_cons_inv_l in He as ([name r] & ? & He & Hnil & ->).
  apply Forall2_nil_inv_l in Hnil as ->. destruct He as (addr & rel & xid & ts & Hname & -> & [t0 Ht0]). cbn [fst snd] in *.
  set (t := with_rows (st_rows t0 ++ rows_for name ins') t0).
  assert (add_rows ins' db0 !! name = Some t) as Ht by (by rewrite add_rows_lookup, Ht0).
  rewrite (add_rows_snoc _ _ _ t _ Ht) in Hv |- *.
  assert (valid (with_rows (st_rows t ++ [r]) t) = true) as Hvt by (apply (Hv name); by rewrite lookup_insert_eq).
  destruct (IH ins' Hf) as (errs & log & Hp & Herr & Hlog & Hr').
  { intros name' t' Ht'. destruct (decide (name' = name)) as [->|Hne].
    - rewrite Ht in Ht'. injection Ht' as <-. apply valid_prefix in Hvt. by destruct t.
    - apply (Hv name'). by rewrite lookup_insert_ne. }
  subst name. destruct (pub_insert p addr rel xid ts r t log _ Hr' Hlog Ht Hvt) as (log' & Hp' & Hlog').
  exists (errs ++ [None]), log'. rewrite pub_all_app, Hp. cbn [mbind option_bind pub_all]. rewrite Hp'. cbn [mbind option_bind].
  split_and!; [done| |done|by apply (ready_insert p _ _ t)]. apply Forall_app. by repeat constructor.
Qed.

(** The events of inserts, written in any order, bring the sink to the rows of the
    source. *)
Lemma inserts_followed p addr ms db evs es :
  ready p db0 → source_run db0 ms db → Forall not_update ms → decoded addr ms evs → es ≡ₚ omap id evs →
  ∃ errs log, pub_all (PC := sql_conn db0) p es [] = Some (errs, log) ∧ Forall (eq None) errs ∧ same_rows (replay db0 log) db.
Proof.
  intros Hr Hrun Hno Hd Hes. destruct (source_inserts p addr ms db evs Hr Hrun Hno Hd) as (ins & -> & Hr' & Hf).
  destruct (Permutation_Forall2 (symmetry Hes) Hf) as (ins' & Hins & Hf').
  destruct (pub_inserts p es ins' Hr Hf') as (errs & log & Hp & He & Hlog & _).
  - intros name t Ht. pose proof (add_rows_perm _ _ db0 Hins name) as Hs. rewrite Ht in Hs.
    inversion Hs as [t' ? Hsame E|]; subst. eapply valid_same; [exact Hsame|]. destruct Hr' as [_ Hr'].
    symmetry in E. by destruct (Hr' _ _ E) as (?&?&?&?&?&?&?&?).
  - exists errs, log. split_and!; [done..|]. rewrite Hlog. by apply add_rows_perm.
Qed.


End Sink.

(** ** Example *)

(** Values equal when their JSON is. *)
Definition json_eq : SqlEq := {|
  sql_eq v w := negb (is_nil v) && negb (is_nil w) &&
    bool_decide (Marshal (H := integral_floats) v = Marshal (H := integral_floats) w) |}.
Lemma json_eq_law : SqlEqLaw (SE := json_eq).
Proof.
  split; cbn.
  - intros v Hv. destruct v; try done; by apply bool_decide_eq_true.
  - intros v w. destruct (is_nil v), (is_nil w); cbn; try done. by apply bool_decide_ext.
  - done.
Qed.

Definition full_message (s : string) (inStream : bool) : option logicalMessage :=
  if bool_decide (s = "users") then Some (RelationMsg users_rel)
  else if bool_decide (s = "insert") then Some (InsertMsg 7 1 (Some [col "t" "12"; col "t" "hi"]))
  else if bool_decide (s = "update") then
    Some (UpdateMsg 8 1 (Some [col "t" "12"; col "t" "hi"]) (Some [col "t" "13"; col "n" ""]))
  else None.
Definition full_wal : WalParser := {|
  PrimaryKeepaliveMessageByteID := "k"; XLogDataByteID := "w"; ParsePrimaryKeepaliveMessage := Atoi;
  ParseXLogData s := '(a, b) ← Cut s ":"; pos ← Atoi a; Some {| xld_WALStart := pos; xld_WALData := b |};
  ParseV2 := full_message |}.
Definition full_turns : list turn := [at_time 1 "w10:users"; at_time 2 "w20:insert"; at_time 13 "w30:update"].
Definition user_row (id : Z) (bio : any) : row := {["id" := AInt KInt32 id; "bio" := bio]}.
Definition users_rows (rows : list row) : STable := {| st_cols := ["id"; "bio"]; st_pk := ["id"]; st_rows := rows |}.
Definition users_store (rows : list row) : DB := {[("public", "users") := users_rows rows]}.
Lemma users_store_set rows rows' :
  users_store rows' = <[table_name users_rel := with_rows rows' (users_rows rows)]> (users_store rows).
Proof. symmetry. apply insert_singleton_eq. Qed.
Definition before_rows : list row := [user_row 1 (AStr "first")].
Definition full_state : Loop := {|
  lp_relations := {[1 := users_rel]}; lp_nextStandby := 23; lp_walPos := 30; lp_inStream := false;
  lp_events := [
    change "db:5432" OpCreate ANil (AObj (user_row 12 (AStr "hi"))) users_rel 7 (2, 2);
    change "db:5432" OpUpdate (AObj (user_row 12 (AStr "hi"))) (AObj (user_row 13 ANil)) users_rel 8 (13, 13)];
  lp_status := [20] |}.

Lemma full_run : streamEvents (WP := full_wal) (PT := demo_types) (GR := range_up) 10 "db:5432" 0 full_turns = Goes full_state.
Proof. vm_compute. reflexivity. Qed.

Lemma full_distinct : Forall distinct_columns (messages (WP := full_wal) false full_turns).
Proof.
  vm_compute messages. repeat apply Forall_cons_2; [apply (users_distinct (1, 1))|exact I|exact I|apply Forall_nil_2].
Qed.

Lemma full_source :
  source_run (SE := json_eq) (PT := demo_types) (users_store before_rows) (messages (WP := full_wal) false full_turns)
    (users_store (before_rows ++ [user_row 13 ANil])).
Proof.
  vm_compute messages. set (rel := RelationMsg _).
  pose proof (run_nil (SE := json_eq) (PT := demo_types) (users_store before_rows)) as H.
  apply (run_snoc _ _ (rel, (1, 1)) _ (users_store before_rows)) in H; [|apply source_nothing; left; by eexists].
  apply (run_snoc _ _ (InsertMsg 7 1 (Some [col "t" "12"; col "t" "hi"]), (2, 2)) _
    (users_store (before_rows ++ [user_row 12 (AStr "hi")]))) in H.
  2:{ rewrite (users_store_set before_rows (before_rows ++ [user_row 12 (AStr "hi")])).
      apply (source_insert (SE := json_eq) (PT := demo_types) _ 7 1 users_rel (users_rows before_rows));
        [reflexivity|reflexivity|reflexivity| |vm_compute; reflexivity].
      split; [reflexivity|]. intros [|[|i]] rc c [= <-] [= <-]; eexists; (split; [reflexivity|right; split; reflexivity]). }
  apply (run_snoc _ _ (UpdateMsg 8 1 (Some [col "t" "12"; col "t" "hi"]) (Some [col "t" "13"; col "n" ""]), (13, 13)) _
    (users_store (before_rows ++ [user_row 13 ANil]))) in H; [exact H|].
  rewrite (users_store_set (before_rows ++ [user_row 12 (AStr "hi")]) (before_rows ++ [user_row 13 ANil])).
  apply (source_update (SE := json_eq) (PT := demo_types) _ 8 1 users_rel (users_rows (before_rows ++ [user_row 12 (AStr "hi")]))
    _ _ before_rows [] (user_row 12 (AStr "hi")));
    [reflexivity|reflexivity|reflexivity|done|reflexivity| | |vm_compute; reflexivity];
    (split; [reflexivity|]; intros [|[|i]] rc c [= <-] [= <-]; eexists; (split; [reflexivity|]));
    try (right; split; reflexivity). left. split; reflexivity.
Qed.

Lemma users_ready : ready (SE := json_eq) users_peer (users_store before_rows).
Proof.
  split; [reflexivity|]. apply map_Forall_singleton. split_and!; try done.
  - repeat constructor.
  - eexists. split; reflexivity.
Qed.

