(* ===== verification/Mqtt.v ===== *)
(** * Mqtt: the MQTT peer, [pkg/pipeline/peer/mqtt].

    Topics are matched and rewritten, and values read from them (transform.go); a
    message becomes events by its topic and payload, and events are published
    under topics (peer.go). The broker and its client library are left out; regular
    expressions (class [Regexp] of file Transform, with the submatches) and the
    decoder of JSON are arguments. The function that a subscription calls shares no
    map between events that anything writes to, so maps are values. *)

From S2P Require Import Prelude GoStrings GoStringFacts GoAny Cdc Transform.
Local Open Scope Z_scope.

(** ** Topics, transform.go *)

(** [re.FindStringSubmatch]; [None] is nil. *)
Class Submatch `{Regexp} := { FindStringSubmatch : regexp → string → option (list string) }.

Record TopicToField := {
  ttf_Field : string; ttf_Index : string; ttf_Pattern : string; ttf_Static : string; ttf_Type : string
}.

Inductive RewriteAction := ActionPubSub | ActionPublish | ActionSubscribe | ActionOther (s : string).
#[export] Instance RewriteAction_eq_dec : EqDecision RewriteAction.
Proof. solve_decision. Defined.

Section Topics.
Context `{GF : GoFloat} `{RE : Regexp} `{SB : !Submatch}.

(** [parseScalarValue(value)] *)
Definition parseScalarValue (value : string) : any :=
  match ParseBool value with
  | Some v => ABool v
  | None =>
      match ParseInt value 64 with
      | Some v => AInt KInt64 v
      | None => match ParseFloat value with Some v => AFloat v | None => AStr value end
      end
  end.

(** [parseScalarValue(value, fieldType)] *)
Definition parseTypedValue (value fieldType : string) : any :=
  if bool_decide (fieldType = "bool") then
    match ParseBool value with Some v => ABool v | None => AStr value end
  else if bool_decide (fieldType = "int") then
    match Atoi value with Some v => AInt KInt v | None => AStr value end
  else if bool_decide (fieldType = "float") then
    match ParseFloat value with Some v => AFloat v | None => AStr value end
  else AStr value.

(** The text that a field takes from a topic; empty if there is none. *)
Definition raw_value (topic : string) (segments : list string) (field : TopicToField) : string :=
  if negb (bool_decide (ttf_Static field = "")) then ttf_Static field
  else if negb (bool_decide (ttf_Index field = "")) then
    match Atoi (ttf_Index field) with
    | None => ""
    | Some idx =>
        let n := Z.of_nat (length segments) in
        let idx := if idx <? 0 then n + idx else idx in
        if (0 <=? idx) && (idx <? n) then default "" (segments !! Z.to_nat idx) else ""
    end
  else if negb (bool_decide (ttf_Pattern field = "")) then
    match Compile (ttf_Pattern field) with
    | None => ""
    | Some re => match FindStringSubmatch re topic with Some (_ :: m :: _) => m | _ => "" end
    end
  else "".

Definition extractFieldsFromTopic (topic : string) (fields : list TopicToField) : gmap string any :=
  let segments := Split (Trim topic "/") "/" in
  foldl (λ result field,
    let rawValue := raw_value topic segments field in
    if bool_decide (rawValue = "") then result
    else <[ttf_Field field := parseTypedValue rawValue (ttf_Type field)]> result) ∅ fields.

Fixpoint matchParts (pattern topic : list string) : bool :=
  match pattern, topic with
  | [], [] => true
  | [], _ :: _ => false
  | p :: pattern, [] => bool_decide (pattern = []) && bool_decide (p = "#")
  | p :: pattern, t :: topic =>
      if bool_decide (p = "#") then true
      else if bool_decide (p = "+") then matchParts pattern topic
      else bool_decide (p = t) && matchParts pattern topic
  end.
Definition topicMatch (pattern topic : string) : bool := matchParts (Split pattern "/") (Split topic "/").

Record TopicRewriteRule := {
  rr_Action : RewriteAction; rr_From : string; rr_To : string; rr_Regex : string; rr_compiledRe : regexp
}.
Record rule_config := { rc_Action : RewriteAction; rc_From : string; rc_To : string; rc_Regex : string }.
Abbreviation TopicRewriter := (list TopicRewriteRule).

(** The index of the first rule whose expression does not compile is the error. *)
Fixpoint new_rules (i : nat) (rules : list rule_config) : res nat TopicRewriter :=
  match rules with
  | [] => Ok []
  | rule :: rules =>
      match Compile (rc_Regex rule) with
      | None => Err i
      | Some re =>
          let? tr := new_rules (S i) rules in
          Ok ({| rr_Action := rc_Action rule; rr_From := rc_From rule; rr_To := rc_To rule;
                 rr_Regex := rc_Regex rule; rr_compiledRe := re |} :: tr)
      end
  end.
Definition NewTopicRewriter (rules : list rule_config) : res nat TopicRewriter := new_rules 0 rules.

(** [$1], [$2], ... are replaced one after the other. *)
Definition substitute (to : string) (matches : list string) (clientID username : string) : string :=
  let dest := (foldl (λ di m, (ReplaceAll di.1 (String "$" (Itoa di.2)) m, di.2 + 1)) (to, 1) (tail matches)).1 in
  ReplaceAll (ReplaceAll dest "${clientid}" clientID) "${username}" username.

Fixpoint rewrite_by (rules : TopicRewriter) (topic : string) (action : RewriteAction) (clientID username : string)
    : string :=
  match rules with
  | [] => topic
  | rule :: rules =>
      if negb (bool_decide (rr_Action rule = ActionPubSub)) && negb (bool_decide (rr_Action rule = action))
      then rewrite_by rules topic action clientID username
      else if negb (topicMatch (rr_From rule) topic) then rewrite_by rules topic action clientID username
      else match FindStringSubmatch (rr_compiledRe rule) topic with
           | None => topic
           | Some matches => substitute (rr_To rule) matches clientID username
           end
  end.
(** A nil rewriter changes nothing. *)
Definition RewriteTopic (tr : option TopicRewriter) (topic : string) (action : RewriteAction)
    (clientID username : string) : string :=
  match tr with None => topic | Some rules => rewrite_by rules topic action clientID username end.

(** ** Messages, peer.go *)

Record PeerMQTT := {
  mq_TopicPrefix : string; mq_TopicToFields : list TopicToField; mq_topicRewriter : option TopicRewriter
}.

(** The settings that [Connect] keeps; [rewriter] is the one of an earlier
    connection, which stays when there are no rules. *)
Definition configure (prefix : string) (fields : list TopicToField) (rules : list rule_config)
    (rewriter : option TopicRewriter) : res nat PeerMQTT :=
  let? rewriter := match rules with
                   | [] => Ok rewriter
                   | _ => let? tr := NewTopicRewriter rules in Ok (Some tr)
                   end in
  Ok {| mq_TopicPrefix := if bool_decide (prefix = "") then "pigo" else prefix;
        mq_TopicToFields := fields; mq_topicRewriter := rewriter |}.

(** The topic that [Pub] publishes an event under. *)
Definition pub_topic (p : PeerMQTT) (event : Event) : string :=
  let src := pay_Source (ev_Payload event) in
  mq_TopicPrefix p +:+ "/" +:+ src_Schema src +:+ "/" +:+ src_Table src +:+ "/" +:+ pay_Op (ev_Payload event).

(** The prefix of a subscription: the first argument, if it is a string. *)
Definition sub_prefix (p : PeerMQTT) (args : list any) : string :=
  match args with AStr prefixArg :: _ => Trim prefixArg "/" | _ => mq_TopicPrefix p end.
Definition sub_filter (prefix : string) : string := prefix +:+ "/#".

(** The topic that is read: the message's own, or what it is rewritten to if it is
    too short; [None] if there is none long enough. *)
Definition effective_topic (p : PeerMQTT) (prefix topic : string) : option string :=
  let enough t := (length (Split prefix "/") + 3 <=? length (Split t "/"))%nat in
  if enough topic then Some topic
  else match mq_topicRewriter p with
       | None => None
       | Some _ =>
           let rewrittenTopic := RewriteTopic (mq_topicRewriter p) topic ActionSubscribe "" "" in
           if bool_decide (rewrittenTopic = topic) then None
           else if enough rewrittenTopic then Some rewrittenTopic else None
       end.

Definition op_code (operation : string) : option Operation :=
  if bool_decide (operation ∈ ["c"; "create"]) then Some OpCreate
  else if bool_decide (operation ∈ ["u"; "update"]) then Some OpUpdate
  else if bool_decide (operation ∈ ["d"; "delete"]) then Some OpDelete
  else if bool_decide (operation ∈ ["r"; "read"]) then Some OpRead
  else None.

(** The key-value pairs of a topic; an odd part at the end is not read. *)
Fixpoint read_conditions (parts : list string) (conditions : gmap string any) : gmap string any :=
  match parts with
  | key :: value :: parts => read_conditions parts (<[key := parseScalarValue value]> conditions)
  | _ => conditions
  end.

(** What the parts of a topic after the operation say. *)
Record tail_parts := { ta_isBatch : bool; ta_conditions : gmap string any; ta_scalar : option string }.
Definition read_tail (parts : list string) : tail_parts :=
  let '(isBatch, remainingParts) :=
    match parts with
    | p :: rest => if bool_decide (p = "batch") then (true, rest) else (false, parts)
    | [] => (false, [])
    end in
  let isScalarPayload := Nat.odd (length remainingParts) in
  let keys := if isScalarPayload then firstn (length remainingParts - 1) remainingParts else remainingParts in
  {| ta_isBatch := isBatch; ta_conditions := read_conditions keys ∅;
     ta_scalar := if isScalarPayload then last remainingParts else None |}.

(** [json.Unmarshal] into [any]. *)
Context (json_decode : string → option any).

(** Into [[]any] for a batch, or into one value. *)
Definition json_payloads (isBatch : bool) (body : string) : option (list any) :=
  match json_decode body with
  | None => None
  | Some v => Some (if isBatch then match v with AArr l => l | ANil => [] | _ => [v] end else [v])
  end.

(** A map keeps its own fields. *)
Definition add_fields (fields : gmap string any) (payload : any) : any :=
  match payload with AObj m => AObj (m ∪ fields) | _ => payload end.

(** The rows of a message; [None] for a body that is no JSON. *)
Definition payloads_of (ta : tail_parts) (body : string) : option (list any) :=
  let conditions := ta_conditions ta in
  match ta_scalar ta with
  | Some name =>
      let scalarValue := if bool_decide (body = "") then ANil else parseScalarValue body in
      Some [AObj (<[name := scalarValue]> conditions)]
  | None =>
      if bool_decide (body = "") then
        Some (if bool_decide (conditions = ∅) then [] else [AObj conditions])
      else
        match json_payloads (ta_isBatch ta) body with
        | None => None
        | Some payloads => Some (if bool_decide (conditions = ∅) then payloads else add_fields conditions <$> payloads)
        end
  end.

(** The clock is read twice, [ts]. *)
Definition createEvent (schema table : string) (opCode : Operation) (payload : any) (ts : Z * Z) : Event :=
  let source := source_WithTimestamp ts.1 (source_WithTable table (source_WithSchema schema
                  (source_WithDatabase "mqtt" (NewSourceBuilder "mqtt" "mqtt-source")))) in
  let builder := WithTimestamp ts.2 (WithOperation opCode (WithSource source NewEventBuilder)) in
  if bool_decide (opCode = OpDelete) then WithBefore payload builder else WithAfter payload builder.

Definition createEventWithFieldsFromTopic (schema table : string) (opCode : Operation) (payload : any)
    (extractedFields : gmap string any) (ts : Z * Z) : Event :=
  let payload :=
    if bool_decide (extractedFields = ∅) then payload
    else match payload with
         | ANil => AObj extractedFields
         | _ => add_fields extractedFields payload
         end in
  createEvent schema table opCode payload ts.

(** The function that a subscription calls: the events it makes of a message. *)
Definition message_events (p : PeerMQTT) (prefix topic body : string) (ts : Z * Z) : list Event :=
  match effective_topic p prefix topic with
  | None => []
  | Some topic =>
      match skipn (length (Split prefix "/")) (Split topic "/") with
      | schema :: table :: operation :: rest =>
          match op_code operation with
          | None => []
          | Some opCode =>
              let extractedFields :=
                match mq_TopicToFields p with [] => ∅ | fields => extractFieldsFromTopic topic fields end in
              match payloads_of (read_tail rest) body with
              | None => []
              | Some payloads =>
                  (λ payload, createEventWithFieldsFromTopic schema table opCode payload extractedFields ts) <$> payloads
              end
          end
      | _ => []
      end
  end.

(** The channel of the subscription: an event that finds it full is dropped. *)
Definition sub_capacity : nat := 100.
Definition offer (queue : list Event) (event : Event) : list Event :=
  if (length queue <? sub_capacity)%nat then queue ++ [event] else queue.
Definition on_message (p : PeerMQTT) (prefix topic body : string) (ts : Z * Z) (queue : list Event) : list Event :=
  foldl offer queue (message_events p prefix topic body ts).

End Topics.
