(* ===== verification/MqttProps.v ===== *)
(** * MqttProps: what messages of the MQTT peer become.

    Filters of topics match as the protocol says, but for topics that begin with a
    dollar sign; a message's row holds the fields
    of its body, then those of its topic; the channel takes events while it has
    room; and what becomes of the events in the sink of file PeerPG. *)

From S2P Require Import Prelude GoStrings GoStringFacts GoAny FilterSQL Cdc Transform Mqtt.
From S2P Require Import Schema FilterBinds FilterTests Crud PeerPG.
Local Open Scope Z_scope.

(** ** Filters of topics *)

(** The protocol's rule for levels: level by level, a plus sign for any level, and a hash at
    the end for any number of levels, none included. *)
Definition level_matches (p t : string) : Prop := p = "+" ∨ p = t.
Definition levels_match (pattern topic : list string) : Prop :=
  Forall2 level_matches pattern topic ∨
  ∃ levels t1 t2, pattern = levels ++ ["#"] ∧ topic = t1 ++ t2 ∧ Forall2 level_matches levels t1.

Lemma matchParts_hash topic : matchParts ["#"] topic = true.
Proof. by destruct topic. Qed.

(** A hash before the end is no filter of the protocol. *)
Lemma matchParts_spec pattern topic :
  "#" ∉ removelast pattern → matchParts pattern topic = true ↔ levels_match pattern topic.
Proof.
  revert topic. induction pattern as [|p pattern IH]; intros topic Hw.
  { destruct topic as [|t topic]; cbn.
    - split; [intros _; left; constructor|done].
    - split; [done|]. intros [H|(levels & ? & ? & H & _)]; [inversion H|by destruct levels]. }
  destruct (decide (pattern = [] ∧ p = "#")) as [[-> ->]|Hp].
  { rewrite matchParts_hash. split; [intros _; right; by exists [], [], topic|done]. }
  assert (p ≠ "#" ∧ "#" ∉ removelast pattern) as [Hne Hw'].
  { destruct pattern as [|q pattern]; [split; [naive_solver|by apply not_elem_of_nil]|].
    change (removelast (p :: q :: pattern)) with (p :: removelast (q :: pattern)) in Hw.
    apply not_elem_of_cons in Hw as [? ?]. by split. }
  assert (∀ t topic, levels_match (p :: pattern) (t :: topic) ↔ level_matches p t ∧ levels_match pattern topic) as Hcons.
  { clear topic Hw IH. intros t topic. unfold levels_match. rewrite Forall2_cons. split.
    - intros [[? ?]|(levels & t1 & t2 & E1 & E2 & Hf)]; [by split; [|left]|].
      destruct levels as [|l levels]; [by injection E1 as -> _|]. injection E1 as -> ->.
      inversion Hf; subst. injection E2 as -> ->. split; [done|]. right. by eexists _, _, _.
    - intros [Hl [Hf|(levels & t1 & t2 & -> & -> & Hf)]]; [by left|]. right.
      exists (p :: levels), (t :: t1), t2. split_and!; [done..|by constructor]. }
  destruct topic as [|t topic]; cbn [matchParts].
  - rewrite (bool_decide_eq_false_2 (p = "#")), andb_false_r by done. split; [done|].
    intros [H|(levels & t1 & t2 & E1 & E2 & Hf)]; [inversion H|].
    symmetry in E2. apply app_eq_nil in E2 as [-> ->]. inversion Hf; subst. by injection E1 as -> _.
  - rewrite Hcons, <-(IH topic Hw'). rewrite (bool_decide_eq_false_2 (p = "#")) by done. unfold level_matches.
    case_bool_decide; [naive_solver|]. rewrite andb_true_iff, bool_decide_eq_true. naive_solver.
Qed.

(** Section 4.7 of the protocol: the levels match, and a filter that begins with a
    wildcard does not match a topic that begins with a dollar sign. *)
Definition leading_wildcard (pattern : string) : bool := HasPrefix pattern "+" || HasPrefix pattern "#".
Definition mqtt_matches (pattern topic : string) : Prop :=
  levels_match (Split pattern "/") (Split topic "/") ∧
  ¬ (leading_wildcard pattern = true ∧ HasPrefix topic "$" = true).

(** C23: a filter whose hash, if any, is its last level, matches every topic that the
    MQTT protocol says it matches, and only those, but for one case: when it begins
    with a wildcard, it also matches topics that begin with a dollar sign, which
    the protocol keeps from it. *)
Theorem topicMatch_spec pattern topic :
  "#" ∉ removelast (Split pattern "/") →
  topicMatch pattern topic = true ↔
  mqtt_matches pattern topic ∨
  leading_wildcard pattern = true ∧ HasPrefix topic "$" = true ∧ levels_match (Split pattern "/") (Split topic "/").
Proof.
  intros Hw. unfold topicMatch. rewrite (matchParts_spec _ _ Hw). unfold mqtt_matches.
  destruct (leading_wildcard pattern), (HasPrefix topic "$"); naive_solver.
Qed.

(** The exception is real. *)
Example dollar_topic_matched : topicMatch "#" "$SYS/uptime" = true ∧ ¬ mqtt_matches "#" "$SYS/uptime".
Proof. split; [reflexivity|]. intros [_ H]. by apply H. Qed.

Lemma topicMatch_spec_witness : topicMatch "o/+/+/#" "o/org/dev" = true.
Proof.
  apply (topicMatch_spec "o/+/+/#" "o/org/dev").
  - apply (bool_decide_unpack _). vm_compute. exact I.
  - left. split; [|by intros [? _]]. right. exists ["o"; "+"; "+"], ["o"; "org"; "dev"], [].
    split; [reflexivity|]. split; [reflexivity|]. repeat (constructor; [by left + by right|]). constructor.
Defined.

(** ** Messages *)

Definition no_slash (s : string) : Prop := mem_byte s "/" = false.
Definition topic_of (prefix schema table operation : string) (rest : list string) : string :=
  Join (Split prefix "/" ++ [schema; table; operation] ++ rest) "/".

Lemma Split_parts s : Forall no_slash (Split s "/").
Proof.
  induction s as [|c s IH]; [by repeat constructor|]. cbn. case_bool_decide as Hc; [by constructor|].
  destruct (Split s "/") as [|f fs]; [by repeat constructor; unfold no_slash, mem_byte; cbn; apply bool_decide_eq_false_2;
    intros ?%list_elem_of_singleton; congruence|].
  inversion IH as [|? ? Hf Hfs]; subst. constructor; [|done]. unfold no_slash, mem_byte in *.
  apply bool_decide_eq_false in Hf. apply bool_decide_eq_false_2. cbn. rewrite elem_of_cons. naive_solver.
Qed.

Section Messages.
Context `{GF : GoFloat} `{RE : Regexp} `{SB : !Submatch}.
Context (json_decode : string → option any).

(** The parts of a topic after the operation. *)
Definition flat (kvs : list (string * string)) : list string := concat ((λ kv, [kv.1; kv.2]) <$> kvs).
Definition batch_part (isBatch : bool) : list string := if isBatch then ["batch"] else [].
Definition topic_conditions (kvs : list (string * string)) : gmap string any :=
  foldl (λ m kv, <[kv.1 := parseScalarValue kv.2]> m) ∅ kvs.

Lemma read_conditions_flat kvs m :
  read_conditions (flat kvs) m = foldl (λ m kv, <[kv.1 := parseScalarValue kv.2]> m) m kvs.
Proof. revert m. induction kvs as [|[k v] kvs IH]; intros m; [done|]. apply IH. Qed.

Lemma length_flat kvs : length (flat kvs) = (2 * length kvs)%nat.
Proof. unfold flat. induction kvs as [|kv kvs IH]; [done|]. cbn in *. lia. Qed.

Lemma read_tail_spec isBatch kvs scalar :
  (isBatch = false → head (flat kvs ++ option_list scalar) ≠ Some "batch") →
  read_tail (batch_part isBatch ++ flat kvs ++ option_list scalar) =
    {| ta_isBatch := isBatch; ta_conditions := topic_conditions kvs; ta_scalar := scalar |}.
Proof.
  intros Hb. set (rest := flat kvs ++ option_list scalar) in *.
  assert (read_tail (batch_part isBatch ++ rest) =
    let odd := Nat.odd (length rest) in
    {| ta_isBatch := isBatch;
       ta_conditions := read_conditions (if odd then firstn (length rest - 1) rest else rest) ∅;
       ta_scalar := if odd then last rest else None |}) as ->.
  { unfold read_tail. destruct isBatch; cbn [batch_part app]; [by rewrite bool_decide_eq_true_2|].
    destruct rest as [|p rest]; [done|]. rewrite bool_decide_eq_false_2; [done|].
    intros ->. by apply Hb. }
  cbv zeta. unfold rest. rewrite length_app, length_flat. destruct scalar as [name|].
  - change (option_list (Some name)) with [name]. cbn [length].
    rewrite Nat.add_1_r, Nat.odd_succ, Nat.even_mul. cbn [Nat.even orb].
    replace (S (2 * length kvs) - 1)%nat with (length (flat kvs)) by (rewrite length_flat; lia).
    by rewrite firstn_app, Nat.sub_diag, firstn_all, app_nil_r, last_snoc, read_conditions_flat.
  - change (option_list (@None string)) with (@nil string). cbn [length].
    rewrite Nat.add_0_r, Nat.odd_mul, app_nil_r. change (Nat.odd 2) with false. cbn [andb].
    by rewrite read_conditions_flat.
Qed.

(** The last value that a topic gives for a key. *)
Definition topic_value (kvs : list (string * string)) (k : string) : option any :=
  parseScalarValue ∘ snd <$> last (filter (λ kv, kv.1 = k) kvs).

Lemma topic_conditions_lookup kvs k : topic_conditions kvs !! k = topic_value kvs k.
Proof.
  unfold topic_conditions, topic_value. induction kvs as [|[k' v] kvs IH] using rev_ind; [done|].
  rewrite foldl_app, filter_app. cbn [foldl fst snd]. destruct (decide (k' = k)) as [->|Hne].
  - rewrite lookup_insert_eq, filter_cons_True by done. by rewrite filter_nil, last_snoc.
  - rewrite lookup_insert_ne, filter_cons_False by done. by rewrite filter_nil, app_nil_r.
Qed.

(** A topic of the form that the peer reads is taken apart as it was put together. *)
Lemma message_events_topic p prefix schema table operation op rest body ts :
  Forall no_slash ([schema; table; operation] ++ rest) → op_code operation = Some op →
  message_events json_decode p prefix (topic_of prefix schema table operation rest) body ts =
    match payloads_of json_decode (read_tail rest) body with
    | None => []
    | Some payloads =>
        (λ payload, createEventWithFieldsFromTopic schema table op payload
           match mq_TopicToFields p with [] => ∅ | fields =>
             extractFieldsFromTopic (topic_of prefix schema table operation rest) fields end ts) <$> payloads
    end.
Proof.
  intros Hs Hop. unfold message_events, effective_topic.
  assert (Split (topic_of prefix schema table operation rest) "/" =
    Split prefix "/" ++ [schema; table; operation] ++ rest) as Hsp.
  { apply Split_Join; [by destruct (Split prefix "/")|]. apply Forall_app. split; [apply Split_parts|exact Hs]. }
  rewrite !Hsp, length_app. rewrite (proj2 (Nat.leb_le _ _)) by (cbn; lia).
  rewrite Hsp, drop_app_length. cbn [app]. by rewrite Hop.
Qed.


(** ** The channel *)

(** The channel takes the events of a message in their order while it has room and
    drops the others. *)
Theorem on_message_spec p prefix topic body ts queue :
  on_message json_decode p prefix topic body ts queue =
    queue ++ firstn (sub_capacity - length queue) (message_events json_decode p prefix topic body ts).
Proof.
  unfold on_message. generalize (message_events json_decode p prefix topic body ts) as es. intros es.
  revert queue. induction es as [|e es IH]; intros queue; [by rewrite firstn_nil, app_nil_r|].
  cbn [foldl]. rewrite IH. unfold offer. destruct (Nat.ltb_spec (length queue) sub_capacity) as [Hl|Hl].
  - rewrite length_app. cbn [length]. replace (sub_capacity - length queue)%nat
      with (S (sub_capacity - (length queue + 1)))%nat by lia. by rewrite <-app_assoc.
  - by rewrite (proj2 (Nat.sub_0_le _ _) Hl).
Qed.

End Messages.

(** ** The events in the sink for PostgreSQL *)

Section Sink.
Context `{GF : GoFloat} `{RE : Regexp} `{SB : !Submatch} `{PI : PgxIdentifier} `{GR : GoRange} `{PC : PgxConn}.
Context (json_decode : string → option any).

Lemma createEvent_rows schema table op payload ts :
  let pay := ev_Payload (createEvent schema table op payload ts) in
  pay_Op pay = op ∧ (op = OpDelete → pay_After pay = ANil) ∧ (op ≠ OpDelete → pay_Before pay = ANil).
Proof. cbv zeta. unfold createEvent. case_bool_decide as Hop; subst; by split_and!. Qed.

Lemma message_events_created p prefix topic body ts e :
  e ∈ message_events json_decode p prefix topic body ts →
  ∃ schema table op payload, op ∈ [OpCreate; OpUpdate; OpDelete; OpRead] ∧ e = createEvent schema table op payload ts.
Proof.
  unfold message_events. intros He. destruct (effective_topic p prefix topic) as [topic'|]; [|by apply not_elem_of_nil in He].
  destruct (skipn _ _) as [|schema [|table [|operation rest]]]; try by apply not_elem_of_nil in He.
  destruct (op_code operation) as [op|] eqn:Hop; [|by apply not_elem_of_nil in He].
  destruct (payloads_of _ _ _) as [payloads|]; [|by apply not_elem_of_nil in He].
  apply list_elem_of_fmap in He as (payload & -> & _). unfold createEventWithFieldsFromTopic.
  exists schema, table, op. eexists. split; [|done]. revert Hop. unfold op_code.
  do 4 (case_bool_decide; [intros [= <-]; set_solver|]). done.
Qed.

(** Of the events that messages become, the sink for PostgreSQL writes those
    of a creation only: an update is refused, for it has no old row, and so are
    deletions and reads. *)
Theorem messages_only_insert p prefix topic body ts e peer log err log' :
  e ∈ message_events json_decode p prefix topic body ts →
  Pub peer e log = Some (err, log') → pay_Op (ev_Payload e) ≠ OpCreate → log' = log ∧ err ≠ None.
Proof.
  intros (schema & table & op & payload & Hin & ->)%message_events_created E Hne.
  destruct (createEvent_rows schema table op payload ts) as (Hop & Hd & Hb). cbv zeta in *.
  unfold Pub in E. rewrite Hop in *. destruct (negb _ || _) eqn:Hn; [by injection E as <- <-|].
  case_bool_decide; [by injection E as <- <-|]. destruct (pg_tables peer !! _); [|by injection E as <- <-].
  rewrite (bool_decide_eq_false_2 (op = OpCreate)) in E by done. case_bool_decide as Hu.
  - rewrite Hb in E by (by subst). by injection E as <- <-.
  - rewrite !elem_of_cons in Hin. destruct Hin as [?|[?|[->| [->|[]%not_elem_of_nil]]]]; [done..| |].
    + rewrite (Hd eq_refl) in Hn. by rewrite orb_true_r in Hn.
    + by injection E as <- <-.
Qed.

End Sink.

(** ** Examples *)

(** One expression, of the sample configuration: the second and third of four
    levels. *)
Definition status_regexp : string := "^o/([^/]+)/([^/]+)/status$".
Definition level_regexp : Regexp := {|
  regexp := unit;
  Compile s := if bool_decide (s = status_regexp) then Some tt else None;
  MatchString _ s := match Split s "/" with ["o"; _; _; "status"] => true | _ => false end;
  ReplaceAllString _ s _ := s |}.
Definition level_submatch : Submatch (H := level_regexp) := {|
  FindStringSubmatch _ s := match Split s "/" with ["o"; a; b; "status"] => Some [s; a; b] | _ => None end |}.

Definition sample_rule : rule_config := {|
  rc_Action := ActionSubscribe; rc_From := "o/+/+/status"; rc_To := "o/$1/$2/iot/device_metrics/c/status";
  rc_Regex := status_regexp |}.
Definition index_field (field index : string) : TopicToField := {|
  ttf_Field := field; ttf_Index := index; ttf_Pattern := ""; ttf_Static := ""; ttf_Type := "" |}.
Definition row_event (schema table : string) (op : Operation) (row : gmap string any) : Event :=
  createEvent schema table op (AObj row) (1, 2).

(** The sample configuration: a short topic is rewritten, and fields are taken from
    it. A metric of 1 is read as true. *)
Example sample_configuration :
  match configure (RE := level_regexp) "o/+/+" [index_field "org_id" "1"; index_field "device_id" "2"] [sample_rule] None with
  | Ok p => message_events (GF := integral_floats) (SB := level_submatch) (λ _, None) p "o/+/+" "o/acme/dev7/status" "1" (1, 2) =
      [row_event "iot" "device_metrics" OpCreate
         {["status" := ABool true; "org_id" := AStr "acme"; "device_id" := AStr "dev7"]}]
  | Err _ => False
  end.
Proof. vm_compute. reflexivity. Qed.

(** The values 0 and 1 are never numbers. *)
Theorem digits_are_booleans `{GoFloat} :
  parseScalarValue "0" = ABool false ∧ parseScalarValue "1" = ABool true ∧ parseScalarValue "2" = AInt KInt64 2.
Proof. vm_compute. auto. Qed.

Definition plain_peer : PeerMQTT (RE := level_regexp) := {|
  mq_TopicPrefix := "/example/prefix"; mq_TopicToFields := []; mq_topicRewriter := None |}.
Definition doc_decode (body : string) : option any :=
  if bool_decide (body = "kitchen") then Some (AObj {["name" := AStr "kitchen-light"; "status" := AFloat (float_of_int 0)]})
  else None.
Abbreviation demo_events := (message_events (GF := integral_floats) (SB := level_submatch) doc_decode plain_peer "/example/prefix").

(** A topic without a schema, as the package's documentation has one, is not read. *)
Example optional_schema_dropped : demo_events "/example/prefix/devices/c/batch" "kitchen" (1, 2) = [].
Proof. vm_compute. reflexivity. Qed.

(** The tenth submatch is never reached: its name begins with that of the first. *)
Example tenth_submatch :
  substitute "x/$10" ["all"; "a"; "b"; "c"; "d"; "e"; "f"; "g"; "h"; "i"; "j"] "" "" = "x/a0".
Proof. vm_compute. reflexivity. Qed.

Definition kitchen_row : gmap string any := {["name" := AStr "kitchen-light"; "status" := AFloat (float_of_int 0)]}.


Definition sensors_table : Table := {|
  tbl_Schema := "iot"; tbl_Name := "sensors"; tbl_Type := TypeTable; tbl_Columns := [];
  tbl_PrimaryKeys := ["id"]; tbl_ForeignKeys := []; tbl_ViewQuery := "" |}.
Definition sensors_peer : PeerPG := {| pg_pool := true; pg_tables := {["iot.sensors" := sensors_table]} |}.

Definition sensors_event : Event := createEvent "iot" "sensors" OpUpdate (AObj (<["id" := AInt KInt64 100]> kitchen_row)) (1, 2).

Lemma messages_only_insert_witness :
  sensors_event ∈ demo_events "/example/prefix/iot/sensors/u/id/100" "kitchen" (1, 2) ∧
  ∃ err, Pub (PI := quoting_identifier) (GR := range_up) (PC := one_row) sensors_peer sensors_event [] = Some (err, []) ∧
    err ≠ None.
Proof.
  assert (sensors_event ∈ demo_events "/example/prefix/iot/sensors/u/id/100" "kitchen" (1, 2)) as He.
  { apply list_elem_of_here. }
  split; [exact He|]. exists (Some BeforeMissing). split; [vm_compute; reflexivity|].
  apply (messages_only_insert (GF := integral_floats) (SB := level_submatch) (PI := quoting_identifier)
    (GR := range_up) (PC := one_row) doc_decode plain_peer "/example/prefix" _ _ _ sensors_event sensors_peer [] (Some BeforeMissing) [] He);
    [vm_compute; reflexivity|vm_compute; discriminate].
Defined.
