(* ===== verification/MqttClient.v ===== *)
(** * MqttClient: the client of the MQTT peer, [peer/mqtt/client.go], [options.go] and
    the calls on it of [peer.go].

    The options of a client are those that the library starts with, changed by the
    calls of its setters; the calls are what is modelled. Handlers, stores and other
    values the code only passes on are named by strings. Reading files and
    certificates, and the client library, are classes. *)

From S2P Require Import Prelude GoStrings GoStringFacts Paths GoAny Support Cdc.
From S2P Require Import Json JsonFacts EventJson Transform TransformProps Mqtt MqttProps.
Local Open Scope Z_scope.

Record TLSOptions := {
  to_InsecureSkipVerify : bool; to_ServerName : string;
  to_CAFile : string; to_CertFile : string; to_KeyFile : string;
  to_CACert : string; to_ClientCert : string; to_ClientKey : string }.

(** A [tls.Config]; certificates by what they were made from. *)
Record TLSConfig := {
  tc_InsecureSkipVerify : bool; tc_ServerName : string;
  tc_RootCAs : option string; tc_Certificates : list (string * string) }.

(** The options of the configuration, in the order of the struct. *)
Record ClientOptions := {
  co_Store : option string; co_OnConnectAttempt : option string; co_CustomOpenConnectionFn : option string;
  co_DefaultPublishHandler : option string; co_CredentialsProvider : option string;
  co_HTTPHeaders : option (gmap string (list string)); co_Dialer : option string; co_WebsocketOptions : option string;
  co_OnConnect : option string; co_OnConnectionLost : option string; co_OnReconnecting : option string;
  co_TLSConfig : option TLSConfig; co_TLS : option TLSOptions;
  co_ClientID : string; co_WillTopic : string; co_Username : string; co_Password : string;
  co_Servers : list string; co_WillPayload : string;
  co_WriteTimeout : Z; co_ConnectRetryInterval : Z; co_MaxResumePubInFlight : Z; co_MessageChannelDepth : Z;
  co_MaxReconnectInterval : Z; co_ConnectTimeout : Z; co_PingTimeout : Z; co_KeepAlive : Z; co_ProtocolVersion : Z;
  co_WillRetained : bool; co_AutoReconnect : bool; co_ResumeSubs : bool; co_WillQos : Z; co_WillEnabled : bool;
  co_ConnectRetry : bool; co_Order : bool; co_CleanSession : bool; co_AutoAckDisabled : bool }.

(** The calls of setters. *)
Inductive set_call :=
| AddBroker (server : string) | SetClientID (s : string) | SetUsername (s : string) | SetPassword (s : string)
| SetTLSConfig (c : TLSConfig)
| SetDuration (option : string) (ns : Z)     (* SetKeepAlive, SetPingTimeout, ... by their option *)
| SetNumber (option : string) (n : Z)
| SetFlag (option : string) (b : bool)
| SetValue (option : string) (value : string)
| SetHTTPHeaders (h : gmap string (list string))
| SetWill (topic payload : string) (qos : Z) (retained : bool).

Class Certificates := {
  os_ReadFile : string → option string;
  AppendCertsFromPEM : string → bool;
  LoadX509KeyPair : string → string → option (string * string);
  X509KeyPair : string → string → option (string * string)
}.

Inductive tls_error := ReadCA | ParseCA | LoadCert.

Section Client.
Context `{GF : GoFloat} `{RE : Regexp} `{SB : !Submatch} `{CT : Certificates}.

Definition set (s : string) : bool := negb (bool_decide (s = "")).

Definition ca_pool (o : TLSOptions) : res tls_error (option string) :=
  if set (to_CAFile o) || set (to_CACert o) then
    let? caCert := if set (to_CAFile o) then
                     match os_ReadFile (to_CAFile o) with Some c => Ok c | None => Err ReadCA end
                   else Ok (to_CACert o) in
    if AppendCertsFromPEM caCert then Ok (Some caCert) else Err ParseCA
  else Ok None.

Definition client_certs (o : TLSOptions) : res tls_error (list (string * string)) :=
  let files := set (to_CertFile o) && set (to_KeyFile o) in
  if files || (set (to_ClientCert o) && set (to_ClientKey o)) then
    match (if files then LoadX509KeyPair (to_CertFile o) (to_KeyFile o)
           else X509KeyPair (to_ClientCert o) (to_ClientKey o)) with
    | Some cert => Ok [cert]
    | None => Err LoadCert
    end
  else Ok [].

Definition createTLSConfig (tlsOpts : option TLSOptions) : res tls_error (option TLSConfig) :=
  match tlsOpts with
  | None => Ok None
  | Some o =>
      let? roots := ca_pool o in
      let? certs := client_certs o in
      Ok (Some {| tc_InsecureSkipVerify := to_InsecureSkipVerify o; tc_ServerName := to_ServerName o;
                  tc_RootCAs := roots; tc_Certificates := certs |})
  end.

Definition when_set (s : string) (c : string → set_call) : list set_call := if set s then [c s] else [].
Definition when_positive (n : Z) (c : set_call) : list set_call := if 0 <? n then [c] else [].
Definition when_some {A} (o : option A) (c : A → set_call) : list set_call :=
  match o with Some a => [c a] | None => [] end.

(** [time.Duration(opts.KeepAlive) * time.Second], at 64 bits. *)
Definition seconds (n : Z) : Z := int64 (n * 1000000000).

Definition tls_calls (opts : ClientOptions) : res tls_error (list set_call) :=
  match co_TLS opts with
  | Some _ => let? c := createTLSConfig (co_TLS opts) in Ok (when_some c SetTLSConfig)
  | None => Ok (when_some (co_TLSConfig opts) SetTLSConfig)
  end.

Definition flag_calls (opts : ClientOptions) : list set_call :=
  [SetFlag "CleanSession" (co_CleanSession opts); SetFlag "OrderMatters" (co_Order opts);
   SetFlag "AutoReconnect" (co_AutoReconnect opts); SetFlag "ConnectRetry" (co_ConnectRetry opts);
   SetFlag "ResumeSubs" (co_ResumeSubs opts); SetFlag "AutoAckDisabled" (co_AutoAckDisabled opts)].

Definition convertToPahoOptions (opts : ClientOptions) : res tls_error (list set_call) :=
  let? tls := tls_calls opts in
  Ok ((AddBroker <$> co_Servers opts) ++
      when_set (co_ClientID opts) SetClientID ++ when_set (co_Username opts) SetUsername ++
      when_set (co_Password opts) SetPassword ++ tls ++
      when_positive (co_KeepAlive opts) (SetDuration "KeepAlive" (seconds (co_KeepAlive opts))) ++
      when_positive (co_PingTimeout opts) (SetDuration "PingTimeout" (co_PingTimeout opts)) ++
      when_positive (co_ConnectTimeout opts) (SetDuration "ConnectTimeout" (co_ConnectTimeout opts)) ++
      when_positive (co_MaxReconnectInterval opts) (SetDuration "MaxReconnectInterval" (co_MaxReconnectInterval opts)) ++
      when_positive (co_ConnectRetryInterval opts) (SetDuration "ConnectRetryInterval" (co_ConnectRetryInterval opts)) ++
      when_positive (co_WriteTimeout opts) (SetDuration "WriteTimeout" (co_WriteTimeout opts)) ++
      when_positive (co_MessageChannelDepth opts) (SetNumber "MessageChannelDepth" (co_MessageChannelDepth opts)) ++
      when_positive (co_MaxResumePubInFlight opts) (SetNumber "MaxResumePubInFlight" (co_MaxResumePubInFlight opts)) ++
      flag_calls opts ++
      when_some (co_Store opts) (SetValue "Store") ++
      when_some (co_DefaultPublishHandler opts) (SetValue "DefaultPublishHandler") ++
      when_some (co_OnConnect opts) (SetValue "OnConnectHandler") ++
      when_some (co_OnConnectionLost opts) (SetValue "ConnectionLostHandler") ++
      when_some (co_OnReconnecting opts) (SetValue "ReconnectingHandler") ++
      when_some (co_OnConnectAttempt opts) (SetValue "ConnectionAttemptHandler") ++
      when_some (co_HTTPHeaders opts) SetHTTPHeaders ++
      when_some (co_WebsocketOptions opts) (SetValue "WebsocketOptions") ++
      when_some (co_Dialer opts) (SetValue "Dialer") ++
      when_some (co_CustomOpenConnectionFn opts) (SetValue "CustomOpenConnectionFn") ++
      (if co_WillEnabled opts then
         [SetWill (co_WillTopic opts) (co_WillPayload opts) (co_WillQos opts) (co_WillRetained opts)] else [])).

(** [setDefaultOptions] reads the four fields of the library's options back. *)
Record PahoFields := { pf_Servers : list string; pf_Username : string; pf_Password : string; pf_ClientID : string }.
Definition setDefaultOptions (getenv : Environ) (draw : nat → nat) (o : PahoFields) : list set_call :=
  (if bool_decide (length (pf_Servers o) = 0%nat)
   then [AddBroker (cmp_Or (getenv "PIGO_MQTT_BROKER") "tcp://127.0.0.1:1883")] else []) ++
  (if set (pf_Username o) then [] else [SetUsername (getenv "PIGO_MQTT_USERNAME")]) ++
  (if set (pf_Password o) then [] else [SetPassword (getenv "PIGO_MQTT_PASSWORD")]) ++
  (if set (pf_ClientID o) then [] else [SetClientID ("pigo-logrepl-" +:+ NewName draw)]).

Definition getBrokerStrings (servers : list string) : list string := servers.

Definition parseArgs (args : list any) : list any :=
  let topicPrefix := match args with AStr tp :: _ => tp | _ => "" end in
  let topicPrefix := if bool_decide (topicPrefix = "") then "/pigo" else topicPrefix in
  [AStr (if HasPrefix topicPrefix "/" then topicPrefix else "/" +:+ topicPrefix)].

(** ** Connecting: the whole of [Connect] *)

Class Broker := { url_String : string → option string; broker_Connect : list set_call → option string }.
Inductive connect_error := BadServer (s : string) | BadRule (i : nat) | BadTLS (e : tls_error) | BrokerError (e : string).

(** The four fields as the setters leave them. *)
Fixpoint paho_fields (o : PahoFields) (calls : list set_call) : PahoFields :=
  match calls with
  | [] => o
  | c :: calls =>
      paho_fields
        match c with
        | AddBroker s => {| pf_Servers := pf_Servers o ++ [s]; pf_Username := pf_Username o; pf_Password := pf_Password o; pf_ClientID := pf_ClientID o |}
        | SetUsername s => {| pf_Servers := pf_Servers o; pf_Username := s; pf_Password := pf_Password o; pf_ClientID := pf_ClientID o |}
        | SetPassword s => {| pf_Servers := pf_Servers o; pf_Username := pf_Username o; pf_Password := s; pf_ClientID := pf_ClientID o |}
        | SetClientID s => {| pf_Servers := pf_Servers o; pf_Username := pf_Username o; pf_Password := pf_Password o; pf_ClientID := s |}
        | _ => o
        end calls
  end.
Definition no_fields : PahoFields := {| pf_Servers := []; pf_Username := ""; pf_Password := ""; pf_ClientID := "" |}.

Definition with_servers (servers : list string) (o : ClientOptions) : ClientOptions := {|
  co_Store := co_Store o; co_OnConnectAttempt := co_OnConnectAttempt o; co_CustomOpenConnectionFn := co_CustomOpenConnectionFn o;
  co_DefaultPublishHandler := co_DefaultPublishHandler o; co_CredentialsProvider := co_CredentialsProvider o;
  co_HTTPHeaders := co_HTTPHeaders o; co_Dialer := co_Dialer o; co_WebsocketOptions := co_WebsocketOptions o;
  co_OnConnect := co_OnConnect o; co_OnConnectionLost := co_OnConnectionLost o; co_OnReconnecting := co_OnReconnecting o;
  co_TLSConfig := co_TLSConfig o; co_TLS := co_TLS o; co_ClientID := co_ClientID o; co_WillTopic := co_WillTopic o;
  co_Username := co_Username o; co_Password := co_Password o; co_Servers := co_Servers o ++ servers;
  co_WillPayload := co_WillPayload o; co_WriteTimeout := co_WriteTimeout o;
  co_ConnectRetryInterval := co_ConnectRetryInterval o; co_MaxResumePubInFlight := co_MaxResumePubInFlight o;
  co_MessageChannelDepth := co_MessageChannelDepth o; co_MaxReconnectInterval := co_MaxReconnectInterval o;
  co_ConnectTimeout := co_ConnectTimeout o; co_PingTimeout := co_PingTimeout o; co_KeepAlive := co_KeepAlive o;
  co_ProtocolVersion := co_ProtocolVersion o; co_WillRetained := co_WillRetained o; co_AutoReconnect := co_AutoReconnect o;
  co_ResumeSubs := co_ResumeSubs o; co_WillQos := co_WillQos o; co_WillEnabled := co_WillEnabled o;
  co_ConnectRetry := co_ConnectRetry o; co_Order := co_Order o; co_CleanSession := co_CleanSession o;
  co_AutoAckDisabled := co_AutoAckDisabled o |}.

Definition parse_servers `{Broker} (servers : list string) : res connect_error (list string) :=
  mapM_res (λ s, match url_String s with Some u => Ok u | None => Err (BadServer s) end) servers.

(** The peer and the calls its client was made with. *)
Definition mqtt_Connect `{Broker} (getenv : Environ) (draw : nat → nat) (servers : list string) (prefix : string)
    (fields : list TopicToField) (rules : list rule_config) (opts : ClientOptions) (rewriter : option (list TopicRewriteRule))
    : res connect_error (PeerMQTT * list set_call) :=
  let? urls := parse_servers servers in
  let? p := map_err BadRule (configure prefix fields rules rewriter) in
  let? calls := map_err BadTLS (convertToPahoOptions (with_servers urls opts)) in
  let calls := calls ++ setDefaultOptions getenv draw (paho_fields no_fields calls) in
  match broker_Connect calls with
  | Some e => Err (BrokerError e)
  | None => Ok (p, calls)
  end.

(** ** Properties *)

Lemma paho_fields_app o l l' : paho_fields o (l ++ l') = paho_fields (paho_fields o l) l'.
Proof. revert o. induction l as [|c l IH]; intros o; [done|]. cbn [app paho_fields]. apply IH. Qed.

(** Two settings do not reach the library. *)
Theorem ignored_options opts opts' :
  with_servers [] {| co_Store := co_Store opts; co_OnConnectAttempt := co_OnConnectAttempt opts;
    co_CustomOpenConnectionFn := co_CustomOpenConnectionFn opts; co_DefaultPublishHandler := co_DefaultPublishHandler opts;
    co_CredentialsProvider := co_CredentialsProvider opts'; co_HTTPHeaders := co_HTTPHeaders opts; co_Dialer := co_Dialer opts;
    co_WebsocketOptions := co_WebsocketOptions opts; co_OnConnect := co_OnConnect opts;
    co_OnConnectionLost := co_OnConnectionLost opts; co_OnReconnecting := co_OnReconnecting opts;
    co_TLSConfig := co_TLSConfig opts; co_TLS := co_TLS opts; co_ClientID := co_ClientID opts; co_WillTopic := co_WillTopic opts;
    co_Username := co_Username opts; co_Password := co_Password opts; co_Servers := co_Servers opts;
    co_WillPayload := co_WillPayload opts; co_WriteTimeout := co_WriteTimeout opts;
    co_ConnectRetryInterval := co_ConnectRetryInterval opts; co_MaxResumePubInFlight := co_MaxResumePubInFlight opts;
    co_MessageChannelDepth := co_MessageChannelDepth opts; co_MaxReconnectInterval := co_MaxReconnectInterval opts;
    co_ConnectTimeout := co_ConnectTimeout opts; co_PingTimeout := co_PingTimeout opts; co_KeepAlive := co_KeepAlive opts;
    co_ProtocolVersion := co_ProtocolVersion opts'; co_WillRetained := co_WillRetained opts;
    co_AutoReconnect := co_AutoReconnect opts; co_ResumeSubs := co_ResumeSubs opts; co_WillQos := co_WillQos opts;
    co_WillEnabled := co_WillEnabled opts; co_ConnectRetry := co_ConnectRetry opts; co_Order := co_Order opts;
    co_CleanSession := co_CleanSession opts; co_AutoAckDisabled := co_AutoAckDisabled opts |} = opts' →
  convertToPahoOptions opts = convertToPahoOptions opts'.
Proof. intros <-. unfold convertToPahoOptions. cbn. by rewrite app_nil_r. Qed.

(** The flags are set whether or not the configuration names them: with a
    configuration that leaves them out, automatic reconnecting is switched off. *)
Theorem flags_always_set opts calls :
  convertToPahoOptions opts = Ok calls →
  SetFlag "AutoReconnect" (co_AutoReconnect opts) ∈ calls ∧ SetFlag "CleanSession" (co_CleanSession opts) ∈ calls ∧
  SetFlag "OrderMatters" (co_Order opts) ∈ calls.
Proof.
  intros H. unfold convertToPahoOptions in H. apply res_bind_ok in H as (tls & _ & H). injection H as <-.
  assert (Hin : ∀ x, x ∈ flag_calls opts → ∀ l, x ∈ flag_calls opts ++ l) by (intros x Hx l; apply elem_of_app; by left).
  split_and!; do 13 (apply elem_of_app; right); apply Hin; unfold flag_calls; rewrite !elem_of_cons; tauto.
Qed.

(** A client always has a broker and an identifier, whatever the configuration. *)
Theorem connected_has_broker `{Broker} getenv draw servers prefix fields rules opts rewriter p calls :
  mqtt_Connect getenv draw servers prefix fields rules opts rewriter = Ok (p, calls) →
  pf_Servers (paho_fields no_fields calls) ≠ [] ∧ pf_ClientID (paho_fields no_fields calls) ≠ "" ∧
  broker_Connect calls = None.
Proof.
  intros E. unfold mqtt_Connect in E. apply res_bind_ok in E as (urls & _ & E).
  apply res_bind_ok in E as (p' & _ & E). apply res_bind_ok in E as (calls' & _ & E).
  set (o := paho_fields no_fields calls') in *.
  destruct (broker_Connect _) as [|] eqn:Hb; [done|]. injection E as <- <-. rewrite paho_fields_app. fold o.
  split_and!; [..|done]; clearbody o; clear Hb; unfold setDefaultOptions; case_bool_decide as Hl;
    unfold set; repeat case_bool_decide; cbn; try done; try (by destruct (pf_Servers o)).
Qed.

(** A certificate file without its key is left out without an error, whatever the
    other settings. *)
Theorem certificate_without_key o :
  to_KeyFile o = "" → to_ClientKey o = "" → client_certs o = Ok [].
Proof. intros H1 H2. unfold client_certs. rewrite H1, H2. cbn. by rewrite !andb_false_r. Qed.

(** Files go before text, and every error of reading them stops the connection. *)
Theorem createTLSConfig_spec o c :
  createTLSConfig (Some o) = Ok (Some c) →
  tc_InsecureSkipVerify c = to_InsecureSkipVerify o ∧ tc_ServerName c = to_ServerName o ∧
  (to_CAFile o ≠ "" → os_ReadFile (to_CAFile o) = tc_RootCAs c ∧ tc_RootCAs c ≠ None) ∧
  (to_CertFile o ≠ "" → to_KeyFile o ≠ "" → ∃ cert, LoadX509KeyPair (to_CertFile o) (to_KeyFile o) = Some cert ∧ tc_Certificates c = [cert]).
Proof.
  intros H. cbn [createTLSConfig] in H. apply res_bind_ok in H as (roots & Hr & H).
  apply res_bind_ok in H as (certs & Hc & H). injection H as <-. cbn. split_and!; [done|done| |].
  - intros Hf. unfold ca_pool, set in Hr. rewrite (bool_decide_eq_false_2 (to_CAFile o = "")) in Hr by done. cbn in Hr.
    apply res_bind_ok in Hr as (ca & Hread & Hr). destruct (os_ReadFile _); [|done]. injection Hread as <-.
    destruct (AppendCertsFromPEM _); [|done]. by injection Hr as <-.
  - intros Hf Hk. unfold client_certs, set in Hc. rewrite !(bool_decide_eq_false_2 _ Hf), !(bool_decide_eq_false_2 _ Hk) in Hc.
    cbn in Hc. destruct (LoadX509KeyPair _ _) as [cert|]; [|done]. injection Hc as <-. by exists cert.
Qed.

End Client.

Example parse_args_default : parseArgs [] = [AStr "/pigo"]. Proof. reflexivity. Qed.
Example parse_args_slash : parseArgs [AStr "dev"] = [AStr "/dev"]. Proof. reflexivity. Qed.

(** * Publishing and subscribing

    The calls of the peer on its client, peer.go and client.go, and what a
    subscribing peer makes of what another published. The client library answers
    every call with a token, which has an error once the broker has answered and the
    caller has waited for it. *)

(** ** The client, client.go *)

(** The error of a token when the call returns, and after [Wait]. *)
Record Token := { tok_now : option string; tok_done : option string }.

Inductive mqtt_call :=
| CConnect
| CPublish (topic : string) (qos : Z) (retained : bool) (payload : string)
| CSubscribe (filter : string) (qos : Z)
| CDisconnect (quiesce : Z).

(** What the library answers after the calls so far. *)
Class Paho := { paho_answer : list mqtt_call → mqtt_call → Token }.

Section Client.
Context `{PA : Paho}.

Definition waited (c : mqtt_call) (trace : list mqtt_call) : option string * list mqtt_call :=
  (tok_done (paho_answer trace c), trace ++ [c]).

Definition Client_Connect (trace : list mqtt_call) : option string * list mqtt_call :=
  let '(err, trace) := waited CConnect trace in (String.append "broker connection error: " <$> err, trace).
Definition Client_Publish (topic : string) (qos : Z) (retained : bool) (payload : string) (trace : list mqtt_call) :
    option string * list mqtt_call := waited (CPublish topic qos retained payload) trace.
Definition Client_Subscribe (topic : string) (qos : Z) (trace : list mqtt_call) : option string * list mqtt_call :=
  let '(err, trace) := waited (CSubscribe topic qos) trace in (String.append "subscribe error: " <$> err, trace).
Definition Client_Disconnect (trace : list mqtt_call) : list mqtt_call := trace ++ [CDisconnect 250].

End Client.

(** ** The peer, peer.go

    [client] says that there is a client: it is nil until [Connect] makes one, and
    stays when connecting fails. *)

Section Peer.
Context `{PA : Paho} `{GF : GoFloat} `{RE : Regexp} `{SB : !Submatch}.

Inductive mqtt_pub_error := MarshalPayload | PublishFailed (e : string).

(** [Pub]: the payload without the schema of the event, with quality 0 and not
    retained; [None] is the panic without a client. *)
Definition mqtt_Pub (p : PeerMQTT) (client : bool) (event : Event) (trace : list mqtt_call) :
    option (option mqtt_pub_error * list mqtt_call) :=
  let topic := pub_topic p event in
  match payload_json (ev_Payload event) with
  | None => Some (Some MarshalPayload, trace)
  | Some j =>
      if client then
        let '(err, trace) := Client_Publish topic 0 false (print_json j) trace in Some (PublishFailed <$> err, trace)
      else None
  end.

(** [Sub]: the prefix of the subscription with its channel, or the error that the
    token has before it was waited for; then the channel is closed. *)
Definition mqtt_Sub (p : PeerMQTT) (client : bool) (args : list any) (trace : list mqtt_call) :
    option (res string string * list mqtt_call) :=
  let prefix := sub_prefix p args in
  let c := CSubscribe (sub_filter prefix) 0 in
  if client then
    Some (match tok_now (paho_answer trace c) with
          | Some e => Err ("mqtt subscribe failed: " +:+ e)
          | None => Ok prefix
          end, trace ++ [c])
  else None.

(** The arguments with which the pipeline command subscribes: the prefix of the
    settings as it is, not the one that [Connect] has put for an empty one. *)
Definition pipeline_args (prefix : string) : list any := [AStr prefix].

Definition mqtt_Disconnect (client : bool) (trace : list mqtt_call) : option (list mqtt_call) :=
  if client then Some (trace ++ [CDisconnect 500]) else None.

(** A subscription that the broker refuses afterwards is not noticed. *)
Theorem refused_subscription p args trace e :
  (∀ c, paho_answer trace c = {| tok_now := None; tok_done := Some e |}) →
  mqtt_Sub p true args trace = Some (Ok (sub_prefix p args), trace ++ [CSubscribe (sub_filter (sub_prefix p args)) 0]) ∧
  (Client_Subscribe (sub_filter (sub_prefix p args)) 0 trace).1 = Some ("subscribe error: " +:+ e).
Proof. intros H. unfold mqtt_Sub, Client_Subscribe, waited. by rewrite !H. Qed.
End Peer.

(** ** From peer to peer *)

Section Relay.
Context `{GF : GoFloat} `{GJ : !GoFloatJson} `{RE : Regexp} `{SB : !Submatch}.

(** An object is read as the map of its members, the last of a name. *)
Lemma to_any_object kvs xs :
  Forall2 (λ (kv : string * json) (kx : string * any), kv.1 = kx.1 ∧ to_any kv.2 = Some kx.2) kvs xs →
  to_any (JObj kvs) = Some (AObj (foldl (λ m kx, <[kx.1 := kx.2]> m) ∅ xs)).
Proof.
  cbn [to_any]. generalize (∅ : gmap string any). intros m H. revert m.
  induction H as [|[k j] [k' x] kvs xs [E Hx] _ IH]; intros m; [done|]. cbn [snd fst] in E, Hx. subst k'. rewrite Hx. cbn [mbind option_bind].
  exact (IH (<[k := x]> m)).
Qed.

(** The row that a payload is as JSON: its members with their integers as floats. *)
Definition int_value (z : Z) : any := AFloat (float_of_int z).
Definition source_row (s : Source) : list (string * any) :=
  [("version", AStr (src_Version s)); ("connector", AStr (src_Connector s)); ("name", AStr (src_Name s));
   ("ts_ms", int_value (src_TsMs s)); ("snapshot", ABool (src_Snapshot s)); ("db", AStr (src_Db s));
   ("sequence", AStr (src_Sequence s)); ("schema", AStr (src_Schema s)); ("table", AStr (src_Table s));
   ("txId", int_value (src_TxID s)); ("lsn", int_value (src_Lsn s))] ++
  match src_Xmin s with None => [] | Some x => [("xmin", int_value x)] end.
Definition transaction_row (t : Transaction) : list (string * any) :=
  [("id", AStr (tx_ID t)); ("total_order", int_value (tx_TotalOrder t)); ("data_collection_order", int_value (tx_DataCollectionOrder t))].
Definition row_of (kxs : list (string * any)) : gmap string any := foldl (λ m kx, <[kx.1 := kx.2]> m) ∅ kxs.
Definition payload_row (p : Payload) : gmap string any :=
  row_of ([("before", as_read (pay_Before p)); ("after", as_read (pay_After p)); ("source", AObj (row_of (source_row (pay_Source p))));
           ("op", AStr (pay_Op p)); ("ts_ms", int_value (pay_TsMs p))] ++
          match pay_Transaction p with None => [] | Some t => [("transaction", AObj (row_of (transaction_row t)))] end).

Lemma int_read z : in_int64 z = true → to_any (JNum (Itoa z)) = Some (int_value z).
Proof. intros H. cbn. by rewrite itoa_reads. Qed.

Ltac members := repeat (constructor; [split; [reflexivity | first [reflexivity | by apply int_read | assumption]]|]); try constructor.

Lemma source_any s : source_ready s = true → to_any (source_json s) = Some (AObj (row_of (source_row s))).
Proof.
  unfold source_ready. intros H. split_ready. apply to_any_object. unfold source_row. destruct (src_Xmin s); cbn [app]; members.
Qed.
Lemma transaction_any t : transaction_ready t = true → to_any (transaction_json t) = Some (AObj (row_of (transaction_row t))).
Proof. unfold transaction_ready. intros H. split_ready. apply to_any_object. members. Qed.

Lemma payload_any p : payload_ready p = true → ∃ j, payload_json p = Some j ∧ wf_json j ∧ to_any j = Some (AObj (payload_row p)).
Proof.
  intros Hr. destruct (payload_read p Hr) as (j & Hj & Hwf & _). exists j. split; [done|]. split; [done|].
  unfold payload_ready in Hr. split_ready. unfold payload_json in Hj.
  destruct (value_read (pay_Before p)) as (b & Eb & _ & Ab); [done|].
  destruct (value_read (pay_After p)) as (a & Ea & _ & Aa); [done|].
  rewrite Eb, Ea in Hj. injection Hj as <-. apply to_any_object.
  pose proof (source_any (pay_Source p) ltac:(done)).
  destruct (pay_Transaction p) as [t|]; cbn [app]; [pose proof (transaction_any t ltac:(done))|]; members.
Qed.

Lemma print_object_nonempty kvs : print_json (JObj kvs) ≠ "".
Proof. done. Qed.

Lemma pub_topic_of p e :
  pub_topic p e = topic_of (mq_TopicPrefix p) (src_Schema (pay_Source (ev_Payload e))) (src_Table (pay_Source (ev_Payload e)))
    (pay_Op (ev_Payload e)) [].
Proof.
  unfold pub_topic, topic_of. rewrite app_nil_r, Join_app by (done || apply Split_nonempty). by rewrite Join_Split.
Qed.

Lemma Split_snoc_hash prefix : Split (sub_filter prefix) "/" = Split prefix "/" ++ ["#"].
Proof.
  assert (sub_filter prefix = Join (Split prefix "/" ++ ["#"]) "/") as ->.
  { rewrite Join_app by (done || apply Split_nonempty). by rewrite Join_Split. }
  apply Split_Join; [by destruct (Split prefix "/")|]. apply Forall_app. split; [apply Split_parts|by repeat constructor].
Qed.

Lemma Split_topic prefix schema table operation :
  Forall no_slash [schema; table; operation] →
  Split (topic_of prefix schema table operation []) "/" = Split prefix "/" ++ [schema; table; operation].
Proof.
  intros H. unfold topic_of. rewrite app_nil_r. apply Split_Join; [by destruct (Split prefix "/")|].
  apply Forall_app. split; [apply Split_parts|exact H].
Qed.

(** A message with nothing in its topic after the operation has the one row that
    its body is. *)
Lemma payloads_of_payload pay j :
  payload_json pay = Some j → wf_json j → json_depth j <= maxNestingDepth → to_any j = Some (AObj (payload_row pay)) →
  payloads_of Unmarshal_any (read_tail []) (print_json j) = Some [AObj (payload_row pay)].
Proof.
  intros Hj Hwf Hd Ha. unfold payloads_of. cbn [read_tail ta_scalar ta_conditions ta_isBatch]. rewrite bool_decide_eq_false_2.
  - unfold json_payloads, Unmarshal_any. rewrite parse_print by auto. cbn [mbind option_bind]. by rewrite Ha.
  - unfold payload_json in Hj. destruct (to_json (pay_Before _)) as [b|]; [|done]. cbn [mbind option_bind] in Hj.
    destruct (to_json (pay_After _)) as [a|]; [|done]. cbn [mbind option_bind] in Hj. by injection Hj as <-.
Qed.

(** A subscription under a prefix takes the topics under it. *)
Lemma filter_takes prefix schema table operation :
  prefix ≠ "" → Forall no_slash [schema; table; operation] →
  mqtt_matches (sub_filter prefix) (topic_of prefix schema table operation []).
Proof.
  intros Hne Hs. split.
  - rewrite Split_snoc_hash, Split_topic by done. right. exists (Split prefix "/"), (Split prefix "/"), [schema; table; operation].
    split_and!; [done..|]. apply Forall_Forall2_diag, Forall_true. by right.
  - unfold topic_of. rewrite app_nil_r, Join_app by (done || apply Split_nonempty). rewrite Join_Split.
    unfold sub_filter, leading_wildcard. destruct prefix as [|c prefix]; [done|]. rewrite !app_cons_str. cbn [HasPrefix].
    intros [Hw Hd]. apply andb_true_iff in Hd as [<-%bool_decide_eq_true _]. done.
Qed.


End Relay.

(** ** Witnesses *)

Definition quiet_paho : Paho := {| paho_answer := λ _ _, {| tok_now := None; tok_done := None |} |}.

Definition site_peer : PeerMQTT (RE := level_regexp) := {| mq_TopicPrefix := "site"; mq_TopicToFields := []; mq_topicRewriter := None |}.


(** A prefix with a leading slash, too, is published under as it is and subscribed to
    without the slash: nothing arrives. *)
Example slash_prefix_misses :
  ¬ mqtt_matches (sub_filter (sub_prefix site_peer (pipeline_args "/pigo"))) "/pigo/public/users/c".
Proof.
  intros [H _]. apply matchParts_spec in H; [vm_compute in H; discriminate H|]. apply (bool_decide_unpack _). vm_compute. exact I.
Qed.
