(* ===== verification/Webhook.v ===== *)
(** * Webhook: the HTTP peer, [pkg/pipeline/peer/http/peer.go], and the HTTP client
    it sends with, [pkg/httputil/client.go].

    The network, the waits of [cenkalti/backoff] and the reading of durations are
    arguments. All attempts share one request and its body reader: whether an
    attempt after the first can send the body again is up to [net/http] and its
    connections, so the answer to an attempt may depend on all attempts before. *)

From S2P Require Import Prelude GoStrings GoAny Base64 Cdc.
Local Open Scope Z_scope.

(** ** Headers of a request *)

(** [textproto.CanonicalMIMEHeaderKey] *)
Definition token_byte (c : ascii) : bool :=
  isDigit c || ascii_lower (byte_val c) || ascii_upper (byte_val c) || mem_byte "!#$%&'*+-.^_`|~" c.
Fixpoint canonical_go (upper : bool) (s : string) : string :=
  match s with
  | EmptyString => ""
  | String c s =>
      let c := if upper then byte_to_upper c
               else if ascii_upper (byte_val c) then byte_of (byte_val c + 32) else c in
      String c (canonical_go (bool_decide (c = "-"%char)) s)
  end.
Definition CanonicalHeaderKey (s : string) : string :=
  if all_bytes token_byte s then canonical_go true s else s.

Abbreviation Header := (gmap string (list string)).
Definition header_Add (key value : string) (h : Header) : Header :=
  let key := CanonicalHeaderKey key in <[key := default [] (h !! key) ++ [value]]> h.
Definition header_Get (key : string) (h : Header) : string :=
  match h !! CanonicalHeaderKey key with Some (v :: _) => v | _ => "" end.
Definition header_Set (key value : string) (h : Header) : Header := <[CanonicalHeaderKey key := [value]]> h.

(** ** The client, client.go *)

Record Response := { resp_StatusCode : Z; resp_Body : string }.

Record RequestConfig := {
  rq_Headers : Header; rq_ResponseHandler : option (Response → option string);
  rq_Method : string; rq_URL : string; rq_Timeout : Z; rq_MaxRetries : Z; rq_InitialBackoff : Z;
  rq_MaxBackoff : Z; rq_RetryEnabled : bool
}.

Definition millisecond : Z := 1000000.
Definition second : Z := 1000 * millisecond.

Definition DefaultRequestConfig (method url : string) : RequestConfig := {|
  rq_Headers := ∅; rq_ResponseHandler := None; rq_Method := method; rq_URL := url; rq_Timeout := 5 * second;
  rq_MaxRetries := 3; rq_InitialBackoff := 100 * millisecond; rq_MaxBackoff := 10 * second; rq_RetryEnabled := true |}.

Inductive payload := PNil | PBytes (b : string) | PString (s : string) | PValue (v : any).

Inductive request_error :=
| MarshalPayload | CreateRequest | RequestFailed | ReadBody | HandlerFailed (e : string) | UnexpectedStatus (code : Z).

(** What is sent, and what comes back. *)
Record sent := { s_Method : string; s_URL : string; s_Headers : Header; s_Body : string }.
Inductive answer := NoAnswer | BrokenAnswer | Answer (status : Z) (body : string).

(** An attempt: what [client.Do] was given, and the answer. *)
Record attempt := { at_sent : sent; at_answer : answer }.

(** [http.NewRequest] takes the method and the URL; [client.Do] within a time,
    after the attempts before. *)
Class Network := {
  request_ok : string → string → bool;
  client_Do : list attempt → sent → Z → answer
}.

(** The waits that an exponential backoff grants (initial and longest interval,
    time in all), as long as the operation goes on failing. *)
Class Backoff := { waits : Z → Z → Z → list Z }.

(** The variables of [Request] that the closure assigns, and the attempts so far. *)
Record Exchange := { ex_response : option Response; ex_attempts : list attempt }.

Section Client.
Context `{GF : GoFloat} `{GR : GoRange} `{NW : Network} `{BO : Backoff}.

(** The body, or nil; an error of marshaling. *)
Definition request_body (p : payload) : res request_error (option string) :=
  match p with
  | PNil => Ok None
  | PBytes b | PString b => Ok (Some b)
  | PValue v => match Marshal v with Some b => Ok (Some b) | None => Err MarshalPayload end
  end.

Definition request_headers (config : RequestConfig) (body : option string) : Header :=
  let h := foldl (λ h kv, foldl (λ h value, header_Add kv.1 value h) h kv.2) ∅ (range (rq_Headers config)) in
  if negb (bool_decide (body = None)) && bool_decide (rq_Method config ∈ ["POST"; "PUT"; "PATCH"])
     && bool_decide (header_Get "Content-Type" h = "")
  then header_Set "Content-Type" "application/json" h else h.

(** The closure [operation]: the error, and the exchange after it. The handler is
    given the response with its body read to the end. *)
Definition operation (config : RequestConfig) (req : sent) (ex : Exchange) : option request_error * Exchange :=
  let a := client_Do (ex_attempts ex) req (rq_Timeout config) in
  let after r := {| ex_response := r; ex_attempts := ex_attempts ex ++ [{| at_sent := req; at_answer := a |}] |} in
  match a with
  | NoAnswer => (Some RequestFailed, after (ex_response ex))
  | BrokenAnswer => (Some ReadBody, after (ex_response ex))
  | Answer status body =>
      let resp := {| resp_StatusCode := status; resp_Body := body |} in
      match h ← rq_ResponseHandler config; h {| resp_StatusCode := status; resp_Body := "" |} with
      | Some e => (Some (HandlerFailed e), after (Some resp))
      | None =>
          if (status <? 200) || (300 <=? status) then (Some (UnexpectedStatus status), after (Some resp))
          else (None, after (Some resp))
      end
  end.

(** [backoff.Retry] *)
Fixpoint retry (ws : list Z) (config : RequestConfig) (req : sent) (ex : Exchange) : option request_error * Exchange :=
  match operation config req ex with
  | (None, ex) => (None, ex)
  | (Some e, ex) =>
      match ws with
      | [] => (Some e, ex)
      | _ :: ws => retry ws config req ex
      end
  end.

(** The response with the error, and the attempts; [log] is what was sent before. *)
Definition Request (config : RequestConfig) (p : payload) : option Response * option request_error * list attempt :=
  match request_body p with
  | Err e => (None, Some e, [])
  | Ok body =>
      if negb (request_ok (rq_Method config) (rq_URL config)) then (None, Some CreateRequest, []) else
      let req := {| s_Method := rq_Method config; s_URL := rq_URL config;
                    s_Headers := request_headers config body; s_Body := default "" body |} in
      let ex := {| ex_response := None; ex_attempts := [] |} in
      let '(err, ex) :=
        if rq_RetryEnabled config then
          retry (waits (rq_InitialBackoff config) (rq_MaxBackoff config)
                   (int64 (rq_MaxRetries config * rq_MaxBackoff config))) config req ex
        else operation config req ex in
      (ex_response ex, err, ex_attempts ex)
  end.

End Client.

(** ** The peer, peer/http/peer.go *)

Inductive AuthType :=
| AuthTypeNone | AuthTypeAPIKey | AuthTypeBearer | AuthTypeBasic | AuthTypeOAuth2 | AuthTypeGCPSA | AuthTypeAWSIAM
| AuthTypeCloudflare | AuthTypeUnset | AuthTypeOther (s : string).

Record AuthConfig := {
  au_Type : AuthType; au_APIKey : string; au_APIKeyName : string; au_Username : string; au_Password : string;
  au_Token : string; au_TokenFile : string; au_ClientID : string; au_ClientSecret : string; au_TokenURL : string;
  au_ServiceAccountFile : string; au_AWSRegion : string; au_AWSAccessKeyID : string; au_AWSSecretAccessKey : string;
  au_CloudflareToken : string; au_CloudflareKey : string; au_CloudflareEmail : string
}.
Record RetryConfig := { rt_MaxRetries : Z; rt_InitialWait : Z; rt_MaxWait : Z }.
Record EndpointConfig := { ep_Headers : gmap string string; ep_URL : string; ep_Method : string }.
Record http_config := {
  hc_Auth : AuthConfig; hc_Timeout : string; hc_Endpoints : list EndpointConfig; hc_Retry : RetryConfig
}.

(** [logger] says that there is one: the methods of a nil logger of zap panic. *)
Record PeerHTTP := {
  hp_timeout : Z; hp_logger : bool; hp_auth : AuthConfig; hp_endpoints : list EndpointConfig; hp_retryConfig : RetryConfig
}.

Definition or_z (a b : Z) : Z := if a =? 0 then b else a.
Definition set_auth_type (t : AuthType) (a : AuthConfig) : AuthConfig :=
  {| au_Type := t; au_APIKey := au_APIKey a; au_APIKeyName := au_APIKeyName a; au_Username := au_Username a;
     au_Password := au_Password a; au_Token := au_Token a; au_TokenFile := au_TokenFile a; au_ClientID := au_ClientID a;
     au_ClientSecret := au_ClientSecret a; au_TokenURL := au_TokenURL a; au_ServiceAccountFile := au_ServiceAccountFile a;
     au_AWSRegion := au_AWSRegion a; au_AWSAccessKeyID := au_AWSAccessKeyID a;
     au_AWSSecretAccessKey := au_AWSSecretAccessKey a; au_CloudflareToken := au_CloudflareToken a;
     au_CloudflareKey := au_CloudflareKey a; au_CloudflareEmail := au_CloudflareEmail a |}.
Definition set_api_key_name (s : string) (a : AuthConfig) : AuthConfig :=
  {| au_Type := au_Type a; au_APIKey := au_APIKey a; au_APIKeyName := s; au_Username := au_Username a;
     au_Password := au_Password a; au_Token := au_Token a; au_TokenFile := au_TokenFile a; au_ClientID := au_ClientID a;
     au_ClientSecret := au_ClientSecret a; au_TokenURL := au_TokenURL a; au_ServiceAccountFile := au_ServiceAccountFile a;
     au_AWSRegion := au_AWSRegion a; au_AWSAccessKeyID := au_AWSAccessKeyID a;
     au_AWSSecretAccessKey := au_AWSSecretAccessKey a; au_CloudflareToken := au_CloudflareToken a;
     au_CloudflareKey := au_CloudflareKey a; au_CloudflareEmail := au_CloudflareEmail a |}.

Definition setDefaultConfig (cfg : http_config) : http_config :=
  {| hc_Auth := match au_Type (hc_Auth cfg) with
                | AuthTypeUnset => set_auth_type AuthTypeNone (hc_Auth cfg)
                | _ => hc_Auth cfg
                end;
     hc_Timeout := hc_Timeout cfg;
     hc_Endpoints := (λ e, {| ep_Headers := ep_Headers e; ep_URL := ep_URL e;
                              ep_Method := if bool_decide (ep_Method e = "") then "POST" else ep_Method e |})
                       <$> hc_Endpoints cfg;
     hc_Retry := {| rt_MaxRetries := or_z (rt_MaxRetries (hc_Retry cfg)) 3;
                    rt_InitialWait := or_z (rt_InitialWait (hc_Retry cfg)) (1 * second);
                    rt_MaxWait := or_z (rt_MaxWait (hc_Retry cfg)) (30 * second) |} |}.

Inductive http_error :=
| NoEndpoints | InvalidTimeout | MissingSettings (t : AuthType) | MarshalEvent | SendFailed (e : request_error).

Definition is_empty (s : string) : bool := bool_decide (s = "").

(** The settings that an authentication needs; the name of an API key's header is
    filled in. *)
Definition validateConfig (a : AuthConfig) : res http_error AuthConfig :=
  let missing (b : bool) := if b then Err (MissingSettings (au_Type a)) else Ok a in
  match au_Type a with
  | AuthTypeAPIKey =>
      if is_empty (au_APIKey a) then Err (MissingSettings (au_Type a))
      else if is_empty (au_APIKeyName a) then Ok (set_api_key_name "X-API-Key" a) else Ok a
  | AuthTypeBasic => missing (is_empty (au_Username a) || is_empty (au_Password a))
  | AuthTypeBearer => missing (is_empty (au_Token a) && is_empty (au_TokenFile a))
  | AuthTypeOAuth2 => missing (is_empty (au_ClientID a) || is_empty (au_ClientSecret a) || is_empty (au_TokenURL a))
  | AuthTypeGCPSA => missing (is_empty (au_ServiceAccountFile a))
  | AuthTypeAWSIAM =>
      missing ((is_empty (au_AWSAccessKeyID a) || is_empty (au_AWSSecretAccessKey a)) && is_empty (au_AWSRegion a))
  | AuthTypeCloudflare =>
      missing (is_empty (au_CloudflareToken a) && (is_empty (au_CloudflareKey a) || is_empty (au_CloudflareEmail a)))
  | _ => Ok a
  end.

Definition basicAuth (username password : string) : string := EncodeToString (username +:+ ":" +:+ password).

Definition buildHeaders (a : AuthConfig) (endpoint : EndpointConfig) : Header :=
  let headers : Header := (λ value, [value]) <$> ep_Headers endpoint in
  match au_Type a with
  | AuthTypeAPIKey => <[au_APIKeyName a := [au_APIKey a]]> headers
  | AuthTypeBasic => <["Authorization" := ["Basic " +:+ basicAuth (au_Username a) (au_Password a)]]> headers
  | AuthTypeBearer => <["Authorization" := ["Bearer " +:+ au_Token a]]> headers
  | AuthTypeCloudflare =>
      if negb (is_empty (au_CloudflareToken a)) then
        <["Authorization" := ["Bearer " +:+ au_CloudflareToken a]]> headers
      else <["X-Auth-Email" := [au_CloudflareEmail a]]> (<["X-Auth-Key" := [au_CloudflareKey a]]> headers)
  | _ => headers
  end.

Section Peer.
Context `{GF : GoFloat} `{GR : GoRange} `{NW : Network} `{BO : Backoff}.
Context (ParseDuration : string → option Z).

(** [Connect] with the settings decoded. [None] is a panic: the logger of the peer
    is used and is not set by anything. *)
Definition http_Connect (p : PeerHTTP) (cfg : http_config) : option (res http_error PeerHTTP) :=
  match hc_Endpoints cfg with
  | [] => Some (Err NoEndpoints)
  | _ =>
      match (if is_empty (hc_Timeout cfg) then Some (30 * second) else ParseDuration (hc_Timeout cfg)) with
      | None => Some (Err InvalidTimeout)
      | Some timeout =>
          let cfg := setDefaultConfig cfg in
          match validateConfig (hc_Auth cfg) with
          | Err e => Some (Err e)
          | Ok auth =>
              if hp_logger p then
                Some (Ok {| hp_timeout := timeout; hp_logger := true; hp_auth := auth;
                            hp_endpoints := hc_Endpoints cfg; hp_retryConfig := hc_Retry cfg |})
              else None
          end
      end
  end.

Definition endpoint_config (p : PeerHTTP) (endpoint : EndpointConfig) : RequestConfig :=
  let config := DefaultRequestConfig (ep_Method endpoint) (ep_URL endpoint) in
  {| rq_Headers := buildHeaders (hp_auth p) endpoint; rq_ResponseHandler := rq_ResponseHandler config;
     rq_Method := rq_Method config; rq_URL := rq_URL config; rq_Timeout := hp_timeout p;
     rq_MaxRetries := rt_MaxRetries (hp_retryConfig p); rq_InitialBackoff := rt_InitialWait (hp_retryConfig p);
     rq_MaxBackoff := rt_MaxWait (hp_retryConfig p); rq_RetryEnabled := true |}.

(** The loop over the endpoints: the last error, and the attempts at each. *)
Fixpoint send_all (p : PeerHTTP) (body : string) (endpoints : list EndpointConfig) (lastErr : option http_error)
    (log : list (list attempt)) : option (option http_error * list (list attempt)) :=
  match endpoints with
  | [] => Some (lastErr, log)
  | endpoint :: endpoints =>
      let '(_, err, attempts) := Request (endpoint_config p endpoint) (PBytes body) in
      match err with
      | Some e =>
          if hp_logger p then send_all p body endpoints (Some (SendFailed e)) (log ++ [attempts]) else None
      | None => send_all p body endpoints lastErr (log ++ [attempts])
      end
  end.

Definition http_Pub (p : PeerHTTP) (event : Event) : option (option http_error * list (list attempt)) :=
  match Marshal (pay_After (ev_Payload event)) with
  | None => Some (Some MarshalEvent, [])
  | Some body => send_all p body (hp_endpoints p) None []
  end.

End Peer.
