(* ===== verification/WebhookProps.v ===== *)
(** * WebhookProps: what the HTTP peer sends.

    A request is tried until an attempt is taken, as often as the backoff grants,
    and what it returns is the outcome of the last attempt. The credentials of basic authentication are
    those that the middleware of file Middleware reads. *)

From S2P Require Import Prelude GoStrings GoStringFacts GoAny Base64 Cdc FilterTests.
From S2P Require Import Http Middleware MiddlewareProps Webhook.
Local Open Scope Z_scope.

Section Requests.
Context `{GF : GoFloat} `{GR : GoRange} `{NW : Network} `{BO : Backoff}.

(** What is wrong with an answer, if anything: none came, its body could not be
    read, the handler refuses it, or its status is not 200 to 299. *)
Definition verdict (config : RequestConfig) (a : answer) : option request_error :=
  match a with
  | NoAnswer => Some RequestFailed
  | BrokenAnswer => Some ReadBody
  | Answer status _ =>
      match rq_ResponseHandler config ≫= (λ h, h {| resp_StatusCode := status; resp_Body := "" |}) with
      | Some e => Some (HandlerFailed e)
      | None => if decide (200 ≤ status < 300) then None else Some (UnexpectedStatus status)
      end
  end.
Definition response_of (a : attempt) : option Response :=
  match at_answer a with Answer status body => Some {| resp_StatusCode := status; resp_Body := body |} | _ => None end.

Definition newer (r old : option Response) : option Response := match r with Some _ => r | None => old end.

(** The attempts [l] after those of [before]: the same request each time, answered
    by the network as it is then, and refused but for the last. *)
Inductive tries (config : RequestConfig) (req : sent) (before : list attempt) : list attempt → option request_error → Prop :=
| tries_last a :
    at_sent a = req → at_answer a = client_Do before req (rq_Timeout config) →
    tries config req before [a] (verdict config (at_answer a))
| tries_again a l err :
    at_sent a = req → at_answer a = client_Do before req (rq_Timeout config) → verdict config (at_answer a) ≠ None →
    tries config req (before ++ [a]) l err → tries config req before (a :: l) err.

Lemma operation_try config req ex :
  ∃ a, at_sent a = req ∧ at_answer a = client_Do (ex_attempts ex) req (rq_Timeout config) ∧
    operation config req ex = (verdict config (at_answer a),
      {| ex_response := newer (response_of a) (ex_response ex); ex_attempts := ex_attempts ex ++ [a] |}).
Proof.
  exists {| at_sent := req; at_answer := client_Do (ex_attempts ex) req (rq_Timeout config) |}. split_and!; [done..|].
  unfold operation, verdict, response_of. cbn [at_answer]. destruct (client_Do _ _ _) as [| |status body]; [done..|].
  destruct (rq_ResponseHandler config ≫= _); [done|].
  destruct (decide (200 ≤ status < 300)) as [H|H]; destruct (Z.ltb_spec status 200), (Z.leb_spec 300 status); done || lia.
Qed.

Lemma retry_tries ws config req ex :
  ∃ l err, tries config req (ex_attempts ex) l err ∧ (length l ≤ S (length ws))%nat ∧
    (err ≠ None → length l = S (length ws)) ∧
    retry ws config req ex =
      (err, {| ex_response := newer (last (omap response_of l)) (ex_response ex); ex_attempts := ex_attempts ex ++ l |}).
Proof.
  revert ex. induction ws as [|w ws IH]; intros ex; destruct (operation_try config req ex) as (a & Hs & Ha & E);
    cbn [retry]; rewrite E; destruct (verdict config (at_answer a)) as [e|] eqn:Hv.
  - exists [a], (Some e). rewrite <-Hv. split_and!; [by constructor|done..|]. cbn. by destruct (response_of a).
  - exists [a], None. rewrite <-Hv. split_and!; [by constructor|done..|]. cbn. by destruct (response_of a).
  - specialize (IH {| ex_response := newer (response_of a) (ex_response ex); ex_attempts := ex_attempts ex ++ [a] |}).
    cbn [ex_attempts ex_response] in IH. destruct IH as (l & err & Ht & Hl & Hf & ->). exists (a :: l), err. split_and!.
    + apply tries_again; [done..|by rewrite Hv|done].
    + cbn. lia.
    + intros ?. cbn. by rewrite Hf.
    + rewrite <-app_assoc. do 2 f_equal. cbn [omap list_omap].
      destruct (response_of a) as [r|]; [|done]. rewrite last_cons. by destruct (last (omap response_of l)).
  - exists [a], None. rewrite <-Hv. split_and!; [by constructor|cbn; lia|done|]. cbn. by destruct (response_of a).
Qed.


End Requests.

(** ** Headers *)

(** The values that a list of headers gives for a canonical name. *)
Definition header_values (K : string) (l : list (string * list string)) : list string :=
  concat ((λ kv, if bool_decide (CanonicalHeaderKey kv.1 = K) then kv.2 else []) <$> l).

Lemma add_values_lookup key values (h : Header) K :
  default [] (foldl (λ h value, header_Add key value h) h values !! K) =
  default [] (h !! K) ++ (if bool_decide (CanonicalHeaderKey key = K) then values else []).
Proof.
  revert h. induction values as [|v values IH]; intros h; cbn [foldl]; [by case_bool_decide; rewrite app_nil_r|].
  rewrite IH. unfold header_Add. case_bool_decide as HK.
  - rewrite HK, lookup_insert_eq. cbn [from_option id]. by rewrite <-app_assoc.
  - by rewrite lookup_insert_ne.
Qed.

Lemma all_headers_lookup l (h : Header) K :
  default [] (foldl (λ h kv, foldl (λ h value, header_Add kv.1 value h) h kv.2) h l !! K) =
  default [] (h !! K) ++ header_values K l.
Proof.
  revert h. induction l as [|kv l IH]; intros h; cbn [foldl]; [by rewrite app_nil_r|].
  rewrite IH, add_values_lookup. unfold header_values. cbn [fmap list_fmap concat]. by rewrite app_assoc.
Qed.

(** Only one name of a map is written as [K]. *)
Lemma header_values_single `{GR : GoRange} (m : Header) K k v :
  m !! k = Some v → CanonicalHeaderKey k = K →
  (∀ k', is_Some (m !! k') → CanonicalHeaderKey k' = K → k' = k) → header_values K (range m) = v.
Proof.
  intros Hk HK Huniq. assert ((k, v) ∈ range m) as Hin by (rewrite range_perm; by apply elem_of_map_to_list).
  assert (NoDup (range m)) as Hnd by (rewrite range_perm; apply NoDup_map_to_list).
  assert (∀ kv, kv ∈ range m → CanonicalHeaderKey kv.1 = K → kv = (k, v)) as Hall.
  { intros [k' v'] Hkv HK'. rewrite range_perm in Hkv. apply elem_of_map_to_list in Hkv.
    assert (k' = k) as -> by (apply Huniq; [by eexists|done]). congruence. }
  revert Hin Hnd Hall. generalize (range m). intros l.
  assert (∀ l, (k, v) ∉ l → (∀ kv, kv ∈ l → CanonicalHeaderKey kv.1 = K → kv = (k, v)) → header_values K l = []) as Hnone.
  { clear -HK. intros l. induction l as [|kv l IH]; intros Hni Hall; [done|]. unfold header_values. cbn [fmap list_fmap concat].
    apply not_elem_of_cons in Hni as [Hne Hni]. rewrite bool_decide_eq_false_2.
    - apply IH; [done|]. intros kv' Hin. apply Hall. by right.
    - intros HK'. apply Hne. symmetry. apply Hall; [by left|done]. }
  induction l as [|kv l IH]; intros Hin Hnd Hall; [by apply not_elem_of_nil in Hin|].
  apply NoDup_cons in Hnd as [Hni Hnd]. unfold header_values. cbn [fmap list_fmap concat]. fold (header_values K l).
  apply elem_of_cons in Hin as [<-|Hin].
  - rewrite bool_decide_eq_true_2 by done. rewrite Hnone; [apply app_nil_r|done|]. intros kv' Hin. apply Hall. by right.
  - rewrite bool_decide_eq_false_2.
    + apply IH; [done|done|]. intros kv' Hin'. apply Hall. by right.
    + intros HK'. apply Hni. rewrite (Hall kv); [done|by left|done].
Qed.

(** The headers that a request of the peer carries for basic authentication. *)
Lemma basic_header `{GR : GoRange} p endpoint body :
  au_Type (hp_auth p) = AuthTypeBasic →
  (∀ k, is_Some (ep_Headers endpoint !! k) → CanonicalHeaderKey k = "Authorization" → k = "Authorization") →
  header_Get "Authorization" (request_headers (endpoint_config p endpoint) body) =
    "Basic " +:+ basicAuth (au_Username (hp_auth p)) (au_Password (hp_auth p)).
Proof.
  intros Ht Huniq. set (creds := "Basic " +:+ _).
  assert (rq_Headers (endpoint_config p endpoint) = <["Authorization" := [creds]]> ((λ value, [value]) <$> ep_Headers endpoint)) as Hh.
  { cbn. unfold buildHeaders. by rewrite Ht. }
  assert (∀ h : Header, default [] (h !! "Authorization") = [creds] → header_Get "Authorization" h = creds) as Hget.
  { intros h E. unfold header_Get. change (CanonicalHeaderKey "Authorization") with "Authorization".
    destruct (h !! "Authorization") as [vs|]; [|done]. cbn in E. by subst vs. }
  assert (default [] (foldl (λ h kv, foldl (λ h value, header_Add kv.1 value h) h kv.2) ∅
    (range (rq_Headers (endpoint_config p endpoint))) !! "Authorization") = [creds]) as Hl.
  { rewrite all_headers_lookup, lookup_empty, Hh. cbn [from_option id app].
    apply (header_values_single _ _ "Authorization" [creds]); [by rewrite lookup_insert_eq|done|].
    intros k Hk HK. destruct (decide (k = "Authorization")) as [->|Hne]; [done|]. apply Huniq; [|done].
    rewrite lookup_insert_ne, lookup_fmap in Hk by done. destruct Hk as [v Hk]. by apply fmap_Some in Hk as (v' & -> & _). }
  unfold request_headers. destruct (_ && _); apply Hget; [|exact Hl].
  unfold header_Set. change (CanonicalHeaderKey "Content-Type") with "Content-Type". by rewrite lookup_insert_ne.
Qed.

(** C25: a server behind the middleware for basic authentication lets a webhook
    through as the configured user, if it has the same password for that user. *)
Theorem webhook_authenticates `{GR : GoRange} p endpoint body (r : Http.Request) creds send next w :
  au_Type (hp_auth p) = AuthTypeBasic → mem_byte (au_Username (hp_auth p)) ":" = false →
  (∀ k, is_Some (ep_Headers endpoint !! k) → CanonicalHeaderKey k = "Authorization" → k = "Authorization") →
  Header_Get r "Authorization" = header_Get "Authorization" (request_headers (endpoint_config p endpoint) body) →
  creds !! au_Username (hp_auth p) = Some (au_Password (hp_auth p)) →
  VerifyBasicAuth creds send next r w =
    next (WithContext r (set_BasicAuth (au_Username (hp_auth p)) (req_Ctx r))) w.
Proof.
  intros Ht Hu Huniq Hr Hc. rewrite (basic_header p endpoint body Ht Huniq) in Hr.
  pose proof (presents_encoded r _ (au_Password (hp_auth p)) Hu Hr) as Hp.
  destruct (basic_auth_cases creds send next r w) as [(u & pw & Hp' & _ & ->)|[Hno _]].
  - by destruct (presents_unique _ _ _ _ _ Hp Hp') as [<- _].
  - by destruct (Hno _ _ Hp).
Qed.

(** Some authentications are checked but put nothing into a request. *)
Theorem authentication_not_sent a endpoint :
  au_Type a ∈ [AuthTypeOAuth2; AuthTypeGCPSA; AuthTypeAWSIAM] → buildHeaders a endpoint = (λ value, [value]) <$> ep_Headers endpoint.
Proof. unfold buildHeaders. rewrite !elem_of_cons, elem_of_nil. by intros [->|[->|[->|[]]]]. Qed.

(** A token in a file is never read: the header has an empty one. *)
Theorem token_file_not_read a endpoint :
  au_Type a = AuthTypeBearer → au_Token a = "" → buildHeaders a endpoint !! "Authorization" = Some ["Bearer "].
Proof. intros Ht Hk. unfold buildHeaders. by rewrite Ht, Hk, lookup_insert_eq. Qed.

(** The registered peer has no logger: connecting with valid settings panics. *)
Theorem connect_panics ParseDuration p cfg :
  hp_logger p = false → is_ok <$> http_Connect ParseDuration p cfg ≠ Some true.
Proof. intros Hl. unfold http_Connect. rewrite Hl. by repeat case_match. Qed.

(** ** Examples *)

(** A server that is busy at the first request, and takes the second. *)
Definition busy_network : Network := {|
  request_ok _ _ := true;
  client_Do before _ _ := match before with [] => Answer 503 "busy" | _ => Answer 200 "ok" end |}.
Definition two_waits : Backoff := {| waits initial _ _ := [initial; 2 * initial] |}.

Abbreviation demo_Request := (Request (GF := integral_floats) (GR := range_up) (NW := busy_network) (BO := two_waits)).

Example retry_when_busy :
  let '(resp, err, attempts) := demo_Request (DefaultRequestConfig "POST" "http://hook/") (PBytes "{}") in
  resp = Some {| resp_StatusCode := 200; resp_Body := "ok" |} ∧ err = None ∧ length attempts = 2%nat.
Proof. vm_compute. auto. Qed.


(** [net/http] rewinds the body of a request only when the connection had been
    used before; on a new one an attempt whose body has been read fails. A network
    of that kind gives up what one that rewinds delivers. *)
Definition no_rewind : Network := {|
  request_ok _ _ := true;
  client_Do before req _ :=
    match before with
    | [] => Answer 503 "busy"
    | _ => if bool_decide (s_Body req = "") then Answer 200 "ok" else NoAnswer
    end |}.
Example retry_depends_on_rewinding :
  (Request (GF := integral_floats) (GR := range_up) (NW := no_rewind) (BO := two_waits)
    (DefaultRequestConfig "POST" "http://hook/") (PBytes "{}")).1 =
  (Some {| resp_StatusCode := 503; resp_Body := "busy" |}, Some RequestFailed).
Proof. vm_compute. reflexivity. Qed.

Definition hook_auth : AuthConfig := {|
  au_Type := AuthTypeBasic; au_APIKey := ""; au_APIKeyName := ""; au_Username := "hook"; au_Password := "s3:cret";
  au_Token := ""; au_TokenFile := ""; au_ClientID := ""; au_ClientSecret := ""; au_TokenURL := "";
  au_ServiceAccountFile := ""; au_AWSRegion := ""; au_AWSAccessKeyID := ""; au_AWSSecretAccessKey := "";
  au_CloudflareToken := ""; au_CloudflareKey := ""; au_CloudflareEmail := "" |}.
Definition hook_peer : PeerHTTP := {|
  hp_timeout := 5 * second; hp_logger := true; hp_auth := hook_auth;
  hp_endpoints := [{| ep_Headers := {["x-team" := "a"]}; ep_URL := "http://hook/"; ep_Method := "POST" |}];
  hp_retryConfig := {| rt_MaxRetries := 3; rt_InitialWait := 1; rt_MaxWait := 2 |} |}.
Definition hook_endpoint : EndpointConfig := {| ep_Headers := {["x-team" := "a"]}; ep_URL := "http://hook/"; ep_Method := "POST" |}.

(** The request as the server has it. *)
Definition hook_request : Http.Request :=
  client_request (header_Get "Authorization" (request_headers (GR := range_up) (endpoint_config hook_peer hook_endpoint) (Some "{}"))).

Lemma webhook_authenticates_witness :
  VerifyBasicAuth {["hook" := "s3:cret"]} [] (λ r w, set_header "User" (default "" (ctx_BasicAuth (req_Ctx r))) w)
    hook_request initial_world = set_header "User" "hook" initial_world.
Proof.
  apply (webhook_authenticates (GR := range_up) hook_peer hook_endpoint (Some "{}") hook_request {["hook" := "s3:cret"]} []
    (λ r w, set_header "User" (default "" (ctx_BasicAuth (req_Ctx r))) w) initial_world).
  - reflexivity.
  - reflexivity.
  - intros k [v Hk] HK. change (({["x-team" := "a"]} : gmap string string) !! k = Some v) in Hk. apply lookup_singleton_Some in Hk as [<- _].
    vm_compute in HK. discriminate HK.
  - reflexivity.
  - reflexivity.
Defined.
