(* ===== verification/Rag.v ===== *)
(** * Rag: embeddings and retrieval, [pkg/x/rag].

    The client keeps embeddings of rows beside them in a PostgreSQL table: it makes
    sure of the columns, reads contents, asks a language model's API for vectors and
    writes them back; retrieval reads the nearest rows into a prompt. The database
    is a class whose answers may depend on the statements run before; requests are
    those of file Webhook. Effects are in the monad [M]: statements run and errors,
    panics among them. *)

From S2P Require Import Prelude GoStrings GoStringFacts GoAny Base64 Webhook.
From Stdlib Require Import SpecFloat.
Local Open Scope Z_scope.

(** ** Statements and errors *)

Definition Vector : Type := list spec_float.
Inductive rag_arg := RAny (v : any) | RVector (v : Vector).
Definition rag_log : Type := list (string * list rag_arg).

Inductive rag_error :=
| RagFailed (what : string) (e : string)
| RagRequest (e : request_error)
| RagPanic.

Definition M (A : Type) : Type := rag_log → res rag_error A * rag_log.
Definition ret {A} (a : A) : M A := λ log, (Ok a, log).
Definition fail {A} (e : rag_error) : M A := λ log, (Err e, log).
Definition bind {A B} (m : M A) (k : A → M B) : M B :=
  λ log, match m log with (Ok a, log) => k a log | (Err e, log) => (Err e, log) end.
Notation "'do' x <- m ; k" := (bind m (λ x, k)) (at level 10, x pattern, m at level 100, k at level 200) : go_scope.

(** Rows with the names of their columns; each is read or fails. The error after
    the last row is not asked for by the code. *)
Record rag_rows := { rows_fields : list string; rows_values : list (res string (list any)) }.

Class VectorDB := {
  vdb_Exec : rag_log → string → list rag_arg → option string;
  vdb_QueryBool : rag_log → string → list rag_arg → res string bool;
  vdb_Query : rag_log → string → list rag_arg → res string rag_rows;
  vdb_RegisterTypes : option string
}.

(** The decoding of an answer of the API, and of a row with a vector. *)
Class RagDecode := {
  decode_embeddings : string → option (list Vector);
  scan_embedding : list any → res string (any * string * Vector)
}.

Record Config := {
  TableName : string; TablePrimaryKeyCol : string; ModelID : string; APIURL : string; APIKey : string;
  EmbeddingsPath : string; GeneratePath : string; Dimensions : Z; BatchSize : Z }.

(** [DefaultConfig]; an unset variable is the empty string. *)
Definition DefaultConfig (getenv : string → string) : Config := {|
  ModelID := "llama3.2:3b"; APIKey := getenv "LLM_API_KEY"; TableName := "embeddings"; TablePrimaryKeyCol := "id";
  Dimensions := 3072;
  APIURL := if bool_decide (getenv "LLM_API_URL" = "") then "http://127.0.0.1:11434" else getenv "LLM_API_URL";
  EmbeddingsPath := "/v1/embeddings"; GeneratePath := "/api/generate"; BatchSize := 100 |}.

Record Embedding := { emb_PK : any; emb_Content : string; emb_Embedding : Vector }.

(** ** Small functions *)

Definition splitSchemaTableName (tableName : string) : string * string :=
  match Split tableName "." with
  | [schema; table] => (schema, table)
  | _ => ("public", tableName)
  end.

Section Rag.
Context `{GF : GoFloat} `{GR : GoRange} `{NW : Network} `{BO : Backoff} `{VD : VectorDB} `{RD : RagDecode}.

(** [values[i]] for every field: [None] is the index out of range. *)
Fixpoint row_pairs (fields : list string) (values : list any) : option (list string) :=
  match fields, values with
  | [], _ => Some []
  | f :: fields, v :: values => cons (f +:+ ":" +:+ Sprint_v v) <$> row_pairs fields values
  | _ :: _, [] => None
  end.
Definition formatRowValues (fields : list string) (values : list any) : option string :=
  (λ pairs, Join pairs ",") <$> row_pairs fields values.

Definition constructAugmentedPrompt (prompt : string) (relevantInfo : list Embedding) : string :=
  let nl := String "010" "" in
  "Given the following context:" +:+ nl +:+ nl +:+
  foldr (λ info s, "- " +:+ emb_Content info +:+ nl +:+ s) "" relevantInfo +:+
  nl +:+ "Answer the following question: " +:+ prompt.

(** ** Statements *)

Definition exec (what sql : string) (args : list rag_arg) : M unit := λ log,
  match vdb_Exec log sql args with
  | Some e => (Err (RagFailed what e), log ++ [(sql, args)])
  | None => (Ok tt, log ++ [(sql, args)])
  end.
Definition query_bool (what sql : string) (args : list rag_arg) : M bool := λ log,
  match vdb_QueryBool log sql args with
  | Err e => (Err (RagFailed what e), log ++ [(sql, args)])
  | Ok b => (Ok b, log ++ [(sql, args)])
  end.
Definition query (what sql : string) (args : list rag_arg) : M rag_rows := λ log,
  match vdb_Query log sql args with
  | Err e => (Err (RagFailed what e), log ++ [(sql, args)])
  | Ok rows => (Ok rows, log ++ [(sql, args)])
  end.

Definition initialize : M unit :=
  do _ <- exec "failed to create vector extension" "CREATE EXTENSION IF NOT EXISTS vector" [];
  λ log, (match vdb_RegisterTypes with Some e => Err (RagFailed "failed to register vector types" e) | None => Ok tt end, log).

Definition str (s : string) : rag_arg := RAny (AStr s).

Definition create_table_sql (c : Config) : string := "
		CREATE TABLE IF NOT EXISTS " +:+ TableName c +:+ " (
			" +:+ TablePrimaryKeyCol c +:+ " BIGINT PRIMARY KEY GENERATED BY DEFAULT AS IDENTITY,
			content TEXT,
			embedding vector(" +:+ Itoa (Dimensions c) +:+ ")
		)".
Definition createTable (c : Config) : M unit := exec "failed to create table" (create_table_sql c) [].

Definition table_exists_sql : string := "
		SELECT EXISTS (
			SELECT 1
			FROM information_schema.tables
			WHERE table_schema = $1
			AND table_name = $2
		)".
Definition tableExists (c : Config) : M bool :=
  let '(schema, table) := splitSchemaTableName (TableName c) in
  query_bool "failed to check if table exists" table_exists_sql [str schema; str table].

Definition column_exists_sql (column : string) : string :=
  "SELECT EXISTS (SELECT 1 FROM information_schema.columns WHERE table_schema=$1 AND table_name=$2 AND column_name='"
  +:+ column +:+ "')".
Definition add_column_sql (c : Config) (column : string) : string :=
  "ALTER TABLE " +:+ TableName c +:+ " ADD COLUMN " +:+ column.
Definition pk_definition (c : Config) : string :=
  TablePrimaryKeyCol c +:+ " BIGINT PRIMARY KEY GENERATED BY DEFAULT AS IDENTITY".
Definition vector_definition (c : Config) : string := "embedding VECTOR(" +:+ Itoa (Dimensions c) +:+ ")".

Definition add_column (c : Config) (missing : bool) (what column : string) : M unit :=
  if missing then exec what (add_column_sql c column) [] else ret tt.

Definition ensureRequiredColumnsExist (c : Config) : M unit :=
  let '(schema, table) := splitSchemaTableName (TableName c) in
  let args := [str schema; str table] in
  do pkColumnExists <- query_bool "failed to check for primary key column" (column_exists_sql (TablePrimaryKeyCol c)) args;
  do contentColumnExists <- query_bool "failed to check for content column" (column_exists_sql "content") args;
  do embeddingColumnExists <- query_bool "failed to check for embedding column" (column_exists_sql "embedding") args;
  do _ <- add_column c (negb pkColumnExists && negb (bool_decide (TablePrimaryKeyCol c = "")))
            "failed to add primary key column" (pk_definition c);
  do _ <- add_column c (negb contentColumnExists) "failed to add content column" "content TEXT";
  do _ <- add_column c (negb embeddingColumnExists) "failed to add embedding column" (vector_definition c);
  do embeddingColumnExists <- query_bool "failed to verify embedding column" (column_exists_sql "embedding") args;
  if embeddingColumnExists then ret tt
  else fail (RagFailed "embedding column still does not exist after attempting to add it" "").

Definition ensureTableConfig (c : Config) : M unit :=
  do exists_ <- tableExists c;
  do _ <- (if exists_ then ret tt else createTable c);
  ensureRequiredColumnsExist c.

Definition update_sql (c : Config) : string := "
		UPDATE " +:+ TableName c +:+ " 
		SET embedding = $1, content = $2 
		WHERE " +:+ TablePrimaryKeyCol c +:+ " = $3
	".
Definition updateEmbedding (c : Config) (embedding : Vector) (content : string) (id : any) : M unit :=
  exec "failed to update embedding" (update_sql c) [RVector embedding; str content; RAny id].

(** The rows in order; the first that cannot be read is an error, and a row
    without columns a panic. *)
Fixpoint process_rows (fields : list string) (rows : list (res string (list any))) : res rag_error (list Embedding) :=
  match rows with
  | [] => Ok []
  | Err e :: _ => Err (RagFailed "failed to get row values" e)
  | Ok values :: rows =>
      match formatRowValues fields values, values with
      | Some content, pk :: _ =>
          let? rest := process_rows fields rows in
          Ok ({| emb_PK := pk; emb_Content := content; emb_Embedding := [] |} :: rest)
      | _, _ => Err RagPanic
      end
  end.
Definition queryAndProcessEmbeddingContents (selectQuery : string) : M (list Embedding) :=
  do rows <- query "failed to query database" selectQuery [];
  λ log, (process_rows (rows_fields rows) (rows_values rows), log).

Definition columns_sql (schema tableName : string) : string := "
		SELECT column_name 
		FROM information_schema.columns
		WHERE table_schema = '" +:+ schema +:+ "'
		AND table_name = '" +:+ tableName +:+ "'
	".
Fixpoint filter_columns (rows : list (res string (list any))) (toRemove : list string) : res rag_error (list string) :=
  match rows with
  | [] => Ok []
  | Ok [AStr column] :: rows =>
      let? rest := filter_columns rows toRemove in
      Ok (if bool_decide (column ∈ toRemove) then rest else column :: rest)
  | Err e :: _ => Err (RagFailed "failed to scan column name" e)
  | Ok _ :: _ => Err (RagFailed "failed to scan column name" "cannot scan")
  end.
Definition queryAndFilterColumnNames (schema tableName : string) (toRemove : list string) : M (list string) :=
  do rows <- query "failed to get column names" (columns_sql schema tableName) [];
  λ log, (filter_columns (rows_values rows) toRemove, log).

(** ** The API *)

Definition api_config (c : Config) (path : string) (timeout : Z) : RequestConfig :=
  let d := DefaultRequestConfig "POST" (APIURL c +:+ path) in {|
  rq_Headers := {["Authorization" := ["Bearer " +:+ APIKey c]]}; rq_ResponseHandler := rq_ResponseHandler d;
  rq_Method := rq_Method d; rq_URL := rq_URL d; rq_Timeout := timeout; rq_MaxRetries := rq_MaxRetries d;
  rq_InitialBackoff := rq_InitialBackoff d; rq_MaxBackoff := rq_MaxBackoff d; rq_RetryEnabled := rq_RetryEnabled d |}.

Definition member (key value : string) : string := quote key +:+ ":" +:+ value.

(** The bodies, in the order of the fields of their structs. *)
Definition embedding_request (c : Config) (input : list string) : string :=
  "{" +:+ Join [member "model" (json_string (ModelID c));
                member "input" ("[" +:+ Join (json_string <$> input) "," +:+ "]")] "," +:+ "}".
Definition generate_request (c : Config) (prompt : string) : string :=
  "{" +:+ Join [member "options" "null"; member "model" (json_string (ModelID c)); member "prompt" (json_string prompt);
                member "suffix" (json_string ""); member "system" (json_string ""); member "template" (json_string "");
                member "format" (json_string "json"); member "stream" "false"] "," +:+ "}".

Definition api_call (config : RequestConfig) (body : string) : res rag_error string :=
  match Webhook.Request config (PBytes body) with
  | (_, Some e, _) => Err (RagRequest e)
  | (Some response, None, _) => Ok (resp_Body response)
  | (None, None, _) => Err RagPanic
  end.

Definition FetchEmbedding (c : Config) (input : list string) : res rag_error (list Vector) :=
  if bool_decide (input = []) then Err (RagFailed "input is empty" "") else
  let? body := api_call (api_config c (EmbeddingsPath c) (5 * second)) (embedding_request c input) in
  match decode_embeddings body with
  | None => Err (RagFailed "failed to unmarshal response" "")
  | Some embeddings => Ok embeddings
  end.

Definition Generate (c : Config) (prompt : string) : res rag_error string :=
  api_call (api_config c (GeneratePath c) (60 * second)) (generate_request c prompt).

Definition lift {A} (r : res rag_error A) : M A := λ log, (r, log).

(** ** Creating embeddings *)

(** The query that reads the contents. *)
Definition content_query (c : Config) (contentSelectQuery : list string) : M string :=
  match contentSelectQuery with
  | [] => ret ("SELECT " +:+ TablePrimaryKeyCol c +:+ ", content FROM " +:+ TableName c)
  | q :: _ =>
      if bool_decide (q = "") then
        let '(schema, tableName) := splitSchemaTableName (TableName c) in
        do columns <- queryAndFilterColumnNames schema tableName ["embedding"; "content"];
        ret ("SELECT " +:+ Join columns ", " +:+ " FROM " +:+ TableName c)
      else ret q
  end.

(** The loop over the rows; it logs [embedding[0]], which panics when there is none. *)
Fixpoint update_all (c : Config) (rows : list Embedding) (embeddings : list Vector) : M unit :=
  match rows, embeddings with
  | row :: rows, embedding :: embeddings =>
      if bool_decide (length embedding = 0%nat) then fail RagPanic else
      do _ <- updateEmbedding c embedding (emb_Content row) (emb_PK row);
      update_all c rows embeddings
  | _, _ => ret tt
  end.

Definition CreateEmbedding (c : Config) (contentSelectQuery : list string) : M unit :=
  do _ <- ensureTableConfig c;
  do query <- content_query c contentSelectQuery;
  do rows <- queryAndProcessEmbeddingContents query;
  do embeddings <- lift (FetchEmbedding c (emb_Content <$> rows));
  if bool_decide (length rows = length embeddings) then update_all c rows embeddings
  else fail (RagFailed "mismatch between contents and embeddings length" "").

(** ** Retrieval *)

Definition retrieve_sql (c : Config) : string :=
  "SELECT id, content, embedding FROM " +:+ TableName c +:+ " ORDER BY embedding <=> $1 LIMIT $2".
Fixpoint scan_rows (rows : list (res string (list any))) : res rag_error (list Embedding) :=
  match rows with
  | [] => Ok []
  | Err e :: _ => Err (RagFailed "failed to scan row" e)
  | Ok values :: rows =>
      match scan_embedding values with
      | Err e => Err (RagFailed "failed to scan row" e)
      | Ok (pk, content, v) =>
          let? rest := scan_rows rows in
          Ok ({| emb_PK := pk; emb_Content := content; emb_Embedding := v |} :: rest)
      end
  end.
Definition Retrieve (c : Config) (input : string) (limit : Z) : M (list Embedding) :=
  do embedding <- lift (FetchEmbedding c [input]);
  match embedding with
  | [] => fail RagPanic
  | v :: _ =>
      do rows <- query "failed to execute query" (retrieve_sql c) [RVector v; RAny (AInt KInt limit)];
      lift (scan_rows (rows_values rows))
  end.

Definition GenerateWithRetrieval (c : Config) (prompt : string) (retrievalLimit : Z) (retrievalInput : list string)
    : M string :=
  let query := match retrievalInput with q :: _ => if bool_decide (q = "") then prompt else q | [] => prompt end in
  do relevantInfo <- Retrieve c query retrievalLimit;
  lift (Generate c (constructAugmentedPrompt prompt relevantInfo)).

(** ** Runs *)

Lemma bind_ok {A B} (m : M A) (k : A → M B) log b log' :
  bind m k log = (Ok b, log') ↔ ∃ a log1, m log = (Ok a, log1) ∧ k a log1 = (Ok b, log').
Proof. unfold bind. destruct (m log) as [[a|e] log1]; naive_solver. Qed.

(** [grows m]: a computation only adds to the statements run. *)
Definition grows {A} (m : M A) : Prop := ∀ log, ∃ more, (m log).2 = log ++ more.

Lemma grows_const {A} (r : rag_log → res rag_error A) : grows (λ log, (r log, log)).
Proof. intros log. exists []. by rewrite app_nil_r. Qed.
Lemma grows_exec what sql args : grows (exec what sql args).
Proof. intros log. exists [(sql, args)]. unfold exec. by destruct (vdb_Exec _ _ _). Qed.
Lemma grows_query_bool what sql args : grows (query_bool what sql args).
Proof. intros log. exists [(sql, args)]. unfold query_bool. by destruct (vdb_QueryBool _ _ _). Qed.
Lemma grows_query what sql args : grows (query what sql args).
Proof. intros log. exists [(sql, args)]. unfold query. by destruct (vdb_Query _ _ _). Qed.
Lemma grows_bind {A B} (m : M A) (k : A → M B) : grows m → (∀ a, grows (k a)) → grows (bind m k).
Proof.
  intros Hm Hk log. unfold bind. destruct (Hm log) as [l1 E]. destruct (m log) as [[a|e] log1]; cbn in E; subst.
  - destruct (Hk a (log ++ l1)) as [l2 ->]. exists (l1 ++ l2). by rewrite app_assoc.
  - by exists l1.
Qed.
Lemma grows_add c (b : bool) what column : grows (add_column c b what column).
Proof. destruct b; [apply grows_exec | apply (grows_const (λ _, Ok tt))]. Qed.

Lemma grows_ret {A} (a : A) : grows (ret a).
Proof. apply (grows_const (λ _, Ok a)). Qed.
Lemma grows_fail {A} e : grows (@fail A e).
Proof. apply (grows_const (λ _, Err e)). Qed.

Create HintDb rag.
Hint Resolve grows_ret grows_fail grows_const grows_exec grows_query_bool grows_query grows_bind grows_add : rag.

Lemma grows_ensure c : grows (ensureTableConfig c).
Proof.
  unfold ensureTableConfig, tableExists, createTable, ensureRequiredColumnsExist.
  destruct (splitSchemaTableName _). apply grows_bind; [auto with rag|]. intros b.
  apply grows_bind; [destruct b; auto with rag|]. intros _.
  repeat (apply grows_bind; [auto with rag|intros ?]). case_match; auto with rag.
Qed.

Lemma grows_content c q : grows (content_query c q).
Proof.
  unfold content_query. destruct q as [|s q]; [auto with rag|]. case_bool_decide; [|auto with rag].
  destruct (splitSchemaTableName _). unfold queryAndFilterColumnNames.
  apply grows_bind; [|auto with rag]. apply grows_bind; [auto with rag|]. intros rows.
  apply (grows_const (λ _, filter_columns (rows_values rows) _)).
Qed.

(** The statement that writes one embedding. *)
Definition update_of (c : Config) (row : Embedding) (embedding : Vector) : string * list rag_arg :=
  (update_sql c, [RVector embedding; str (emb_Content row); RAny (emb_PK row)]).

Lemma update_all_ok c rows embeddings log log' :
  length rows = length embeddings → update_all c rows embeddings log = (Ok tt, log') →
  log' = log ++ zip_with (update_of c) rows embeddings ∧ Forall (λ v, v ≠ []) embeddings.
Proof.
  revert embeddings log. induction rows as [|row rows IH]; intros [|v vs] log Hl H; try done.
  - injection H as <-. by rewrite app_nil_r.
  - cbn [update_all] in H. case_bool_decide as Hv; [done|]. apply bind_ok in H as ([] & log1 & H1 & H).
    apply IH in H as [-> Hvs]; [|by injection Hl]. unfold updateEmbedding, exec in H1.
    destruct (vdb_Exec _ _ _); [done|]. injection H1 as <-. split; [by rewrite <-app_assoc|].
    constructor; [|done]. by intros ->.
Qed.

Lemma process_rows_ok fields rows contents :
  process_rows fields rows = Ok contents →
  Forall2 (λ r e, ∃ values, r = Ok values ∧ formatRowValues fields values = Some (emb_Content e) ∧
                            head values = Some (emb_PK e)) rows contents.
Proof.
  revert contents. induction rows as [|[values|e] rows IH]; intros contents H; cbn [process_rows] in H; [|..|done].
  - injection H as <-. constructor.
  - destruct (formatRowValues fields values) as [content|] eqn:Hf; [|done]. destruct values as [|pk values]; [done|].
    apply res_bind_ok in H as (rest & Hr & H). injection H as <-. constructor; [|by apply IH]. by exists (pk :: values).
Qed.

(** A successful run reads the contents with one query and then, for every row
    in order and nothing else, writes the row's content and the vector the API gave
    for it under the row's key; the API is asked once, for all contents. *)
Theorem create_updates c q log log' :
  CreateEmbedding c q log = (Ok tt, log') →
  ∃ setup sel rows contents embeddings,
    log' = log ++ setup ++ (sel, []) :: zip_with (update_of c) contents embeddings ∧
    vdb_Query (log ++ setup) sel [] = Ok rows ∧
    Forall2 (λ r e, ∃ values, r = Ok values ∧ formatRowValues (rows_fields rows) values = Some (emb_Content e) ∧
                              head values = Some (emb_PK e)) (rows_values rows) contents ∧
    FetchEmbedding c (emb_Content <$> contents) = Ok embeddings ∧
    length contents = length embeddings ∧ contents ≠ [] ∧ Forall (λ v, v ≠ []) embeddings.
Proof.
  intros H. unfold CreateEmbedding in H.
  apply bind_ok in H as ([] & log1 & H1 & H). apply bind_ok in H as (sel & log2 & H2 & H).
  apply bind_ok in H as (contents & log3 & H3 & H). apply bind_ok in H as (embeddings & log4 & H4 & H).
  unfold lift in H4. injection H4 as H4 <-. case_bool_decide as Hl; [|done].
  destruct (grows_ensure c log) as [l1 E1]. rewrite H1 in E1. cbn in E1. subst log1.
  destruct (grows_content c q (log ++ l1)) as [l2 E2]. rewrite H2 in E2. cbn in E2. subst log2.
  unfold queryAndProcessEmbeddingContents in H3. apply bind_ok in H3 as (rows & log5 & Hq & H3).
  unfold query in Hq. destruct (vdb_Query _ sel []) as [rows'|] eqn:Hrows; [|done]. injection Hq as -> <-.
  injection H3 as H3 <-. apply update_all_ok in H as [-> Hne]; [|done].
  exists (l1 ++ l2), sel, rows, contents, embeddings. split_and!; try done.
  - by rewrite <-!app_assoc.
  - by rewrite app_assoc.
  - by apply process_rows_ok.
  - intros ->. done.
Qed.

(** Without a query of its own, a run takes the stored content for the input, but
    what it embeds and writes back has the names and the key around it: the content
    grows with every run. *)
Theorem content_grows fields pk s content :
  length fields = 2%nat → formatRowValues fields [pk; AStr s] = Some content →
  (len s < len content)%nat ∧ ∃ key, content = key +:+ ":" +:+ Sprint_v pk +:+ "," +:+ default "" (fields !! 1%nat) +:+ ":" +:+ s.
Proof.
  intros Hf H. destruct fields as [|f [|g [|? ?]]]; try done. unfold formatRowValues in H.
  cbn [row_pairs fmap option_fmap option_map] in H. apply (inj Some) in H. subst content.
  change (Sprint_v (AStr s)) with s. rewrite Join_cons. change (Join [?x] _) with x.
  change (default "" ([f; g] !! 1%nat)) with g. split.
  - rewrite !len_app. change (len ":") with 1%nat. lia.
  - exists f. by rewrite !app_assoc_str.
Qed.

(** ** The columns *)

(** A successful check has added exactly the columns that were missing, and has seen
    the column of embeddings at the end. *)
Theorem ensure_adds c log log' :
  ensureRequiredColumnsExist c log = (Ok tt, log') →
  let '(schema, table) := splitSchemaTableName (TableName c) in
  let args := [str schema; str table] in
  ∃ pk content embedding,
    log' = log ++
      [(column_exists_sql (TablePrimaryKeyCol c), args); (column_exists_sql "content", args); (column_exists_sql "embedding", args)] ++
      (if negb pk && negb (bool_decide (TablePrimaryKeyCol c = "")) then [(add_column_sql c (pk_definition c), [])] else []) ++
      (if negb content then [(add_column_sql c "content TEXT", [])] else []) ++
      (if negb embedding then [(add_column_sql c (vector_definition c), [])] else []) ++
      [(column_exists_sql "embedding", args)] ∧
    vdb_QueryBool log (column_exists_sql (TablePrimaryKeyCol c)) args = Ok pk ∧
    vdb_QueryBool (removelast log') (column_exists_sql "embedding") args = Ok true.
Proof.
  assert (∀ what sql args log b log', query_bool what sql args log = (Ok b, log') →
            log' = log ++ [(sql, args)] ∧ vdb_QueryBool log sql args = Ok b) as Hq.
  { intros what sql args l b l'. unfold query_bool. destruct (vdb_QueryBool _ _ _); [|done]. by intros [= -> <-]. }
  assert (∀ b what column log log', add_column c b what column log = (Ok tt, log') →
            log' = log ++ (if (b : bool) then [(add_column_sql c column, [])] else [])) as Ha.
  { intros [|] what column l l'; cbn; [|intros [= <-]; by rewrite app_nil_r].
    unfold exec. destruct (vdb_Exec _ _ _); [done|]. by intros [= <-]. }
  intros H. unfold ensureRequiredColumnsExist in H. destruct (splitSchemaTableName _) as [schema table]. cbv zeta in *.
  apply bind_ok in H as (pk & log1 & H1 & H). apply bind_ok in H as (content & log2 & H2 & H).
  apply bind_ok in H as (embedding & log3 & H3 & H). apply bind_ok in H as ([] & log4 & H4 & H).
  apply bind_ok in H as ([] & log5 & H5 & H). apply bind_ok in H as ([] & log6 & H6 & H).
  apply bind_ok in H as (ok & log7 & H7 & H). destruct ok; [|done]. injection H as ->.
  apply Hq in H1 as [-> Hpk], H2 as [-> _], H3 as [-> _], H7 as [-> Hend].
  apply Ha in H4 as ->, H5 as ->, H6 as ->. exists pk, content, embedding. split_and!; [|done|].
  - by rewrite <-!app_assoc.
  - by rewrite removelast_last.
Qed.

(** An empty table is an error: the API is not asked for nothing. *)
Lemma no_rows c : FetchEmbedding c [] = Err (RagFailed "input is empty" "").
Proof. done. Qed.

End Rag.

#[local] Instance level_db : VectorDB := {|
  vdb_Exec := λ _ _ _, None; vdb_QueryBool := λ _ _ _, Ok true;
  vdb_Query := λ _ _ _, Ok {| rows_fields := ["id"; "content"]; rows_values := [Ok [AInt KInt64 7; AStr "a tale"]] |};
  vdb_RegisterTypes := None |}.
#[local] Instance one_vector : RagDecode := {|
  decode_embeddings := λ _, Some [[S754_zero false]];
  scan_embedding := λ _, Err "cannot scan" |}.
#[local] Instance answering : Network := {| request_ok := λ _ _, true; client_Do := λ _ _ _, Answer 200 "{}" |}.
#[local] Instance no_waits : Backoff := {| waits := λ _ _ _, [] |}.
Definition demo_config : Config := DefaultConfig (λ _, "").

Lemma create_updates_witness :
  let log' := (CreateEmbedding (GF := integral_floats) (GR := range_up) demo_config [] []).2 in
  last log' = Some (update_sql demo_config, [RVector [S754_zero false]; str "id:7,content:a tale"; RAny (AInt KInt64 7)]) ∧
  ∃ setup sel contents embeddings, log' = setup ++ (sel, []) :: zip_with (update_of demo_config) contents embeddings ∧ contents ≠ [].
Proof.
  intros log'. split; [vm_compute; reflexivity|].
  destruct (create_updates (GF := integral_floats) (GR := range_up) demo_config [] [] log')
    as (setup & sel & rows & contents & embeddings & E & _ & _ & _ & _ & Hne & _); [vm_compute; reflexivity|].
  by exists setup, sel, contents, embeddings.
Defined.
