(* ===== verification/Nats.v ===== *)
(** * Nats: the NATS peer, [pkg/pipeline/peer/nats/peer.go].

    Its defaults and options, the stream it makes sure of, the subjects it
    publishes under, and what becomes of the messages it fetches. The answers of
    the client library and the decoder of JSON are arguments. *)

From S2P Require Import Prelude GoStrings GoStringFacts GoAny Cdc.
Local Open Scope Z_scope.

Definition or_else (s t : string) : string := if bool_decide (s = "") then t else s.

(** The name that NATS and Kafka publish an event under. *)
Definition subject_of (prefix : string) (event : Event) : string :=
  let src := pay_Source (ev_Payload event) in
  prefix +:+ "." +:+ src_Schema src +:+ "." +:+ src_Table src +:+ "." +:+ pay_Op (ev_Payload event).

Record TLS := { tls_Enabled : bool; tls_CertFile : string; tls_KeyFile : string; tls_CAFile : string }.
Record Config := {
  nc_Servers : list string; nc_Stream : string; nc_SubjectPrefix : string; nc_Username : string;
  nc_Password : string; nc_TLS : TLS
}.
Record StreamConfig := { sc_Name : string; sc_Subjects : list string; sc_Storage : string; sc_Replicas : Z }.

(** The options of a connection. *)
Inductive option_ :=
| OTimeout (ns : Z) | OPingInterval (ns : Z) | OMaxPings (n : Z) | ORetryOnFailedConnect (b : bool) | OMaxReconnects (n : Z)
| OUserInfo (user password : string) | ORootCAs (file : string) | OClientCert (cert key : string).

Definition second : Z := 1000000000.

Definition defaultOptions (c : Config) : list option_ :=
  [OTimeout (5 * second); OPingInterval (10 * second); OMaxPings 3; ORetryOnFailedConnect true; OMaxReconnects (-1)] ++
  (if negb (bool_decide (nc_Username c = "")) && negb (bool_decide (nc_Password c = ""))
   then [OUserInfo (nc_Username c) (nc_Password c)] else []) ++
  (let t := nc_TLS c in
   if tls_Enabled t then
     if negb (bool_decide (tls_CAFile t = "")) then [ORootCAs (tls_CAFile t)]
     else if negb (bool_decide (tls_CertFile t = "")) && negb (bool_decide (tls_KeyFile t = ""))
     then [OClientCert (tls_CertFile t) (tls_KeyFile t)] else []
   else []).

(** The broker: which servers take the connection, and the answers of JetStream.
    [FileStorage] is the value of the library's constant. *)
Inductive info_error := ErrStreamNotFound | OtherError.
Class Server := {
  DefaultURL : string;
  FileStorage : string;
  nats_Connect : string → list option_ → bool;
  JetStream : bool;
  StreamInfo : string → res info_error StreamConfig;
  UpdateStream : StreamConfig → bool;
  AddStream : StreamConfig → bool
}.

Inductive nats_error :=
| ConnectServer | CreateJetStream | UpdateFailed | StreamInfoFailed | CreateStream.

(** What was done to the streams. *)
Inductive action := Updated (c : StreamConfig) | Added (c : StreamConfig).

Definition streamConfigEqual (a b : StreamConfig) : bool :=
  if negb (bool_decide (sc_Name a = sc_Name b)) || negb (bool_decide (sc_Storage a = sc_Storage b))
     || negb (sc_Replicas a =? sc_Replicas b) then false
  else if negb (bool_decide (length (sc_Subjects a) = length (sc_Subjects b))) then false
  else forallb (λ xy, bool_decide (xy.1 = xy.2)) (zip (sc_Subjects a) (sc_Subjects b)).

Section Connect.
Context `{SRV : Server}.

Definition wanted_stream (stream subject : string) : StreamConfig :=
  {| sc_Name := stream; sc_Subjects := [subject]; sc_Storage := FileStorage; sc_Replicas := 1 |}.

Definition ensureStream (stream subject : string) : res nats_error (list action) :=
  let config := wanted_stream stream subject in
  match StreamInfo stream with
  | Ok info =>
      if negb (streamConfigEqual info config) then
        if UpdateStream config then Ok [Updated config] else Err UpdateFailed
      else Ok []
  | Err ErrStreamNotFound => if AddStream config then Ok [Added config] else Err CreateStream
  | Err OtherError => Err StreamInfoFailed
  end.

(** The configuration with its defaults. *)
Definition with_defaults (c : Config) : Config :=
  let prefix := or_else (nc_SubjectPrefix c) "pigo" in
  {| nc_Servers := match nc_Servers c with [] => [DefaultURL] | servers => servers end;
     nc_Stream := or_else (nc_Stream c) (prefix +:+ "-stream"); nc_SubjectPrefix := prefix;
     nc_Username := nc_Username c; nc_Password := nc_Password c; nc_TLS := nc_TLS c |}.
Definition subject (c : Config) : string := nc_SubjectPrefix c +:+ ".>".

(** The settings of the peer, the server it is connected to, and what was done. *)
Definition Connect (c : Config) : res nats_error (Config * string * list action) :=
  let c := with_defaults c in
  match List.find (λ server, nats_Connect server (defaultOptions c)) (nc_Servers c) with
  | None => Err ConnectServer
  | Some server =>
      if JetStream then
        let? actions := ensureStream (nc_Stream c) (subject c) in Ok (c, server, actions)
      else Err CreateJetStream
  end.

End Connect.

(** ** Receiving *)

(** The channel with what was ever put into it, and the messages acknowledged and
    refused, oldest first. *)
Record Inbox := { in_queue : list Event; in_sent : list Event; in_acked : list string; in_naked : list string }.
Definition capacity : nat := 100.

Section Receive.
Context (decode : string → option Event).

(** One message of a batch. *)
Definition process_message (st : Inbox) (data : string) : Inbox :=
  match decode data with
  | None => {| in_queue := in_queue st; in_sent := in_sent st; in_acked := in_acked st; in_naked := in_naked st ++ [data] |}
  | Some event =>
      if (length (in_queue st) <? capacity)%nat then
        {| in_queue := in_queue st ++ [event]; in_sent := in_sent st ++ [event];
           in_acked := in_acked st ++ [data]; in_naked := in_naked st |}
      else {| in_queue := in_queue st; in_sent := in_sent st; in_acked := in_acked st; in_naked := in_naked st ++ [data] |}
  end.

(** Batches arrive and a reader takes events, in any order. *)
Inductive event_step := Fetched (msgs : list string) | Taken.
Definition run_step (st : Inbox) (s : event_step) : Inbox :=
  match s with
  | Fetched msgs => foldl process_message st msgs
  | Taken => {| in_queue := tail (in_queue st); in_sent := in_sent st; in_acked := in_acked st; in_naked := in_naked st |}
  end.
Definition run (steps : list event_step) : Inbox :=
  foldl run_step {| in_queue := []; in_sent := []; in_acked := []; in_naked := [] |} steps.

(** Acknowledged are the messages whose events were put into the channel. *)
Definition consistent (fetched : list string) (st : Inbox) : Prop :=
  Forall2 (λ data event, decode data = Some event) (in_acked st) (in_sent st) ∧
  (length (in_queue st) ≤ capacity)%nat ∧ in_queue st `suffix_of` in_sent st ∧
  in_acked st ++ in_naked st ≡ₚ fetched.

Lemma process_message_consistent fetched st data :
  consistent fetched st → consistent (fetched ++ [data]) (process_message st data).
Proof.
  intros (Ha & Hl & Hs & Hp). unfold process_message. destruct (decode data) as [event|] eqn:Hd.
  - destruct (Nat.ltb_spec (length (in_queue st)) capacity); split_and!; cbn.
    + apply Forall2_app; [done|]. by repeat constructor.
    + rewrite length_app. cbn. lia.
    + destruct Hs as [l ->]. exists l. by rewrite app_assoc.
    + rewrite <-Hp, <-!app_assoc. by rewrite (Permutation_app_comm [data]).
    + done.
    + done.
    + done.
    + by rewrite <-Hp, app_assoc.
  - split_and!; cbn; [done..|]. by rewrite <-Hp, app_assoc.
Qed.

Lemma process_batch_consistent msgs fetched st :
  consistent fetched st → consistent (fetched ++ msgs) (foldl process_message st msgs).
Proof.
  revert fetched st. induction msgs as [|data msgs IH]; intros fetched st H; [by rewrite app_nil_r|].
  cbn [foldl]. rewrite (app_assoc _ [data] msgs : fetched ++ data :: msgs = _). by apply IH, process_message_consistent.
Qed.

Definition fetched_of (steps : list event_step) : list string :=
  concat ((λ s, match s with Fetched msgs => msgs | Taken => [] end) <$> steps).

(** A message is acknowledged exactly when its event has been put into the
    channel, in the same order, and every message fetched is either acknowledged
    or given back, once; the channel never holds more than its capacity. *)
Theorem acknowledged_are_queued steps : consistent (fetched_of steps) (run steps).
Proof.
  unfold run. induction steps as [|s steps IH] using rev_ind.
  { split_and!; cbn; [constructor|lia|by exists []|done]. }
  unfold fetched_of in *. rewrite foldl_app, fmap_app, concat_app. cbn [foldl fmap list_fmap concat]. rewrite app_nil_r.
  destruct s as [msgs|]; cbn [run_step]; [by apply process_batch_consistent|]. rewrite app_nil_r.
  destruct IH as (Ha & Hl & (l & Hs) & Hp). split_and!; cbn; [done| | |done].
  - destruct (in_queue _); cbn in *; lia.
  - rewrite Hs. destruct (in_queue _) as [|e q]; cbn; [by exists l|]. exists (l ++ [e]). by rewrite <-app_assoc.
Qed.

End Receive.

Lemma streamConfigEqual_spec a b : streamConfigEqual a b = true ↔ a = b.
Proof.
  unfold streamConfigEqual. destruct a as [an asub ast ar], b as [bn bsub bst br]. cbn.
  destruct (_ || _ || _) eqn:H1.
  { split; [done|]. intros [= -> -> -> ->]. by rewrite !bool_decide_eq_true_2, Z.eqb_refl in H1 by done. }
  bool_simp. apply Z.eqb_eq in H0 as ->. subst.
  case_bool_decide as Hlen; cbn [negb].
  - assert (forallb (λ xy, bool_decide (xy.1 = xy.2)) (zip asub bsub) = true ↔ asub = bsub) as ->; [|naive_solver].
    revert bsub Hlen. induction asub as [|x asub IH]; intros [|y bsub] Hlen; try done. cbn [zip_with forallb].
    rewrite andb_true_iff, IH, bool_decide_eq_true by (cbn in Hlen; lia). naive_solver.
  - split; [done|]. by intros [= ->].
Qed.

(** When the stream was made sure of, it has the configuration wanted: it had
    it already, or was updated or added with it. *)
Theorem ensureStream_spec `{SRV : Server} stream subj actions :
  ensureStream stream subj = Ok actions →
  let config := wanted_stream stream subj in
  (actions = [] ∧ StreamInfo stream = Ok config) ∨
  (actions = [Updated config] ∧ UpdateStream config = true ∧ ∃ info, StreamInfo stream = Ok info ∧ info ≠ config) ∨
  (actions = [Added config] ∧ AddStream config = true ∧ StreamInfo stream = Err ErrStreamNotFound).
Proof.
  unfold ensureStream. destruct (StreamInfo stream) as [info|[]] eqn:Hi; [| |done].
  - destruct (streamConfigEqual info _) eqn:He; cbn [negb].
    + apply streamConfigEqual_spec in He as ->. intros [= <-]. by left.
    + destruct (UpdateStream _) eqn:Hu; [|done]. intros [= <-]. right. left. split_and!; [done..|]. exists info.
      split; [done|]. intros E. apply streamConfigEqual_spec in E. congruence.
  - destruct (AddStream _) eqn:Ha; [|done]. intros [= <-]. by right; right.
Qed.

(** ** Subjects *)

Definition no_dot (s : string) : Prop := mem_byte s "." = false.

(** Names without dots can be read back from the subject of an event. *)
Theorem subject_determines prefix e e' :
  let names e := [src_Schema (pay_Source (ev_Payload e)); src_Table (pay_Source (ev_Payload e)); pay_Op (ev_Payload e)] in
  Forall no_dot (prefix :: names e) → Forall no_dot (names e') →
  subject_of prefix e = subject_of prefix e' → names e = names e'.
Proof.
  intros names Hd Hd' E.
  assert (∀ e, subject_of prefix e = Join (prefix :: names e) (String "." "")) as Hj by done.
  apply Forall_cons in Hd as [Hp Hd]. rewrite !Hj in E. apply (f_equal (λ s, Split s ".")) in E.
  rewrite !Split_Join in E by (try done; by constructor). exact (f_equal tail E).
Qed.
