(* ===== verification/NatsPeer.v ===== *)
(** * NatsPeer: the life of the NATS peer, [pkg/pipeline/peer/nats/peer.go].

    Its fields through connecting, publishing, subscribing and disconnecting, and
    the way of an event from a publishing peer through the stream to the channel of
    a subscribing one: settings laid over those of an earlier peer, the JSON of
    file EventJson, messages refused and delivered again. *)

From S2P Require Import Prelude GoStrings GoStringFacts GoAny Cdc Json JsonFacts EventJson.
From S2P Require Import Nats.
Local Open Scope Z_scope.

(** ** Settings *)

(** What the JSON of a configuration says; what it leaves out is kept. *)
Record GivenTLS := { gt_Enabled : option bool; gt_CertFile : option string; gt_KeyFile : option string; gt_CAFile : option string }.
Record Given := {
  gn_Servers : option (list string); gn_Stream : option string; gn_SubjectPrefix : option string;
  gn_Username : option string; gn_Password : option string; gn_TLS : GivenTLS
}.
Definition overlay_tls (g : GivenTLS) (t : TLS) : TLS := {|
  tls_Enabled := default (tls_Enabled t) (gt_Enabled g); tls_CertFile := default (tls_CertFile t) (gt_CertFile g);
  tls_KeyFile := default (tls_KeyFile t) (gt_KeyFile g); tls_CAFile := default (tls_CAFile t) (gt_CAFile g) |}.
Definition overlay (g : Given) (c : Config) : Config := {|
  nc_Servers := default (nc_Servers c) (gn_Servers g); nc_Stream := default (nc_Stream c) (gn_Stream g);
  nc_SubjectPrefix := default (nc_SubjectPrefix c) (gn_SubjectPrefix g); nc_Username := default (nc_Username c) (gn_Username g);
  nc_Password := default (nc_Password c) (gn_Password g); nc_TLS := overlay_tls (gn_TLS g) (nc_TLS c) |}.

(** ** The peer *)

(** [np_nc] and [np_js] are whether the pointers are set. *)
Record Peer := { np_nc : bool; np_js : bool; np_stream : string; np_subject : string; np_Config : Config }.
Definition zero_config : Config := {|
  nc_Servers := []; nc_Stream := ""; nc_SubjectPrefix := ""; nc_Username := ""; nc_Password := "";
  nc_TLS := {| tls_Enabled := false; tls_CertFile := ""; tls_KeyFile := ""; tls_CAFile := "" |} |}.
Definition new_peer : Peer := {| np_nc := false; np_js := false; np_stream := ""; np_subject := ""; np_Config := zero_config |}.

Record ConsumerConfig := { cc_Durable : string; cc_AckPolicy : string; cc_MaxDeliver : Z; cc_AckWait : Z; cc_FilterSubject : string }.

(** The client library beyond file Nats: publishing to the stream, the consumer,
    the subscription, the constant for explicit acknowledgement. *)
Class JetStreamContext := {
  Publish : string → string → bool;
  AckExplicitPolicy : string;
  AddConsumer : string → ConsumerConfig → bool;
  PullSubscribe : string → string → bool
}.

Inductive peer_error :=
| ErrConnNotInitialized | ConnectFailed (e : nats_error) | UnmarshalConfig | MarshalFailed | PublishFailed
| CreateConsumer | CreateSubscription.

Section Peer.
Context `{SRV : Server} `{JS : JetStreamContext} `{GF : GoFloat}.

(** [Connect]; [None] for a configuration that is no JSON of its type. *)
Definition connect (given : option Given) (p : Peer) : option peer_error * Peer :=
  match given with
  | None => (Some UnmarshalConfig, p)
  | Some given =>
      let c := with_defaults (overlay given (np_Config p)) in
      let with_conn nc js stream := {| np_nc := nc; np_js := js; np_stream := stream; np_subject := subject c; np_Config := c |} in
      match List.find (λ server, nats_Connect server (defaultOptions c)) (nc_Servers c) with
      | None => (Some (ConnectFailed ConnectServer), with_conn false (np_js p) (np_stream p))
      | Some _ =>
          if JetStream then
            match ensureStream (nc_Stream c) (subject c) with
            | Ok _ => (None, with_conn true true (nc_Stream c))
            | Err e => (Some (ConnectFailed e), with_conn true true (np_stream p))
            end
          else (Some (ConnectFailed CreateJetStream), with_conn true false (np_stream p))
      end
  end.

(** [Pub]: the error, and the message that was stored, if any. *)
Definition pub (fields : option (list Field)) (event : Event) (p : Peer) : option peer_error * option (string * string) :=
  if negb (np_js p) then (Some ErrConnNotInitialized, None) else
  let subject := subject_of (nc_SubjectPrefix (np_Config p)) event in
  match MarshalEvent fields event with
  | None => (Some MarshalFailed, None)
  | Some data => if Publish subject data then (None, Some (subject, data)) else (Some PublishFailed, None)
  end.

Definition consumer_config (p : Peer) : ConsumerConfig := {|
  cc_Durable := nc_SubjectPrefix (np_Config p) +:+ "-consumer"; cc_AckPolicy := AckExplicitPolicy; cc_MaxDeliver := 3;
  cc_AckWait := 60 * second; cc_FilterSubject := np_subject p |}.

(** [Sub], up to the start of its goroutine: the consumer it reads from. *)
Definition sub (p : Peer) : res peer_error ConsumerConfig :=
  if negb (np_js p) then Err ErrConnNotInitialized
  else if negb (AddConsumer (np_stream p) (consumer_config p)) then Err CreateConsumer
  else if negb (PullSubscribe (np_subject p) (cc_Durable (consumer_config p))) then Err CreateSubscription
  else Ok (consumer_config p).

(** [Disconnect]: whether the connection is closed; the fields stay. *)
Definition disconnect (p : Peer) : bool := np_nc p.

(** The message of [processMessages]: the event it decodes to. *)
Definition decode (data : string) : option Event := fst <$> UnmarshalEvent data.

End Peer.

(** ** Messages delivered again *)

(** Whether a message refused on its [n]-th delivery is delivered again. *)
Class Redelivery := { redelivers : ConsumerConfig → nat → bool }.
Class RedeliveryLaw `{Redelivery} :=
  redelivers_below cc n : 0 < cc_MaxDeliver cc → redelivers cc n = (Z.of_nat n <? cc_MaxDeliver cc).

(** The messages of the stream that wait, with the deliveries they have had; those
    that were given up; the inbox of file Nats. *)
Record Queue := { q_waiting : list (string * nat); q_given_up : list string; q_inbox : Inbox }.
Definition new_queue : Queue :=
  {| q_waiting := []; q_given_up := []; q_inbox := {| in_queue := []; in_sent := []; in_acked := []; in_naked := [] |} |}.

Inductive queue_step := Stored (data : string) | Fetch (n : nat) | Take.

Section Redeliver.
Context (decode : string → option Event) `{RD : Redelivery} (cc : ConsumerConfig).

(** Whether a message is given back: no event, or no room. *)
Definition refused (inbox : Inbox) (data : string) : bool :=
  match decode data with None => true | Some _ => negb (length (in_queue inbox) <? capacity)%nat end.

(** One message of a batch, and what the server does with one given back. *)
Definition deliver (q : Queue) (m : string * nat) : Queue :=
  let inbox := process_message decode (q_inbox q) m.1 in
  let n := S m.2 in
  if negb (refused (q_inbox q) m.1) then {| q_waiting := q_waiting q; q_given_up := q_given_up q; q_inbox := inbox |}
  else if redelivers cc n then {| q_waiting := q_waiting q ++ [(m.1, n)]; q_given_up := q_given_up q; q_inbox := inbox |}
  else {| q_waiting := q_waiting q; q_given_up := q_given_up q ++ [m.1]; q_inbox := inbox |}.

(** A batch is at most ten messages; the server may send fewer. *)
Definition batch (n : nat) (q : Queue) : list (string * nat) := firstn (Nat.min n 10) (q_waiting q).
Definition queue_run_step (q : Queue) (s : queue_step) : Queue :=
  match s with
  | Stored data => {| q_waiting := q_waiting q ++ [(data, 0%nat)]; q_given_up := q_given_up q; q_inbox := q_inbox q |}
  | Fetch n =>
      foldl deliver {| q_waiting := skipn (Nat.min n 10) (q_waiting q); q_given_up := q_given_up q; q_inbox := q_inbox q |} (batch n q)
  | Take => {| q_waiting := q_waiting q; q_given_up := q_given_up q; q_inbox := run_step decode (q_inbox q) Taken |}
  end.
Definition queue_run (steps : list queue_step) (q : Queue) : Queue := foldl queue_run_step q steps.

Definition stored (steps : list queue_step) : list string :=
  omap (λ s, match s with Stored data => Some data | _ => None end) steps.

(** ** What becomes of the messages *)

(** Every message stored is acknowledged, waits or was given up; the acknowledged
    ones are those whose events entered the channel, which holds a hundred. *)
Definition kept (all : list string) (q : Queue) : Prop :=
  in_acked (q_inbox q) ++ (q_waiting q).*1 ++ q_given_up q ≡ₚ all ∧
  Forall2 (λ data event, decode data = Some event) (in_acked (q_inbox q)) (in_sent (q_inbox q)) ∧
  (length (in_queue (q_inbox q)) ≤ capacity)%nat ∧ in_queue (q_inbox q) `suffix_of` in_sent (q_inbox q).

Lemma process_refused inbox data :
  refused inbox data = true → process_message decode inbox data =
    {| in_queue := in_queue inbox; in_sent := in_sent inbox; in_acked := in_acked inbox; in_naked := in_naked inbox ++ [data] |}.
Proof. unfold refused, process_message. destruct (decode data); [|done]. by destruct (_ <? _)%nat. Qed.

Lemma process_taken inbox data :
  refused inbox data = false → ∃ event, decode data = Some event ∧ (length (in_queue inbox) < capacity)%nat ∧
    process_message decode inbox data = {| in_queue := in_queue inbox ++ [event]; in_sent := in_sent inbox ++ [event];
      in_acked := in_acked inbox ++ [data]; in_naked := in_naked inbox |}.
Proof.
  unfold refused, process_message. destruct (decode data) as [event|]; [|done].
  destruct (Nat.ltb_spec (length (in_queue inbox)) capacity); [|done]. intros _. by exists event.
Qed.

Lemma deliver_kept all q m : kept all q → kept (all ++ [m.1]) (deliver q m).
Proof.
  intros (Hp & Ha & Hl & Hs). unfold deliver. destruct (refused (q_inbox q) m.1) eqn:Hr; cbn [negb].
  - rewrite (process_refused _ _ Hr). destruct (redelivers cc (S m.2)); unfold kept; cbn; (split; [|done]); rewrite <-Hp.
    + rewrite fmap_app. cbn. solve_Permutation.
    + solve_Permutation.
  - destruct (process_taken _ _ Hr) as (e & Hd & Hroom & ->). unfold kept. cbn. split_and!.
    + rewrite <-Hp. solve_Permutation.
    + apply Forall2_app; [done|]. by repeat constructor.
    + rewrite length_app. cbn. lia.
    + destruct Hs as [l ->]. exists l. by rewrite app_assoc.
Qed.

Lemma batch_kept ms : ∀ all q, kept all q → kept (all ++ ms.*1) (foldl deliver q ms).
Proof.
  induction ms as [|m ms IH]; intros all q H; [by rewrite app_nil_r|]. cbn [foldl]. rewrite fmap_cons, cons_middle, app_assoc.
  by apply IH, deliver_kept.
Qed.

Lemma kept_perm all all' q : all ≡ₚ all' → kept all q → kept all' q.
Proof. intros Hall (Hp & H). split; [by rewrite Hp|done]. Qed.

Lemma step_kept all q s :
  kept all q → kept (all ++ match s with Stored data => [data] | _ => [] end) (queue_run_step q s).
Proof.
  intros H. pose proof H as (Hp & Ha & Hl & Hs). destruct s as [data|n|]; cbn [queue_run_step].
  - unfold kept. cbn. split; [|done]. rewrite <-Hp, fmap_app. cbn. solve_Permutation.
  - rewrite app_nil_r. unfold batch. set (k := Nat.min n 10). eapply kept_perm; [|apply batch_kept; split; [reflexivity|done]]. cbn.
    assert ((q_waiting q).*1 = (firstn k (q_waiting q)).*1 ++ (skipn k (q_waiting q)).*1) as E by (by rewrite <-fmap_app, firstn_skipn).
    rewrite <-Hp, E. solve_Permutation.
  - rewrite app_nil_r. unfold kept. cbn. split; [done|]. split; [done|]. destruct (in_queue (q_inbox q)) as [|e l]; cbn in *; [done|].
    split; [lia|]. destruct Hs as [l' ->]. exists (l' ++ [e]). by rewrite <-app_assoc.
Qed.

Lemma run_snoc steps s q : queue_run (steps ++ [s]) q = queue_run_step (queue_run steps q) s.
Proof. unfold queue_run. by rewrite foldl_app. Qed.

Lemma stored_snoc steps s : stored (steps ++ [s]) = stored steps ++ match s with Stored data => [data] | _ => [] end.
Proof. unfold stored. rewrite omap_app. by destruct s. Qed.

(** However storing, fetching and reading interleave, no message is lost from
    sight: it was acknowledged, and then its event entered the channel, or it
    waits, or it was given up. *)
Theorem messages_accounted steps : kept (stored steps) (queue_run steps new_queue).
Proof.
  induction steps as [|s steps IH] using rev_ind.
  - split_and!; cbn; [done|constructor|unfold capacity; lia|by exists []].
  - rewrite run_snoc, stored_snoc. by apply step_kept.
Qed.

(** ** With room for every batch *)

Fixpoint roomy (steps : list queue_step) (q : Queue) : bool :=
  match steps with
  | [] => true
  | s :: steps =>
      match s with Fetch n => (length (in_queue (q_inbox q)) + Nat.min n 10 <=? capacity)%nat | _ => true end &&
      roomy steps (queue_run_step q s)
  end.

(** The events that have entered the channel, and those of the messages that wait. *)
Definition in_order (evs : list Event) (q : Queue) : Prop :=
  q_given_up q = [] ∧ ∃ rest, evs = in_sent (q_inbox q) ++ rest ∧
    Forall2 (λ m event, decode m.1 = Some event) (q_waiting q) rest.

Lemma deliver_all ms : ∀ q evs rest,
  Forall2 (λ m event, decode m.1 = Some event) ms evs →
  (length (in_queue (q_inbox q)) + length ms ≤ capacity)%nat → q_given_up q = [] →
  Forall2 (λ m event, decode m.1 = Some event) (q_waiting q) rest →
  let q' := foldl deliver q ms in
  q_given_up q' = [] ∧ in_sent (q_inbox q') = in_sent (q_inbox q) ++ evs ∧ q_waiting q' = q_waiting q.
Proof.
  induction ms as [|m ms IH]; intros q evs rest Hd Hroom Hg Hw; [inversion Hd; subst; by rewrite app_nil_r|].
  inversion Hd as [|? e ? evs' Hm Hd']; subst. cbn [foldl length] in *.
  assert (refused (q_inbox q) m.1 = false) as Hr.
  { unfold refused. rewrite Hm. destruct (Nat.ltb_spec (length (in_queue (q_inbox q))) capacity); [done|lia]. }
  destruct (process_taken _ _ Hr) as (e' & He & _ & Hpr). rewrite Hm in He. injection He as <-.
  assert (deliver q m = {| q_waiting := q_waiting q; q_given_up := q_given_up q; q_inbox := process_message decode (q_inbox q) m.1 |})
    as -> by (unfold deliver; by rewrite Hr).
  destruct (IH {| q_waiting := q_waiting q; q_given_up := q_given_up q; q_inbox := process_message decode (q_inbox q) m.1 |}
    evs' rest Hd') as (H1 & H2 & H3); [|done|done|].
  - rewrite Hpr. cbn. rewrite length_app. cbn. lia.
  - split_and!; [exact H1| |exact H3]. rewrite H2, Hpr. cbn. by rewrite <-app_assoc.
Qed.

Lemma step_in_order evs q s :
  in_order evs q → match s with Fetch n => (length (in_queue (q_inbox q)) + Nat.min n 10 ≤ capacity)%nat | _ => True end →
  ∀ new, Forall2 (λ data event, decode data = Some event) match s with Stored data => [data] | _ => [] end new →
  in_order (evs ++ new) (queue_run_step q s).
Proof.
  intros (Hg & rest & -> & Hw) Hroom new Hnew. destruct s as [data|n|]; cbn [queue_run_step].
  - split; [done|]. exists (rest ++ new). cbn. split; [by rewrite app_assoc|]. apply Forall2_app; [done|].
    inversion Hnew as [|? e ? ? He Hnil]; subst. inversion Hnil; subst. by repeat constructor.
  - inversion Hnew; subst. rewrite app_nil_r. unfold batch. set (k := Nat.min n 10) in *.
    destruct (deliver_all (firstn k (q_waiting q))
      {| q_waiting := skipn k (q_waiting q); q_given_up := q_given_up q; q_inbox := q_inbox q |} (firstn k rest) (skipn k rest))
      as (H1 & H2 & H3); [by apply Forall2_take| |done|by apply Forall2_drop|].
    { cbn. rewrite length_take. lia. }
    split; [exact H1|]. exists (skipn k rest). rewrite H2, H3. cbn. split; [by rewrite <-app_assoc, firstn_skipn|by apply Forall2_drop].
  - inversion Hnew; subst. rewrite app_nil_r. split; [done|]. by exists rest.
Qed.

Lemma run_in_order steps : ∀ q evs new,
  in_order evs q → roomy steps q = true → Forall2 (λ data event, decode data = Some event) (stored steps) new →
  in_order (evs ++ new) (queue_run steps q).
Proof.
  induction steps as [|s steps IH]; intros q evs new Hq Hroom Hnew.
  { inversion Hnew; subst. by rewrite app_nil_r. }
  cbn [roomy] in Hroom. apply andb_true_iff in Hroom as [Hr Hroom].
  assert (stored (s :: steps) = match s with Stored data => [data] | _ => [] end ++ stored steps) as E by by destruct s.
  rewrite E in Hnew. apply Forall2_app_inv_l in Hnew as (n1 & n2 & H1 & H2 & ->). rewrite app_assoc.
  cbn [queue_run foldl]. apply (IH (queue_run_step q s)); [|done|done]. apply step_in_order; [done| |done].
  destruct s; try done. by apply Nat.leb_le.
Qed.

End Redeliver.

(** A message is given up when the channel is full at each of its deliveries, which
    follow each other at once. *)
Theorem full_channel_gives_up decode `{RD : Redelivery} `{RL : !RedeliveryLaw} cc q data :
  cc_MaxDeliver cc = 3 → length (in_queue (q_inbox q)) = capacity → q_waiting q = [(data, 0%nat)] →
  let q' := queue_run decode cc [Fetch 1; Fetch 1; Fetch 1] q in
  q_waiting q' = [] ∧ q_given_up q' = q_given_up q ++ [data] ∧ in_queue (q_inbox q') = in_queue (q_inbox q).
Proof.
  intros Hcc Hl Hw.
  assert (∀ q n, length (in_queue (q_inbox q)) = capacity → q_waiting q = [(data, n)] →
    ∃ naked, queue_run_step decode cc q (Fetch 1) =
      {| q_waiting := if redelivers cc (S n) then [(data, S n)] else [];
         q_given_up := if redelivers cc (S n) then q_given_up q else q_given_up q ++ [data];
         q_inbox := {| in_queue := in_queue (q_inbox q); in_sent := in_sent (q_inbox q);
                       in_acked := in_acked (q_inbox q); in_naked := naked |} |}) as Hstep.
  { clear -Hcc. intros q n Hl Hw. cbn [queue_run_step]. unfold batch. rewrite Hw. cbn.
    assert (refused decode (q_inbox q) data = true) as Hr by (unfold refused; rewrite Hl; by destruct (decode data)).
    unfold deliver. cbn [q_inbox fst snd]. rewrite Hr, (process_refused _ _ _ Hr). eexists. cbn. by destruct (redelivers cc (S n)). }
  cbn [queue_run foldl]. destruct (Hstep q 0%nat Hl Hw) as [n1 ->]. rewrite !redelivers_below, Hcc by (rewrite Hcc; lia). cbn [Z.of_nat].
  destruct (Hstep {| q_waiting := [(data, 1%nat)]; q_given_up := q_given_up q; q_inbox := {| in_queue := in_queue (q_inbox q);
    in_sent := in_sent (q_inbox q); in_acked := in_acked (q_inbox q); in_naked := n1 |} |} 1%nat Hl eq_refl) as [n2 E2].
  change (Z.of_nat 1 <? 3) with true. cbn iota. rewrite E2.
  rewrite !redelivers_below, Hcc by (rewrite Hcc; lia). change (Z.of_nat 2 <? 3) with true. cbn [q_given_up q_inbox in_queue in_sent in_acked].
  destruct (Hstep {| q_waiting := [(data, 2%nat)]; q_given_up := q_given_up q; q_inbox := {| in_queue := in_queue (q_inbox q);
    in_sent := in_sent (q_inbox q); in_acked := in_acked (q_inbox q); in_naked := n2 |} |} 2%nat Hl eq_refl) as [n3 E3].
  rewrite E3. rewrite !redelivers_below, Hcc by (rewrite Hcc; lia). done.
Qed.

(** ** From peer to peer *)

Section Delivery.
Context `{JS : JetStreamContext} `{GF : GoFloat} `{GJ : !GoFloatJson} `{RD : Redelivery}.

(** C26: from a publishing peer to a subscribing one: let the messages that [Pub]
    stored for the events enter the stream in that order, in any interleaving with
    fetching and reading, and let the channel have room for every batch; then no
    message is given up, and the events that enter the channel are those published,
    once each and in order, with the integers of their rows as floats. *)
Theorem nats_delivers p cc (events : list (option (list Field) * Event)) steps :
  Forall (λ fe, event_ready fe.1 fe.2 = true ∧ ∀ j, event_json fe.1 fe.2 = Some j → json_depth j <= maxNestingDepth) events →
  Forall2 (λ data fe, ∃ subject, pub fe.1 fe.2 p = (None, Some (subject, data))) (stored steps) events →
  roomy decode cc steps new_queue = true →
  let q := queue_run decode cc steps new_queue in
  let arriving := (λ fe, event_read_as fe.2) <$> events in
  q_given_up q = [] ∧ in_sent (q_inbox q) `prefix_of` arriving ∧ (q_waiting q = [] → in_sent (q_inbox q) = arriving).
Proof.
  intros Hready Hpub Hroom q arriving.
  assert (Forall2 (λ data event, decode data = Some event) (stored steps) arriving) as Hdec.
  { unfold arriving. clear -Hready Hpub GJ. induction Hpub as [|data fe l l' (subj & Hp) _ IH]; [constructor|].
    apply Forall_cons in Hready as [[Hr Hd] Hready]. rewrite fmap_cons. constructor; [|by apply IH].
    destruct (event_codec fe.1 fe.2 Hr Hd) as (data' & Em & Eu). unfold pub in Hp. destruct (negb _); [done|].
    rewrite Em in Hp. destruct (Publish _ _); [|done]. injection Hp as _ <-. unfold decode. by rewrite Eu. }
  destruct (run_in_order decode cc steps new_queue [] arriving) as (Hg & rest & E & Hw); [|done|done|].
  { split; [done|]. by exists []. }
  fold q in Hg, E, Hw. cbn [app] in E. split_and!; [done|by exists rest|]. intros Hq. rewrite Hq in Hw. inversion Hw; subst.
  by rewrite E, app_nil_r.
Qed.

End Delivery.

(** ** Settings of an earlier peer *)

Lemma with_defaults_idempotent `{SRV : Server} c : with_defaults (with_defaults c) = with_defaults c.
Proof.
  destruct c as [servers stream prefix user password tls]. unfold with_defaults, or_else; cbn.
  repeat case_bool_decide; subst; cbn; try done; destruct servers; done.
Qed.

Definition nothing_given : Given := {|
  gn_Servers := None; gn_Stream := None; gn_SubjectPrefix := None; gn_Username := None; gn_Password := None;
  gn_TLS := {| gt_Enabled := None; gt_CertFile := None; gt_KeyFile := None; gt_CAFile := None |} |}.

(** All peers of the kind share the value: one that is connected later, with
    nothing in its configuration, gets servers, stream, subjects and credentials of
    the earlier one instead of the defaults. *)
Theorem earlier_settings_kept `{SRV : Server} given p :
  let p1 := (connect (Some given) p).2 in
  np_Config (connect (Some nothing_given) p1).2 = np_Config p1.
Proof.
  assert (∀ g p, np_Config (connect (Some g) p).2 = with_defaults (overlay g (np_Config p))) as H.
  { intros g p'. unfold connect. destruct (List.find _ _); [|done]. destruct JetStream; [|done]. by destruct (ensureStream _ _). }
  cbn zeta. rewrite !H.
  assert (∀ c, overlay nothing_given c = c) as -> by (by intros [? ? ? ? ? []]). apply with_defaults_idempotent.
Qed.

(** ** Examples *)

Definition publishing : JetStreamContext := {|
  Publish _ _ := true; AckExplicitPolicy := "explicit"; AddConsumer _ _ := true; PullSubscribe _ _ := true |}.
Definition up_to_maximum : Redelivery := {| redelivers cc n := (Z.of_nat n <? cc_MaxDeliver cc) |}.
Lemma up_to_maximum_law : RedeliveryLaw (H := up_to_maximum).
Proof. by intros cc n _. Qed.

Definition demo_peer : Peer :=
  {| np_nc := true; np_js := true; np_stream := "pigo-stream"; np_subject := "pigo.>";
     np_Config := {| nc_Servers := []; nc_Stream := "pigo-stream"; nc_SubjectPrefix := "pigo"; nc_Username := ""; nc_Password := "";
                     nc_TLS := nc_TLS zero_config |} |}.
Definition demo_consumer : ConsumerConfig := consumer_config (JS := publishing) demo_peer.

Definition some_fields : option (list Field) := Some [mkField "id" "int64" false "" []; mkField "tags" "array" true "t" [mkField "tag" "string" true "" []]].
Definition nats_events : list (option (list Field) * Event) := [(some_fields, user_event 7); (None, user_event (2 ^ 53 + 1))].
Definition nats_data (fe : option (list Field) * Event) : string :=
  default "" (snd <$> (pub (JS := publishing) (GF := exact_floats) fe.1 fe.2 demo_peer).2).
Definition nats_steps : list queue_step := [Fetch 10] ++ (Stored ∘ nats_data <$> nats_events) ++ [Fetch 1; Take; Fetch 3].

Lemma nats_delivers_witness :
  let q := queue_run (decode (GF := exact_floats)) (RD := up_to_maximum) demo_consumer nats_steps new_queue in
  q_given_up q = [] ∧ in_sent (q_inbox q) `prefix_of` ((λ fe, event_read_as fe.2) <$> nats_events) ∧
  (q_waiting q = [] → in_sent (q_inbox q) = ((λ fe, event_read_as fe.2) <$> nats_events)).
Proof.
  apply (nats_delivers (JS := publishing) (GF := exact_floats) (GJ := exact_floats_laws) demo_peer).
  - repeat constructor; try (vm_compute; reflexivity).
    all: apply shallow; vm_compute; reflexivity.
  - repeat constructor; eexists; vm_compute; reflexivity.
  - vm_compute. reflexivity.
Defined.

(** The identifier 9007199254740993 arrives as 9007199254740992. *)
Example large_integers_change :
  ∃ f, as_read (AInt KInt64 (2 ^ 53 + 1)) = AFloat f ∧ trunc_float f = Some (2 ^ 53).
Proof. eexists. split; [reflexivity|]. vm_compute. reflexivity. Qed.

Lemma full_channel_gives_up_witness :
  let inbox := {| in_queue := replicate 100 zero_event; in_sent := replicate 100 zero_event; in_acked := []; in_naked := [] |} in
  let q := {| q_waiting := [("{}", 0%nat)]; q_given_up := []; q_inbox := inbox |} in
  q_given_up (queue_run (decode (GF := exact_floats)) (RD := up_to_maximum) demo_consumer [Fetch 1; Fetch 1; Fetch 1] q) = ["{}"].
Proof.
  intros inbox q.
  destruct (full_channel_gives_up (decode (GF := exact_floats)) (RD := up_to_maximum) (RL := up_to_maximum_law) demo_consumer q "{}"
    eq_refl eq_refl eq_refl) as (_ & -> & _). reflexivity.
Defined.
