(* ===== verification/Grpc.v ===== *)
(** * Grpc: the gRPC peer, [pkg/pipeline/peer/grpc/peer.go].

    The server sends the new rows of events to its clients; a client makes events
    of what it receives. Sending and the decoder of JSON are arguments. *)

From S2P Require Import Prelude GoStrings GoStringFacts GoAny Cdc FilterTests Nats.
Local Open Scope Z_scope.

Record CDCEvent := { pb_Table : string; pb_Data : string }.
Record Config := { gc_Address : string; gc_IsServer : bool; gc_TLS : bool }.

Inductive grpc_error := NoAddress | ListenFailed | NoTLS | NoConnection.

(** The listener, and the result of each attempt at a client. *)
Class Endpoint := { Listen : string → bool; NewClient : nat → bool }.

(** Three attempts with their waits. *)
Fixpoint client_attempts `{Endpoint} (n retries : nat) (sleeps : list Z) : bool * list Z :=
  match n with
  | O => (false, sleeps)
  | S n =>
      if NewClient retries then (true, sleeps)
      else client_attempts n (S retries) (sleeps ++ [Z.shiftl second (Z.of_nat retries)])
  end.

Definition Connect `{Endpoint} (cfg : Config) : res grpc_error unit * list Z :=
  if bool_decide (gc_Address cfg = "") then (Err NoAddress, [])
  else if gc_IsServer cfg then
    (if negb (Listen (gc_Address cfg)) then Err ListenFailed
     else if gc_TLS cfg then Err NoTLS else Ok tt, [])
  else if gc_TLS cfg then (Err NoTLS, [])
  else let '(ok, sleeps) := client_attempts 3 0 [] in (if ok then Ok tt else Err NoConnection, sleeps).

Section Stream.
Context `{GF : GoFloat}.

(** The message of an event: none without a new row. *)
Definition message_of (event : Event) : option CDCEvent :=
  let pay := ev_Payload event in
  if is_nil (pay_After pay) then None
  else match Marshal (pay_After pay) with
       | None => None
       | Some data => Some {| pb_Table := src_Schema (pay_Source pay) +:+ "." +:+ src_Table (pay_Source pay); pb_Data := data |}
       end.

(** The loop of the server, until a message cannot be sent; what was sent. *)
Context (Send : list CDCEvent → CDCEvent → bool).
Fixpoint Stream (events : list Event) (sent : list CDCEvent) : bool * list CDCEvent :=
  match events with
  | [] => (true, sent)
  | event :: events =>
      match message_of event with
      | None => Stream events sent
      | Some m => if Send sent m then Stream events (sent ++ [m]) else (false, sent)
      end
  end.

(** [Pub] into the channel of the server; [None] waits, with the lock held. *)
Definition Pub (queue : list Event) (event : Event) : option (list Event) :=
  if (length queue <? 100)%nat then Some (queue ++ [event]) else None.

(** The loop of the client: the event of a message, or none. *)
Context (json_decode : string → option any).
Definition schema_table (table : string) : string * string :=
  match Split table "." with
  | [schema; table] => (schema, table)
  | first :: _ => ("public", first)
  | [] => ("public", "")
  end.
Definition grpc_event (schema table : string) (data : any) (ts : Z * Z) : Event :=
  WithTimestamp ts.2 (WithAfter data (WithOperation OpCreate (WithSource
    (source_WithTimestamp ts.1 (source_WithTable table (source_WithSchema schema
      (source_WithDatabase "grpc" (NewSourceBuilder "grpc" "grpc-source"))))) NewEventBuilder))).
Definition receive (m : CDCEvent) (ts : Z * Z) : option Event :=
  match json_decode (pb_Data m) with
  | None => None
  | Some data => let '(schema, table) := schema_table (pb_Table m) in Some (grpc_event schema table data ts)
  end.

(** The server sends the messages of the events with a new row, in order, up
    to one that it cannot send; each arrives as a creation of the same row in the
    same table, whatever its operation was. *)
Theorem stream_arrives events ts :
  Forall (λ e, no_dot (src_Schema (pay_Source (ev_Payload e))) ∧ no_dot (src_Table (pay_Source (ev_Payload e)))) events →
  let '(all, sent) := Stream events [] in
  sent `prefix_of` omap message_of events ∧ (all = true → sent = omap message_of events) ∧
  ∀ e m, e ∈ events → message_of e = Some m →
    receive m ts = (λ data, grpc_event (src_Schema (pay_Source (ev_Payload e))) (src_Table (pay_Source (ev_Payload e))) data ts)
                     <$> json_decode (pb_Data m).
Proof.
  intros Hdots.
  assert (∀ sent0, let '(all, sent) := Stream events sent0 in
    ∃ l, sent = sent0 ++ l ∧ l `prefix_of` omap message_of events ∧ (all = true → l = omap message_of events)) as Hs.
  { clear Hdots. induction events as [|e events IH]; intros sent0; [by exists []; rewrite app_nil_r|].
    cbn [Stream omap list_omap]. destruct (message_of e) as [m|]; [|apply IH].
    destruct (Send sent0 m).
    - specialize (IH (sent0 ++ [m])). destruct (Stream events _) as [all sent]. destruct IH as (l & -> & Hp & Ha).
      exists (m :: l). rewrite <-app_assoc. split_and!; [done|by apply prefix_cons|]. intros H. by rewrite (Ha H).
    - exists []. rewrite app_nil_r. split_and!; [done|apply prefix_nil|done]. }
  specialize (Hs []). destruct (Stream events []) as [all sent]. destruct Hs as (l & -> & Hp & Ha). cbn [app].
  split_and!; [done|done|]. intros e m He Hm. rewrite Forall_forall in Hdots. destruct (Hdots e He) as [Hd1 Hd2].
  unfold message_of in Hm. destruct (is_nil _); [done|]. destruct (Marshal _); [|done]. injection Hm as <-.
  unfold receive, schema_table. cbn [pb_Data pb_Table].
  change ("." +:+ src_Table (pay_Source (ev_Payload e))) with (String "." (src_Table (pay_Source (ev_Payload e)))).
  rewrite Split_free, Split_free_all by done. by destruct (json_decode _).
Qed.

End Stream.

(** ** Examples *)

Definition row_of_id (n : Z) : any := AObj {["id" := AInt KInt n]}.
Definition order_event (op : Operation) (after : any) : Event :=
  WithAfter after (WithOperation op (WithSource (source_WithTable "orders" (source_WithSchema "shop" zeroSource)) NewEventBuilder)).
Definition order_events : list Event := [
  order_event OpCreate (row_of_id 1); order_event OpDelete ANil; order_event OpUpdate (row_of_id 2) ].

(** The update arrives as a creation; the deletion does not arrive. *)
Lemma stream_arrives_witness :
  let sent := (Stream (GF := integral_floats) (λ _ _, true) order_events []).2 in
  length sent = 2%nat ∧
  (λ m, receive (λ _, Some ANil) m (1, 1)) <$> sent =
    [Some (grpc_event "shop" "orders" ANil (1, 1)); Some (grpc_event "shop" "orders" ANil (1, 1))].
Proof.
  pose proof (stream_arrives (GF := integral_floats) (λ _ _, true) (λ _, Some ANil) order_events (1, 1)) as H.
  specialize (H ltac:(repeat (constructor; [by split|]); constructor)).
  assert (Ht : (Stream (GF := integral_floats) (λ _ _, true) order_events []).1 = true) by (vm_compute; reflexivity).
  destruct (Stream (GF := integral_floats) (λ _ _, true) order_events []) as [all sent].
  destruct H as (_ & Hall & Hrec). cbn [fst] in Ht.
  specialize (Hall Ht). cbn [snd]. rewrite Hall.
  split; [vm_compute; reflexivity|]. vm_compute. reflexivity.
Defined.
