(* ===== verification/GrpcPeer.v ===== *)
(** * GrpcPeer: the life of the gRPC peer, [pkg/pipeline/peer/grpc/peer.go].

    The peer is one value that every pipeline of its kind shares. A server hands
    the events published to it to the streams of its clients, which all read the
    one channel; a client makes a channel of its own for what it receives. The
    goroutines are interleaved in any order, as a list of actions. *)

From S2P Require Import Prelude GoStrings GoStringFacts GoAny Cdc FilterTests Nats Grpc.
Local Open Scope Z_scope.

(** Whether [grpc.Server.GracefulStop] may return while the calls it has accepted
    are unfinished (true) or finished; it is documented to wait for all. *)
Class GrpcServer := { GracefulStop : list bool → bool }.
Class GracefulLaw `{GrpcServer} := graceful_waits calls : GracefulStop calls = true → Forall (eq false) calls.

(** A channel, with what was ever put into it and which stream took what. *)
Record Chan := { ch_queue : list Event; ch_closed : bool; ch_accepted : list Event; ch_taken : list (nat * Event) }.
Definition new_chan : Chan := {| ch_queue := []; ch_closed := false; ch_accepted := []; ch_taken := [] |}.
Definition close_chan (c : Chan) : Chan :=
  {| ch_queue := ch_queue c; ch_closed := true; ch_accepted := ch_accepted c; ch_taken := ch_taken c |}.

(** A call of Stream: the channel it reads, what it has sent, and whether it goes on. *)
Record Call := { ca_chan : nat; ca_sent : list CDCEvent; ca_running : bool }.

(** The peer: its fields, the servers that accept calls, the calls, and the
    Disconnects under way, by the server each waits for. *)
Record Peer := {
  p_events : option nat;      (* p.events, nil before Connect *)
  p_server : option nat;      (* p.server, by the channel its calls read *)
  p_client : bool; p_conn : bool;
  p_chans : list Chan; p_accepting : list nat; p_calls : list Call; p_stopping : list (option nat)
}.
Definition new_peer : Peer := {|
  p_events := None; p_server := None; p_client := false; p_conn := false;
  p_chans := []; p_accepting := []; p_calls := []; p_stopping := [] |}.

Definition with_chans (chans : list Chan) (p : Peer) : Peer := {|
  p_events := p_events p; p_server := p_server p; p_client := p_client p; p_conn := p_conn p;
  p_chans := chans; p_accepting := p_accepting p; p_calls := p_calls p; p_stopping := p_stopping p |}.
Definition with_calls (calls : list Call) (p : Peer) : Peer := {|
  p_events := p_events p; p_server := p_server p; p_client := p_client p; p_conn := p_conn p;
  p_chans := p_chans p; p_accepting := p_accepting p; p_calls := calls; p_stopping := p_stopping p |}.

(** What an operation does: it goes on, it waits, or the program panics. *)
Inductive outcome := Goes (p : Peer) | Waits | Panics.

Section Life.
Context `{EP : Endpoint} `{GS : GrpcServer} `{GF : GoFloat}.

(** [Connect]: the channel is made before anything can fail. *)
Definition connect (cfg : Config) (p : Peer) : res grpc_error unit * Peer :=
  let result := (Grpc.Connect cfg).1 in
  if bool_decide (gc_Address cfg = "") then (result, p) else
  let ch := length (p_chans p) in
  let up := is_ok result in
  (result, {|
    p_events := Some ch;
    p_server := if up && gc_IsServer cfg then Some ch else p_server p;
    p_client := p_client p || up && negb (gc_IsServer cfg);
    p_conn := p_conn p || up && negb (gc_IsServer cfg);
    p_chans := p_chans p ++ [new_chan];
    p_accepting := if up && gc_IsServer cfg then p_accepting p ++ [ch] else p_accepting p;
    p_calls := p_calls p; p_stopping := p_stopping p |}).

(** [Pub]: with no channel the event is dropped without an error. *)
Definition publish (event : Event) (p : Peer) : outcome :=
  match ch ← p_events p; c ← p_chans p !! ch; Some (ch, c) with
  | None => Goes p
  | Some (ch, c) =>
      if ch_closed c then Panics else
      match Grpc.Pub (ch_queue c) event with
      | None => Waits
      | Some queue => Goes (with_chans (<[ch := {| ch_queue := queue; ch_closed := false;
                              ch_accepted := ch_accepted c ++ [event]; ch_taken := ch_taken c |}]> (p_chans p)) p)
      end
  end.

(** A client calls Stream of the server with channel [ch]. *)
Definition open_call (ch : nat) (p : Peer) : outcome :=
  if decide (ch ∈ p_accepting p)
  then Goes (with_calls (p_calls p ++ [{| ca_chan := ch; ca_sent := []; ca_running := true |}]) p) else Waits.

(** One turn of the loop of a call: the next event of the channel, if any; [sent]
    is the success of sending. *)
Definition call_turn (i : nat) (sent : bool) (p : Peer) : outcome :=
  match ca ← p_calls p !! i; c ← p_chans p !! ca_chan ca; Some (ca, c) with
  | None => Waits
  | Some (ca, c) =>
      if negb (ca_running ca) then Waits else
      match ch_queue c with
      | [] => if ch_closed c
              then Goes (with_calls (<[i := {| ca_chan := ca_chan ca; ca_sent := ca_sent ca; ca_running := false |}]> (p_calls p)) p)
              else Waits
      | event :: queue =>
          let ca' := match message_of event with
                    | None => ca
                    | Some m => if sent then {| ca_chan := ca_chan ca; ca_sent := ca_sent ca ++ [m]; ca_running := true |}
                                else {| ca_chan := ca_chan ca; ca_sent := ca_sent ca; ca_running := false |}
                    end in
          Goes (with_chans (<[ca_chan ca := {| ch_queue := queue; ch_closed := ch_closed c; ch_accepted := ch_accepted c;
                                ch_taken := ch_taken c ++ [(i, event)] |}]> (p_chans p)) (with_calls (<[i := ca']> (p_calls p)) p))
      end
  end.

(** [Disconnect] in two parts: the server stops accepting calls; when it has
    stopped, the connection and the channel are closed. *)
Definition stop (p : Peer) : outcome := Goes {|
  p_events := p_events p; p_server := p_server p; p_client := p_client p; p_conn := p_conn p;
  p_chans := p_chans p;
  p_accepting := match p_server p with Some ch => filter (λ k, k ≠ ch) (p_accepting p) | None => p_accepting p end;
  p_calls := p_calls p; p_stopping := p_stopping p ++ [p_server p] |}.

Definition calls_of (ch : nat) (calls : list Call) : list bool :=
  ca_running <$> filter (λ ca, ca_chan ca = ch) calls.

Definition finish (k : nat) (p : Peer) : outcome :=
  match p_stopping p !! k with
  | None => Waits
  | Some server =>
      if match server with Some ch => GracefulStop (calls_of ch (p_calls p)) | None => true end then
        match ch ← p_events p; c ← p_chans p !! ch; Some (ch, c) with
        | None => Panics            (* close of a nil channel *)
        | Some (ch, c) =>
            if ch_closed c then Panics else
            Goes {| p_events := p_events p; p_server := p_server p; p_client := p_client p; p_conn := p_conn p;
                    p_chans := <[ch := close_chan c]> (p_chans p); p_accepting := p_accepting p; p_calls := p_calls p;
                    p_stopping := delete k (p_stopping p) |}
        end
      else Waits
  end.

Inductive action :=
| DoConnect (cfg : Config) | DoPub (event : Event) | DoCall (ch : nat) | DoTurn (i : nat) (sent : bool) | DoStop | DoFinish (k : nat).
Definition act (a : action) (p : Peer) : outcome :=
  match a with
  | DoConnect cfg => Goes (connect cfg p).2
  | DoPub event => publish event p
  | DoCall ch => open_call ch p
  | DoTurn i sent => call_turn i sent p
  | DoStop => stop p
  | DoFinish k => finish k p
  end.

(** The peers that a sequence of actions can lead to. *)
Inductive run : list action → Peer → Peer → Prop :=
| run_nil p : run [] p p
| run_cons a l p p' p'' : act a p = Goes p' → run l p' p'' → run (a :: l) p p''.

Fixpoint do_run (l : list action) (p : Peer) : outcome :=
  match l with
  | [] => Goes p
  | a :: l => match act a p with Goes p => do_run l p | o => o end
  end.

Lemma do_run_run l p p' : do_run l p = Goes p' → run l p p'.
Proof.
  revert p. induction l as [|a l IH]; intros p; cbn [do_run]; [intros [= ->]; constructor|].
  destruct (act a p) as [q| |] eqn:Ha; [|done..]. intros H. by econstructor; [|apply IH].
Qed.

Lemma run_app l1 l2 p p' p'' : run l1 p p' → run l2 p' p'' → run (l1 ++ l2) p p''.
Proof. induction 1; [done|]. intros. cbn [app]. by econstructor; [|auto]. Qed.

(** ** The clients share the events *)

Definition taken_by (i : nat) (c : Chan) : list Event :=
  omap (λ p, if decide (p.1 = i) then Some p.2 else None) (ch_taken c).

Definition sent_taken (i : nat) (ca : Call) (c : Chan) : Prop :=
  ca_sent ca `prefix_of` omap message_of (taken_by i c) ∧
  (ca_running ca = true → ca_sent ca = omap message_of (taken_by i c)).

Record sharing (p : Peer) : Prop := {
  sh_accepting ch : ch ∈ p_accepting p → (ch < length (p_chans p))%nat;
  sh_chans ch c : p_chans p !! ch = Some c →
    ch_accepted c = (ch_taken c).*2 ++ ch_queue c ∧ (length (ch_queue c) ≤ 100)%nat;
  sh_takers ch c i e : p_chans p !! ch = Some c → (i, e) ∈ ch_taken c → (i < length (p_calls p))%nat;
  sh_calls i ca : p_calls p !! i = Some ca → ∃ c, p_chans p !! ca_chan ca = Some c ∧ sent_taken i ca c
}.

Lemma taken_by_snoc i c j e queue :
  taken_by i {| ch_queue := queue; ch_closed := ch_closed c; ch_accepted := ch_accepted c; ch_taken := ch_taken c ++ [(j, e)] |} =
  taken_by i c ++ if decide (j = i) then [e] else [].
Proof. unfold taken_by. cbn [ch_taken]. rewrite omap_app. cbn [omap list_omap fst snd]. by case_decide. Qed.

(** Only what a channel's users took matters to the calls. *)
Lemma sh_update p ch c c' :
  sharing p → p_chans p !! ch = Some c → ch_taken c' = ch_taken c →
  ch_accepted c' = (ch_taken c').*2 ++ ch_queue c' → (length (ch_queue c') ≤ 100)%nat →
  sharing (with_chans (<[ch := c']> (p_chans p)) p).
Proof.
  intros [Ha Hc Ht Hs] Hch Htk Hacc Hlen. constructor; cbn [with_chans p_accepting p_chans p_calls].
  - intros k Hk. rewrite length_insert. auto.
  - intros k d Hk. apply list_lookup_insert_Some in Hk as [(<- & -> & _)|[_ Hk]]; [done|by apply Hc in Hk].
  - intros k d i e Hk Hin. apply list_lookup_insert_Some in Hk as [(<- & -> & _)|[_ Hk]]; [|by eapply Ht].
    rewrite Htk in Hin. by eapply Ht.
  - intros i ca Hi. destruct (Hs i ca Hi) as (d & Hd & Hsent). destruct (decide (ca_chan ca = ch)) as [E|E].
    + exists c'. rewrite E, list_lookup_insert_eq by (by eapply lookup_lt_Some). split; [done|].
      rewrite E, Hch in Hd. injection Hd as <-. unfold sent_taken, taken_by. by rewrite Htk.
    + exists d. by rewrite list_lookup_insert_ne.
Qed.

Lemma publish_sharing e p p' : sharing p → publish e p = Goes p' → sharing p'.
Proof.
  intros H. unfold publish. destruct (p_events p) as [ch|] eqn:E; [|by intros [= <-]]. cbn [mbind option_bind].
  destruct (p_chans p !! ch) as [c|] eqn:Hc; cbn [mbind option_bind]; [|by intros [= <-]].
  destruct (ch_closed c); [done|]. unfold Grpc.Pub. destruct (Nat.ltb_spec (length (ch_queue c)) 100) as [Hl|]; [|done].
  intros [= <-]. destruct (sh_chans p H ch c Hc) as [Hacc _]. eapply sh_update; [done..| |]; cbn.
  - by rewrite Hacc, app_assoc.
  - rewrite length_app. cbn. lia.
Qed.

Lemma connect_sharing cfg p : sharing p → sharing (connect cfg p).2.
Proof.
  intros H. unfold connect. case_bool_decide; [done|]. destruct H as [Ha Hc Ht Hs]. constructor; cbn.
  - intros ch Hin. rewrite length_app. cbn. destruct (_ && _); [|by apply Ha in Hin; lia].
    apply elem_of_app in Hin as [Hin|Hin%list_elem_of_singleton]; [apply Ha in Hin|]; lia.
  - intros ch c Hch. apply lookup_snoc_Some in Hch as [[_ Hch]|[_ <-]]; [by apply Hc in Hch|]. cbn. split; [done|lia].
  - intros ch c i e Hch Hin. apply lookup_snoc_Some in Hch as [[_ Hch]|[_ <-]]; [by eapply Ht|]. by apply not_elem_of_nil in Hin.
  - intros i ca Hi. destruct (Hs i ca Hi) as (c & Hch & Hsent). exists c. split; [|done]. by apply lookup_app_l_Some.
Qed.

Lemma call_sharing ch p p' : sharing p → open_call ch p = Goes p' → sharing p'.
Proof.
  intros [Ha Hc Ht Hs]. unfold open_call. destruct (decide _) as [Hin|]; [|done]. intros [= <-]. constructor; cbn; [done|done|..].
  - intros k c i e Hk He. specialize (Ht k c i e Hk He). rewrite length_app. cbn. lia.
  - intros i ca Hi. apply lookup_snoc_Some in Hi as [[_ Hi]|[-> <-]]; [by apply Hs|]. cbn.
    destruct (lookup_lt_is_Some_2 (p_chans p) ch (Ha ch Hin)) as [c Hch]. exists c. split; [done|].
    assert (taken_by (length (p_calls p)) c = []) as E.
    { unfold taken_by. assert (∀ q, q ∈ ch_taken c → q.1 ≠ length (p_calls p)) as Hq.
      { intros [i e] Hq. cbn. specialize (Ht ch c i e Hch Hq). lia. }
      induction (ch_taken c) as [|q l IH]; [done|]. cbn. rewrite decide_False by (apply Hq; left). apply IH. intros. apply Hq. by right. }
    unfold sent_taken. rewrite E. by split.
Qed.

Lemma turn_sharing i sent p p' : sharing p → call_turn i sent p = Goes p' → sharing p'.
Proof.
  intros H. pose proof H as [Ha Hc Ht Hs]. unfold call_turn. destruct (p_calls p !! i) as [ca|] eqn:Hi; [|done]. cbn [mbind option_bind].
  destruct (Hs i ca Hi) as (c & Hch & Hpre & Heq). rewrite Hch. cbn [mbind option_bind].
  destruct (ca_running ca) eqn:Hr; [cbn [negb]|done]. specialize (Heq eq_refl). pose proof (lookup_lt_Some _ _ _ Hi) as Hlt.
  destruct (ch_queue c) as [|e queue] eqn:Hq.
  - destruct (ch_closed c); [|done]. intros [= <-]. constructor; cbn; [done|done|..].
    + intros. rewrite length_insert. eauto.
    + intros j cb Hj. apply list_lookup_insert_Some in Hj as [(<- & <- & _)|[_ Hj]]; [|by apply Hs]. by exists c.
  - intros [= <-]. destruct (Hc _ _ Hch) as [Hacc Hlen]. rewrite Hq in Hacc, Hlen.
    constructor; cbn [with_chans with_calls p_accepting p_chans p_calls].
    + intros k Hk. rewrite length_insert. auto.
    + intros k d Hk. apply list_lookup_insert_Some in Hk as [(<- & <- & _)|[_ Hk]]; [|by apply Hc in Hk]. cbn.
      rewrite Hacc, fmap_app, <-app_assoc. cbn in Hlen. split; [done|lia].
    + intros k d j x Hk Hin. rewrite length_insert. apply list_lookup_insert_Some in Hk as [(<- & <- & _)|[_ Hk]]; [|by eapply Ht].
      cbn in Hin. apply elem_of_app in Hin as [Hin|Hin%list_elem_of_singleton]; [by eapply Ht|]. by injection Hin as -> ->.
    + intros j cb Hj. destruct (decide (ca_chan cb = ca_chan ca)) as [E|E].
      * eexists. rewrite E, list_lookup_insert_eq by (by eapply lookup_lt_Some). split; [done|].
        unfold sent_taken. rewrite taken_by_snoc, omap_app.
        apply list_lookup_insert_Some in Hj as [(<- & <- & _)|[Hne Hj]].
        -- rewrite decide_True by done. cbn [omap list_omap]. destruct (message_of e) as [m|]; [|by rewrite app_nil_r].
           destruct sent; cbn [ca_sent ca_running]; rewrite Heq; [by split|]. split; [by apply prefix_app_r|done].
        -- rewrite decide_False by done. rewrite app_nil_r. destruct (Hs j cb Hj) as (d & Hd & Hsent).
           rewrite E, Hch in Hd. by injection Hd as <-.
      * apply list_lookup_insert_Some in Hj as [(<- & <- & _)|[Hne Hj]].
        { exfalso. apply E. destruct (message_of e); [destruct sent|]; done. }
        rewrite list_lookup_insert_ne by done. by apply Hs.
Qed.

Lemma act_sharing a p p' : sharing p → act a p = Goes p' → sharing p'.
Proof.
  intros H. destruct a as [cfg|e|ch|i sent| |k]; cbn [act].
  - intros [= <-]. by apply connect_sharing.
  - by apply publish_sharing.
  - by apply call_sharing.
  - by apply turn_sharing.
  - intros [= <-]. destruct H as [Ha Hc Ht Hs]. constructor; cbn; [|done..]. intros ch Hin. apply Ha.
    destruct (p_server p) as [k|]; [by apply list_elem_of_filter in Hin as [_ ?]|done].
  - unfold finish. destruct (p_stopping p !! k) as [server|]; [|done]. 
    match goal with |- context [if ?b then _ else Waits] => destruct b end; [|done].
    destruct (p_events p) as [ch|]; cbn [mbind option_bind]; [|done]. destruct (p_chans p !! ch) as [c|] eqn:Hc; cbn [mbind option_bind]; [|done].
    destruct (ch_closed c); [done|]. intros [= <-]. destruct (sh_chans p H ch c Hc) as [Hacc Hlen].
    pose proof (sh_update p ch c (close_chan c) H Hc eq_refl Hacc Hlen) as [Ha' Hc' Ht' Hs']. by constructor.
Qed.

Lemma run_sharing l p p' : run l p p' → sharing p → sharing p'.
Proof. induction 1; [done|]. intros. eauto using act_sharing. Qed.

Lemma new_sharing : sharing new_peer.
Proof. constructor; cbn; [by intros ? ?%not_elem_of_nil|done..]. Qed.

(** C28: however publishing, calls and disconnecting interleave, every event a
    channel has accepted is still queued or was taken by one call, in the order of
    the channel, and a call has sent the messages of the events it took and of no
    others: the clients of a server share its events, none gets them all. *)
Theorem clients_share_events l p ch c :
  run l new_peer p → p_chans p !! ch = Some c →
  ch_accepted c = (ch_taken c).*2 ++ ch_queue c ∧ (length (ch_queue c) ≤ 100)%nat ∧
  ∀ i ca, p_calls p !! i = Some ca → ca_chan ca = ch →
    ca_sent ca `prefix_of` omap message_of (taken_by i c) ∧
    (ca_running ca = true → ca_sent ca = omap message_of (taken_by i c)).
Proof.
  intros Hrun Hc. pose proof (run_sharing l _ _ Hrun new_sharing) as [_ Hch _ Hs]. destruct (Hch ch c Hc) as [Hacc Hlen].
  split_and!; [done..|]. intros i ca Hi Hca. destruct (Hs i ca Hi) as (d & Hd & Hsent). rewrite Hca, Hc in Hd. by injection Hd as <-.
Qed.

(** ** Disconnecting *)

(** A call of the server goes on, and every Disconnect waits for that server. *)
Record serving (ch i : nat) (p : Peer) : Prop := {
  sv_server : p_server p = Some ch;
  sv_stopping : Forall (eq (Some ch)) (p_stopping p);
  sv_call : ∃ ca, p_calls p !! i = Some ca ∧ ca_chan ca = ch ∧ ca_running ca = true;
  sv_open : ∃ c, p_chans p !! ch = Some c ∧ ch_closed c = false
}.

(** No new Connect, and no failure of sending to the call [i]. *)
Definition undisturbed (i : nat) (a : action) : Prop :=
  match a with DoConnect _ => False | DoTurn j sent => j = i → sent = true | _ => True end.

Lemma calls_of_running ch i calls ca :
  calls !! i = Some ca → ca_chan ca = ch → ca_running ca = true → ¬ Forall (eq false) (calls_of ch calls).
Proof.
  intros Hi Hc Hr. rewrite Forall_forall. intros H. specialize (H true). discriminate H. apply list_elem_of_fmap.
  exists ca. split; [done|]. apply list_elem_of_filter. split; [done|]. by eapply list_elem_of_lookup_2.
Qed.

Lemma serving_chans ch i p chans :
  serving ch i p → (∃ c, chans !! ch = Some c ∧ ch_closed c = false) → serving ch i (with_chans chans p).
Proof. intros [Hs Hst Hc _] Ho. by constructor. Qed.

Lemma serving_calls ch i p calls :
  serving ch i p → (∃ ca, calls !! i = Some ca ∧ ca_chan ca = ch ∧ ca_running ca = true) → serving ch i (with_calls calls p).
Proof. intros [Hs Hst _ Ho] Hc. by constructor. Qed.

Lemma open_update (chans : list Chan) ch k d d' :
  (∃ c, chans !! ch = Some c ∧ ch_closed c = false) → chans !! k = Some d → ch_closed d' = ch_closed d →
  ∃ c, <[k := d']> chans !! ch = Some c ∧ ch_closed c = false.
Proof.
  intros (c & Hc & Ho) Hk Hd. destruct (decide (k = ch)) as [->|Hne].
  - exists d'. rewrite list_lookup_insert_eq by (by eapply lookup_lt_Some). rewrite Hc in Hk. injection Hk as ->. by rewrite Hd.
  - exists c. by rewrite list_lookup_insert_ne.
Qed.

Lemma turn_serving ch i j sent p p' :
  serving ch i p → (j = i → sent = true) → call_turn j sent p = Goes p' → serving ch i p' ∧ p_stopping p' = p_stopping p.
Proof.
  intros H Hj. unfold call_turn. destruct (p_calls p !! j) as [ca|] eqn:Hca; [|done]. cbn [mbind option_bind].
  destruct (p_chans p !! ca_chan ca) as [c|] eqn:Hc; [|done]. cbn [mbind option_bind].
  destruct (ca_running ca) eqn:Hr; cbn [negb]; [|done]. destruct (sv_call _ _ _ H) as (cb & Hcb & Hch & Hrb).
  pose proof (lookup_lt_Some _ _ _ Hca) as Hlt. destruct (ch_queue c) as [|e queue].
  - destruct (ch_closed c) eqn:Hcl; [|done]. intros [= <-]. split; [|done]. apply serving_calls; [done|]. exists cb.
    rewrite list_lookup_insert_ne; [done|]. intros <-. rewrite Hca in Hcb. injection Hcb as <-.
    destruct (sv_open _ _ _ H) as (d & Hd & Ho). rewrite <-Hch, Hc in Hd. injection Hd as <-. by rewrite Hcl in Ho.
  - intros [= <-]. split; [|done]. apply serving_chans; [|by eapply open_update; [apply H|done|]].
    apply serving_calls; [done|]. destruct (decide (j = i)) as [->|Hne].
    + rewrite Hca in Hcb. injection Hcb as <-. eexists. rewrite list_lookup_insert_eq by done. split; [done|].
      rewrite (Hj eq_refl). by destruct (message_of e).
    + exists cb. by rewrite list_lookup_insert_ne.
Qed.

Lemma act_serving `{GL : !GracefulLaw} ch i a p p' :
  serving ch i p → undisturbed i a → act a p = Goes p' → serving ch i p' ∧ p_stopping p `prefix_of` p_stopping p'.
Proof.
  intros H Ha. destruct a as [cfg|e|k|j sent| |k]; cbn [act undisturbed] in *; [done|..].
  - unfold publish. destruct (p_events p) as [k|]; cbn [mbind option_bind]; [|by intros [= <-]].
    destruct (p_chans p !! k) as [c|] eqn:Hc; cbn [mbind option_bind]; [|by intros [= <-]].
    destruct (ch_closed c) eqn:Hcl; [done|]. destruct (Grpc.Pub _ _); [|done]. intros [= <-]. split; [|done].
    apply serving_chans; [done|]. by eapply open_update; [apply H|done|].
  - unfold open_call. destruct (decide _); [|done]. intros [= <-]. split; [|done]. apply serving_calls; [done|].
    destruct (sv_call _ _ _ H) as (ca & Hca & ?). exists ca. split; [by apply lookup_app_l_Some|done].
  - intros E. destruct (turn_serving _ _ _ _ _ _ H Ha E) as [H' ->]. done.
  - intros [= <-]. split; [|by apply prefix_app_r]. destruct H as [Hs Hst Hc Ho]. constructor; cbn; [done| |done..].
    apply Forall_app_2; [done|]. by constructor.
  - unfold finish. destruct (p_stopping p !! k) as [server|] eqn:Hk; [|done]. destruct H as [Hs Hst (ca & Hca & Hch & Hr) Ho].
    rewrite Forall_forall in Hst. rewrite <-(Hst server) by (by eapply list_elem_of_lookup_2).
    destruct (GracefulStop _) eqn:Hg; [|done]. apply graceful_waits in Hg. by eapply calls_of_running in Hg.
Qed.

(** While the call of one client goes on and nothing fails in sending to it,
    no Disconnect of its server comes to an end, whatever else is published,
    called or taken: the calls end when the channel is closed, which Disconnect
    does only after it has waited for them. *)
Theorem disconnect_waits `{GL : !GracefulLaw} ch i l p p' :
  serving ch i p → Forall (undisturbed i) l → run l p p' →
  p_stopping p `prefix_of` p_stopping p' ∧ ∃ ca, p_calls p' !! i = Some ca ∧ ca_running ca = true.
Proof.
  intros H Hl Hrun. assert (serving ch i p' ∧ p_stopping p `prefix_of` p_stopping p') as [H' Hpre].
  { induction Hrun as [p|a l p p1 p' Ha Hrun IH]; [done|]. inversion Hl as [|? ? Hu Hl']; subst.
    destruct (act_serving ch i a p p1 H Hu Ha) as [H1 Hp1]. destruct (IH H1 Hl') as [H' Hp']. split; [done|by etrans]. }
  split; [done|]. destruct (sv_call _ _ _ H') as (ca & Hca & _ & Hr). by exists ca.
Qed.

(** ** A sink in client mode *)

(** The channel of [Pub] holds [n] events, and no call can ever read it. *)
Definition unread (n : nat) (p : Peer) : Prop :=
  ∃ ch c, p_events p = Some ch ∧ p_chans p !! ch = Some c ∧ ch_closed c = false ∧ length (ch_queue c) = n ∧
    ch ∉ p_accepting p ∧ Forall (λ ca, ca_chan ca ≠ ch) (p_calls p).

Lemma publish_unread n e p p' : unread n p → publish e p = Goes p' → unread (S n) p' ∧ (n < 100)%nat.
Proof.
  intros (ch & c & Hev & Hc & Ho & Hn & Ha & Hcalls). unfold publish. rewrite Hev. cbn [mbind option_bind]. rewrite Hc.
  cbn [mbind option_bind]. rewrite Ho. unfold Grpc.Pub. destruct (Nat.ltb_spec (length (ch_queue c)) 100); [|done].
  intros [= <-]. split; [|lia]. eexists ch, _. cbn. rewrite list_lookup_insert_eq by (by eapply lookup_lt_Some).
  split_and!; [done..| |done|done]. cbn. rewrite length_app. cbn. lia.
Qed.

Lemma unread_full e p : unread 100 p → publish e p = Waits.
Proof.
  intros (ch & c & Hev & Hc & Ho & Hn & _). unfold publish. rewrite Hev. cbn [mbind option_bind]. rewrite Hc.
  cbn [mbind option_bind]. rewrite Ho. unfold Grpc.Pub. by rewrite Hn.
Qed.

Definition keeps_channel (a : action) : Prop := match a with DoConnect _ | DoFinish _ => False | _ => True end.

Lemma act_unread a p p' : unread 100 p → keeps_channel a → act a p = Goes p' → unread 100 p'.
Proof.
  intros H Ha. destruct a as [cfg|e|k|j sent| |k]; cbn [act keeps_channel] in *; try done.
  - intros E. rewrite (unread_full e p H) in E. done.
  - unfold open_call. destruct (decide (k ∈ _)) as [Hk|]; [|done]. intros [= <-].
    destruct H as (ch & c & ? & ? & ? & ? & Hna & Hcalls). exists ch, c. split_and!; [done..|].
    cbn. apply Forall_app_2; [done|]. constructor; [|done]. cbn. by intros ->.
  - destruct H as (ch & c & Hev & Hc & Ho & Hn & Hna & Hcalls). unfold call_turn.
    destruct (p_calls p !! j) as [ca|] eqn:Hca; [|done]. cbn [mbind option_bind].
    destruct (p_chans p !! ca_chan ca) as [d|] eqn:Hd; [|done]. cbn [mbind option_bind]. destruct (negb _); [done|].
    rewrite Forall_forall in Hcalls. assert (ca_chan ca ≠ ch) as Hne by (apply Hcalls; by eapply list_elem_of_lookup_2).
    rewrite <-Forall_forall in Hcalls. destruct (ch_queue d) as [|e q].
    + destruct (ch_closed d); [|done]. intros [= <-]. exists ch, c. split_and!; [done..|]. by apply Forall_insert.
    + intros [= <-]. exists ch, c. cbn. rewrite list_lookup_insert_ne by done. split_and!; [done..|].
      apply Forall_insert; [done|]. destruct (message_of e); [destruct sent|]; done.
  - intros [= <-]. destruct H as (ch & c & ? & ? & ? & ? & Hna & Hcalls). exists ch, c. split_and!; [done..| |done].
    cbn. intros Hin. apply Hna. destruct (p_server p); [by apply list_elem_of_filter in Hin as [_ ?]|done].
Qed.

Lemma published_unread events n p p' :
  unread n p → run (DoPub <$> events) p p' → unread (n + length events) p'.
Proof.
  revert n p. induction events as [|e events IH]; intros n p H Hrun; inversion Hrun; subst; [by rewrite Nat.add_0_r|].
  edestruct publish_unread as [H1 _]; [done..|]. cbn [length]. rewrite Nat.add_succ_r. by apply (IH (S n) p'0).
Qed.

(** As a sink in client mode the peer puts events into a channel that nothing
    reads: after a hundred of them [Pub] waits for ever, with the lock held. *)
Theorem client_sink_blocks cfg events l p p' event :
  gc_Address cfg ≠ "" → gc_IsServer cfg = false → length events = 100%nat →
  run (DoConnect cfg :: (DoPub <$> events)) new_peer p → Forall keeps_channel l → run l p p' → publish event p' = Waits.
Proof.
  intros Haddr Hcl Hlen Hrun Hl Hrun'. apply unread_full. inversion Hrun as [|? ? ? p1 ? Ha Hpubs]; subst.
  assert (unread 100 p) as H.
  { rewrite <-Hlen. apply (published_unread events 0 p1); [|done]. injection Ha as <-. unfold connect.
    rewrite bool_decide_eq_false_2 by done. rewrite Hcl, andb_false_r. eexists 0%nat, _. cbn. split_and!; try done.
    by apply not_elem_of_nil. }
  clear -Hl Hrun' H. induction Hrun' as [|a l p p1 p' Ha Hrun IH]; [done|]. inversion Hl; subst. eauto using act_unread.
Qed.

(** ** A client *)

(** [Sub]: the events of the messages received until the stream ends, in order. *)
Inductive sub_error := NotConnected | StreamFailed.
Definition Sub (json_decode : string → option any) (opened : bool) (p : Peer) (received : list (CDCEvent * (Z * Z))) :
    res sub_error (list Event) :=
  if negb (p_client p) then Err NotConnected
  else if negb opened then Err StreamFailed
  else Ok (omap (λ r, receive json_decode r.1 r.2) received).

End Life.

(** ** Examples *)

#[local] Instance stops_when_idle : GrpcServer := {| GracefulStop calls := forallb negb calls |}.
#[local] Instance stops_when_idle_law : GracefulLaw.
Proof.
  intros calls H. apply Forall_forall. intros b Hb. cbn in H. rewrite forallb_forall in H. specialize (H b).
  rewrite <-list_elem_of_In in H. specialize (H Hb). by destruct b.
Qed.
#[local] Instance open_endpoint : Endpoint := {| Listen _ := true; NewClient _ := true |}.

Definition server_config : Config := {| gc_Address := "localhost:50051"; gc_IsServer := true; gc_TLS := false |}.
Definition client_config : Config := {| gc_Address := "localhost:50051"; gc_IsServer := false; gc_TLS := false |}.
Definition shared_run : list action :=
  DoConnect server_config :: (DoPub <$> order_events) ++
  [DoCall 0; DoCall 0; DoTurn 0 true; DoTurn 1 true; DoTurn 0 true; DoStop].
Abbreviation run_of l := (do_run (GF := integral_floats) l new_peer).
Definition ran (o : outcome) : Peer := match o with Goes p => p | _ => new_peer end.
Definition shared_peer : Peer := ran (run_of shared_run).

Definition goes (o : outcome) : bool := match o with Goes _ => true | _ => false end.
Lemma ran_goes o : goes o = true → o = Goes (ran o).
Proof. by destruct o. Qed.
Lemma shared_goes : run_of shared_run = Goes shared_peer.
Proof. apply ran_goes. vm_compute. reflexivity. Qed.

(** Of two clients one gets the creation and the update; the other's turn was the
    deletion, of which nothing is sent. *)
Lemma clients_share_events_witness :
  (λ ca, length (ca_sent ca)) <$> p_calls shared_peer = [2; 0]%nat ∧
  ∃ c, p_chans shared_peer !! 0%nat = Some c ∧ ch_accepted c = (ch_taken c).*2 ++ ch_queue c.
Proof.
  split; [vm_compute; reflexivity|].
  destruct (p_chans shared_peer !! 0%nat) as [c|] eqn:Hc; [|exfalso; revert Hc; vm_compute; discriminate].
  exists c. split; [done|].
  apply (clients_share_events (GF := integral_floats) shared_run shared_peer 0%nat c); [|exact Hc].
  apply do_run_run. exact shared_goes.
Defined.

Lemma shared_serving : serving 0 0 shared_peer.
Proof. constructor; [done| |by eexists..]. vm_compute. repeat constructor. Qed.

(** Neither a turn of the idle call, nor a new event and its sending, ends it. *)
Definition later_actions : list action := [DoPub (order_event OpCreate (row_of_id 3)); DoTurn 0 true].
Definition later_peer : Peer := ran (do_run (GF := integral_floats) later_actions shared_peer).

Lemma disconnect_waits_witness :
  p_stopping later_peer = [Some 0%nat] ∧ finish 0 later_peer = Waits ∧
  p_stopping shared_peer `prefix_of` p_stopping later_peer ∧
  ∃ ca, p_calls later_peer !! 0%nat = Some ca ∧ ca_running ca = true.
Proof.
  split; [vm_compute; reflexivity|]. split; [vm_compute; reflexivity|].
  apply (disconnect_waits (GF := integral_floats) 0 0 later_actions).
  - exact shared_serving.
  - by repeat constructor.
  - apply do_run_run, ran_goes. vm_compute. reflexivity.
Defined.

Definition hundred : list Event := replicate 100 (order_event OpCreate (row_of_id 1)).
Definition full_client : Peer := ran (run_of (DoConnect client_config :: (DoPub <$> hundred))).

Lemma client_sink_blocks_witness : publish (order_event OpDelete ANil) full_client = Waits.
Proof.
  apply (client_sink_blocks (GF := integral_floats) client_config hundred [] full_client); [done..|reflexivity| |done|constructor].
  apply do_run_run, ran_goes. vm_compute. reflexivity.
Defined.

(** Disconnecting twice, or without having connected, panics; so does publishing
    afterwards. Before connecting, an event is dropped without an error. *)
Example disconnect_twice :
  (run_of [DoConnect client_config; DoStop; DoFinish 0; DoStop; DoFinish 0], run_of [DoStop; DoFinish 0],
   run_of [DoConnect client_config; DoStop; DoFinish 0; DoPub (order_event OpDelete ANil)],
   run_of [DoPub (order_event OpDelete ANil)]) = (Panics, Panics, Panics, Goes new_peer).
Proof. vm_compute. reflexivity. Qed.
