(* ===== verification/Kafka.v ===== *)
(** * Kafka: the Kafka peer, [pkg/pipeline/peer/kafka].

    Connecting, publishing and the topic made sure of (peer.go), the settings made
    from a configuration (config.go), and the client for topics, messages and access
    lists (kafka.go, acl.go), which nothing in the program uses. Events are published
    under the names of file Nats, as the JSON of file EventJson. The library sarama,
    the cluster and the files of certificates are classes. *)

From S2P Require Import Prelude GoStrings GoStringFacts GoAny Cdc EventJson Nats.
Local Open Scope Z_scope.

(** ** Configuration *)

Record SASL := { sasl_Username : string; sasl_Password : string; sasl_Algorithm : string; sasl_Enable : bool }.
Record TLS := { kt_CertFile : string; kt_KeyFile : string; kt_CAFile : string; kt_Enable : bool; kt_SkipVerify : bool }.
Record Config := {
  kc_Brokers : list string; kc_TopicPrefix : string; kc_Version : string; kc_SASL : option SASL;
  kc_Partitions : Z; kc_Replicas : Z; kc_RetentionMS : Z; kc_TLS : TLS
}.
Record TopicDetail := { td_NumPartitions : Z; td_ReplicationFactor : Z; td_ConfigEntries : gmap string string }.

Definition or_z (a b : Z) : Z := if a =? 0 then b else a.
Definition with_defaults (cfg : Config) : Config :=
  {| kc_Brokers := match kc_Brokers cfg with [] => ["localhost:9092"] | brokers => brokers end;
     kc_TopicPrefix := or_else (kc_TopicPrefix cfg) "pigo"; kc_Version := or_else (kc_Version cfg) "2.1.1";
     kc_SASL := kc_SASL cfg; kc_Partitions := or_z (kc_Partitions cfg) 1; kc_Replicas := or_z (kc_Replicas cfg) 1;
     kc_RetentionMS := or_z (kc_RetentionMS cfg) (7 * 24 * 60 * 60 * 1000); kc_TLS := kc_TLS cfg |}.

(** ** Settings of the library *)

Inductive mechanism := SCRAMSHA256 | SCRAMSHA512 | Plaintext.
Inductive hash := SHA256 | SHA512.
Record NetSASL := {
  ns_User : string; ns_Password : string; ns_Mechanism : mechanism;
  ns_Handshake : option bool;            (* [None]: as the library has it *)
  ns_Generator : option hash             (* SCRAMClientGeneratorFunc *)
}.
Record TLSConfig := { tc_InsecureSkipVerify : bool; tc_Certificate : option string; tc_RootCAs : option string }.
Record Producer := { pr_RequiredAcks : string; pr_RetryMax : Z; pr_RetryBackoff : option Z; pr_Successes : bool; pr_Errors : option bool }.
Record Settings := {
  st_Version : string; st_Producer : Producer; st_SASL : option NetSASL;
  st_TLS : option (option TLSConfig);    (* enabled, with its configuration, which may be nil *)
  st_ClientID : option string; st_MetadataFull : option bool
}.

(** The library, the cluster and the files. A certificate is its text. *)
Class Cluster := {
  WaitForAll : string;
  ParseKafkaVersion : string → bool;
  NewSyncProducer : list string → Settings → bool;
  NewClusterAdmin : list string → Settings → bool;
  NewConsumer : list string → Settings → bool;
  ListTopics : option (list string);
  CreateTopic : string → TopicDetail → bool;
  SendMessage : string → string → bool;
  LoadX509KeyPair : string → string → option string;
  ReadFile : string → option string
}.
(** The library checks settings before it connects: SCRAM needs a generator. *)
Class ClusterLaw `{Cluster} := scram_needs_generator brokers st s :
  st_SASL st = Some s → ns_Mechanism s ≠ Plaintext → ns_Generator s = None → NewSyncProducer brokers st = false.

Inductive kafka_error := NoProducer | MarshalFailed | PublishFailed | InvalidVersion | InvalidAlgorithm (a : string)
| ProducerFailed | ConsumerFailed | AdminFailed | ListFailed | CreateFailed | TypeMismatch | ACLFailed.

Definition sasl_mechanism (s : SASL) : mechanism :=
  if bool_decide (sasl_Algorithm s = "sha256") then SCRAMSHA256
  else if bool_decide (sasl_Algorithm s = "sha512") then SCRAMSHA512 else Plaintext.

(** ** The peer *)

(** The fields of the peer: its configuration and prefix once there was a producer. *)
Record Peer := { kp_producer : bool; kp_config : option Config; kp_topicPrefix : string }.
Definition new_peer : Peer := {| kp_producer := false; kp_config := None; kp_topicPrefix := "" |}.

Section Peer.
Context `{CL : Cluster} `{GF : GoFloat}.

Definition default_topic (prefix : string) : string := prefix +:+ ".pg".

(** The topics that are created. *)
Definition ensureDefaultTopic (cfg : Config) : res kafka_error (list (string * TopicDetail)) :=
  let defaultTopic := default_topic (kc_TopicPrefix cfg) in
  match ListTopics with
  | None => Err ListFailed
  | Some topics =>
      if bool_decide (defaultTopic ∈ topics) then Ok []
      else
        let topicDetail := {| td_NumPartitions := kc_Partitions cfg; td_ReplicationFactor := kc_Replicas cfg;
                              td_ConfigEntries := {["retention.ms" := Itoa (kc_RetentionMS cfg)]} |} in
        if CreateTopic defaultTopic topicDetail then Ok [(defaultTopic, topicDetail)] else Err CreateFailed
  end.

Definition sasl_settings (cfg : Config) : option NetSASL :=
  match kc_SASL cfg with
  | Some s => if sasl_Enable s
              then Some {| ns_User := sasl_Username s; ns_Password := sasl_Password s; ns_Mechanism := sasl_mechanism s;
                           ns_Handshake := None; ns_Generator := None |}
              else None
  | None => None
  end.

(** The settings that Connect makes. *)
Definition peer_settings (cfg : Config) : Settings := {|
  st_Version := kc_Version cfg;
  st_Producer := {| pr_RequiredAcks := WaitForAll; pr_RetryMax := 5; pr_RetryBackoff := Some second; pr_Successes := true;
                    pr_Errors := Some true |};
  st_SASL := sasl_settings cfg; st_TLS := None; st_ClientID := None; st_MetadataFull := None |}.

(** [Connect]: the error or the topics created, and the peer. The fields are set
    before the admin client and the topic can fail. *)
Definition Connect (cfg : Config) (p : Peer) : res kafka_error (list (string * TopicDetail)) * Peer :=
  let cfg := with_defaults cfg in
  if negb (ParseKafkaVersion (kc_Version cfg)) then (Err InvalidVersion, p)
  else if negb (NewSyncProducer (kc_Brokers cfg) (peer_settings cfg)) then (Err ProducerFailed, p)
  else
    let p := {| kp_producer := true; kp_config := Some cfg; kp_topicPrefix := kc_TopicPrefix cfg |} in
    if negb (NewClusterAdmin (kc_Brokers cfg) (peer_settings cfg)) then (Err AdminFailed, p)
    else (ensureDefaultTopic cfg, p).

(** [Pub]: the topic and message that were sent. *)
Definition pub (fields : option (list Field)) (event : Event) (p : Peer) : res kafka_error (string * string) :=
  if negb (kp_producer p) then Err NoProducer else
  let topic := subject_of (kp_topicPrefix p) event in
  match MarshalEvent fields event with
  | None => Err MarshalFailed
  | Some data => if SendMessage topic data then Ok (topic, data) else Err PublishFailed
  end.

Definition sub (p : Peer) : res kafka_error (list Event) := Err TypeMismatch.

(** [Disconnect]: whether the producer is closed. *)
Definition disconnect (p : Peer) : bool := kp_producer p.

(** ** config.go *)

Definition createTLSConfiguration (tlsCfg : TLS) : option TLSConfig :=
  let t := {| tc_InsecureSkipVerify := kt_SkipVerify tlsCfg; tc_Certificate := None; tc_RootCAs := None |} in
  if bool_decide (kt_CertFile tlsCfg = "") || bool_decide (kt_KeyFile tlsCfg = "") || bool_decide (kt_CAFile tlsCfg = "") then Some t
  else
    cert ← LoadX509KeyPair (kt_CertFile tlsCfg) (kt_KeyFile tlsCfg);
    ca ← ReadFile (kt_CAFile tlsCfg);
    Some {| tc_InsecureSkipVerify := kt_SkipVerify tlsCfg; tc_Certificate := Some cert; tc_RootCAs := Some ca |}.

(** [ToSaramaConfig]; [None] is a panic: without SASL its pointer is nil. *)
Definition ToSaramaConfig (c : Config) : option (res kafka_error Settings) :=
  if negb (ParseKafkaVersion (kc_Version c)) then Some (Err InvalidVersion) else
  match kc_SASL c with
  | None => None
  | Some s =>
      let with_generator m h := Ok (Some {| ns_User := sasl_Username s; ns_Password := sasl_Password s; ns_Mechanism := m;
                                            ns_Handshake := Some true; ns_Generator := Some h |}) in
      Some (let? sasl := if sasl_Enable s then
                           if bool_decide (sasl_Algorithm s = "sha512") then with_generator SCRAMSHA512 SHA512
                           else if bool_decide (sasl_Algorithm s = "sha256") then with_generator SCRAMSHA256 SHA256
                           else Err (InvalidAlgorithm (sasl_Algorithm s))
                         else Ok None in
            Ok {| st_Version := kc_Version c;
                  st_Producer := {| pr_RequiredAcks := WaitForAll; pr_RetryMax := 1; pr_RetryBackoff := None; pr_Successes := true;
                                    pr_Errors := None |};
                  st_SASL := sasl;
                  st_TLS := if kt_Enable (kc_TLS c) then Some (createTLSConfiguration (kc_TLS c)) else None;
                  st_ClientID := Some "sasl_scram_client"; st_MetadataFull := Some true |})
  end.
Definition GetBrokers (c : Config) : list string := kc_Brokers c.

End Peer.

(** ** The client: kafka.go and acl.go *)

(** The types of access lists and the answers about them. *)
Class AccessLists := {
  Resource : Type; Acl : Type; AclFilter : Type; ResourceAcls : Type; MatchingAcl : Type;
  CreateACL : Resource → Acl → bool;
  ListAcls : AclFilter → option (list ResourceAcls);
  DeleteACL : AclFilter → option (list MatchingAcl)
}.

(** What happens to admin clients. *)
Inductive admin_step := AdminOpened | AdminClosed.

Section Client.
Context `{CL : Cluster} `{AL : AccessLists}.

(** Settings, then a client of the library; [None] is a panic. *)
Definition with_settings {A} (config : Config) (k : Settings → res kafka_error A) : option (res kafka_error A) :=
  match ToSaramaConfig config with None => None | Some (Err e) => Some (Err e) | Some (Ok st) => Some (k st) end.
Definition CreateProducer (config : Config) : option (res kafka_error unit) :=
  with_settings config (λ st, if NewSyncProducer (GetBrokers config) st then Ok tt else Err ProducerFailed).
Definition CreateConsumer (config : Config) : option (res kafka_error unit) :=
  with_settings config (λ st, if NewConsumer (GetBrokers config) st then Ok tt else Err ConsumerFailed).
Definition newClusterAdmin (config : Config) : option (res kafka_error unit) :=
  with_settings config (λ st, if NewClusterAdmin (GetBrokers config) st then Ok tt else Err AdminFailed).

(** An operation on an admin client that is closed when it returns. *)
Definition with_admin {A} (config : Config) (k : res kafka_error A) : option (res kafka_error A * list admin_step) :=
  match newClusterAdmin config with
  | None => None
  | Some (Err e) => Some (Err e, [])
  | Some (Ok _) => Some (k, [AdminOpened; AdminClosed])
  end.

Definition client_ListTopics (config : Config) : option (res kafka_error (list string) * list admin_step) :=
  with_admin config (match ListTopics with Some topics => Ok topics | None => Err ListFailed end).
Definition client_CreateTopic (config : Config) (topicName : string) (detail : TopicDetail) : option (res kafka_error unit * list admin_step) :=
  with_admin config (if CreateTopic topicName detail then Ok tt else Err CreateFailed).
Definition client_CreateACL (config : Config) (resource : Resource) (acl : Acl) : option (res kafka_error unit * list admin_step) :=
  with_admin config (if CreateACL resource acl then Ok tt else Err ACLFailed).
Definition client_ListAcls (config : Config) (filter : AclFilter) : option (res kafka_error (list ResourceAcls) * list admin_step) :=
  with_admin config (match ListAcls filter with Some acls => Ok acls | None => Err ACLFailed end).
Definition client_DeleteACL (config : Config) (filter : AclFilter) : option (res kafka_error (list MatchingAcl) * list admin_step) :=
  with_admin config (match DeleteACL filter with Some acls => Ok acls | None => Err ACLFailed end).

Definition ProduceMessage (topic message : string) : res kafka_error unit :=
  if SendMessage topic message then Ok tt else Err PublishFailed.

End Client.

(** [ConsumeMessages] on what its select receives: a message, the nil of a closed
    channel, or an interrupt. The number of messages consumed; [Panicked] at the nil;
    [Fatal] ends the program. *)
Inductive received := Message | ClosedChannel | Interrupt.
Inductive consumption := Consumed (n : Z) | Waiting (n : Z) | Panicked | Fatal.
Fixpoint consumer_loop (l : list received) (consumed : Z) : consumption :=
  match l with
  | [] => Waiting consumed
  | Message :: l => consumer_loop l (consumed + 1)
  | ClosedChannel :: _ => Panicked
  | Interrupt :: _ => Consumed consumed
  end.
Definition ConsumeMessages (started : bool) (l : list received) : consumption := if started then consumer_loop l 0 else Fatal.

(** ** Properties *)

(** When the default topic was made sure of, it is there: it was, or was created
    with the partitions, replicas and retention of the configuration. *)
Theorem ensureDefaultTopic_spec `{CL : Cluster} cfg created :
  ensureDefaultTopic cfg = Ok created →
  let topic := default_topic (kc_TopicPrefix cfg) in
  (created = [] ∧ ∃ topics, ListTopics = Some topics ∧ topic ∈ topics) ∨
  (∃ detail topics, created = [(topic, detail)] ∧ ListTopics = Some topics ∧ topic ∉ topics ∧
     CreateTopic topic detail = true ∧ td_NumPartitions detail = kc_Partitions cfg ∧
     td_ReplicationFactor detail = kc_Replicas cfg).
Proof.
  unfold ensureDefaultTopic. destruct ListTopics as [topics|]; [|done]. case_bool_decide as Hin.
  - intros [= <-]. left. split; [done|]. by exists topics.
  - destruct (CreateTopic _ _) eqn:Hc; [|done]. intros [= <-]. right. by eexists _, topics.
Qed.

(** No event is published to the topic that Connect makes sure of: their topics
    have three parts after the prefix. *)
Theorem default_topic_unused prefix e : subject_of prefix e ≠ default_topic prefix.
Proof.
  unfold subject_of, default_topic. intros H. apply (f_equal String.list_ascii_of_string) in H.
  repeat (rewrite chars_app in H || rewrite <-app_assoc in H). apply app_inv_head in H.
  injection H as H. generalize dependent (pay_Op (ev_Payload e)). intros op H.
  assert ("."%char ∈ ["p"%char; "g"%char]) as Hin by (rewrite <-H; apply elem_of_app; right; by left).
  by repeat (apply elem_of_cons in Hin as [Hin|Hin]; [done|]); apply not_elem_of_nil in Hin.
Qed.

(** With SCRAM the peer never connects: it sets no generator for its messages. *)
Theorem scram_never_connects `{CL : Cluster} `{LAW : !ClusterLaw} cfg p s :
  kc_SASL cfg = Some s → sasl_Enable s = true → sasl_Algorithm s = "sha256" ∨ sasl_Algorithm s = "sha512" →
  ∃ e, Connect cfg p = (Err e, p).
Proof.
  intros Hs He Ha. unfold Connect. destruct (negb (ParseKafkaVersion _)); [by eexists|].
  rewrite (scram_needs_generator _ _ {| ns_User := sasl_Username s; ns_Password := sasl_Password s; ns_Mechanism := sasl_mechanism s;
                                        ns_Handshake := None; ns_Generator := None |}).
  - by eexists.
  - unfold peer_settings, sasl_settings. cbn. by rewrite Hs, He.
  - cbn. unfold sasl_mechanism. destruct Ha as [->| ->]; done.
  - done.
Qed.

(** The settings of the peer do not depend on those for TLS. *)
Theorem tls_ignored `{CL : Cluster} cfg tls :
  peer_settings {| kc_Brokers := kc_Brokers cfg; kc_TopicPrefix := kc_TopicPrefix cfg; kc_Version := kc_Version cfg;
    kc_SASL := kc_SASL cfg; kc_Partitions := kc_Partitions cfg; kc_Replicas := kc_Replicas cfg;
    kc_RetentionMS := kc_RetentionMS cfg; kc_TLS := tls |} = peer_settings cfg.
Proof. done. Qed.

(** Every admin client that is made is closed, whatever becomes of the operation. *)
Theorem admin_closed `{CL : Cluster} {A} config (k : res kafka_error A) r log :
  with_admin config k = Some (r, log) → (log = [] ∧ ∃ e, r = Err e) ∨ (log = [AdminOpened; AdminClosed] ∧ r = k).
Proof.
  unfold with_admin. destruct (newClusterAdmin config) as [[[]|e]|]; [..|done]; intros [= <- <-]; [by right|]. left. by split; [|eexists].
Qed.

(** ** Examples *)

Definition sample_cluster : Cluster := {|
  WaitForAll := "all"; ParseKafkaVersion _ := true;
  NewSyncProducer _ st := match st_SASL st with
                          | Some s => match ns_Mechanism s, ns_Generator s with Plaintext, _ | _, Some _ => true | _, None => false end
                          | None => true end;
  NewClusterAdmin _ _ := true; NewConsumer _ _ := true; ListTopics := Some ["pigo.pg"]; CreateTopic _ _ := true;
  SendMessage _ _ := true; LoadX509KeyPair _ _ := None; ReadFile _ := None |}.
Lemma sample_cluster_law : ClusterLaw (H := sample_cluster).
Proof. intros brokers st s Hs Hm Hg. cbn. rewrite Hs, Hg. by destruct (ns_Mechanism s). Qed.

Definition sample_config (sasl : option SASL) : Config := {|
  kc_Brokers := []; kc_TopicPrefix := ""; kc_Version := "2.1.1"; kc_SASL := sasl; kc_Partitions := 0; kc_Replicas := 0;
  kc_RetentionMS := 0;
  kc_TLS := {| kt_CertFile := "c.pem"; kt_KeyFile := "k.pem"; kt_CAFile := "ca.pem"; kt_Enable := true; kt_SkipVerify := false |} |}.
Definition scram_user : SASL := {| sasl_Username := "u"; sasl_Password := "p"; sasl_Algorithm := "sha512"; sasl_Enable := true |}.

Lemma scram_never_connects_witness : ∃ e, Connect (CL := sample_cluster) (sample_config (Some scram_user)) new_peer = (Err e, new_peer).
Proof.
  apply (scram_never_connects (CL := sample_cluster) (LAW := sample_cluster_law) (sample_config (Some scram_user)) new_peer scram_user);
    [done..|by right].
Defined.

(** Files that cannot be read leave TLS enabled with a nil configuration, that of
    the system; without SASL the settings panic. *)
Example settings_of_files :
  (st_TLS <$> match ToSaramaConfig (CL := sample_cluster) (sample_config (Some scram_user)) with Some (Ok st) => Some st | _ => None end,
   ToSaramaConfig (CL := sample_cluster) (sample_config None)) = (Some (Some None), None).
Proof. reflexivity. Qed.
