(* ===== verification/Migrate.v ===== *)
(** * Migrate: [pigo migrate], [cmd/pigo/migrate.go].

    The settings from flags, configuration file and environment, the versions that a
    destination means, and the command as a whole. Versions are 32-bit integers.
    Templates, YAML, the migrator and the file system are arguments. *)

From S2P Require Import Prelude GoStrings GoStringFacts GoAny Support.
Local Open Scope Z_scope.

(** ** Settings *)

Record migrationConfig := {
  mc_Host : string; mc_Port : Z; mc_Database : string; mc_User : string; mc_Password : string; mc_SSLMode : string;
  mc_ConnString : string; mc_VersionTable : string; mc_Data : option (gmap string any)
}.

(** [cmp.Or]: the first value that is not zero. *)
Fixpoint Or (vals : list string) : string :=
  match vals with [] => "" | v :: vals => if bool_decide (v = "") then Or vals else v end.
Fixpoint Or_int (vals : list Z) : Z :=
  match vals with [] => 0 | v :: vals => if v =? 0 then Or_int vals else v end.

(** The value of [strconv.Atoi] when its error is ignored: a number out of range
    is the nearest integer. *)
Definition Atoi_value (s : string) : Z :=
  match Atoi s with
  | Some v => v
  | None =>
      let '(neg, ds) := match s with
                        | String "+" t => (false, t)
                        | String "-" t => (true, t)
                        | _ => (false, s)
                        end in
      match ds, digits_val 0 ds with
      | String _ _, Some _ => if neg : bool then - 2 ^ 63 else 2 ^ 63 - 1
      | _, _ => 0
      end
  end.

(** The assignments after the flags and the file have been read. *)
Definition resolve (flags file : migrationConfig) (Getenv : string → string) : migrationConfig := {|
  mc_ConnString := Or [mc_ConnString flags; mc_ConnString file; Getenv "PIGO_CONN_STRING"];
  mc_Host := Or [mc_Host flags; mc_Host file; Getenv "PGHOST"; "localhost"];
  mc_Port := Or_int [mc_Port flags; mc_Port file; Atoi_value (Getenv "PGPORT"); 5432];
  mc_Database := Or [mc_Database flags; mc_Database file; Getenv "PGDATABASE"];
  mc_User := Or [mc_User flags; mc_User file; Getenv "PGUSER"; Getenv "USER"];
  mc_Password := Or [mc_Password flags; mc_Password file; Getenv "PGPASSWORD"];
  mc_SSLMode := Or [mc_SSLMode flags; mc_SSLMode file; Getenv "PGSSLMODE"; "prefer"];
  mc_VersionTable := Or [mc_VersionTable flags; mc_VersionTable file; "public.schema_version"];
  mc_Data := mc_Data file |}.

Definition uri (cfg : migrationConfig) : string :=
  Or [mc_ConnString cfg;
      "host=" +:+ mc_Host cfg +:+ " port=" +:+ Itoa (mc_Port cfg) +:+ " dbname=" +:+ mc_Database cfg +:+ " user=" +:+
      mc_User cfg +:+ " password=" +:+ mc_Password cfg +:+ " sslmode=" +:+ mc_SSLMode cfg].

(** ** Destinations *)

(** What the migrator answers, after the versions migrated to before; the version
    is an [int32]. *)
Class Migrator := {
  mg_Migrate : option string;
  mg_GetCurrentVersion : list Z → res string Z;
  mg_MigrateTo : list Z → Z → option string
}.

Inductive migrate_error := InvalidDestination (dest : string) | MigratorError (e : string).

(** The calls of the migrator that change the database. *)
Inductive target := Latest | Version (v : Z).

Definition int32 (z : Z) : Z := wrap 32 z.

Section Migrate.
Context `{MG : Migrator}.

Definition versions (done : list target) : list Z := omap (λ t, match t with Version v => Some v | Latest => None end) done.

(** The closures [cur] and [to]. *)
Definition cur (done : list target) : res migrate_error Z := map_err MigratorError (mg_GetCurrentVersion (versions done)).
Definition to (v : Z) (done : list target) : option migrate_error * list target :=
  (MigratorError <$> mg_MigrateTo (versions done) v, done ++ [Version v]).

Definition migrateTo (dest : string) : option migrate_error * list target :=
  if bool_decide (dest = "") then (MigratorError <$> mg_Migrate, [Latest]) else
  match Atoi (TrimLeftBytes (mem_byte "-+") dest) with
  | None => (Some (InvalidDestination dest), [])
  | Some n =>
      if HasPrefix dest "-+" then
        match cur [] with
        | Err e => (Some e, [])
        | Ok v => match to (int32 (v - int32 n)) [] with
                  | (Some e, done) => (Some e, done)
                  | (None, done) => to v done
                  end
        end
      else if HasPrefix dest "+" then
        match cur [] with Err e => (Some e, []) | Ok v => to (int32 (v + int32 n)) [] end
      else if HasPrefix dest "-" then
        match cur [] with Err e => (Some e, []) | Ok v => to (int32 (v - int32 n)) [] end
      else to (int32 n) []
  end.

(** ** What a destination means *)

Inductive destination := ToLatest | ToVersion (n : Z) | Up (n : Z) | Down (n : Z) | Redo (n : Z).
Definition print (d : destination) : string :=
  match d with
  | ToLatest => ""
  | ToVersion n => Itoa n
  | Up n => "+" +:+ Itoa n
  | Down n => "-" +:+ Itoa n
  | Redo n => "-+" +:+ Itoa n
  end.
Definition amount (d : destination) : Z :=
  match d with ToLatest => 0 | ToVersion n | Up n | Down n | Redo n => n end.

(** The targets of a destination from a current version, in order. *)
Definition targets (d : destination) (current : Z) : list target :=
  match d with
  | ToLatest => [Latest]
  | ToVersion n => [Version n]
  | Up n => [Version (current + n)]
  | Down n => [Version (current - n)]
  | Redo n => [Version (current - n); Version current]
  end.
Definition is_int32 (z : Z) : Prop := - 2 ^ 31 ≤ z < 2 ^ 31.

Lemma int32_id z : is_int32 z → int32 z = z.
Proof. unfold int32, wrap, is_int32. intros H. change (2 ^ (32 - 1)) with (2 ^ 31). rewrite Z.mod_small; lia. Qed.

Lemma digit_no_sign c : isDigit c = true → mem_byte "-+" c = false.
Proof. intros [? ?]%digit_not_sign. apply bool_decide_eq_false_2. cbn. set_solver. Qed.

(** The number after the signs. *)
Lemma destination_number sign n :
  0 ≤ n < 2 ^ 63 → all_bytes (mem_byte "-+") sign = true →
  Atoi (TrimLeftBytes (mem_byte "-+") (sign +:+ Itoa n)) = Some n.
Proof.
  intros Hn Hs. destruct (Itoa_spec n) as (sg & c & s & E & Hc & _ & [(_ & -> & Hv)|(? & _)]); [|lia].
  rewrite app_nil_l_str in E. assert (TrimLeftBytes (mem_byte "-+") (sign +:+ Itoa n) = String c s) as ->.
  { rewrite E. clear E. induction sign as [|d sign IH].
    - rewrite app_nil_l_str. cbn [TrimLeftBytes]. by rewrite digit_no_sign.
    - cbn [all_bytes] in Hs. apply andb_true_iff in Hs as [Hd Hs]. rewrite app_cons_str. cbn [TrimLeftBytes].
      rewrite Hd. by apply IH. }
  unfold Atoi. pose proof (ParseInt_digits c s false n 64) as Hp. cbn in Hp. rewrite app_nil_l_str in Hp.
  rewrite Hp by done. rewrite (proj2 (Z.ltb_lt _ _)); [done|]. change (2 ^ (64 - 1)) with (2 ^ 63). lia.
Qed.

Lemma number_has_no_sign n p : 0 ≤ n → p ∈ ["-"%char; "+"%char] → HasPrefix (Itoa n) (String p "") = false ∧ Itoa n ≠ "".
Proof.
  intros Hn Hp. destruct (Itoa_spec n) as (sg & c & s & E & Hc & _ & [(_ & -> & _)|(? & _)]); [|lia].
  rewrite app_nil_l_str in E. rewrite E. split; [|done]. cbn. rewrite bool_decide_eq_false_2; [done|].
  intros ->. destruct (digit_not_sign c Hc). set_solver.
Qed.

Lemma sign_prefix a n b : 0 ≤ n → HasPrefix (String a (Itoa n)) (String b "+") = false.
Proof.
  intros Hn. change (bool_decide (b = a) && HasPrefix (Itoa n) "+" = false).
  destruct (number_has_no_sign n "+" Hn ltac:(set_solver)) as [-> _]. apply andb_false_r.
Qed.

(** A destination that is printed in a number of 31 bits is read back: the
    calls are those of its targets from the current version, in order, up to one
    that fails, and all of them if there is no error. *)
Theorem migrateTo_targets d v :
  0 ≤ amount d < 2 ^ 31 → mg_GetCurrentVersion [] = Ok v → is_int32 v →
  Forall (λ t, match t with Version n => is_int32 n | Latest => True end) (targets d v) →
  let '(err, done) := migrateTo (print d) in
  done `prefix_of` targets d v ∧ (err = None → done = targets d v).
Proof.
  intros Ha Hcur Hv Ht. assert (is_int32 (amount d)) as Hi by (unfold is_int32; lia).
  unfold migrateTo, cur, to. cbn [versions omap list_omap]. rewrite Hcur. cbn [map_err].
  destruct d as [|n|n|n|n]; cbn [print amount targets] in *.
  - rewrite bool_decide_eq_true_2 by done. by split.
  - destruct (number_has_no_sign n "-" (proj1 Ha) ltac:(set_solver)) as [H1 H2].
    destruct (number_has_no_sign n "+" (proj1 Ha) ltac:(set_solver)) as [H3 _].
    pose proof (destination_number "" n ltac:(lia) eq_refl) as Hn. rewrite app_nil_l_str in Hn.
    rewrite bool_decide_eq_false_2, Hn by done.
    replace (HasPrefix (Itoa n) "-+") with false.
    + rewrite H3, H1, int32_id by done. by split.
    + symmetry. destruct (Itoa n) as [|c s]; [done|]. cbn in H1 |- *. rewrite andb_true_r in H1. by rewrite H1.
  - rewrite bool_decide_eq_false_2, (destination_number "+") by (done || lia).
    apply Forall_cons_1 in Ht as [Ht _]. rewrite (HasPrefix_app "+").
    change (HasPrefix ("+" +:+ Itoa n) "-+") with false. lazy iota. rewrite (int32_id n), int32_id by done. by split.
  - rewrite bool_decide_eq_false_2, (destination_number "-") by (done || lia).
    apply Forall_cons_1 in Ht as [Ht _]. change ("-" +:+ Itoa n) with (String "-" (Itoa n)).
    rewrite (sign_prefix "-" n "-") by lia. change (HasPrefix (String "-" (Itoa n)) "+") with false.
    rewrite (HasPrefix_app "-" (Itoa n) : HasPrefix (String "-" (Itoa n)) "-" = true).
    lazy iota. rewrite (int32_id n), int32_id by done. by split.
  - rewrite bool_decide_eq_false_2, (destination_number "-+") by (done || lia).
    apply Forall_cons_1 in Ht as [Ht1 [Ht2 _]%Forall_cons_1]. rewrite (HasPrefix_app "-+").
    lazy iota. rewrite (int32_id n), int32_id by done. cbn [app]. destruct (mg_MigrateTo [] _) as [e|]; cbn [fmap option_fmap option_map].
    + split; [by eexists|done].
    + by split.
Qed.

(** What is no number after its signs changes nothing. *)
Theorem migrateTo_invalid dest :
  dest ≠ "" → Atoi (TrimLeftBytes (mem_byte "-+") dest) = None → migrateTo dest = (Some (InvalidDestination dest), []).
Proof. intros Hd Ha. unfold migrateTo. by rewrite bool_decide_eq_false_2, Ha. Qed.

End Migrate.

(** A migrator at version 7 that does what it is told. *)
Definition at_seven : Migrator := {|
  mg_Migrate := None; mg_GetCurrentVersion _ := Ok 7; mg_MigrateTo _ _ := None |}.

Lemma migrateTo_targets_witness : migrateTo (MG := at_seven) "-+3" = (None, [Version 4; Version 7]).
Proof.
  pose proof (migrateTo_targets (MG := at_seven) (Redo 3) 7 ltac:(cbn; lia) eq_refl ltac:(unfold is_int32; lia)
    ltac:(repeat constructor; unfold is_int32; lia)) as H.
  vm_compute print in H. destruct (migrateTo (MG := at_seven) "-+3") as [err done] eqn:E.
  destruct H as [_ H]. assert (err = None) as -> by (revert E; vm_compute; congruence). by rewrite (H eq_refl).
Defined.

(** A larger number is taken modulo two to the 32nd. *)
Example destination_wraps : migrateTo (MG := at_seven) "4294967297" = (None, [Version 1]).
Proof. vm_compute. reflexivity. Qed.

(** [Or] is the first value that is not empty. *)
Lemma Or_first v vals : v ≠ "" → Or (v :: vals) = v.
Proof. intros H. cbn. by rewrite bool_decide_eq_false_2. Qed.
Lemma Or_default vals d : d ≠ "" → Or (vals ++ [d]) ≠ "".
Proof.
  intros Hd. induction vals as [|v vals IH]; cbn; case_bool_decide; congruence.
Qed.
Lemma Or_int_default vals d : d ≠ 0 → Or_int (vals ++ [d]) ≠ 0.
Proof. intros Hd. induction vals as [|v vals IH]; cbn; [destruct (Z.eqb_spec d 0)|destruct (Z.eqb_spec v 0)]; congruence. Qed.

(** The first source that names a connection decides it: the flags, then the
    file, then the environment; host, port and version table are never empty. *)
Theorem resolve_order flags file Getenv :
  let cfg := resolve flags file Getenv in
  uri cfg ≠ "" ∧
  (mc_ConnString flags ≠ "" → uri cfg = mc_ConnString flags) ∧
  (mc_ConnString flags = "" → mc_ConnString file ≠ "" → uri cfg = mc_ConnString file) ∧
  (mc_Host flags ≠ "" → mc_Host cfg = mc_Host flags) ∧
  mc_Host cfg ≠ "" ∧ mc_Port cfg ≠ 0 ∧ mc_VersionTable cfg ≠ "".
Proof.
  cbv zeta. split_and!.
  - by apply (Or_default [_]).
  - intros H. assert (mc_ConnString (resolve flags file Getenv) = mc_ConnString flags) as E by by apply Or_first.
    unfold uri. by rewrite Or_first; rewrite E.
  - intros H1 H2. assert (mc_ConnString (resolve flags file Getenv) = mc_ConnString file) as E.
    { change (Or [mc_ConnString flags; mc_ConnString file; Getenv "PIGO_CONN_STRING"] = mc_ConnString file).
      rewrite H1. by apply (Or_first _ [_]). }
    unfold uri. by rewrite Or_first; rewrite E.
  - by apply Or_first.
  - by apply (Or_default [_; _; _] "localhost").
  - by apply (Or_int_default [_; _; _] 5432).
  - by apply (Or_default [_; _] "public.schema_version").
Qed.

(** * The command

    It reads its own arguments with the standard library's flag package after cobra
    has read them, then the file of settings, connects, loads the migrations and
    hands them to [migrateTo]. The calls that leave the program are kept in order. *)

(** ** Numbers of flags: [strconv.ParseInt(s, 0, 64)] *)

Definition lower_byte (c : ascii) : ascii := if in_range 65 90 (byte_val c) then byte_of (byte_val c + 32) else c.
Definition digit_of (c : ascii) : option Z :=
  let b := byte_val (lower_byte c) in
  if in_range 48 57 b then Some (b - 48) else if in_range 97 122 b then Some (b - 87) else None.

(** The base a prefix gives, and the rest. *)
Definition number_base (s : string) : Z * string :=
  match s with
  | String "0" (String c (String d t)) =>
      let l := lower_byte c in
      if bool_decide (l = "b"%char) then (2, String d t)
      else if bool_decide (l = "o"%char) then (8, String d t)
      else if bool_decide (l = "x"%char) then (16, String d t)
      else (8, String c (String d t))
  | String "0" t => (8, t)
  | _ => (10, s)
  end.

Fixpoint digits_in (base acc : Z) (s : string) : option Z :=
  match s with
  | EmptyString => Some acc
  | String c t =>
      if bool_decide (c = "_"%char) then digits_in base acc t
      else d ← digit_of c; if d <? base then digits_in base (acc * base + d) t else None
  end.

(** Underscores stand between digits, or after a prefix. *)
Inductive seen := SeenStart | SeenDigit | SeenUnderscore | SeenOther.
Fixpoint underscores (hex : bool) (i : seen) (s : string) : bool :=
  match s with
  | EmptyString => match i with SeenUnderscore => false | _ => true end
  | String c t =>
      if isDigit c || (hex && in_range 97 102 (byte_val (lower_byte c))) then underscores hex SeenDigit t
      else if bool_decide (c = "_"%char) then match i with SeenDigit => underscores hex SeenUnderscore t | _ => false end
      else match i with SeenUnderscore => false | _ => underscores hex SeenOther t end
  end.
Definition underscoreOK (s : string) : bool :=
  match s with
  | String "0" (String c t) =>
      let l := lower_byte c in
      if mem_byte "box" l then underscores (bool_decide (l = "x"%char)) SeenDigit t else underscores false SeenStart s
  | _ => underscores false SeenStart s
  end.

Definition ParseInt0 (s : string) : option Z :=
  let '(neg, ds) := match s with String "+" t => (false, t) | String "-" t => (true, t) | _ => (false, s) end in
  if bool_decide (ds = "") then None else
  let '(base, digits) := number_base ds in
  v ← digits_in base 0 digits;
  if mem_byte digits "_" && negb (underscoreOK ds) then None
  else if (neg : bool) then if v <=? 2 ^ 63 then Some (- v) else None
  else if v <? 2 ^ 63 then Some v else None.

Example ParseInt0_ex :
  (ParseInt0 <$> ["5432"; "0"; "010"; "0x1F"; "-0b11"; "1_000"; "1__0"; "_1"; "0x_f"; ""; "9223372036854775808"; "08"]) =
  [Some 5432; Some 0; Some 8; Some 31; Some (-3); Some 1000; None; None; Some 15; None; None; None].
Proof. vm_compute. reflexivity. Qed.

(** ** The flags *)

Inductive flag_error :=
| BadSyntax (arg : string) | NotDefined (name : string) | HelpRequested | NeedsArgument (name : string) | InvalidValue (name value : string).

Definition string_flags : list string :=
  ["tern-config"; "migrations"; "version-table"; "conn-string"; "host"; "database"; "user"; "password"; "sslmode"; "destination"].

(** The values that have been set, of strings and of the port. *)
Record FlagValues := { fv_strings : gmap string string; fv_port : Z }.
Definition no_flags : FlagValues := {| fv_strings := ∅; fv_port := 0 |}.

Definition set_value (name value : string) (fv : FlagValues) : res flag_error FlagValues :=
  if bool_decide (name ∈ string_flags) then Ok {| fv_strings := <[name := value]> (fv_strings fv); fv_port := fv_port fv |}
  else if bool_decide (name = "port") then
    match ParseInt0 value with
    | Some v => Ok {| fv_strings := fv_strings fv; fv_port := v |}
    | None => Err (InvalidValue name value)
    end
  else if bool_decide (name = "help") || bool_decide (name = "h") then Err HelpRequested
  else Err (NotDefined name).

(** The name of an argument that is a flag, with its value after the first equals
    sign that is not at the start; [None] ends the flags. *)
Inductive flag_arg := EndOfFlags | Malformed | Flag (name : string) (value : option string).
Definition split_name (name : string) : flag_arg :=
  match name with
  | EmptyString | String "-" _ | String "=" _ => Malformed
  | String d u => match IndexByte u "=" with
                  | Some i => Flag (String d (take i u)) (Some (drop (S i) u))
                  | None => Flag name None
                  end
  end.
Definition read_flag (s : string) : flag_arg :=
  match s with
  | String "-" (String c t) =>
      if bool_decide (c = "-"%char) then if bool_decide (t = "") then EndOfFlags else split_name t
      else split_name (String c t)
  | _ => EndOfFlags
  end.

Definition defined (name : string) : bool := bool_decide (name ∈ string_flags) || bool_decide (name = "port").

(** [fset.Parse(args)]: flags are set until an argument that is none. *)
Fixpoint Parse (args : list string) (fv : FlagValues) : res flag_error FlagValues :=
  match args with
  | [] => Ok fv
  | s :: args =>
      match read_flag s with
      | EndOfFlags => Ok fv
      | Malformed => Err (BadSyntax s)
      | Flag name (Some value) => let? fv := set_value name value fv in Parse args fv
      | Flag name None =>
          if defined name then
            match args with
            | value :: args => let? fv := set_value name value fv in Parse args fv
            | [] => Err (NeedsArgument name)
            end
          else let? fv := set_value name "" fv in Parse args fv
      end
  end.

Definition flag_string (fv : FlagValues) (name def : string) : string := default def (fv_strings fv !! name).
Definition flag_config (fv : FlagValues) : migrationConfig := {|
  mc_Host := flag_string fv "host" ""; mc_Port := fv_port fv; mc_Database := flag_string fv "database" "";
  mc_User := flag_string fv "user" ""; mc_Password := flag_string fv "password" ""; mc_SSLMode := flag_string fv "sslmode" "";
  mc_ConnString := flag_string fv "conn-string" ""; mc_VersionTable := flag_string fv "version-table" ""; mc_Data := None |}.

(** The arguments after the first that is the word migrate. *)
Fixpoint command_args (os_Args : list string) : list string :=
  match os_Args with [] => [] | a :: rest => if bool_decide (a = "migrate") then rest else command_args rest end.

(** ** The command *)

Inductive read_error := NotExist | ReadError (e : string).
Inductive fsys := Embedded | DirFS (dir : string).

Inductive migrate_call :=
| PgConnect (uri : string) | NewMigratorOn (table : string) | LoadMigrationsFrom (f : fsys) (data : option (gmap string any))
| Migrated (ts : list target) | ConnClose.

Class MigrateWorld := {
  mw_ReadFile : string → res read_error string;
  mw_template : string → res string string;              (* parsed and executed *)
  mw_yaml : string → res string migrationConfig;
  mw_Connect : string → option string;
  mw_NewMigrator : string → option string;
  mw_LoadMigrations : fsys → option (gmap string any) → option string;
  mw_migrator : Migrator
}.

Inductive command_error :=
| FlagError (e : flag_error) | LoadConfig (e : string) | ConnectError (e : string) | NewMigratorError (e : string)
| LoadMigrationsError (e : string) | MigrateError (e : migrate_error).

Definition no_settings : migrationConfig := {|
  mc_Host := ""; mc_Port := 0; mc_Database := ""; mc_User := ""; mc_Password := ""; mc_SSLMode := ""; mc_ConnString := "";
  mc_VersionTable := ""; mc_Data := None |}.

Section Command.
Context `{MW : MigrateWorld} (Getenv : Environ).

(** [loadMigrationConfig]. Its last line returns the variable and the error of the
    call that fills it; Go leaves open which it evaluates first, [call_first]. *)
Definition loadMigrationConfig (call_first : bool) (path : string) : migrationConfig * option (option string) :=
  match mw_ReadFile path with
  | Err NotExist => (no_settings, Some None)
  | Err (ReadError e) => (no_settings, Some (Some e))
  | Ok raw =>
      match mw_template raw with
      | Err e => (no_settings, Some (Some e))
      | Ok text => match mw_yaml text with
                   | Err e => (no_settings, Some (Some e))
                   | Ok cfg => (if call_first then cfg else no_settings, None)
                   end
      end
  end.

(** [migrate] once its settings are there: its error, and the calls it makes. *)
Definition migrate_rest (cfg : migrationConfig) (f : fsys) (dest : string) : option command_error * list migrate_call :=
  let trace := [PgConnect (uri cfg)] in
  match mw_Connect (uri cfg) with
  | Some e => (Some (ConnectError e), trace)
  | None =>
      let trace := trace ++ [NewMigratorOn (mc_VersionTable cfg)] in
      match mw_NewMigrator (mc_VersionTable cfg) with
      | Some e => (Some (NewMigratorError e), trace ++ [ConnClose])
      | None =>
          let trace := trace ++ [LoadMigrationsFrom f (mc_Data cfg)] in
          match mw_LoadMigrations f (mc_Data cfg) with
          | Some e => (Some (LoadMigrationsError e), trace ++ [ConnClose])
          | None =>
              let '(err, done) := migrateTo (MG := mw_migrator) dest in
              (MigrateError <$> err, trace ++ [Migrated done; ConnClose])
          end
      end
  end.

(** [migrate] from its arguments on. *)
Definition migrate (call_first : bool) (args : list string) : option command_error * list migrate_call :=
  match Parse args no_flags with
  | Err e => (Some (FlagError e), [])
  | Ok fv =>
      let configPath := flag_string fv "tern-config" (cmp_Or (Getenv "TERN_CONFIG") "tern.yaml") in
      let migrationsDir := flag_string fv "migrations" (cmp_Or (Getenv "TERN_MIGRATIONS") ".") in
      match loadMigrationConfig call_first configPath with
      | (_, Some (Some e)) => (Some (LoadConfig e), [])
      | (file, _) =>
          migrate_rest (resolve (flag_config fv) file Getenv)
            (if bool_decide (migrationsDir = ".") then Embedded else DirFS migrationsDir) (flag_string fv "destination" "")
      end
  end.

(** [RunE] of the cobra command. *)
Definition migrateCmd (call_first : bool) (os_Args : list string) : option command_error * list migrate_call :=
  migrate call_first (command_args os_Args).
End Command.

(** ** Properties *)

(** A flag as it is written: with its value behind an equals sign, or in the next argument. *)
Inductive form := Joined | Apart.
Definition flag_args (f : form) (name value : string) : list string :=
  match f with Joined => ["--" +:+ name +:+ "=" +:+ value] | Apart => ["--" +:+ name; value] end.

Definition plain_name (name : string) : bool :=
  match name with
  | EmptyString | String "-" _ | String "=" _ => false
  | String _ u => match IndexByte u "=" with None => true | Some _ => false end
  end.

Lemma IndexByte_behind u c t : IndexByte u c = None → IndexByte (u +:+ String c t) c = Some (len u).
Proof.
  unfold IndexByte. induction u as [|d u IH].
  { change (EmptyString +:+ String c t) with (String c t). cbn [IndexFunc]. by rewrite bool_decide_eq_true_2. }
  rewrite app_cons_str. cbn [IndexFunc]. case_bool_decide; [done|]. destruct (IndexFunc _ u); [done|]. intros _. by rewrite IH.
Qed.

Lemma split_name_eq d u : d ≠ "-"%char → d ≠ "="%char →
  split_name (String d u) = match IndexByte u "=" with
                            | Some i => Flag (String d (take i u)) (Some (drop (S i) u))
                            | None => Flag (String d u) None
                            end.
Proof. destruct d as [[] [] [] [] [] [] [] []]; intros H1 H2; first [reflexivity | by destruct H1 | by destruct H2]. Qed.

Lemma plain_name_inv name : plain_name name = true → ∃ d u, name = String d u ∧ d ≠ "-"%char ∧ d ≠ "="%char ∧ IndexByte u "=" = None.
Proof.
  destruct name as [|d u]; [done|]. unfold plain_name. intros H. exists d, u.
  destruct d as [[] [] [] [] [] [] [] []]; try discriminate H; by destruct (IndexByte u "=").
Qed.

Lemma read_flag_dashes t : t ≠ "" → read_flag ("--" +:+ t) = split_name t.
Proof. intros H. change ("--" +:+ t) with (String "-" (String "-" t)). unfold read_flag. by rewrite bool_decide_eq_true_2, bool_decide_eq_false_2. Qed.

Lemma read_flag_joined name value : plain_name name = true → read_flag ("--" +:+ name +:+ "=" +:+ value) = Flag name (Some value).
Proof.
  intros (d & u & -> & Hd & He & Hu)%plain_name_inv. rewrite read_flag_dashes by done.
  change (String d u +:+ "=" +:+ value) with (String d (u +:+ String "=" value)). rewrite split_name_eq by done.
  rewrite IndexByte_behind by done. rewrite take_app. do 2 f_equal.
  change (u +:+ String "=" value) with (u +:+ "=" +:+ value). rewrite <-app_assoc_str.
  replace (S (len u)) with (len (u +:+ "=")) by (rewrite len_app; cbn; lia). apply drop_app.
Qed.

Lemma read_flag_apart name : plain_name name = true → read_flag ("--" +:+ name) = Flag name None.
Proof. intros (d & u & -> & Hd & He & Hu)%plain_name_inv. rewrite read_flag_dashes, split_name_eq by done. by rewrite Hu. Qed.

Lemma names_plain : Forall (λ n, plain_name n = true) string_flags.
Proof. by repeat constructor. Qed.

(** Flags that are written in either form are read as they were meant, the last of a
    name counting, whatever their values are. *)
Theorem Parse_flags (l : list (form * string * string)) fv :
  Forall (λ x, x.1.2 ∈ string_flags) l →
  Parse (concat ((λ x, flag_args x.1.1 x.1.2 x.2) <$> l)) fv =
    Ok {| fv_strings := foldl (λ m x, <[x.1.2 := x.2]> m) (fv_strings fv) l; fv_port := fv_port fv |}.
Proof.
  intros H. revert fv. induction H as [|[[f name] value] l Hn _ IH]; intros fv; [by destruct fv|]. cbn [fst snd] in Hn.
  assert (plain_name name = true) as Hp by (by apply (proj1 (Forall_forall _ _) names_plain)).
  assert (set_value name value fv = Ok {| fv_strings := <[name := value]> (fv_strings fv); fv_port := fv_port fv |}) as Hset.
  { unfold set_value. by rewrite bool_decide_eq_true_2. }
  destruct f; cbn [fmap list_fmap concat flag_args fst snd app Parse].
  - rewrite read_flag_joined by done. rewrite Hset. cbn [res_bind]. by rewrite IH.
  - rewrite read_flag_apart by done. unfold defined. rewrite (bool_decide_eq_true_2 (name ∈ string_flags)) by done. cbn [orb].
    rewrite Hset. cbn [res_bind]. by rewrite IH.
Qed.

Section Properties.
Context `{MW : MigrateWorld} (Getenv : Environ).

Definition migrate_outcome (err : option command_error) (trace : list migrate_call) : Prop :=
  (∃ u e, trace = [PgConnect u] ∧ err = Some (ConnectError e) ∧ mw_Connect u = Some e) ∨
  ∃ u calls, trace = PgConnect u :: calls ++ [ConnClose] ∧ mw_Connect u = None ∧ (ConnClose ∉ calls) ∧
    ∀ ts, Migrated ts ∈ calls → ∃ table f data dest, calls = [NewMigratorOn table; LoadMigrationsFrom f data; Migrated ts] ∧
      mw_NewMigrator table = None ∧ mw_LoadMigrations f data = None ∧
      err = (MigrateError <$> (migrateTo (MG := mw_migrator) dest).1) ∧ ts = (migrateTo (MG := mw_migrator) dest).2.

(** The calls are a prefix of connecting, making the migrator, loading, migrating
    and closing: the connection is closed on every way out once it is there, and
    nothing is migrated unless every step before succeeded. *)
Theorem migrate_calls call_first args err trace :
  migrate Getenv call_first args = (err, trace) → trace ≠ [] → migrate_outcome err trace.
Proof.
  intros Hm Hne. revert Hm.
  unfold migrate. destruct (Parse args no_flags) as [fv|e]; [|intros [= <- <-]; by destruct Hne].
  set (f := if bool_decide (_ = ".") then Embedded else _). set (dest := flag_string fv "destination" "").
  destruct (loadMigrationConfig call_first _) as [file o].
  assert (∀ cfg, migrate_rest cfg f dest = (err, trace) → migrate_outcome err trace) as Hrest.
  { intros cfg. unfold migrate_rest, migrate_outcome. destruct (mw_Connect (uri cfg)) as [e|] eqn:Ec.
    { intros [= <- <-]. left. by exists (uri cfg), e. }
    intros H. right. exists (uri cfg).
    destruct (mw_NewMigrator (mc_VersionTable cfg)) as [e|] eqn:En.
    { injection H as <- <-. exists [NewMigratorOn (mc_VersionTable cfg)]. split_and!; [done|done|set_solver|set_solver]. }
    destruct (mw_LoadMigrations f (mc_Data cfg)) as [e|] eqn:El.
    { injection H as <- <-. exists [NewMigratorOn (mc_VersionTable cfg); LoadMigrationsFrom f (mc_Data cfg)].
      split_and!; [done|done|set_solver|set_solver]. }
    destruct (migrateTo dest) as [merr ts0] eqn:Em. injection H as <- <-.
    exists [NewMigratorOn (mc_VersionTable cfg); LoadMigrationsFrom f (mc_Data cfg); Migrated ts0].
    split_and!; [done|done|set_solver|]. intros ts Hts. assert (ts = ts0) as -> by set_solver.
    exists (mc_VersionTable cfg), f, (mc_Data cfg), dest. by rewrite Em. }
  destruct o as [[e|]|]; [intros [= <- <-]; by destruct Hne|intros H; by eapply Hrest..].
Qed.

(** A connection string among the flags is the one that is connected to, whatever
    the other settings, unless the file of settings cannot be read. *)
Theorem flag_connects call_first l s :
  Forall (λ x, x.1.2 ∈ string_flags) l →
  foldl (λ m (x : form * string * string), <[x.1.2 := x.2]> m) (∅ : gmap string string) l !! "conn-string" = Some s → s ≠ "" →
  let '(err, trace) := migrate Getenv call_first (concat ((λ x, flag_args x.1.1 x.1.2 x.2) <$> l)) in
  head trace = Some (PgConnect s) ∨ ∃ e, err = Some (LoadConfig e).
Proof.
  intros Hl Hs Hne. unfold migrate. rewrite Parse_flags by done. cbn [no_flags fv_strings fv_port].
  set (fv := {| fv_strings := _; fv_port := 0 |}).
  assert (∀ file, uri (resolve (flag_config fv) file Getenv) = s) as Hu.
  { intros file. assert (mc_ConnString (flag_config fv) = s) as E by (cbn; unfold flag_string; cbn; by rewrite Hs).
    destruct (resolve_order (flag_config fv) file Getenv) as (_ & H & _). rewrite H by congruence. done. }
  destruct (loadMigrationConfig call_first _) as [file [[e|]|]]; [right; by exists e| |];
    unfold migrate_rest; rewrite Hu; (destruct (mw_Connect s); [by left|]; destruct (mw_NewMigrator _); [by left|];
    destruct (mw_LoadMigrations _ _); [by left|]; destruct (migrateTo _); by left).
Qed.

(** The flags of the root command are refused after the word migrate: the command's
    own parser does not know them. *)
Theorem root_flags_refused call_first name value rest :
  name ∈ ["config"; "log-level"; "version"; "postgres.tables"; "postgres.logrepl_conn_string"] →
  migrateCmd Getenv call_first ("pigo" :: "migrate" :: ("--" +:+ name +:+ "=" +:+ value) :: rest) =
    (Some (FlagError (NotDefined name)), []).
Proof.
  intros Hn. unfold migrateCmd, migrate.
  change (command_args _) with (("--" +:+ name +:+ "=" +:+ value) :: rest).
  cbn [Parse]. rewrite read_flag_joined.
  - assert (set_value name value no_flags = Err (NotDefined name)) as ->; [|done].
    unfold set_value. rewrite !elem_of_cons, elem_of_nil in Hn. destruct_or!; subst; first [reflexivity | done].
  - rewrite !elem_of_cons, elem_of_nil in Hn. destruct_or!; subst; first [reflexivity | done].
Qed.

(** If Go copies the variable before it calls the decoder, the file is not used. *)
Theorem file_may_be_ignored path : (loadMigrationConfig (MW := MW) false path).1 = no_settings.
Proof. unfold loadMigrationConfig. by destruct (mw_ReadFile path) as [raw|[]]; [destruct (mw_template raw) as [t|]; [destruct (mw_yaml t)|]|..]. Qed.

End Properties.

(** ** Examples *)

(** A file with host and table; everything else works. *)
Definition demo_world : MigrateWorld := {|
  mw_ReadFile := λ path, if bool_decide (path = "tern.yaml") then Ok "host: db" else Err NotExist;
  mw_template := λ raw, Ok raw;
  mw_yaml := λ text, Ok {| mc_Host := "db"; mc_Port := 0; mc_Database := ""; mc_User := ""; mc_Password := ""; mc_SSLMode := "";
                           mc_ConnString := ""; mc_VersionTable := "v"; mc_Data := None |};
  mw_Connect := λ _, None; mw_NewMigrator := λ _, None; mw_LoadMigrations := λ _ _, None; mw_migrator := at_seven |}.

Definition demo_uri (host port : string) : string :=
  "host=" +:+ host +:+ " port=" +:+ port +:+ " dbname= user= password= sslmode=prefer".

(** The flag port with a prefix, the host of the file, and a destination that redoes. *)
Example migrate_ex :
  migrateCmd (MW := demo_world) (λ _, "") true ["pigo"; "migrate"; "--port=0x10"; "-destination"; "-+3"] =
    (None, [PgConnect (demo_uri "db" "16"); NewMigratorOn "v"; LoadMigrationsFrom Embedded None;
            Migrated [Version 4; Version 7]; ConnClose]) ∧
  migrateCmd (MW := demo_world) (λ _, "") true ["pigo"; "migrate"; "--tern-config=none.yaml"; "--migrations=m"] =
    (None, [PgConnect (demo_uri "localhost" "5432"); NewMigratorOn "public.schema_version"; LoadMigrationsFrom (DirFS "m") None;
            Migrated [Latest]; ConnClose]) ∧
  migrateCmd (MW := demo_world) (λ _, "") true ["pigo"; "migrate"; "--destination"] = (Some (FlagError (NeedsArgument "destination")), []).
Proof. vm_compute. done. Qed.
