(* ===== verification/Roles.v ===== *)
(** * Roles: database roles, [pkg/pgx/role/role.go].

    The statements that create, alter and drop a role, and what reading a role and
    writing it back does to it. What the database answers is an argument. *)

From S2P Require Import Prelude GoStrings GoStringFacts SqlText GoAny FilterSQL FilterTests FilterBinds.
From S2P Require Import Crud.
Local Open Scope Z_scope.

(** ** Times: [time.Time.Format(time.RFC3339)] *)

(** A time as [time.Time] holds it: seconds since 1970-01-01 UTC, and the offset
    of its zone from UTC in minutes. *)
Record Time := { tm_unix : Z; tm_offset : Z }.

(** The date of a day number, by the 400-year cycle of the Gregorian calendar. *)
Definition civil (days : Z) : Z * Z * Z :=
  let z := days + 719468 in
  let era := z / 146097 in
  let doe := z `mod` 146097 in
  let yoe := (doe - doe / 1460 + doe / 36524 - doe / 146096) / 365 in
  let doy := doe - (365 * yoe + yoe / 4 - yoe / 100) in
  let mp := (5 * doy + 2) / 153 in
  let d := doy - (153 * mp + 2) / 5 + 1 in
  let m := if mp <? 10 then mp + 3 else mp - 9 in
  (yoe + era * 400 + (if m <=? 2 then 1 else 0), m, d).

Definition pad (width : nat) (z : Z) : string :=
  let s := Itoa z in repeat_string "0" (width - len s) +:+ s.

Definition RFC3339 (t : Time) : string :=
  let local := tm_unix t + 60 * tm_offset t in
  let '(y, m, d) := civil (local / 86400) in
  let s := local `mod` 86400 in
  let off := Z.abs (tm_offset t) in
  pad 4 y +:+ "-" +:+ pad 2 m +:+ "-" +:+ pad 2 d +:+ "T" +:+
  pad 2 (s / 3600) +:+ ":" +:+ pad 2 ((s / 60) `mod` 60) +:+ ":" +:+ pad 2 (s `mod` 60) +:+
  (if tm_offset t =? 0 then "Z"
   else (if tm_offset t <? 0 then "-" else "+") +:+ pad 2 (off / 60) +:+ ":" +:+ pad 2 (off `mod` 60)).

Example rfc3339_ex :
  RFC3339 {| tm_unix := 0; tm_offset := 0 |} = "1970-01-01T00:00:00Z" ∧
  RFC3339 {| tm_unix := 951782399; tm_offset := -330 |} = "2000-02-28T18:29:59-05:30" ∧
  RFC3339 {| tm_unix := -62135596800; tm_offset := 0 |} = "0001-01-01T00:00:00Z".
Proof. vm_compute. auto. Qed.

(** ** Data *)

Inductive InfinityModifier := Finite | Infinity | NegativeInfinity.

(** [pgtype.Timestamptz]; an infinite time has the zero time. *)
Record Timestamptz := { ts_Time : Time; ts_Infinity : InfinityModifier; ts_Valid : bool }.
Definition zeroTime : Time := {| tm_unix := -62135596800; tm_offset := 0 |}.

Record Role := {
  role_Name : string;
  role_Superuser : bool; role_Inherit : bool; role_CreateRole : bool; role_CreateDB : bool;
  role_CanLogin : bool; role_Replication : bool;
  role_ConnLimit : Z;
  role_Password : string;
  role_ValidUntil : Timestamptz;
  role_BypassRLS : bool;
  role_Config : list string;
  role_OID : Z
}.

Inductive role_error :=
| RoleNotFound | GetFailed (e : string) | ListFailed (e : string) | CreateFailed (e : string)
| AlterFailed (e : string) | ConfigFailed (e : string) | PasswordFailed (e : string) | DeleteFailed (e : string).

(** ** Statements *)

(** The attributes of a role that are written, in order. *)
Definition attribute_table (role : Role) : list (bool * string) :=
  [(role_Superuser role, "SUPERUSER"); (role_Replication role, "REPLICATION");
   (role_Inherit role, "INHERIT"); (role_CreateRole role, "CREATEROLE");
   (role_CreateDB role, "CREATEDB"); (role_CanLogin role, "LOGIN")].

Definition addRoleAttributes (builder : string) (role : Role) : string :=
  let builder := foldl (λ b '(condition, attribute), if (condition : bool) then b +:+ " " +:+ attribute else b)
                   builder (attribute_table role) in
  let builder :=
    if (role_ConnLimit role =? -1) || (role_ConnLimit role =? 0) then builder +:+ " CONNECTION LIMIT -1"
    else if 0 <? role_ConnLimit role then builder +:+ " CONNECTION LIMIT " +:+ Itoa (role_ConnLimit role)
    else builder in
  if ts_Valid (role_ValidUntil role)
  then builder +:+ " VALID UNTIL '" +:+ RFC3339 (ts_Time (role_ValidUntil role)) +:+ "'"
  else builder.

Section Roles.
Context `{PI : PgxIdentifier} `{PC : PgxConn}.

(** One statement: its error, and the statements run so far. *)
Definition run_exec (sql : string) (log : list (string * argList)) : option string * list (string * argList) :=
  (match conn_Exec log sql [] with Ok _ => None | Err e => Some e end, log ++ [(sql, [])]).

Definition config_sql (role : Role) : string :=
  "ALTER ROLE " +:+ Sanitize [role_Name role] +:+ " SET " +:+ Join (role_Config role) ", ".
Definition password_sql (role : Role) : string :=
  "ALTER ROLE " +:+ Sanitize [role_Name role] +:+ " WITH PASSWORD '" +:+ role_Password role +:+ "'".
Definition main_sql (role : Role) (isCreate : bool) : string :=
  addRoleAttributes ((if isCreate then "CREATE ROLE " else "ALTER ROLE ") +:+ Sanitize [role_Name role]) role.

Definition alterRoleConfigAndPassword (role : Role) (log : list (string * argList))
    : option role_error * list (string * argList) :=
  let '(e, log) := if bool_decide (length (role_Config role) = 0%nat) then (None, log)
                   else run_exec (config_sql role) log in
  match e with
  | Some e => (Some (ConfigFailed e), log)
  | None =>
      if bool_decide (role_Password role = "") then (None, log) else
      let '(e, log) := run_exec (password_sql role) log in
      (PasswordFailed <$> e, log)
  end.

Definition createOrAlterRole (role : Role) (isCreate : bool) (log : list (string * argList))
    : option role_error * list (string * argList) :=
  let '(e, log) := run_exec (main_sql role isCreate) log in
  match e with
  | Some e => (Some (if isCreate then CreateFailed e else AlterFailed e), log)
  | None => alterRoleConfigAndPassword role log
  end.

Definition Create (role : Role) := createOrAlterRole role true.
Definition Update (role : Role) := createOrAlterRole role false.

Definition Delete (roleName : string) (log : list (string * argList)) : option role_error * list (string * argList) :=
  let '(e, log) := run_exec ("DROP ROLE IF EXISTS " +:+ Sanitize [roleName]) log in (DeleteFailed <$> e, log).

(** ** Reading roles *)

(** A row of [pg_roles], in the columns of the query. *)
Record RoleRow := {
  row_name : string; row_super : bool; row_inherit : bool; row_createrole : bool; row_createdb : bool;
  row_canlogin : bool; row_replication : bool; row_connlimit : Z; row_validuntil : Timestamptz;
  row_bypassrls : bool; row_config : list string; row_oid : Z
}.

(** What [pg_roles] answers: a row by its name ([None] is no row), or the rows with
    the scan errors among them. *)
Class RoleCatalog := {
  role_row : string → res string (option RoleRow);
  role_rows : res string (list (res string RoleRow))
}.

Definition scanRole (row : RoleRow) : Role := {|
  role_Name := row_name row;
  role_Superuser := row_super row; role_Inherit := row_inherit row; role_CreateRole := row_createrole row;
  role_CreateDB := row_createdb row; role_CanLogin := row_canlogin row;
  role_Replication := row_replication row; role_ConnLimit := row_connlimit row;
  role_Password := "********"; role_ValidUntil := row_validuntil row;
  role_BypassRLS := row_bypassrls row; role_Config := row_config row; role_OID := row_oid row |}.

Definition Get `{RoleCatalog} (roleName : string) : res role_error Role :=
  match role_row roleName with
  | Err e => Err (GetFailed e)
  | Ok None => Err RoleNotFound
  | Ok (Some row) => Ok (scanRole row)
  end.

Definition List_ `{RoleCatalog} : res role_error (list Role) :=
  match role_rows with
  | Err e => Err (ListFailed e)
  | Ok rows => mapM_res (λ row, map_err ListFailed (match row with Ok r => Ok (scanRole r) | Err e => Err e end)) rows
  end.

End Roles.

(** ** What the statements do *)

(** The flags of a role in the database, and what the words of CREATE ROLE and
    ALTER ROLE do to them: a word sets its flag, a flag without its word stays as
    it is (for a new role, at its default: only INHERIT is set). *)
Record flags := {
  f_super : bool; f_replication : bool; f_inherit : bool; f_createrole : bool; f_createdb : bool; f_login : bool
}.
Definition default_flags : flags := {|
  f_super := false; f_replication := false; f_inherit := true; f_createrole := false;
  f_createdb := false; f_login := false |}.

Definition set_flag (f : flags) (word : string) : flags :=
  let on w (b : bool) := bool_decide (word = w) || b in
  {| f_super := on "SUPERUSER" (f_super f); f_replication := on "REPLICATION" (f_replication f);
     f_inherit := on "INHERIT" (f_inherit f); f_createrole := on "CREATEROLE" (f_createrole f);
     f_createdb := on "CREATEDB" (f_createdb f); f_login := on "LOGIN" (f_login f) |}.

Definition written_words (role : Role) : list string :=
  omap (λ '(condition, attribute), if (condition : bool) then Some attribute else None) (attribute_table role).

Definition limit_text (role : Role) : string :=
  if (role_ConnLimit role =? -1) || (role_ConnLimit role =? 0) then " CONNECTION LIMIT -1"
  else if 0 <? role_ConnLimit role then " CONNECTION LIMIT " +:+ Itoa (role_ConnLimit role) else "".
Definition until_text (role : Role) : string :=
  if ts_Valid (role_ValidUntil role) then " VALID UNTIL '" +:+ RFC3339 (ts_Time (role_ValidUntil role)) +:+ "'"
  else "".

Lemma addRoleAttributes_eq b role :
  addRoleAttributes b role =
    b +:+ foldr (λ word t, " " +:+ word +:+ t) "" (written_words role) +:+ limit_text role +:+ until_text role.
Proof.
  unfold addRoleAttributes. cbv zeta.
  assert (∀ l b, foldl (λ b '(condition, attribute), if (condition : bool) then b +:+ " " +:+ attribute else b) b l
    = b +:+ foldr (λ word t, " " +:+ word +:+ t) ""
        (omap (λ '(condition, attribute), if (condition : bool) then Some attribute else None) l)) as ->.
  { induction l as [|[[] w] l IH]; intros b'; cbn [foldl omap list_omap foldr]; [by rewrite app_nil_r_str| |].
    - by rewrite IH, !app_assoc_str.
    - apply IH. }
  unfold written_words, limit_text, until_text.
  destruct ((role_ConnLimit role =? -1) || (role_ConnLimit role =? 0)), (0 <? role_ConnLimit role),
    (ts_Valid (role_ValidUntil role)); by rewrite ?app_nil_r_str, ?app_assoc_str.
Qed.

Section RoleProps.
Context `{PI : PgxIdentifier} `{PC : PgxConn}.

(** The statements for a role: the attributes, the settings if there are any,
    and the password if there is one. *)
Definition role_sqls (role : Role) (isCreate : bool) : list string :=
  [main_sql role isCreate] ++
  (if bool_decide (length (role_Config role) = 0%nat) then [] else [config_sql role]) ++
  (if bool_decide (role_Password role = "") then [] else [password_sql role]).

(** Creating or altering a role runs its statements in order and stops at
    the first one the database refuses; there is an error exactly then. *)
Theorem role_statements role isCreate log :
  let '(e, log') := createOrAlterRole role isCreate log in
  ∃ k, log' = log ++ ((λ sql, (sql, [])) <$> firstn (S k) (role_sqls role isCreate)) ∧
    (∀ j sql, (j < k)%nat → role_sqls role isCreate !! j = Some sql →
       is_ok (conn_Exec (log ++ ((λ sql, (sql, [])) <$> firstn j (role_sqls role isCreate))) sql []) = true) ∧
    match e with
    | None => S k = length (role_sqls role isCreate) ∧
        is_ok (conn_Exec (log ++ ((λ sql, (sql, [])) <$> firstn k (role_sqls role isCreate)))
                 (default "" (role_sqls role isCreate !! k)) []) = true
    | Some _ => (k < length (role_sqls role isCreate))%nat ∧
        is_ok (conn_Exec (log ++ ((λ sql, (sql, [])) <$> firstn k (role_sqls role isCreate)))
                 (default "" (role_sqls role isCreate !! k)) []) = false
    end.
Proof.
  unfold createOrAlterRole, alterRoleConfigAndPassword, run_exec, role_sqls.
  set (m := main_sql role isCreate). set (c := config_sql role). set (p := password_sql role).
  destruct (conn_Exec log m []) as [n|e] eqn:E1.
  2:{ exists 0%nat. simpl. rewrite app_nil_r, E1. split_and!; [done | intros; lia | lia | done]. }
  destruct (bool_decide (length (role_Config role) = 0%nat)); cbn iota beta.
  - destruct (bool_decide (role_Password role = "")); cbn iota beta.
    + exists 0%nat. simpl. rewrite app_nil_r, E1. split_and!; [done | intros; lia | lia | done].
    + destruct (conn_Exec (log ++ [(m, [])]) p []) as [n2|e2] eqn:E2; cbn [fmap option_fmap option_map];
        exists 1%nat; simpl; rewrite E2, <-app_assoc; (split_and!; [done | | lia | done]);
        intros [|j] sql Hj; try lia; intros [= <-]; simpl; by rewrite app_nil_r, E1.
  - destruct (conn_Exec (log ++ [(m, [])]) c []) as [n2|e2] eqn:E2; cbn iota beta.
    2:{ exists 1%nat. simpl. rewrite E2, <-app_assoc. split_and!; [done | | lia | done].
        intros [|j] sql Hj; try lia; intros [= <-]; simpl; by rewrite app_nil_r, E1. }
    destruct (bool_decide (role_Password role = "")); cbn iota beta.
    + exists 1%nat. simpl. rewrite E2, <-app_assoc. split_and!; [done | | lia | done].
      intros [|j] sql Hj; try lia; intros [= <-]; simpl; by rewrite app_nil_r, E1.
    + destruct (conn_Exec ((log ++ [(m, [])]) ++ [(c, [])]) p []) as [n3|e3] eqn:E3; cbn [fmap option_fmap option_map];
        rewrite <-app_assoc in E3; exists 2%nat; simpl; rewrite <-!app_assoc;
        (split_and!; [done | | lia | exact (f_equal is_ok E3)]);
        intros [|[|j]] sql Hj; try lia; intros [= <-]; simpl; rewrite ?app_nil_r, ?E1, ?E2; done.
Qed.

(** Altering a role never takes an attribute away: the words of the
    statement leave every flag of the database that was set as it was, whatever
    the role asks for; the row-security flag is not written at all. *)
Theorem update_never_revokes role f :
  let f' := foldl set_flag f (written_words role) in
  f_super f' = f_super f || role_Superuser role ∧
  f_replication f' = f_replication f || role_Replication role ∧
  f_inherit f' = f_inherit f || role_Inherit role ∧
  f_createrole f' = f_createrole f || role_CreateRole role ∧
  f_createdb f' = f_createdb f || role_CreateDB role ∧
  f_login f' = f_login f || role_CanLogin role.
Proof.
  unfold written_words, attribute_table.
  destruct role as [n [] [] [] [] [] [] l p v b c o], f as [fs fr fi fc fd fl]; vm_compute;
    (split_and!; [by destruct fs | by destruct fr | by destruct fi | by destruct fc | by destruct fd | by destruct fl]).
Qed.

(** Reading a role and writing it back replaces its password by eight stars. *)
Theorem get_update_masks_password `{RoleCatalog} name role log :
  Get name = Ok role → (∀ log sql, is_ok (conn_Exec log sql []) = true) →
  ∃ sqls, (Update role log).2 = log ++ sqls ++
    [("ALTER ROLE " +:+ Sanitize [role_Name role] +:+ " WITH PASSWORD '********'", [])].
Proof.
  unfold Get. destruct (role_row name) as [[row|]|]; try done. intros [= <-] Hok.
  unfold Update, createOrAlterRole, alterRoleConfigAndPassword, run_exec.
  assert (∀ log sql, ∃ n, conn_Exec log sql [] = Ok n) as Hn.
  { intros l sql. specialize (Hok l sql). destruct (conn_Exec l sql []); [eauto | done]. }
  match goal with |- context [conn_Exec log ?m []] => destruct (Hn log m) as [n ->] end. cbn iota beta.
  case_bool_decide; cbn iota beta.
  - eexists [_]. by rewrite <-app_assoc.
  - match goal with |- context [conn_Exec ?l (config_sql ?r) []] => destruct (Hn l (config_sql r)) as [n2 ->] end.
    cbn iota beta. eexists [_; _]. by rewrite <-!app_assoc.
Qed.

End RoleProps.

(** ** Examples *)

Definition web_role (password : string) (until : Timestamptz) : Role := {|
  role_Name := "web"; role_Superuser := false; role_Inherit := true; role_CreateRole := false;
  role_CreateDB := false; role_CanLogin := true; role_Replication := false; role_ConnLimit := 0;
  role_Password := password; role_ValidUntil := until; role_BypassRLS := true; role_Config := [];
  role_OID := 0 |}.

(** A role that never expires is written back with an expiry in the year 1. *)
Example infinite_expiry :
  main_sql (PI := quoting_identifier)
    (web_role "" {| ts_Time := zeroTime; ts_Infinity := Infinity; ts_Valid := true |}) false
  = bq "ALTER ROLE `web` INHERIT LOGIN CONNECTION LIMIT -1 VALID UNTIL '0001-01-01T00:00:00Z'".
Proof. vm_compute. reflexivity. Qed.

(** A quote in a password ends its literal. *)
Example password_injection :
  password_sql (PI := quoting_identifier)
    (web_role "x'; ALTER ROLE web SUPERUSER; --" {| ts_Time := zeroTime; ts_Infinity := Finite; ts_Valid := false |})
  = bq "ALTER ROLE `web` WITH PASSWORD 'x'; ALTER ROLE web SUPERUSER; --'".
Proof. vm_compute. reflexivity. Qed.
