(* ===== verification/Pools.v ===== *)
(** * Pools: the pool manager, [pkg/pgx/pool.go].

    Named connection pools with one of them active. A pool is known by its number;
    the manager's state also records which pools have been closed. Making a pool
    and pinging it are arguments, and so is the key that a loop over a map visits
    first. *)

From S2P Require Import Prelude GoStrings.

(** [Pool]: a configuration, or a connection string. *)
Record PoolConfig := { pc_Config : option string; pc_Name : string; pc_ConnString : string }.

Inductive pool_error :=
| PoolNotFound | PoolAlreadyExists | NoActive | NameNotFound (name : string)
| NothingGiven | CreateFailed (e : string) | PingFailed (e : string).

Class Pgxpool := {
  NewWithConfig : string → option string;   (* the error, if any *)
  New : string → option string;
  Ping : PoolConfig → option string
}.
(** The first key a loop over a map visits. *)
Class MapFirst := {
  map_first : gmap string nat → option string;
  map_first_none m : map_first m = None → m = ∅;
  map_first_some m k : map_first m = Some k → is_Some (m !! k)
}.

(** [pm_pools] is [None] for the nil map [Close] leaves. *)
Record PoolManager := {
  pm_pools : option (gmap string nat);
  pm_active : string;
  pm_created : nat;
  pm_closed : list nat
}.

Definition NewPoolManager : PoolManager :=
  {| pm_pools := Some ∅; pm_active := ""; pm_created := 0; pm_closed := [] |}.

Definition pools (m : PoolManager) : gmap string nat := default ∅ (pm_pools m).

Section Pools.
Context `{PP : Pgxpool} `{MF : MapFirst}.

(** A new pool, or an error; a pool that does not answer is closed again. *)
Definition createPool (cfg : PoolConfig) (m : PoolManager) : res pool_error nat * PoolManager :=
  let made (err : option string) :=
    match err with
    | Some e => (Err (CreateFailed e), m)
    | None =>
        let p := pm_created m in
        match Ping cfg with
        | Some e => (Err (PingFailed e),
                     {| pm_pools := pm_pools m; pm_active := pm_active m; pm_created := S p;
                        pm_closed := pm_closed m ++ [p] |})
        | None => (Ok p, {| pm_pools := pm_pools m; pm_active := pm_active m; pm_created := S p;
                            pm_closed := pm_closed m |})
        end
    end in
  match pc_Config cfg with
  | Some config => made (NewWithConfig config)
  | None => if bool_decide (pc_ConnString cfg = "") then (Err NothingGiven, m) else made (New (pc_ConnString cfg))
  end.

(** [Add]; [None] is the panic of an assignment to a nil map. *)
Definition AddPool (cfg : PoolConfig) (setActive : list bool) (m : PoolManager) : option (option pool_error * PoolManager) :=
  match pools m !! pc_Name cfg with
  | Some _ => Some (Some PoolAlreadyExists, m)
  | None =>
      match createPool cfg m with
      | (Err e, m) => Some (Some e, m)
      | (Ok pool, m) =>
          match pm_pools m with
          | None => None
          | Some ps =>
              let active := if match setActive with b :: _ => b | [] => false end then pc_Name cfg
                            else if bool_decide (pm_active m = "") then pc_Name cfg else pm_active m in
              Some (None, {| pm_pools := Some (<[pc_Name cfg := pool]> ps); pm_active := active;
                             pm_created := pm_created m; pm_closed := pm_closed m |})
          end
      end
  end.

Definition GetPool (name : string) (m : PoolManager) : res pool_error nat :=
  match pools m !! name with Some p => Ok p | None => Err PoolNotFound end.

(** A nil pool is [None]. *)
Definition Active (m : PoolManager) : res pool_error (option nat) :=
  if bool_decide (pm_active m = "") then Err NoActive else Ok (pools m !! pm_active m).

Definition SetActive (name : string) (m : PoolManager) : option pool_error * PoolManager :=
  match pools m !! name with
  | None => (Some (NameNotFound name), m)
  | Some _ => (None, {| pm_pools := pm_pools m; pm_active := name; pm_created := pm_created m;
                        pm_closed := pm_closed m |})
  end.

Definition Remove (name : string) (m : PoolManager) : option pool_error * PoolManager :=
  match pools m !! name with
  | None => (Some (NameNotFound name), m)
  | Some pool =>
      let ps := delete name (pools m) in
      (None, {| pm_pools := Some ps;
                pm_active := if bool_decide (pm_active m = name) then default "" (map_first ps) else pm_active m;
                pm_created := pm_created m; pm_closed := pm_closed m ++ [pool] |})
  end.

Definition Close (m : PoolManager) : PoolManager :=
  {| pm_pools := None; pm_active := ""; pm_created := pm_created m;
     pm_closed := pm_closed m ++ (map_to_list (pools m)).*2 |}.

Definition ListNames (m : PoolManager) : list string := (map_to_list (pools m)).*1.

(** ** Reachable states *)

Inductive pool_step (m : PoolManager) : PoolManager → Prop :=
| step_Add cfg setActive e m' : AddPool cfg setActive m = Some (e, m') → pool_step m m'
| step_SetActive name : pool_step m (SetActive name m).2
| step_Remove name : pool_step m (Remove name m).2
| step_Close : pool_step m (Close m).

Definition reachable_pools (m : PoolManager) : Prop := rtc pool_step NewPoolManager m.

(** Every pool that was made is in the map under one name, or closed, and not
    both; the active name is empty or in the map, and empty only if the map is
    empty or has a pool without a name. *)
Record wf (m : PoolManager) : Prop := {
  wf_open : ∀ k p, pools m !! k = Some p → p < pm_created m ∧ p ∉ pm_closed m;
  wf_inj : ∀ k k' p, pools m !! k = Some p → pools m !! k' = Some p → k = k';
  wf_all : ∀ p, p < pm_created m → p ∈ pm_closed m ∨ ∃ k, pools m !! k = Some p;
  wf_closed : ∀ p, p ∈ pm_closed m → p < pm_created m;
  wf_active : pm_active m ≠ "" → is_Some (pools m !! pm_active m);
  wf_none : pm_active m = "" → pools m = ∅ ∨ is_Some (pools m !! "")
}.

Lemma wf_new : wf NewPoolManager.
Proof. split; simpl; try done; try lia; [set_solver | by left]. Qed.

Lemma wf_createPool cfg m r m' :
  createPool cfg m = (r, m') → wf m →
  match r with
  | Err _ => wf m'
  | Ok p => m' = {| pm_pools := pm_pools m; pm_active := pm_active m; pm_created := S p; pm_closed := pm_closed m |} ∧
            p = pm_created m
  end.
Proof.
  intros E Hm. unfold createPool in E.
  assert (∀ err, match err with
    | Some e => (Err (CreateFailed e), m)
    | None => match Ping cfg with
              | Some e => (Err (PingFailed e), {| pm_pools := pm_pools m; pm_active := pm_active m;
                             pm_created := S (pm_created m); pm_closed := pm_closed m ++ [pm_created m] |})
              | None => (Ok (pm_created m), {| pm_pools := pm_pools m; pm_active := pm_active m;
                             pm_created := S (pm_created m); pm_closed := pm_closed m |})
              end end = (r, m') →
    match r with
    | Err _ => wf m'
    | Ok p => m' = {| pm_pools := pm_pools m; pm_active := pm_active m; pm_created := S p; pm_closed := pm_closed m |} ∧
              p = pm_created m
    end) as Hmade.
  { intros [e|]; [by intros [= <- <-]|]. destruct (Ping cfg) as [e|]; [|by intros [= <- <-]].
    intros [= <- <-]. destruct Hm as [H1 H2 H3 H4 H5 H6]. split; unfold pools in *; simpl; try done.
    - intros k p Hp. destruct (H1 k p Hp). split; [lia|]. rewrite elem_of_app, list_elem_of_singleton.
      intros [?| ->]; [done | lia].
    - intros p Hp. rewrite elem_of_app, list_elem_of_singleton. destruct (decide (p = pm_created m)) as [->|]; [by auto|].
      destruct (H3 p ltac:(lia)); auto.
    - intros p. rewrite elem_of_app, list_elem_of_singleton. intros [Hp| ->]; [specialize (H4 p Hp); lia | lia]. }
  destruct (pc_Config cfg); [by eapply Hmade|]. case_bool_decide; [by injection E as <- <- | by eapply Hmade].
Qed.

Lemma wf_step m m' : wf m → pool_step m m' → wf m'.
Proof.
  intros Hm [cfg setActive e m1 E|name|name|].
  - unfold AddPool in E. destruct (pools m !! pc_Name cfg) as [q|] eqn:Hn; [by injection E as <- <-|].
    destruct (createPool cfg m) as [[p|err] m2] eqn:Ec; apply wf_createPool in Ec; try done; [|by injection E as <- <-].
    destruct Ec as [-> ->]. simpl in E. destruct (pm_pools m) as [ps|] eqn:Hps; [|done]. injection E as <- <-.
    destruct Hm as [H1 H2 H3 H4 H5 H6]. unfold pools in *. rewrite Hps in *. simpl in *.
    split; unfold pools; simpl.
    + intros k p. rewrite lookup_insert_Some. intros [[<- <-]|[? Hp]].
      * split; [lia|]. intros Hc%H4. lia.
      * destruct (H1 k p Hp). split; [lia | done].
    + intros k k' p. rewrite !lookup_insert_Some. intros [[<- <-]|[? Hp]] [[<- ?]|[? Hp']]; try done.
      * destruct (H1 _ _ Hp'). lia.
      * subst. destruct (H1 _ _ Hp). lia.
      * by eapply H2.
    + intros p Hp. destruct (decide (p = pm_created m)) as [->|].
      * right. exists (pc_Name cfg). apply lookup_insert_eq.
      * destruct (H3 p ltac:(lia)) as [?|[k Hk]]; [by left|]. right. exists k.
        rewrite lookup_insert_ne; [done | congruence].
    + intros p Hp%H4. lia.
    + intros Ha. destruct (decide (pm_active m = "")) as [He|He].
      * rewrite bool_decide_eq_true_2 by done. destruct setActive as [|[] ?]; by rewrite lookup_insert_eq.
      * rewrite bool_decide_eq_false_2 by done.
        assert (is_Some (<[pc_Name cfg := pm_created m]> ps !! pm_active m)) as Hs.
        { destruct (decide (pc_Name cfg = pm_active m)) as [->|]; [by rewrite lookup_insert_eq|].
          rewrite lookup_insert_ne by done. by apply H5. }
        destruct setActive as [|[] ?]; [done | by rewrite lookup_insert_eq | done].
    + intros Ha. right. destruct (decide (pm_active m = "")) as [He|He].
      * rewrite bool_decide_eq_true_2 in Ha by done.
        assert (pc_Name cfg = "") as -> by (destruct setActive as [|[] ?]; done). by rewrite lookup_insert_eq.
      * rewrite bool_decide_eq_false_2 in Ha by done.
        assert (pc_Name cfg = "") as -> by (destruct setActive as [|[] ?]; done). by rewrite lookup_insert_eq.
  - unfold SetActive. destruct (pools m !! name) as [p|] eqn:Hn; [|done].
    destruct Hm as [H1 H2 H3 H4 H5 H6]. split; unfold pools in *; simpl in *; try done.
    intros ->. right. by exists p.
  - unfold Remove. destruct (pools m !! name) as [q|] eqn:Hn; [|done].
    destruct Hm as [H1 H2 H3 H4 H5 H6]. set (ps := delete name (pools m)).
    split; unfold pools; simpl; fold (pools m).
    + intros k p. unfold ps. rewrite lookup_delete_Some. intros [Hk Hp]. destruct (H1 k p Hp). split; [done|].
      rewrite elem_of_app, list_elem_of_singleton. intros [?| ->]; [done|]. by apply Hk, (H2 _ _ q).
    + intros k k' p. unfold ps. rewrite !lookup_delete_Some. intros [_ ?] [_ ?]. by eapply H2.
    + intros p Hp. rewrite elem_of_app, list_elem_of_singleton. destruct (H3 p Hp) as [?|[k Hk]]; [by auto|].
      destruct (decide (k = name)) as [->|]; [left; right; congruence|]. right. exists k.
      unfold ps. rewrite lookup_delete_ne; [done | congruence].
    + intros p. rewrite elem_of_app, list_elem_of_singleton. intros [?| ->]; [by apply H4|]. by apply (H1 name).
    + case_bool_decide as Ha.
      * destruct (map_first ps) as [k|] eqn:Hf; simpl; [intros _; by apply map_first_some | done].
      * intros Hne. unfold ps. rewrite lookup_delete_ne by congruence. by apply H5.
    + case_bool_decide as Ha.
      * destruct (map_first ps) as [k|] eqn:Hf; simpl; [intros ->; right; by apply map_first_some|].
        intros _. left. by apply map_first_none.
      * intros He. destruct (H6 He) as [Hemp|Hs]; [left; unfold ps; by rewrite Hemp, delete_empty|].
        right. unfold ps. rewrite lookup_delete_ne by congruence. done.
  - destruct Hm as [H1 H2 H3 H4 H5 H6]. split; unfold pools; simpl; try done.
    + intros p Hp. left. apply elem_of_app. destruct (H3 p Hp) as [?|[k Hk]]; [by left|]. right.
      apply list_elem_of_fmap. exists (k, p). split; [done|]. by apply elem_of_map_to_list.
    + intros p [?|Hp]%elem_of_app; [by apply H4|]. apply list_elem_of_fmap in Hp as ([k q] & -> & Hin).
      apply elem_of_map_to_list in Hin. by apply (H1 k).
    + by left.
Qed.

Lemma reachable_wf m : reachable_pools m → wf m.
Proof.
  intros Hr. assert (wf NewPoolManager) as H0 by apply wf_new. revert H0.
  induction Hr as [|m m1 m2 Hs Hr IH]; [done|]. intros Hm. apply IH. by eapply wf_step.
Qed.

(** C30: however pools are added, removed, chosen and closed, the manager loses
    none: each pool ever made is open under exactly one name or closed, never both,
    and the active pool is an open one; there is no active pool only when there are
    no pools or one has the empty name. *)
Theorem pool_manager_invariant m :
  reachable_pools m →
  (∀ p, p < pm_created m ↔ p ∈ pm_closed m ∨ ∃ k, pools m !! k = Some p) ∧
  (∀ k p, pools m !! k = Some p → p ∉ pm_closed m ∧ ∀ k', pools m !! k' = Some p → k' = k) ∧
  match Active m with
  | Ok p => ∃ q, p = Some q ∧ q ∉ pm_closed m
  | Err _ => pools m = ∅ ∨ is_Some (pools m !! "")
  end.
Proof.
  intros Hr%reachable_wf. destruct Hr as [H1 H2 H3 H4 H5 H6]. split_and!.
  - intros p. split; [apply H3|]. intros [?|[k Hk]]; [by apply H4 | by apply (H1 k)].
  - intros k p Hk. split; [by apply (H1 k)|]. intros k' Hk'. by eapply H2.
  - unfold Active. case_bool_decide as Ha; [by apply H6|]. destruct (H5 Ha) as [q Hq].
    exists q. split; [done|]. by apply (H1 (pm_active m)).
Qed.

End Pools.

(** After [Close] the map is nil: adding a pool panics, and the pool that was
    made for it is lost. *)
Theorem add_after_close_panics `{Pgxpool} m cfg setActive :
  pc_Config cfg = None → pc_ConnString cfg ≠ "" → New (pc_ConnString cfg) = None → Ping cfg = None →
  AddPool cfg setActive (Close m) = None.
Proof.
  intros Hc Hs Hn Hp. unfold AddPool, createPool. simpl. rewrite Hc, bool_decide_eq_false_2, Hn, Hp by done. done.
Qed.

(** ** Witnesses *)

Definition every_pool : Pgxpool := {| NewWithConfig := λ _, None; New := λ _, None; Ping := λ _, None |}.
Definition least_key : MapFirst.
Proof.
  refine {| map_first := λ m, fst <$> head (map_to_list m) |}.
  - intros m. destruct (map_to_list m) as [|kv l] eqn:E; [|done]. intros _. by apply map_to_list_empty_iff.
  - intros m k. destruct (map_to_list m) as [|[k' p] l] eqn:E; [done|]. intros [= <-]. exists p.
    apply elem_of_map_to_list. rewrite E. by left.
Defined.

Definition pool_named (name : string) : PoolConfig :=
  {| pc_Config := None; pc_Name := name; pc_ConnString := "postgres://" |}.
Definition added (name : string) (m : PoolManager) : PoolManager :=
  (default (None, m) (AddPool (PP := every_pool) (pool_named name) [] m)).2.

Lemma pool_manager_invariant_witness :
  let m := (Remove (MF := least_key) "a" (added "b" (added "a" NewPoolManager))).2 in
  pm_active m = "b" ∧ pm_closed m = [0%nat] ∧
  match Active m with
  | Ok p => ∃ q, p = Some q ∧ q ∉ pm_closed m
  | Err _ => pools m = ∅ ∨ is_Some (pools m !! "")
  end.
Proof.
  split; [vm_compute; reflexivity|]. split; [vm_compute; reflexivity|].
  apply (pool_manager_invariant (PP := every_pool) (MF := least_key)).
  eapply rtc_l; [by eapply (step_Add _ (pool_named "a") [])|].
  eapply rtc_l; [by eapply (step_Add _ (pool_named "b") [])|].
  eapply rtc_l; [apply step_Remove | apply rtc_refl].
Defined.
