(* ===== verification/OpenAPI.v ===== *)
(** * OpenAPI: the document of the REST API, [pkg/pgx/schema/openapi.go].

    The document is a Go map of maps built from a snapshot of the schema cache;
    the tables are visited in an order the runtime chooses. *)

From S2P Require Import Prelude GoStrings GoStringFacts GoAny Schema Http Server.

(** A map literal, a list of strings, a map of strings. *)
Definition obj (l : list (string * any)) : any := AObj (list_to_map l).
Definition strs (l : list string) : any := AArr (AStr <$> l).
Definition strmap (l : list (string * string)) : any := obj (prod_map id AStr <$> l).

Record OpenAPIInfo := {
  info_Title : string; info_Description : string; info_Version : string;
  info_ContactName : string; info_ContactEmail : string; info_ContactURL : string
}.
Record SecurityConfig := { EnableJWT : bool; EnableBasic : bool }.

(** [OpenAPIGenerator]; its cache enters as the snapshot it answers. *)
Record OpenAPIGenerator := {
  gen_snapshot : gmap string Table;
  gen_basePath : string;
  gen_info : OpenAPIInfo;
  gen_security : SecurityConfig
}.

Definition NewOpenAPIGenerator (snapshot : gmap string Table) (basePath : string) (info : OpenAPIInfo)
    : OpenAPIGenerator := {|
  gen_snapshot := snapshot; gen_basePath := TrimSuffix basePath "/"; gen_info := info;
  gen_security := {| EnableJWT := true; EnableBasic := true |} |}.

Definition WithSecurity (config : SecurityConfig) (g : OpenAPIGenerator) : OpenAPIGenerator := {|
  gen_snapshot := gen_snapshot g; gen_basePath := gen_basePath g; gen_info := gen_info g;
  gen_security := config |}.

(** ** Column types *)

Definition getColumnSchema (col : Column) : any :=
  let has := Contains (col_DataType col) in
  if has "int" then
    obj [("type", AStr "integer");
         ("format", AStr (if has "smallint" then "int16" else if has "bigint" then "int64" else "int32"))]
  else if has "numeric" || has "decimal" || has "real" || has "double" then
    obj [("type", AStr "number"); ("format", AStr (if has "double" then "double" else "float"))]
  else if has "bool" then obj [("type", AStr "boolean")]
  else if has "date" then obj [("type", AStr "string"); ("format", AStr "date")]
  else if has "timestamp" then obj [("type", AStr "string"); ("format", AStr "date-time")]
  else if has "time" then obj [("type", AStr "string"); ("format", AStr "time")]
  else if has "uuid" then obj [("type", AStr "string"); ("format", AStr "uuid")]
  else if has "json" || has "jsonb" then obj [("type", AStr "object"); ("additionalProperties", ABool true)]
  else if has "char" || has "text" then obj [("type", AStr "string")]
  else obj [("type", AStr "string")].

Definition getParameterSchema (col : Column) : any :=
  let has := Contains (col_DataType col) in
  if has "int" || has "numeric" || has "decimal" || has "real" || has "double" then strmap [("type", "number")]
  else if has "bool" then strmap [("type", "boolean")]
  else strmap [("type", "string")].

Definition buildTableSchema (table : Table) : any :=
  let properties := foldl (λ p col, <[col_Name col := getColumnSchema col]> p) ∅ (tbl_Columns table) in
  let required := foldl (λ r col, if col_IsNullable col then r else r ++ [col_Name col]) [] (tbl_Columns table) in
  let schema := list_to_map [("type", AStr "object"); ("properties", AObj properties)] in
  AObj (if bool_decide (length required = 0) then schema else <["required" := strs required]> schema).

(** ** Operations *)

Definition ref_of (table : Table) : string := "#/components/schemas/" +:+ fullName table.
(** The content of a body with the schema of the table. *)
Definition json_content (schema : any) : any := obj [("application/json", obj [("schema", schema)])].
Definition table_ref (table : Table) : any := strmap [("$ref", ref_of table)].
Definition description (d : string) : any := strmap [("description", d)].

Definition query_param (name desc : string) (schema : any) : any :=
  obj [("name", AStr name); ("in", AStr "query"); ("description", AStr desc); ("schema", schema)].

Definition buildQueryParameters (table : Table) : any :=
  let params :=
    [query_param "limit" "Limit the number of returned records" (strmap [("type", "integer")]);
     query_param "offset" "Offset for pagination" (strmap [("type", "integer")]);
     query_param "order" "Order by column(s)" (strmap [("type", "string")])] in
  AArr (foldl (λ params col,
     params ++ [query_param (col_Name col) ("Filter by " +:+ col_Name col) (getParameterSchema col)])
     params (tbl_Columns table)).

(** The first column with the name of a key, or the zero column. *)
Fixpoint key_column (columns : list Column) (key : string) : Column :=
  match columns with
  | [] => zeroColumn
  | c :: columns => if bool_decide (col_Name c = key) then c else key_column columns key
  end.

Definition buildPrimaryKeyParameters (table : Table) : any :=
  AArr (foldl (λ params key,
     params ++ [obj [("name", AStr key); ("in", AStr "path"); ("required", ABool true);
                     ("description", AStr ("Primary key " +:+ key));
                     ("schema", getParameterSchema (key_column (tbl_Columns table) key))]])
     [] (tbl_PrimaryKeys table)).

Definition buildTableOperations (table : Table) : any :=
  obj [
   ("get", obj [
      ("summary", AStr ("List " +:+ tbl_Name table +:+ " records"));
      ("description", AStr ("Retrieves records from " +:+ tbl_Schema table +:+ "." +:+ tbl_Name table));
      ("parameters", buildQueryParameters table);
      ("responses", obj [
         ("200", obj [("description", AStr "Success");
                      ("content", json_content (obj [("type", AStr "array"); ("items", table_ref table)]))]);
         ("400", description "Bad Request"); ("401", description "Unauthorized");
         ("403", description "Forbidden"); ("404", description "Not Found")]);
      ("tags", strs [tbl_Schema table])]);
   ("post", obj [
      ("summary", AStr ("Create " +:+ tbl_Name table +:+ " record"));
      ("description", AStr ("Creates a new record in " +:+ tbl_Schema table +:+ "." +:+ tbl_Name table));
      ("requestBody", obj [("content", json_content (table_ref table)); ("required", ABool true)]);
      ("responses", obj [
         ("201", obj [("description", AStr "Created"); ("content", json_content (table_ref table))]);
         ("400", description "Bad Request"); ("401", description "Unauthorized");
         ("403", description "Forbidden"); ("409", description "Conflict")]);
      ("tags", strs [tbl_Schema table])])].

Definition buildRecordOperations (table : Table) : any :=
  obj [
   ("get", obj [
      ("summary", AStr ("Get " +:+ tbl_Name table +:+ " record"));
      ("description", AStr ("Retrieves a single record from " +:+ tbl_Schema table +:+ "." +:+ tbl_Name table +:+
                            " by primary key"));
      ("parameters", buildPrimaryKeyParameters table);
      ("responses", obj [
         ("200", obj [("description", AStr "Success"); ("content", json_content (table_ref table))]);
         ("401", description "Unauthorized"); ("403", description "Forbidden"); ("404", description "Not Found")]);
      ("tags", strs [tbl_Schema table])]);
   ("patch", obj [
      ("summary", AStr ("Update " +:+ tbl_Name table +:+ " record"));
      ("description", AStr ("Updates a record in " +:+ tbl_Schema table +:+ "." +:+ tbl_Name table +:+
                            " by primary key"));
      ("parameters", buildPrimaryKeyParameters table);
      ("requestBody", obj [("content", json_content (table_ref table)); ("required", ABool true)]);
      ("responses", obj [
         ("200", obj [("description", AStr "Success"); ("content", json_content (table_ref table))]);
         ("400", description "Bad Request"); ("401", description "Unauthorized");
         ("403", description "Forbidden"); ("404", description "Not Found")]);
      ("tags", strs [tbl_Schema table])]);
   ("delete", obj [
      ("summary", AStr ("Delete " +:+ tbl_Name table +:+ " record"));
      ("description", AStr ("Deletes a record from " +:+ tbl_Schema table +:+ "." +:+ tbl_Name table +:+
                            " by primary key"));
      ("parameters", buildPrimaryKeyParameters table);
      ("responses", obj [
         ("200", description "Success"); ("401", description "Unauthorized");
         ("403", description "Forbidden"); ("404", description "Not Found")]);
      ("tags", strs [tbl_Schema table])])].

(** ** The document *)

(** The path of a table, as [GenerateSpecification] and [buildRecordPath] write it. *)
Definition tablePath (table : Table) : string :=
  if bool_decide (tbl_Schema table = "public") then "/" +:+ tbl_Name table
  else "/" +:+ tbl_Schema table +:+ "/" +:+ tbl_Name table.

Definition buildRecordPath (table : Table) : string :=
  foldl (λ path key, path +:+ ("/{" +:+ key +:+ "}")) (tablePath table) (tbl_PrimaryKeys table).

Definition buildSecuritySchemes (c : SecurityConfig) : gmap string any :=
  let schemes := ∅ in
  let schemes := if EnableJWT c then
    <["bearerAuth" := obj [("type", AStr "http"); ("scheme", AStr "bearer"); ("bearerFormat", AStr "JWT");
        ("description", AStr "JWT token authentication. Use format: Bearer <token>")]]> schemes else schemes in
  if EnableBasic c then
    <["basicAuth" := obj [("type", AStr "http"); ("scheme", AStr "basic");
        ("description", AStr "Basic HTTP authentication using username and password")]]> schemes else schemes.

Definition buildGlobalSecurity (c : SecurityConfig) : list any :=
  let security := if EnableJWT c then [obj [("bearerAuth", strs [])]] else [] in
  if EnableBasic c then security ++ [obj [("basicAuth", strs [])]] else security.

(** The body of the loop over the tables: the paths and the schemas so far. *)
Definition add_table (st : gmap string any * gmap string any) (kv : string * Table) : gmap string any * gmap string any :=
  let '(paths, schemas) := st in
  let table := kv.2 in
  let paths := <[tablePath table := buildTableOperations table]> paths in
  let paths := if bool_decide (0 < length (tbl_PrimaryKeys table))
               then <[buildRecordPath table := buildRecordOperations table]> paths else paths in
  (paths, <[fullName table := buildTableSchema table]> schemas).

Definition GenerateSpecification `{GR : GoRange} (g : OpenAPIGenerator) : gmap string any :=
  let '(paths, schemas) := foldl add_table (∅, ∅) (range (gen_snapshot g)) in
  let components := list_to_map [("schemas", AObj schemas)] in
  let securitySchemes := buildSecuritySchemes (gen_security g) in
  let components := if bool_decide (size securitySchemes = 0) then components
                    else <["securitySchemes" := AObj securitySchemes]> components in
  let info := gen_info g in
  let spec := list_to_map [
    ("openapi", AStr "3.1.0");
    ("info", obj [("title", AStr (info_Title info)); ("description", AStr (info_Description info));
                  ("version", AStr (info_Version info));
                  ("contact", obj [("name", AStr (info_ContactName info)); ("email", AStr (info_ContactEmail info));
                                   ("url", AStr (info_ContactURL info))])]);
    ("servers", AArr [obj [("url", AStr (gen_basePath g)); ("description", AStr "API Server")]]);
    ("paths", AObj paths);
    ("components", AObj components)] in
  let globalSecurity := buildGlobalSecurity (gen_security g) in
  if bool_decide (length globalSecurity = 0) then spec else <["security" := AArr globalSecurity]> spec.

(** ** Serving it *)

(** [ServeHTTP] of the generator: the document, always with status 200. *)
Definition gen_ServeHTTP `{GR : GoRange} (g : OpenAPIGenerator) (w : World) : World :=
  write 200 (BJSON (AObj (GenerateSpecification g))) (set_header "Content-Type" "application/json" w).

Definition server_info : OpenAPIInfo := {|
  info_Title := "PIGO REST API"; info_Description := "Auto-generated REST API for PostgreSQL";
  info_Version := "1.0.0"; info_ContactName := "edgeflare.io"; info_ContactEmail := "support@edgeflare.io";
  info_ContactURL := "" |}.

(** The handler of the route [openapi.json] in [pkg/rest/server.go]: it takes the
    request's connection only to give it back. *)
Definition openAPIHandler `{GR : GoRange} (s : Server) (r : Request) (w : World) : World :=
  match Conn r with
  | Err e => Error 500 (PgError_text e) w
  | Ok (_, conn) =>
      release conn (gen_ServeHTTP (NewOpenAPIGenerator (srv_snapshot s) (srv_basePath s) server_info) w)
  end.

(** Types whose names hold a shorter type's name take its schema. *)
Example interval_is_integer :
  getColumnSchema (plain_column "span" "interval") = getColumnSchema (plain_column "n" "integer") ∧
  getColumnSchema (plain_column "at" "point") = getColumnSchema (plain_column "n" "integer").
Proof. vm_compute. auto. Qed.
