(* ===== verification/OpenAPIProps.v ===== *)
(** * OpenAPIProps: the document against the schema it describes and the server
    that serves it. *)

From S2P Require Import Prelude GoStrings GoStringFacts GoAny Schema FilterTests Http Server.
From S2P Require Import OpenAPI.

(** ** Values in a document *)

(** [inside v w]: [w] is [v], or inside one of its arrays and maps. *)
Inductive inside : any → any → Prop :=
| inside_here v : inside v v
| inside_arr l x w : x ∈ l → inside x w → inside (AArr l) w
| inside_obj m k x w : m !! k = Some x → inside x w → inside (AObj m) w.

(** Every reference in a value satisfies [D]. *)
Inductive refs_in (D : string → Prop) : any → Prop :=
| ri_nil : refs_in D ANil
| ri_bool b : refs_in D (ABool b)
| ri_int k z : refs_in D (AInt k z)
| ri_str s : refs_in D (AStr s)
| ri_arr l : (∀ x, x ∈ l → refs_in D x) → refs_in D (AArr l)
| ri_obj m : (∀ k x, m !! k = Some x → refs_in D x) → (∀ s, m !! "$ref" = Some (AStr s) → D s) →
    refs_in D (AObj m).

Lemma refs_inside D v w s m :
  refs_in D v → inside v w → w = AObj m → m !! "$ref" = Some (AStr s) → D s.
Proof.
  intros Hv Hin -> Hs. remember (AObj m) as w eqn:E.
  induction Hin as [v|l x w Hx Hin IH|m' k x w Hx Hin IH]; subst; inversion Hv; subst; eauto.
Qed.

Section Refs.
Context (D : string → Prop).

Lemma ri_map (l : list (string * any)) :
  Forall (λ kv, refs_in D kv.2 ∧ (kv.1 = "$ref" → ∀ s, kv.2 = AStr s → D s)) l →
  refs_in D (AObj (list_to_map l)).
Proof.
  intros Hl. rewrite Forall_forall in Hl. apply ri_obj.
  - intros k x Hx%elem_of_list_to_map_2. by apply (Hl (k, x)).
  - intros s Hs%elem_of_list_to_map_2. by apply (Hl ("$ref", AStr s)).
Qed.
Lemma ri_insert k x m :
  refs_in D (AObj m) → refs_in D x → (k = "$ref" → ∀ s, x = AStr s → D s) → refs_in D (AObj (<[k := x]> m)).
Proof.
  intros Hm Hx Hr. inversion Hm as [| | | | |? Hv Hs]; subst. apply ri_obj.
  - intros k' y [[<- <-]|[_ Hy]]%lookup_insert_Some; [done | by eapply Hv].
  - intros s [[E E']|[_ Hy]]%lookup_insert_Some; [by eapply Hr | by apply Hs].
Qed.
Lemma ri_empty : refs_in D (AObj ∅).
Proof. apply ri_obj; intros *; by rewrite lookup_empty. Qed.
Lemma ri_list l : Forall (refs_in D) l → refs_in D (AArr l).
Proof. intros Hl. apply ri_arr. by apply Forall_forall. Qed.
Lemma ri_strs l : refs_in D (strs l).
Proof. apply ri_list, Forall_fmap, Forall_true. intros s. apply ri_str. Qed.
Lemma ri_strmap l : Forall (λ kv, kv.1 = "$ref" → D kv.2) l → refs_in D (strmap l).
Proof.
  intros Hl. apply ri_map, Forall_fmap. eapply Forall_impl; [exact Hl|]. intros [k v] H. simpl.
  split; [apply ri_str|]. intros E s [= <-]. by apply H.
Qed.
Lemma ri_append {A} (f : A → any) l xs :
  (∀ x, refs_in D (f x)) → Forall (refs_in D) xs →
  refs_in D (AArr (foldl (λ acc x, acc ++ [f x]) xs l)).
Proof.
  intros Hf. revert xs. induction l as [|x l IH]; intros xs Hxs; [by apply ri_list|].
  apply IH. apply Forall_app. by split; [|constructor].
Qed.

End Refs.

(** Literals of the document. *)
Ltac refs :=
  repeat first
    [ assumption | progress cbn [fst snd]
    | apply ri_strs | apply ri_str | apply ri_bool | apply ri_strmap | apply ri_map | apply ri_list
    | apply Forall_nil_2 | apply Forall_cons_2
    | match goal with
      | |- _ ∧ _ => split
      | |- ?k = "$ref" → _ => intros ?; first [discriminate | done | intros; discriminate]
      end ].

Section Operations.
Context (D : string → Prop).

Lemma ri_parameter col : refs_in D (getParameterSchema col).
Proof. unfold getParameterSchema. cbv zeta. repeat case_match; refs. Qed.
Lemma ri_column col : refs_in D (getColumnSchema col).
Proof. unfold getColumnSchema, obj. cbv zeta. repeat case_match; refs. Qed.

Lemma ri_schema table : refs_in D (buildTableSchema table).
Proof.
  unfold buildTableSchema. cbv zeta.
  assert (∀ p, refs_in D (AObj p) →
    refs_in D (AObj (foldl (λ p col, <[col_Name col := getColumnSchema col]> p) p (tbl_Columns table)))) as Hp.
  { induction (tbl_Columns table) as [|c l IH]; intros p Hp; [done|]. apply IH.
    apply ri_insert; [done | apply ri_column|]. intros _ s. unfold getColumnSchema, obj. cbv zeta.
    repeat case_match; discriminate. }
  specialize (Hp ∅ (ri_empty D)).
  assert (refs_in D (AObj (list_to_map [("type", AStr "object");
    ("properties", AObj (foldl (λ p col, <[col_Name col := getColumnSchema col]> p) ∅ (tbl_Columns table)))]))) as Hb.
  { by refs. }
  case_bool_decide; [exact Hb|]. apply ri_insert; [exact Hb | apply ri_strs | done].
Qed.

Lemma ri_query_params table : refs_in D (buildQueryParameters table).
Proof.
  unfold buildQueryParameters. cbv zeta.
  apply (ri_append D (λ col, query_param (col_Name col) ("Filter by " +:+ col_Name col) (getParameterSchema col))).
  - intros col. unfold query_param, obj. refs. apply ri_parameter.
  - unfold query_param, obj. refs.
Qed.
Lemma ri_key_params table : refs_in D (buildPrimaryKeyParameters table).
Proof.
  unfold buildPrimaryKeyParameters.
  apply (ri_append D (λ key, obj [("name", AStr key); ("in", AStr "path"); ("required", ABool true);
    ("description", AStr ("Primary key " +:+ key));
    ("schema", getParameterSchema (key_column (tbl_Columns table) key))])); [|done].
  intros key. unfold obj. refs. apply ri_parameter.
Qed.

Lemma ri_table_operations table : D (ref_of table) → refs_in D (buildTableOperations table).
Proof.
  intros HD. pose proof (ri_query_params table).
  unfold buildTableOperations, json_content, table_ref, description, obj. by refs.
Qed.
Lemma ri_record_operations table : D (ref_of table) → refs_in D (buildRecordOperations table).
Proof.
  intros HD. pose proof (ri_key_params table).
  unfold buildRecordOperations, json_content, table_ref, description, obj. by refs.
Qed.

End Operations.

(** ** The paths and schemas of the document *)

(** A path, with its value, that the document has for a table. *)
Definition path_of (t : Table) (p : string) (v : any) : Prop :=
  (p = tablePath t ∧ v = buildTableOperations t) ∨
  (tbl_PrimaryKeys t ≠ [] ∧ p = buildRecordPath t ∧ v = buildRecordOperations t).

Lemma add_table_paths l paths schemas p :
  let st := foldl add_table (paths, schemas) l in
  (∀ v, st.1 !! p = Some v → paths !! p = Some v ∨ ∃ kv, kv ∈ l ∧ path_of kv.2 p v) ∧
  (is_Some (paths !! p) ∨ (∃ kv v, kv ∈ l ∧ path_of kv.2 p v) → is_Some (st.1 !! p)).
Proof.
  revert paths schemas. induction l as [|[k t] l IH]; intros paths schemas; cbn [foldl].
  { split; [by left|]. intros [?|(kv & v & Hin & _)]; [done | by apply elem_of_nil in Hin]. }
  cbn [add_table snd]. set (paths1 := <[tablePath t := buildTableOperations t]> paths).
  match goal with |- context [foldl add_table (?x, ?y) l] => set (paths2 := x); destruct (IH x y) as [H1 H2] end.
  fold paths2 in H1, H2.
  assert (∀ v, paths2 !! p = Some v → paths !! p = Some v ∨ path_of t p v) as Hback.
  { intros v. unfold paths2, paths1. case_bool_decide as Hk.
    - intros [[<- <-]|[_ [[<- <-]|[_ ?]]%lookup_insert_Some]]%lookup_insert_Some;
        [right; right | right; left | left]; try done. split_and!; try done. by destruct (tbl_PrimaryKeys t); [simpl in Hk; lia|].
    - intros [[<- <-]|[_ ?]]%lookup_insert_Some; [by right; left | by left]. }
  assert (is_Some (paths !! p) ∨ (∃ v, path_of t p v) → is_Some (paths2 !! p)) as Hforth.
  { unfold paths2, paths1. intros H.
    destruct (decide (buildRecordPath t = p ∧ tbl_PrimaryKeys t ≠ [])) as [[<- Hne]|Hn].
    - rewrite bool_decide_eq_true_2 by (destruct (tbl_PrimaryKeys t); [done | simpl; lia]).
      rewrite lookup_insert_eq. by eexists.
    - assert (is_Some (<[tablePath t := buildTableOperations t]> paths !! p)) as Hs.
      { destruct (decide (tablePath t = p)) as [->|Hp]; [rewrite lookup_insert_eq; by eexists|].
        rewrite lookup_insert_ne by done. destruct H as [?|[v [[? _]|(? & ? & _)]]]; [done|congruence|naive_solver]. }
      case_bool_decide as Hk; [|done]. rewrite lookup_insert_ne; [done|]. intros E. apply Hn. split; [done|].
      destruct (tbl_PrimaryKeys t); [simpl in Hk; lia | done]. }
  split.
  - intros v Hv. destruct (H1 v Hv) as [Hv'|(kv & Hin & Hp)].
    + destruct (Hback v Hv') as [?|?]; [by left|]. right. exists (k, t). split; [by left | done].
    + right. exists kv. split; [by right | done].
  - intros H. apply H2. destruct H as [H|(kv & v & [->|Hin]%elem_of_cons & Hp)].
    + left. apply Hforth. by left.
    + left. apply Hforth. right. by exists v.
    + right. by exists kv, v.
Qed.

Lemma add_table_schemas l paths schemas n :
  let st := foldl add_table (paths, schemas) l in
  (∀ v, st.2 !! n = Some v → schemas !! n = Some v ∨ ∃ kv, kv ∈ l ∧ n = fullName kv.2 ∧ v = buildTableSchema kv.2) ∧
  (is_Some (schemas !! n) ∨ (∃ kv, kv ∈ l ∧ n = fullName kv.2) → is_Some (st.2 !! n)).
Proof.
  revert paths schemas. induction l as [|[k t] l IH]; intros paths schemas; cbn [foldl].
  { split; [by left|]. intros [?|(kv & Hin & _)]; [done | by apply elem_of_nil in Hin]. }
  cbn [add_table snd].
  match goal with |- context [foldl add_table (?x, ?y) l] => destruct (IH x y) as [H1 H2] end. split.
  - intros v Hv. destruct (H1 v Hv) as [[[<- <-]|[_ ?]]%lookup_insert_Some|(kv & Hin & ? & ?)];
      [right; exists (k, t); split; [by left | done] | by left | right; exists kv; split; [by right | done]].
  - intros H. apply H2. destruct (decide (n = fullName t)) as [->|Hn]; [left; rewrite lookup_insert_eq; by eexists|].
    rewrite lookup_insert_ne by done. destruct H as [?|(kv & [->|Hin]%elem_of_cons & E)]; [by left | done | right; eauto].
Qed.

Section Document.
Context `{GR : GoRange} (g : OpenAPIGenerator).

Definition doc : gmap string any := GenerateSpecification g.
Definition described (t : Table) : Prop := ∃ k, gen_snapshot g !! k = Some t.

(** The maps of paths and of schemas in a document. *)
Definition at_key (m : gmap string any) (k : string) : gmap string any :=
  match m !! k with Some (AObj m') => m' | _ => ∅ end.
Definition doc_paths : gmap string any := at_key doc "paths".
Definition doc_schemas : gmap string any := at_key (at_key doc "components") "schemas".

Lemma doc_parts :
  doc_paths = (foldl add_table (∅, ∅) (range (gen_snapshot g))).1 ∧
  doc_schemas = (foldl add_table (∅, ∅) (range (gen_snapshot g))).2.
Proof.
  unfold doc_paths, doc_schemas, doc, GenerateSpecification.
  destruct (foldl add_table (∅, ∅) (range (gen_snapshot g))) as [paths schemas]. cbn [fst snd].
  assert (∀ (c : bool) x (m : gmap string any) k, k ≠ "security" →
    at_key (if c then m else <["security" := x]> m) k = at_key m k) as Hsec.
  { intros [] x m k Hk; [done|]. unfold at_key. by rewrite lookup_insert_ne. }
  rewrite !Hsec by done. split; [done|]. unfold at_key at 2. cbn [list_to_map foldr].
  case_bool_decide; [done|]. unfold at_key. simpl.
  rewrite !lookup_insert_ne by done. by rewrite lookup_insert_eq, lookup_insert_ne, lookup_insert_eq by done.
Qed.

Lemma in_range k t : (k, t) ∈ range (gen_snapshot g) ↔ gen_snapshot g !! k = Some t.
Proof. rewrite range_perm. apply elem_of_map_to_list. Qed.
Lemma in_range_described kv : kv ∈ range (gen_snapshot g) → described kv.2.
Proof. destruct kv as [k t]. intros Hin%in_range. by exists k. Qed.

(** C29: the document has the path of every table, and of every row of a table
    with a primary key, and no other; it has the schema of every table; and every
    reference inside the document names one of these schemas. *)
Theorem document_closed :
  (∀ p, is_Some (doc_paths !! p) ↔
     ∃ t, described t ∧ (p = tablePath t ∨ tbl_PrimaryKeys t ≠ [] ∧ p = buildRecordPath t)) ∧
  (∀ n, is_Some (doc_schemas !! n) ↔ ∃ t, described t ∧ n = fullName t) ∧
  (∀ m s, inside (AObj doc) (AObj m) → m !! "$ref" = Some (AStr s) →
     ∃ n, s = "#/components/schemas/" +:+ n ∧ is_Some (doc_schemas !! n)).
Proof.
  destruct doc_parts as [Ep Es]. rewrite Ep, Es.
  assert (∀ n, is_Some ((foldl add_table (∅, ∅) (range (gen_snapshot g))).2 !! n) ↔
    ∃ t, described t ∧ n = fullName t) as Hs.
  { intros n. destruct (add_table_schemas (range (gen_snapshot g)) ∅ ∅ n) as [H1 H2]. split.
    - intros [v Hv]. destruct (H1 v Hv) as [Hv'|(kv & Hin & -> & _)]; [by rewrite lookup_empty in Hv'|].
      exists kv.2. split; [by apply in_range_described | done].
    - intros (t & [k Hk] & ->). apply H2. right. exists (k, t). split; [by apply in_range | done]. }
  split_and!; [|exact Hs|].
  - intros p. destruct (add_table_paths (range (gen_snapshot g)) ∅ ∅ p) as [H1 H2]. split.
    + intros [v Hv]. destruct (H1 v Hv) as [Hv'|(kv & Hin & Hp)]; [by rewrite lookup_empty in Hv'|].
      exists kv.2. split; [by apply in_range_described|]. destruct Hp as [[? _]|(? & ? & _)]; auto.
    + intros (t & [k Hk] & Hp). apply H2. right. exists (k, t).
      destruct Hp as [->|[? ->]]; eexists; (split; [by apply in_range|]); [by left | by right].
  - intros m s Hin Href.
    apply (refs_inside (λ s, ∃ n, s = "#/components/schemas/" +:+ n ∧
      is_Some ((foldl add_table (∅, ∅) (range (gen_snapshot g))).2 !! n)) (AObj doc) (AObj m) s m); try done.
    clear m s Hin Href. unfold doc, GenerateSpecification.
    pose proof (λ p, proj1 (add_table_paths (range (gen_snapshot g)) ∅ ∅ p)) as Hp.
    pose proof (λ n, proj1 (add_table_schemas (range (gen_snapshot g)) ∅ ∅ n)) as Hsc.
    destruct (foldl add_table (∅, ∅) (range (gen_snapshot g))) as [paths schemas]. cbn [fst snd] in *.
    set (D := λ s, ∃ n, s = "#/components/schemas/" +:+ n ∧ is_Some (schemas !! n)).
    assert (∀ t, described t → D (ref_of t)) as HD.
    { intros t Ht. exists (fullName t). split; [done|]. apply Hs. eauto. }
    assert (refs_in D (AObj paths)) as Hpaths.
    { apply ri_obj.
      - intros p v Hv. destruct (Hp p v Hv) as [Hv'|(kv & Hin & [[_ ->]|(_ & _ & ->)])];
          [by rewrite lookup_empty in Hv' | apply ri_table_operations | apply ri_record_operations];
          by apply HD, in_range_described.
      - intros s Hv. destruct (Hp _ _ Hv) as [Hv'|(kv & Hin & [[_ ?]|(_ & _ & ?)])];
          [by rewrite lookup_empty in Hv' | done | done]. }
    assert (refs_in D (AObj schemas)) as Hschemas.
    { apply ri_obj.
      - intros n v Hv. destruct (Hsc n v Hv) as [Hv'|(kv & Hin & _ & ->)];
          [by rewrite lookup_empty in Hv' | apply ri_schema].
      - intros s Hv. destruct (Hsc _ _ Hv) as [Hv'|(kv & Hin & _ & E)]; [by rewrite lookup_empty in Hv'|].
        unfold buildTableSchema in E. cbv zeta in E. discriminate E. }
    assert (refs_in D (AObj (buildSecuritySchemes (gen_security g)))) as Hsec.
    { unfold buildSecuritySchemes, obj. cbv zeta.
      destruct (EnableJWT _), (EnableBasic _); repeat (apply ri_insert; [| |done]); try apply ri_empty; refs. }
    assert (∀ l, l = buildGlobalSecurity (gen_security g) → refs_in D (AArr l)) as Hglob.
    { intros l ->. unfold buildGlobalSecurity, obj. cbv zeta. destruct (EnableJWT _), (EnableBasic _); cbn [app]; refs. }
    unfold obj. cbv zeta. case_bool_decide; [|apply ri_insert; [|by apply Hglob | done]];
      (refs; case_bool_decide; [refs|apply ri_insert; [refs | done | done]]).
Qed.

End Document.

(** ** The document against the server *)

Definition segment (s : string) : bool := negb (bool_decide (s = "")) && negb (mem_byte s "/").

Lemma TrimRight_free f u v :
  v ≠ "" → all_bytes (λ c, negb (f c)) v = true → TrimRightBytes f (u +:+ v) = u +:+ v.
Proof.
  intros Hv Hf. assert (TrimRightBytes f v = v) as Hv'.
  { clear u. induction v as [|c v IH]; [done|]. simpl in Hf. apply andb_true_iff in Hf as [Hc Hf].
    destruct v as [|d v]; [simpl; apply negb_true_iff in Hc; by rewrite Hc|].
    assert (TrimRightBytes f (String d v) = String d v) as E by (by apply IH).
    cbn [TrimRightBytes] in E |- *. by rewrite E. }
  induction u as [|c u IH]; [done|]. rewrite app_cons_str. cbn [TrimRightBytes]. rewrite IH.
  destruct u; [by destruct v | done].
Qed.

Lemma segment_bytes v : mem_byte v "/" = false → all_bytes (λ c, negb (mem_byte "/" c)) v = true.
Proof.
  intros Hv. apply bool_decide_eq_false in Hv. induction v as [|c v IH]; [done|].
  simpl in Hv. apply not_elem_of_cons in Hv as [Hc Hv]. cbn [all_bytes]. rewrite IH by done. rewrite andb_true_r.
  apply negb_true_iff, bool_decide_eq_false. simpl. rewrite list_elem_of_singleton. congruence.
Qed.

Lemma path_target_two t v :
  segment t = true → segment v = true → path_target ("/" +:+ t +:+ "/" +:+ v) = (t, v).
Proof.
  unfold segment. intros [Ht Hts]%andb_true_iff [Hv Hvs]%andb_true_iff.
  apply negb_true_iff, bool_decide_eq_false in Ht, Hv. apply negb_true_iff in Hts, Hvs.
  unfold path_target. replace (Trim ("/" +:+ t +:+ "/" +:+ v) "/") with (t +:+ String "/" v).
  - rewrite Split_free by done. by rewrite Split_free_all.
  - unfold Trim. change ("/" +:+ t +:+ "/" +:+ v) with (String "/" (t +:+ String "/" v)).
    assert (TrimLeftBytes (mem_byte "/") (String "/" (t +:+ String "/" v)) = t +:+ String "/" v) as ->.
    { cbn [TrimLeftBytes]. change (mem_byte "/" "/") with true. cbn iota.
      pose proof (segment_bytes t Hts) as Hb. destruct t as [|c t]; [done|].
      cbn [all_bytes] in Hb. apply andb_true_iff in Hb as [Hc _]. apply negb_true_iff in Hc.
      rewrite app_cons_str. cbn [TrimLeftBytes]. by rewrite Hc. }
    replace (t +:+ String "/" v) with ((t +:+ "/") +:+ v) by by rewrite app_assoc_str.
    rewrite TrimRight_free; [done | done | by apply segment_bytes].
Qed.

(** The path the document gives for the rows of a public table is no path of
    the server: it looks for a schema with the table's name and a table with the
    name of the key. *)
Theorem record_path_not_served s table key v :
  tbl_Schema table = "public" → tbl_PrimaryKeys table = [key] →
  segment (tbl_Name table) = true → segment v = true →
  srv_snapshot s !! full_name (tbl_Name table) v = None →
  buildRecordPath table = "/" +:+ tbl_Name table +:+ "/{" +:+ key +:+ "}" ∧
  tableFromPath s ("/" +:+ tbl_Name table +:+ "/" +:+ v) =
    Err ("table " +:+ full_name (tbl_Name table) v +:+ " not found or unauthorized").
Proof.
  intros Hs Hk Ht Hv Hn. split.
  - unfold buildRecordPath, tablePath. rewrite Hk, Hs. simpl. by rewrite !app_assoc_str.
  - unfold tableFromPath. rewrite path_target_two by done. by rewrite Hn.
Qed.

(** ** Witnesses *)

Definition users_table : Table := {|
  tbl_Schema := "public"; tbl_Name := "users"; tbl_Type := TypeTable;
  tbl_Columns := [plain_column "id" "integer"; plain_column "name" "text"];
  tbl_PrimaryKeys := ["id"]; tbl_ForeignKeys := []; tbl_ViewQuery := "" |}.

Lemma record_path_not_served_witness :
  let s := {| srv_basePath := ""; srv_omitempty := true; srv_snapshot := {["public.users" := users_table]} |} in
  buildRecordPath users_table = "/users/{id}" ∧
  tableFromPath s "/users" = Ok users_table ∧
  tableFromPath s "/users/5" = Err "table users.5 not found or unauthorized".
Proof.
  intros s. split; [reflexivity|]. split; [reflexivity|].
  apply (record_path_not_served s users_table "id" "5"); reflexivity.
Defined.
