(* ===== verification/Pipeline.v ===== *)
(** * Pipeline: peers, subscriptions and the flow of events,
    [pkg/pipeline/manager.go], [pipeline.go], [process.go] and
    [cmd/pigo/pipeline.go].

    A source's events are transformed and put, without blocking, into the
    bounded channels of the sinks of every pipeline that subscribes; goroutines
    take events from the channels, transform them again and publish them. *)

From S2P Require Import Prelude GoStrings GoAny Cdc Transform.
Local Open Scope Z_scope.

(** ** Configuration *)

Record Peer := {
  peer_Name : string; peer_ConnectorName : string; peer_Config : option (gmap string any);
  peer_Args : list any
}.
Record PipelineSource := { psrc_Name : string; psrc_Transformations : list Transformation }.
Record Sink := { sink_Name : string; sink_Transformations : list Transformation }.
Record Pipeline := {
  pl_Name : string; pl_Sources : list PipelineSource;
  pl_Transformations : list Transformation; pl_Sinks : list Sink
}.
Record Config := { cfg_Peers : list Peer; cfg_Pipelines : list Pipeline }.

Definition config_GetPeer (c : Config) (peerName : string) : option Peer :=
  List.find (λ p, bool_decide (peer_Name p = peerName)) (cfg_Peers c).
Definition config_GetPipeline (c : Config) (pipelineName : string) : option Pipeline :=
  List.find (λ p, bool_decide (pl_Name p = pipelineName)) (cfg_Pipelines c).

(** ** The manager *)

(** A sink channel is a location; the map is shared by reference. *)
Record SourceSubscription := { sub_PipelineName : string; sub_SinkChannels : gmap string nat }.

Record Manager := {
  m_peers : gmap string Peer;
  m_subscriptions : gmap string (list SourceSubscription)
}.
Definition NewManager : Manager := {| m_peers := ∅; m_subscriptions := ∅ |}.

(** What initializing does to the outside: attempts to connect, and waits. *)
Inductive act :=
| AConnect (connector config : string) (err : option string)
| ASleep (ns : Z).

(** The registered connectors, by name. *)
Class Connectors := {
  registered : string → bool;
  (* [Connect(config)] after the attempts so far; [None] is success *)
  Connect : list act → string → string → option string;
  (* [Sub()] *)
  Sub : string → option string;
  (* [Pub(event)] with the fields of its schema as they are at the call *)
  Pub : string → Event → list Field → option string
}.

Inductive init_error :=
| ConnectorNotFound (connector : string)
| MarshalFailed (peer : string)
| ConnectFailed (peer : string).

Section Manager.
Context `{CN : Connectors} `{GF : GoFloat}.

(** The stored peer is a copy: later changes of the returned one do not reach it. *)
Definition AddPeer (m : Manager) (connector name : string) : res init_error (Peer * Manager) :=
  if negb (registered connector) then Err (ConnectorNotFound connector) else
  let peer := {| peer_Name := name; peer_ConnectorName := connector; peer_Config := None; peer_Args := [] |} in
  Ok (peer, {| m_peers := <[name := peer]> (m_peers m); m_subscriptions := m_subscriptions m |}).

Definition GetPeer (m : Manager) (name : string) : option Peer := m_peers m !! name.
Definition Peers (m : Manager) : list Peer := (map_to_list (m_peers m)).*2.

Definition AddSubscription (m : Manager) (sourceName pipelineName : string) (sinkChannels : gmap string nat)
    : Manager :=
  {| m_peers := m_peers m;
     m_subscriptions := <[sourceName := default [] (m_subscriptions m !! sourceName) ++
       [{| sub_PipelineName := pipelineName; sub_SinkChannels := sinkChannels |}]]> (m_subscriptions m) |}.
Definition GetSubscriptions (m : Manager) (sourceName : string) : list SourceSubscription :=
  default [] (m_subscriptions m !! sourceName).
Definition IsFirstSubscription (m : Manager) (sourceName : string) : bool :=
  bool_decide (length (GetSubscriptions m sourceName) = 0%nat).

(** One call of [Connect], recorded. *)
Definition attempt (connector config : string) (trace : list act) : bool * list act :=
  let err := Connect trace connector config in
  (bool_decide (err = None), trace ++ [AConnect connector config err]).

Definition retry_delays : list Z := [1000000000; 2000000000; 3000000000].

Fixpoint retry (delays : list Z) (connector config : string) (trace : list act) : bool * list act :=
  match delays with
  | [] => (false, trace)
  | d :: delays =>
      let '(ok, trace) := attempt connector config (trace ++ [ASleep d]) in
      if ok then (true, trace) else retry delays connector config trace
  end.

Definition config_json (config : option (gmap string any)) : option string :=
  Marshal (match config with Some m => AObj m | None => ANil end).

(** The loop of [Init]. The peer that gets its configuration is the copy. *)
Fixpoint init_peers (peers : list Peer) (m : Manager) (trace : list act)
    : option init_error * Manager * list act :=
  match peers with
  | [] => (None, m, trace)
  | p :: peers =>
      match AddPeer m (peer_ConnectorName p) (peer_Name p) with
      | Err e => (Some e, m, trace)
      | Ok (_, m) =>
          match config_json (peer_Config p) with
          | None => (Some (MarshalFailed (peer_Name p)), m, trace)
          | Some configJSON =>
              let '(ok, trace) := attempt (peer_ConnectorName p) configJSON trace in
              let '(ok, trace) := if ok then (true, trace)
                                  else retry retry_delays (peer_ConnectorName p) configJSON trace in
              if ok then init_peers peers m trace else (Some (ConnectFailed (peer_Name p)), m, trace)
          end
      end
  end.

Definition Init (m : Manager) (config : Config) : option init_error * Manager * list act :=
  init_peers (cfg_Peers config) m [].

End Manager.

(** ** Channels and metrics *)

(** A channel with what it was ever given. *)
Record Chan := { ch_queue : list Event; ch_sent : list Event }.
Definition sink_capacity : nat := 100.

Record PState := {
  st_heap : Heap;
  st_chans : gmap nat Chan;
  st_processed : list (string * string * string);            (* ProcessedEvents *)
  st_errors : list (string * string * string * string);      (* TransformationErrors *)
  st_published : list (string * Event * list Field);         (* peer, event, its schema fields *)
  st_publish_errors : list string
}.

Definition with_heap (h : Heap) (st : PState) : PState :=
  {| st_heap := h; st_chans := st_chans st; st_processed := st_processed st; st_errors := st_errors st;
     st_published := st_published st; st_publish_errors := st_publish_errors st |}.
Definition with_error (e : string * string * string * string) (st : PState) : PState :=
  {| st_heap := st_heap st; st_chans := st_chans st; st_processed := st_processed st;
     st_errors := st_errors st ++ [e]; st_published := st_published st;
     st_publish_errors := st_publish_errors st |}.
Definition with_publish (p : string * Event * list Field) (err : option string) (sink : string) (st : PState)
    : PState :=
  {| st_heap := st_heap st; st_chans := st_chans st; st_processed := st_processed st;
     st_errors := st_errors st; st_published := st_published st ++ [p];
     st_publish_errors := match err with None => st_publish_errors st | Some _ => st_publish_errors st ++ [sink] end |}.

(** [select { case ch <- event: ...; default: ... }] *)
Definition try_send (event : Event) (c : Chan) : option Chan :=
  if (length (ch_queue c) <? sink_capacity)%nat
  then Some {| ch_queue := ch_queue c ++ [event]; ch_sent := ch_sent c ++ [event] |} else None.

Definition distribute_one (pl : Pipeline) (source : PipelineSource) (event : Event)
    (sinkChannels : gmap string nat) (st : PState) (sink : Sink) : PState :=
  match sinkChannels !! sink_Name sink with
  | None => st
  | Some ch =>
      match c ← st_chans st !! ch; try_send event c with
      | None => st     (* the channel is full: a warning *)
      | Some c =>
          {| st_heap := st_heap st; st_chans := <[ch := c]> (st_chans st);
             st_processed := st_processed st ++ [(pl_Name pl, psrc_Name source, sink_Name sink)];
             st_errors := st_errors st; st_published := st_published st;
             st_publish_errors := st_publish_errors st |}
      end
  end.

Definition distributeToSinks (pl : Pipeline) (source : PipelineSource) (event : Event)
    (sinkChannels : gmap string nat) (st : PState) : PState :=
  foldl (distribute_one pl source event sinkChannels) st (pl_Sinks pl).

(** ** Processing *)

Section Process.
Context `{RE : Regexp} `{PM : PathMatch} `{GR : GoRange} `{MS : Mapstructure} `{CN : Connectors}.

Definition applyTransformations (h : Heap) (event : option nat) (transformations : list Transformation)
    : outcome * Heap :=
  match transformations with
  | [] => (Returned event None, h)
  | _ =>
      match event with
      | None => (Returned None (Some NilEvent), h)
      | Some _ =>
          match Chain (RegisterBuiltins ∅) transformations with
          | Err e => (Returned None (Some e), h)
          | Ok chainTransformations => chainTransformations h event
          end
      end
  end.

(** [applyEventTransformations]: the pointer, or nil; the outer [None] is a panic. *)
Definition applyEventTransformations (event : Event) (source : PipelineSource) (pl : Pipeline) (st : PState)
    : option (option nat * PState) :=
  let '(p, h) := alloc event (st_heap st) in
  match applyTransformations h (Some p) (psrc_Transformations source) with
  | (Panicked, _) => None
  | (Returned _ (Some _), h) =>
      Some (None, with_error ("source", pl_Name pl, psrc_Name source, "") (with_heap h st))
  | (Returned None None, h) => Some (None, with_heap h st)
  | (Returned (Some p) None, h) =>
      match applyTransformations h (Some p) (pl_Transformations pl) with
      | (Panicked, _) => None
      | (Returned _ (Some _), h) =>
          Some (None, with_error ("pipeline", pl_Name pl, psrc_Name source, "") (with_heap h st))
      | (Returned transformed None, h) => Some (transformed, with_heap h st)
      end
  end.

Definition ProcessEvent (pl : Pipeline) (source : PipelineSource) (event : Event)
    (sinkChannels : gmap string nat) (st : PState) : option PState :=
  match applyEventTransformations event source pl st with
  | None => None
  | Some (None, st) => Some st
  | Some (Some p, st) =>
      match h_events (st_heap st) !! p with
      | None => None
      | Some event => Some (distributeToSinks pl source event sinkChannels st)
      end
  end.

(** The fields an event shows: the contents of its schema's array. *)
Definition event_fields (h : Heap) (e : Event) : list Field :=
  match sch_Fields (ev_Schema e) with None => [] | Some l => default [] (h_fields h !! l) end.

(** One turn of the loop of [processSinkEvents], with the event it received. *)
Definition sink_turn (pl : Pipeline) (sink : Sink) (peer : Peer) (event : Event) (st : PState) : option PState :=
  let '(p, h) := alloc event (st_heap st) in
  match applyTransformations h (Some p) (sink_Transformations sink) with
  | (Panicked, _) => None
  | (Returned _ (Some _), h) =>
      Some (with_error ("sink", pl_Name pl, "multiple", sink_Name sink) (with_heap h st))
  | (Returned None None, h) => Some (with_heap h st)
  | (Returned (Some p) None, h) =>
      match h_events h !! p with
      | None => None
      | Some e =>
          if registered (peer_ConnectorName peer) then
            let fields := event_fields h e in
            Some (with_publish (peer_Name peer, e, fields) (Pub (peer_ConnectorName peer) e fields)
                    (sink_Name sink) (with_heap h st))
          else None
      end
  end.

End Process.

(** ** Goroutines of the sinks *)

(** A goroutine of [processSinkEvents], with the event it has received. *)
Record Worker := {
  wk_pl : Pipeline; wk_sink : Sink; wk_peer : Peer; wk_chan : nat; wk_event : option Event
}.

Definition hold (e : option Event) (w : Worker) : Worker :=
  {| wk_pl := wk_pl w; wk_sink := wk_sink w; wk_peer := wk_peer w; wk_chan := wk_chan w; wk_event := e |}.

(** [SetupSinks]: the goroutines it starts, and the sink whose peer is missing. *)
Fixpoint SetupSinks (m : Manager) (pl : Pipeline) (sinks : list Sink) (sinkChannels : gmap string nat)
    : list Worker * option string :=
  match sinks with
  | [] => ([], None)
  | sink :: sinks =>
      match GetPeer m (sink_Name sink) with
      | None => ([], Some (sink_Name sink))
      | Some sinkPeer =>
          let '(ws, err) := SetupSinks m pl sinks sinkChannels in
          ({| wk_pl := pl; wk_sink := sink; wk_peer := sinkPeer;
              wk_chan := default 0%nat (sinkChannels !! sink_Name sink); wk_event := None |} :: ws, err)
      end
  end.

(** ** Setting up pipelines, [cmd/pigo/pipeline.go] *)

(** The decoders of the connectors' settings. *)
Class SourceConfig := {
  (* the settings of a connector can be read *)
  settings_ok : string → option (gmap string any) → bool;
  (* the isServer field of the settings of grpc *)
  settings_isServer : option (gmap string any) → bool
}.

Inductive setup_error :=
| SourcePeerNotFound (name : string)
| PeerNotFound (name : string)
| BadSettings (connector : string)
| GrpcServerPeer
| UnsupportedSource (connector : string)
| SubscribeFailed (e : string)
| SinkPeerNotFound (name : string).

Section Setup.
Context `{CN : Connectors} `{SC : SourceConfig}.
Context (cfg : Config).

Definition subscribe (connector : string) : res setup_error unit :=
  match Sub connector with None => Ok tt | Some e => Err (SubscribeFailed e) end.

Definition setupSourceConnection (sourcePeer peer : Peer) : res setup_error unit :=
  let c := peer_ConnectorName sourcePeer in
  if bool_decide (c ∈ ["postgres"; "mqtt"; "nats"]) then
    if settings_ok c (peer_Config sourcePeer) then subscribe (peer_ConnectorName peer) else Err (BadSettings c)
  else if bool_decide (c = "grpc") then
    if settings_ok c (peer_Config sourcePeer) then
      if settings_isServer (peer_Config sourcePeer) then Err GrpcServerPeer
      else subscribe (peer_ConnectorName peer)
    else Err (BadSettings c)
  else Err (UnsupportedSource c).

(** The program's state while it sets up: the manager, the channels made so far,
    the goroutines of the sinks and of the sources. *)
Record Setup := {
  su_manager : Manager; su_chans : nat; su_workers : list Worker; su_sources : list string
}.

Definition setupSource (su : Setup) (pl : Pipeline) (source : PipelineSource) (sinkChannels : gmap string nat)
    : res setup_error Setup :=
  let name := psrc_Name source in
  match config_GetPeer cfg name with
  | None => Err (SourcePeerNotFound name)
  | Some sourcePeer =>
      match GetPeer (su_manager su) name with
      | None => Err (PeerNotFound name)
      | Some peer =>
          let isFirst := IsFirstSubscription (su_manager su) name in
          let m := AddSubscription (su_manager su) name (pl_Name pl) sinkChannels in
          let? sources :=
            if isFirst then
              let? _ := setupSourceConnection sourcePeer peer in Ok (su_sources su ++ [name])
            else Ok (su_sources su) in
          let '(ws, err) := SetupSinks m pl (pl_Sinks pl) sinkChannels in
          match err with
          | Some sink => Err (SinkPeerNotFound sink)
          | None => Ok {| su_manager := m; su_chans := su_chans su; su_workers := su_workers su ++ ws;
                          su_sources := sources |}
          end
      end
  end.

(** [make(chan cdc.Event, 100)] for every sink. *)
Fixpoint make_channels (sinks : list Sink) (next : nat) (chans : gmap string nat) : nat * gmap string nat :=
  match sinks with
  | [] => (next, chans)
  | sink :: sinks => make_channels sinks (S next) (<[sink_Name sink := next]> chans)
  end.

Definition setupPipeline (su : Setup) (pl : Pipeline) : res setup_error Setup :=
  let '(next, sinkChannels) := make_channels (pl_Sinks pl) (su_chans su) ∅ in
  let su := {| su_manager := su_manager su; su_chans := next; su_workers := su_workers su;
               su_sources := su_sources su |} in
  let? su := foldM_res (λ su source, setupSource su pl source sinkChannels) su (pl_Sources pl) in
  let '(ws, err) := SetupSinks (su_manager su) pl (pl_Sinks pl) sinkChannels in
  match err with
  | Some sink => Err (SinkPeerNotFound sink)
  | None => Ok {| su_manager := su_manager su; su_chans := su_chans su; su_workers := su_workers su ++ ws;
                  su_sources := su_sources su |}
  end.

Definition startPipelineProcessing (su : Setup) : res setup_error Setup :=
  foldM_res setupPipeline su (cfg_Pipelines cfg).

End Setup.

(** ** Running *)

Section Run.
Context `{RE : Regexp} `{PM : PathMatch} `{GR : GoRange} `{MS : Mapstructure} `{CN : Connectors}.
Context (cfg : Config) (m : Manager).

(** The body of the loop over the subscriptions. *)
Definition fanout_one (sourceName : string) (event : Event) (st : PState) (sub : SourceSubscription)
    : option PState :=
  match config_GetPipeline cfg (sub_PipelineName sub) with
  | None => Some st
  | Some pl =>
      match List.find (λ src, bool_decide (psrc_Name src = sourceName)) (pl_Sources pl) with
      | None => Some st
      | Some matchingSource => ProcessEvent pl matchingSource event (sub_SinkChannels sub) st
      end
  end.

(** One turn of [processSourceEventsWithFanout]. *)
Definition fanout (sourceName : string) (event : Event) (st : PState) : option PState :=
  foldl (λ st sub, st ← st; fanout_one sourceName event st sub) (Some st) (GetSubscriptions m sourceName).

(** The running program: its state, the goroutines of the sinks, and the events
    each channel's goroutines have finished with, oldest first. *)
Record System := { sy_state : PState; sy_workers : list Worker; sy_done : list (nat * Event) }.

Definition set_chan (ch : nat) (c : Chan) (st : PState) : PState :=
  {| st_heap := st_heap st; st_chans := <[ch := c]> (st_chans st); st_processed := st_processed st;
     st_errors := st_errors st; st_published := st_published st; st_publish_errors := st_publish_errors st |}.

(** What the goroutines do, one action at a time, in any order. *)
Inductive step : System → System → Prop :=
| step_source s sourceName event st :     (* an event of a source *)
    fanout sourceName event (sy_state s) = Some st →
    step s {| sy_state := st; sy_workers := sy_workers s; sy_done := sy_done s |}
| step_receive s i w e q sent :           (* [case event := <-ch] *)
    sy_workers s !! i = Some w → wk_event w = None →
    st_chans (sy_state s) !! wk_chan w = Some {| ch_queue := e :: q; ch_sent := sent |} →
    step s {| sy_state := set_chan (wk_chan w) {| ch_queue := q; ch_sent := sent |} (sy_state s);
              sy_workers := <[i := hold (Some e) w]> (sy_workers s); sy_done := sy_done s |}
| step_turn s i w e st :                  (* transform and publish *)
    sy_workers s !! i = Some w → wk_event w = Some e →
    sink_turn (wk_pl w) (wk_sink w) (wk_peer w) e (sy_state s) = Some st →
    step s {| sy_state := st; sy_workers := <[i := hold None w]> (sy_workers s);
              sy_done := sy_done s ++ [(wk_chan w, e)] |}.

Inductive steps : System → System → Prop :=
| steps_refl s : steps s s
| steps_step s s' s'' : steps s s' → step s' s'' → steps s s''.

End Run.
