(* ===== verification/PipelineProps.v ===== *)
(** * PipelineProps: what the pipelines guarantee.

    Initializing stops at the first peer that cannot be connected and retries
    three times; distribution never blocks and fills channels up to their
    capacity; no event that a channel has accepted is lost or doubled on its
    way to the sinks; a lone goroutine keeps the order. A pipeline starts more
    than one goroutine per sink, though, and a renaming of columns is seen by
    other pipelines. *)

From S2P Require Import Prelude GoStrings GoStringFacts GoAny Cdc Transform TransformProps Pipeline.
Local Open Scope Z_scope.

(** ** Initializing *)

Section Init.
Context `{CN : Connectors} `{GF : GoFloat}.

Lemma attempt_spec connector config trace ok trace' :
  attempt connector config trace = (ok, trace') →
  ∃ err, trace' = trace ++ [AConnect connector config err] ∧ (ok = true ↔ err = None).
Proof.
  unfold attempt. intros [= <- <-]. eexists. split; [done|]. by rewrite bool_decide_eq_true.
Qed.

(** Attempts that failed, each after its wait. *)
Fixpoint failed_retries (connector config : string) (delays : list Z) (errs : list string) : list act :=
  match delays, errs with
  | d :: delays, e :: errs => ASleep d :: AConnect connector config (Some e) :: failed_retries connector config delays errs
  | _, _ => []
  end.

Lemma retry_spec delays connector config trace ok trace' :
  retry delays connector config trace = (ok, trace') →
  ∃ errs, if ok
    then ∃ d done rest, delays = done ++ d :: rest ∧ length errs = length done ∧
           trace' = trace ++ failed_retries connector config done errs ++ [ASleep d; AConnect connector config None]
    else length errs = length delays ∧ trace' = trace ++ failed_retries connector config delays errs.
Proof.
  revert trace. induction delays as [|d delays IH]; intros trace; cbn [retry].
  { intros [= <- <-]. exists []. by rewrite app_nil_r. }
  destruct (attempt connector config (trace ++ [ASleep d])) as [ok' t'] eqn:Ea.
  apply attempt_spec in Ea as (err & -> & Hok). destruct ok'.
  - intros [= <- <-]. exists [], d, [], delays. rewrite (proj1 Hok) by done.
    split_and!; [done..|by rewrite <-app_assoc].
  - destruct err as [e|]; [|by specialize (proj2 Hok eq_refl)]. intros (errs & He)%IH. exists (e :: errs). destruct ok.
    + destruct He as (d' & ds & rest & -> & Hl & ->). exists d', (d :: ds), rest.
      split_and!; [done | simpl; lia | by rewrite <-!app_assoc].
    + destruct He as [Hl ->]. split; [simpl; lia | by rewrite <-!app_assoc].
Qed.

Lemma init_peers_ok peers m trace m' trace' :
  init_peers peers m trace = (None, m', trace') →
  (∀ name q, m_peers m !! name = Some q → peer_Config q = None) →
  m_subscriptions m' = m_subscriptions m ∧ (∃ more, trace' = trace ++ more) ∧
  (∀ name q, m_peers m' !! name = Some q → peer_Config q = None ∧ peer_Name q = name ∨ m_peers m !! name = Some q) ∧
  (∀ name, is_Some (m_peers m !! name) → is_Some (m_peers m' !! name)) ∧
  (∀ p, p ∈ peers → is_Some (m_peers m' !! peer_Name p) ∧
     ∃ json, config_json (peer_Config p) = Some json ∧ AConnect (peer_ConnectorName p) json None ∈ trace').
Proof.
  revert m trace. induction peers as [|p peers IH]; intros m trace; cbn [init_peers].
  { intros [= <- <-] _. split_and!; [done | exists []; by rewrite app_nil_r | auto | done | by intros p ?%elem_of_nil]. }
  unfold AddPeer. destruct (registered (peer_ConnectorName p)); [|done]. cbn [negb].
  destruct (config_json (peer_Config p)) as [json|] eqn:Hj; [|done].
  destruct (attempt _ json trace) as [ok t1] eqn:Ea.
  apply attempt_spec in Ea as (err & -> & Hok).
  set (m1 := {| m_peers := _ |}).
  assert (∃ t2 more, (if ok then (true, trace ++ [AConnect (peer_ConnectorName p) json err])
    else retry retry_delays (peer_ConnectorName p) json (trace ++ [AConnect (peer_ConnectorName p) json err])) = (true, t2) ∧
    t2 = trace ++ more ∧ AConnect (peer_ConnectorName p) json None ∈ more ∨
    (if ok then (true, trace ++ [AConnect (peer_ConnectorName p) json err])
    else retry retry_delays (peer_ConnectorName p) json (trace ++ [AConnect (peer_ConnectorName p) json err])) = (false, t2))
    as (t2 & more & [(-> & -> & Hin) | ->]); [| |done].
  { destruct ok.
    - eexists _, [AConnect _ json err]. left. rewrite (proj1 Hok) by done. split_and!; [done..|constructor].
    - destruct (retry _ _ _ _) as [[] t2] eqn:Er; [|exists t2, []; by right].
      apply retry_spec in Er as (errs & d & ds & rest & _ & _ & ->). eexists _, _. left. rewrite <-!app_assoc.
      split; [done|]. split; [done|]. rewrite !elem_of_app, elem_of_cons. right. right. right. constructor. }
  intros H Hnil. apply IH in H as (Hs & (more' & ->) & Hq & Hk & Hp).
  - split_and!; [done | eexists; by rewrite <-app_assoc | | |].
    + intros name q Hname. destruct (Hq name q Hname) as [?|Hm]; [by left|]. cbn in Hm.
      apply lookup_insert_Some in Hm as [[<- <-]|[_ Hm]]; [by left | by right].
    + intros name Hn. apply Hk. cbn. destruct (decide (peer_Name p = name)) as [<-|];
        [rewrite lookup_insert_eq; eauto | by rewrite lookup_insert_ne].
    + intros p' [->|Hp']%elem_of_cons; [|by apply Hp]. split.
      * apply Hk. cbn. rewrite lookup_insert_eq. eauto.
      * exists json. split; [done|]. rewrite !elem_of_app. auto.
  - intros name q Hname. cbn in Hname. apply lookup_insert_Some in Hname as [[_ <-]|[_ Hname]]; [done | by eapply Hnil].
Qed.

(** When initializing succeeds, every configured peer is known to the manager
    and has been connected with its settings; the settings themselves are kept
    on a copy, so every peer the manager returns has none. *)
Theorem init_spec config m trace :
  Init NewManager config = (None, m, trace) →
  (∀ p, p ∈ cfg_Peers config → ∃ q, GetPeer m (peer_Name p) = Some q ∧ peer_Name q = peer_Name p ∧ peer_Config q = None ∧
     ∃ json, config_json (peer_Config p) = Some json ∧ AConnect (peer_ConnectorName p) json None ∈ trace) ∧
  (∀ name, GetSubscriptions m name = []).
Proof.
  intros H. apply init_peers_ok in H as (Hs & _ & Hq & _ & Hp); [|intros name q Hn; cbn in Hn; by apply lookup_empty_Some in Hn].
  split.
  - intros p Hin. destruct (Hp p Hin) as [[q Hq'] Hj]. exists q. split; [done|].
    destruct (Hq _ _ Hq') as [[??]|Hn]; [by split_and!|]. cbn in Hn. by apply lookup_empty_Some in Hn.
  - intros name. unfold GetSubscriptions. rewrite Hs. done.
Qed.

(** A peer that cannot be connected is given up after four attempts, the
    later three after waits of one, two and three seconds; nothing is done for
    the peers behind it. *)
Theorem init_gives_up config m trace name :
  Init NewManager config = (Some (ConnectFailed name), m, trace) →
  ∃ before p after json e0 errs done,
    cfg_Peers config = before ++ p :: after ∧ peer_Name p = name ∧ config_json (peer_Config p) = Some json ∧
    length errs = 3%nat ∧
    trace = done ++ AConnect (peer_ConnectorName p) json (Some e0) ::
      failed_retries (peer_ConnectorName p) json retry_delays errs ∧
    (∀ q, q ∈ before → ∃ json, AConnect (peer_ConnectorName q) json None ∈ done).
Proof.
  unfold Init. generalize (cfg_Peers config) as peers, NewManager as m0.
  assert (∀ peers m0 trace0,
    init_peers peers m0 trace0 = (Some (ConnectFailed name), m, trace) →
    ∃ before p after json e0 errs done, peers = before ++ p :: after ∧ peer_Name p = name ∧
      config_json (peer_Config p) = Some json ∧ length errs = 3%nat ∧
      trace = (trace0 ++ done) ++ AConnect (peer_ConnectorName p) json (Some e0) ::
        failed_retries (peer_ConnectorName p) json retry_delays errs ∧
      (∀ q, q ∈ before → ∃ json, AConnect (peer_ConnectorName q) json None ∈ done)) as H.
  2:{ intros peers m0 Hi. apply H in Hi as (b & p & a & j & e0 & errs & d & Hi). by exists b, p, a, j, e0, errs, d. }
  induction peers as [|p peers IH]; intros m0 trace0; cbn [init_peers]; [done|].
  unfold AddPeer. destruct (registered (peer_ConnectorName p)); [|done]. cbn [negb].
  destruct (config_json (peer_Config p)) as [json|] eqn:Hj; [|done].
  destruct (attempt _ json trace0) as [ok t1] eqn:Ea. apply attempt_spec in Ea as (err & -> & Hok).
  assert (∀ m1 more, AConnect (peer_ConnectorName p) json None ∈ more →
    init_peers peers m1 (trace0 ++ more) = (Some (ConnectFailed name), m, trace) →
    ∃ before p0 after json e0 errs done, p :: peers = before ++ p0 :: after ∧ peer_Name p0 = name ∧
      config_json (peer_Config p0) = Some json ∧ length errs = 3%nat ∧
      trace = (trace0 ++ done) ++ AConnect (peer_ConnectorName p0) json (Some e0) ::
        failed_retries (peer_ConnectorName p0) json retry_delays errs ∧
      (∀ q, q ∈ before → ∃ json, AConnect (peer_ConnectorName q) json None ∈ done)) as Hnext.
  { intros m1 more Hin H. apply IH in H as (b & p0 & a & j & e0 & errs & d & -> & Hn & Hj0 & Hl & -> & Hb).
    exists (p :: b), p0, a, j, e0, errs, (more ++ d). split_and!; try done; [by rewrite !app_assoc|].
    intros q [->|Hq]%elem_of_cons; [exists json; rewrite elem_of_app; by left|].
    destruct (Hb q Hq) as [j' Hj']. exists j'. rewrite elem_of_app. by right. }
  destruct ok.
  - apply Hnext. rewrite (proj1 Hok) by done. constructor.
  - destruct (retry _ _ _ _) as [[] t2] eqn:Er; apply retry_spec in Er as (errs & Er).
    + destruct Er as (d & ds & rest & _ & _ & ->). rewrite <-!app_assoc. apply Hnext.
      rewrite !elem_of_app, elem_of_cons. right. right. right. constructor.
    + destruct Er as [Hl ->]. intros [= Hn <- <-]. destruct err as [e0|]; [|by specialize (proj2 Hok eq_refl)].
      exists [], p, peers, json, e0, errs, []. rewrite app_nil_r, <-app_assoc.
      split_and!; try done. by intros q ?%elem_of_nil.
Qed.

End Init.

(** ** Distribution *)

(** A channel after [n] attempts to send one event. *)
Definition push (n : nat) (e : Event) (c : Chan) : Chan :=
  {| ch_queue := firstn sink_capacity (ch_queue c ++ replicate n e);
     ch_sent := ch_sent c ++ replicate (n `min` (sink_capacity - length (ch_queue c)))%nat e |}.

Definition bounded (c : Chan) : Prop := (length (ch_queue c) ≤ sink_capacity)%nat.

Lemma push_0 e c : bounded c → push 0 e c = c.
Proof. intros Hb. unfold push. cbn [replicate]. rewrite !app_nil_r, take_ge by done. by destruct c. Qed.

Lemma try_send_push e c : bounded c → default c (try_send e c) = push 1 e c ∧ bounded (push 1 e c).
Proof.
  intros Hb. unfold bounded, push, try_send in *. cbn [ch_queue replicate].
  split; [|rewrite length_take; apply Nat.le_min_l].
  destruct (Nat.ltb_spec (length (ch_queue c)) sink_capacity) as [Hl|Hl]; cbn [default].
  - rewrite take_ge by (rewrite length_app; simpl; lia).
    by replace (1 `min` (sink_capacity - length (ch_queue c)))%nat with 1%nat by lia.
  - replace (1 `min` (sink_capacity - length (ch_queue c)))%nat with 0%nat by lia.
    cbn [replicate]. rewrite app_nil_r, take_app_le, take_ge by lia. by destruct c.
Qed.

Lemma push_push m n e c : bounded c → push m e (push n e c) = push (n + m) e c.
Proof.
  intros Hb. unfold bounded, push in *. cbn [ch_queue ch_sent]. f_equal.
  - rewrite replicate_add, app_assoc. destruct (decide (length (ch_queue c ++ replicate n e) ≤ sink_capacity)%nat).
    + by rewrite (take_ge (ch_queue c ++ _)).
    + rewrite (take_app_le (firstn _ _)) by (rewrite length_take; lia).
      rewrite take_take, Nat.min_id. rewrite (take_app_le _ (replicate m e)); [done | lia].
  - rewrite <-app_assoc, <-replicate_add. do 2 f_equal. rewrite length_take, length_app, length_replicate. lia.
Qed.

(** How often a channel occurs among the sinks of a pipeline. *)
Definition uses (sinkChannels : gmap string nat) (ch : nat) (sinks : list Sink) : nat :=
  length (filter (λ s, sinkChannels !! sink_Name s = Some ch) sinks).

Definition all_bounded (st : PState) : Prop := ∀ ch c, st_chans st !! ch = Some c → bounded c.

Lemma distribute_one_chans pl source e sinkChannels st sink ch :
  all_bounded st →
  let st' := distribute_one pl source e sinkChannels st sink in
  st_heap st' = st_heap st ∧ st_published st' = st_published st ∧ st_errors st' = st_errors st ∧ all_bounded st' ∧
  st_chans st' !! ch = push (uses sinkChannels ch [sink]) e <$> st_chans st !! ch.
Proof.
  intros Hb. unfold distribute_one, uses. cbv zeta.
  assert (∀ o : option Chan, (∀ c, o = Some c → bounded c) → o = push 0 e <$> o) as H0
    by (intros [c|] Hc; [|done]; cbn; by rewrite push_0 by auto).
  destruct (sinkChannels !! sink_Name sink) as [ch'|] eqn:Hch.
  2:{ split_and!; try done. rewrite filter_cons_False by congruence. apply H0, Hb. }
  destruct (st_chans st !! ch') as [c|] eqn:Hc.
  2:{ cbn [mbind option_bind]. split_and!; try done. destruct (decide (ch' = ch)) as [->|Hne]; [by rewrite Hc|].
      rewrite filter_cons_False by congruence. apply H0, Hb. }
  cbn [mbind option_bind]. destruct (try_send_push e c (Hb _ _ Hc)) as [Hp Hpb].
  destruct (try_send e c) as [c'|]; cbn [default from_option id] in Hp.
  - split_and!; try done; cbn [st_chans].
    + intros ch2 c2. cbn [st_chans]. rewrite lookup_insert_Some. intros [[<- <-]|[_ H2]]; [by rewrite Hp | by eapply Hb].
    + destruct (decide (ch' = ch)) as [->|Hne].
      * rewrite lookup_insert_eq, filter_cons_True, Hc by done. by rewrite Hp.
      * rewrite lookup_insert_ne, filter_cons_False by congruence. apply H0, Hb.
  - split_and!; try done. destruct (decide (ch' = ch)) as [->|Hne].
    + rewrite filter_cons_True, Hc by done. cbn. by rewrite Hp at 1.
    + rewrite filter_cons_False by congruence. apply H0, Hb.
Qed.

Lemma distribute_chans pl source e sinkChannels st ch :
  all_bounded st →
  let st' := distributeToSinks pl source e sinkChannels st in
  st_heap st' = st_heap st ∧ st_published st' = st_published st ∧ st_errors st' = st_errors st ∧ all_bounded st' ∧
  st_chans st' !! ch = push (uses sinkChannels ch (pl_Sinks pl)) e <$> st_chans st !! ch.
Proof.
  unfold distributeToSinks. generalize (pl_Sinks pl) as sinks. intros sinks. revert st.
  induction sinks as [|sink sinks IH]; intros st Hb; cbv zeta.
  { cbn. split_and!; try done. destruct (st_chans st !! ch) as [c|] eqn:E; [|done]. cbn.
    by rewrite push_0 by eauto. }
  cbn [foldl]. destruct (distribute_one_chans pl source e sinkChannels st sink ch Hb) as (H1 & H2 & H3 & H4 & H5).
  destruct (IH _ H4) as (G1 & G2 & G3 & G4 & G5). rewrite G1, G2, G3, G5, H5.
  split_and!; try done. destruct (st_chans st !! ch) as [c|] eqn:E; [|done].
  cbn [fmap option_fmap option_map]. rewrite push_push by eauto. do 2 f_equal.
  unfold uses. change (sink :: sinks) with ([sink] ++ sinks). by rewrite filter_app, length_app.
Qed.

(** Distributing an event never blocks and touches nothing but the channels:
    each channel gets one copy for every sink of the pipeline that uses it, cut
    off at its capacity; what does not fit is dropped without an error. *)
Theorem distribute_spec pl source e sinkChannels st ch c :
  all_bounded st → st_chans st !! ch = Some c →
  let n := uses sinkChannels ch (pl_Sinks pl) in
  let st' := distributeToSinks pl source e sinkChannels st in
  ∃ c', st_chans st' !! ch = Some c' ∧
    ch_queue c' = firstn sink_capacity (ch_queue c ++ replicate n e) ∧
    (length (ch_queue c) + n ≤ sink_capacity → ch_queue c' = ch_queue c ++ replicate n e)%nat ∧
    st_heap st' = st_heap st ∧ st_published st' = st_published st ∧ st_errors st' = st_errors st.
Proof.
  intros Hb Hc n st'. destruct (distribute_chans pl source e sinkChannels st ch Hb) as (H1 & H2 & H3 & _ & H5).
  rewrite Hc in H5. eexists. split; [exact H5|]. split; [done|]. split; [|done].
  intros Hl. cbn [push ch_queue]. apply take_ge. rewrite length_app, length_replicate. done.
Qed.

(** ** Processing *)

(** Each channel got some events more, the same in its queue and its record. *)
Definition grows (st st' : PState) : Prop :=
  (all_bounded st → all_bounded st') ∧
  (all_bounded st → ∀ ch, ∃ es, st_chans st' !! ch =
     (λ c, {| ch_queue := ch_queue c ++ es; ch_sent := ch_sent c ++ es |}) <$> st_chans st !! ch).

Lemma grows_chans st st' : st_chans st' = st_chans st → grows st st'.
Proof.
  intros E. split; [unfold all_bounded; by rewrite E|]. intros _ ch. exists [].
  rewrite E. destruct (st_chans st !! ch) as [[q s]|]; [|done]. cbn. by rewrite !app_nil_r.
Qed.

Lemma grows_trans st st1 st2 : grows st st1 → grows st1 st2 → grows st st2.
Proof.
  intros [Hb Hg] [Hb' Hg']. split; [auto|]. intros Hst ch.
  destruct (Hg Hst ch) as [es E], (Hg' (Hb Hst) ch) as [es' E']. exists (es ++ es').
  rewrite E', E. destruct (st_chans st !! ch); [|done]. cbn. by rewrite !app_assoc.
Qed.

Lemma push_app n e c : bounded c → ch_queue (push n e c) = ch_queue c ++ replicate (n `min` (sink_capacity - length (ch_queue c)))%nat e.
Proof.
  intros Hb. unfold bounded in Hb. cbn [push ch_queue].
  rewrite firstn_app, take_ge by lia. f_equal. by rewrite take_replicate, Nat.min_comm.
Qed.

Lemma distribute_grows pl source e sinkChannels st :
  grows st (distributeToSinks pl source e sinkChannels st).
Proof.
  split; intros Hb; [by apply (distribute_chans pl source e sinkChannels st 0 Hb)|]. intros ch.
  destruct (distribute_chans pl source e sinkChannels st ch Hb) as (_ & _ & _ & _ & E). rewrite E.
  destruct (st_chans st !! ch) as [c|] eqn:Hc; [|by exists []]. cbn [fmap option_fmap option_map].
  eexists. f_equal. rewrite <-(push_app (uses sinkChannels ch (pl_Sinks pl)) e c (Hb _ _ Hc)). done.
Qed.

Section Process.
Context `{RE : Regexp} `{PM : PathMatch} `{GR : GoRange} `{MS : Mapstructure} `{CN : Connectors}.

Definition no_renaming (ts : list Transformation) : Prop :=
  Forall (λ t, ∀ c, ToConfig t = Ok c → renames_columns c = false) ts.

Lemma apply_frame h p ts o h' :
  is_Some (h_events h !! p) → in_heap h → applyTransformations h (Some p) ts = (o, h') →
  live_outcome p h h' o ∧ keeps h p h' ∧ (no_renaming ts → h_fields h' = h_fields h).
Proof.
  intros Hp Hin. destruct ts as [|t ts].
  { intros [= <- <-]. split; [split; [done | by left]|]. split; [apply keeps_refl | done]. }
  unfold applyTransformations. destruct (Chain _ _) as [f|e] eqn:Hc.
  2:{ intros [= <- <-]. split; [done|]. split; [apply keeps_refl | done]. }
  pose proof (chain_frame _ _ _ h p Hc Hp Hin) as H. intros E. rewrite E in H.
  destruct H as (Ho & _ & Hk & Hf). split; [done|]. by split.
Qed.

Lemma alloc_in_heap e h : in_heap h → in_heap (alloc e h).2.
Proof. intros Hin. exact (keep_bound _ _ _ (keeps_alloc h 0 e) Hin). Qed.

Lemma alloc_live e h : is_Some (h_events (alloc e h).2 !! (alloc e h).1).
Proof. cbn. rewrite lookup_insert_eq. eauto. Qed.

(** What processing an event does to the heap: the events that it held stay,
    and without renaming the arrays of fields stay too. *)
Record heap_kept (quiet : Prop) (h h' : Heap) : Prop := {
  kept_in : in_heap h';
  kept_events q : is_Some (h_events h !! q) → h_events h' !! q = h_events h !! q;
  kept_fields : quiet → h_fields h' = h_fields h
}.

(** A run of transformations on a fresh copy of an event. *)
Lemma fresh_run (quiet : Prop) e h h' :
  in_heap h → keeps (alloc e h).2 (alloc e h).1 h' → (quiet → h_fields h' = h_fields h) → heap_kept quiet h h'.
Proof.
  intros Hin Hk Hf. constructor; [exact (keep_bound _ _ _ Hk (alloc_in_heap e h Hin))| |done].
  intros q Hq. pose proof (Hin q Hq) as Hlt. rewrite (keep_events _ _ _ Hk); cbn [alloc fst snd h_events h_next]; [|lia..].
  rewrite lookup_insert_ne; [done | lia].
Qed.

(** [applyEventTransformations] gives nil or a live event, and never panics. *)
Lemma event_transformations event source pl st :
  in_heap (st_heap st) →
  ∃ o st', applyEventTransformations event source pl st = Some (o, st') ∧
    st_chans st' = st_chans st ∧ st_published st' = st_published st ∧
    match o with Some p => is_Some (h_events (st_heap st') !! p) | None => True end ∧
    heap_kept (no_renaming (psrc_Transformations source) ∧ no_renaming (pl_Transformations pl))
      (st_heap st) (st_heap st').
Proof.
  intros Hin. unfold applyEventTransformations.
  set (quiet := no_renaming _ ∧ _).
  pose proof (alloc_live event (st_heap st)) as Hl. pose proof (alloc_in_heap event (st_heap st) Hin) as Hi.
  assert (∀ h', keeps (alloc event (st_heap st)).2 (alloc event (st_heap st)).1 h' →
    (quiet → h_fields h' = h_fields (alloc event (st_heap st)).2) → heap_kept quiet (st_heap st) h') as Hfresh
    by (intros h' Hk Hf; by apply (fresh_run quiet event)).
  destruct (alloc event (st_heap st)) as [p h0]. cbn [fst snd] in *.
  destruct (applyTransformations h0 (Some p) (psrc_Transformations source)) as [o1 h1] eqn:E1.
  apply apply_frame in E1 as (Ho1 & Hk1 & Hf1); [|exact Hl|exact Hi].
  destruct o1 as [o1 err1|]; [|destruct Ho1].
  assert (heap_kept quiet (st_heap st) h1) as Hkept1 by (apply Hfresh; [exact Hk1 | intros [Hq _]; exact (Hf1 Hq)]).
  destruct err1 as [err1|]; [by destruct o1; eexists _, _; split_and!|].
  destruct o1 as [q|]; [|by eexists _, _; split_and!]. destruct Ho1 as [Hq Hqp].
  destruct (applyTransformations h1 (Some q) (pl_Transformations pl)) as [o2 h2] eqn:E2.
  apply apply_frame in E2 as (Ho2 & Hk2 & Hf2); [|exact Hq|exact (keep_bound _ _ _ Hk1 Hi)].
  destruct o2 as [o2 err2|]; [|destruct Ho2].
  assert (heap_kept quiet (st_heap st) h2) as Hkept2.
  { apply Hfresh; [exact (keeps_trans _ _ _ _ _ Hqp Hk1 Hk2)|]. intros [Hqs Hqp']. by rewrite Hf2, Hf1. }
  destruct err2 as [err2|]; [by destruct o2; eexists _, _; split_and!|].
  eexists o2, _. split_and!; [done..| |done]. destruct o2; [by destruct Ho2 | done].
Qed.

Lemma distribute_state pl source e sinkChannels st :
  st_heap (distributeToSinks pl source e sinkChannels st) = st_heap st ∧
  st_published (distributeToSinks pl source e sinkChannels st) = st_published st.
Proof.
  unfold distributeToSinks. generalize (pl_Sinks pl) as sinks. intros sinks. revert st.
  induction sinks as [|s sinks IH]; intros st; [done|]. cbn [foldl].
  destruct (IH (distribute_one pl source e sinkChannels st s)) as [-> ->]. unfold distribute_one.
  destruct (sinkChannels !! _); [|done]. by destruct (_ ≫= _).
Qed.

Lemma process_event_lemma pl source event sinkChannels st :
  in_heap (st_heap st) →
  ∃ st', ProcessEvent pl source event sinkChannels st = Some st' ∧
    heap_kept (no_renaming (psrc_Transformations source) ∧ no_renaming (pl_Transformations pl))
      (st_heap st) (st_heap st') ∧ st_published st' = st_published st ∧ grows st st'.
Proof.
  intros Hin. unfold ProcessEvent.
  destruct (event_transformations event source pl st Hin) as (o & st1 & -> & Hc & Hpub & Ho & Hk).
  destruct o as [p|]; [|exists st1; split_and!; [done..|by apply grows_chans]].
  destruct Ho as [e He]. rewrite He. eexists. split; [reflexivity|].
  destruct (distribute_state pl source e sinkChannels st1) as [-> ->]. split_and!; [done..|].
  eapply grows_trans; [by apply grows_chans | apply distribute_grows].
Qed.

(** C17: processing an event of a source never panics on a heap without dangling
    pointers, changes no event it was not given, publishes nothing itself, adds
    to the channels without removing, and leaves the schema fields alone when no
    column is renamed. *)
Theorem process_event_safe pl source event sinkChannels st :
  in_heap (st_heap st) →
  ∃ st', ProcessEvent pl source event sinkChannels st = Some st' ∧
    heap_kept (no_renaming (psrc_Transformations source) ∧ no_renaming (pl_Transformations pl))
      (st_heap st) (st_heap st') ∧ st_published st' = st_published st ∧ grows st st'.
Proof. apply process_event_lemma. Qed.

Lemma sink_turn_spec pl sink peer event st st' :
  in_heap (st_heap st) → sink_turn pl sink peer event st = Some st' →
  heap_kept (no_renaming (sink_Transformations sink)) (st_heap st) (st_heap st') ∧ st_chans st' = st_chans st.
Proof.
  intros Hin. unfold sink_turn.
  pose proof (alloc_live event (st_heap st)) as Hl. pose proof (alloc_in_heap event (st_heap st) Hin) as Hi.
  assert (∀ h', keeps (alloc event (st_heap st)).2 (alloc event (st_heap st)).1 h' →
    (no_renaming (sink_Transformations sink) → h_fields h' = h_fields (alloc event (st_heap st)).2) →
    heap_kept (no_renaming (sink_Transformations sink)) (st_heap st) h') as Hfresh
    by (intros h' Hk Hf; by apply (fresh_run _ event)).
  destruct (alloc event (st_heap st)) as [p h0]. cbn [fst snd] in *.
  destruct (applyTransformations h0 (Some p) (sink_Transformations sink)) as [o1 h1] eqn:E1.
  apply apply_frame in E1 as (Ho1 & Hk1 & Hf1); [|exact Hl|exact Hi].
  pose proof (Hfresh h1 Hk1 Hf1) as Hkept. destruct o1 as [o1 err1|]; [|destruct Ho1].
  destruct err1 as [err1|]; [by destruct o1; intros [= <-]; split|].
  destruct o1 as [q|]; [|by intros [= <-]; split].
  destruct (h_events h1 !! q) as [e|]; [|done]. destruct (registered _); [|done]. by intros [= <-].
Qed.

End Process.

(** ** The goroutines *)

Section Run.
Context `{RE : Regexp} `{PM : PathMatch} `{GR : GoRange} `{MS : Mapstructure} `{CN : Connectors}.
Context (cfg : Config) (m : Manager).
Local Notation step := (step cfg m).
Local Notation steps := (steps cfg m).

Definition in_flight (ch : nat) (ws : list Worker) : list Event :=
  omap (λ w, if decide (wk_chan w = ch) then wk_event w else None) ws.
Definition done_with (ch : nat) (l : list (nat * Event)) : list Event :=
  omap (λ p, if decide (p.1 = ch) then Some p.2 else None) l.

(** One goroutine at most reads the channel. *)
Definition lone (ch : nat) (ws : list Worker) : Prop :=
  ∀ i j wi wj, ws !! i = Some wi → ws !! j = Some wj → wk_chan wi = ch → wk_chan wj = ch → i = j.

(** What was given to a channel is in its queue, in the hands of a goroutine, or
    done with; and in order, when there is one goroutine. *)
Definition accounted (s : System) (ch : nat) (c : Chan) : Prop :=
  bounded c ∧ ∃ taken, ch_sent c = taken ++ ch_queue c ∧
    taken ≡ₚ done_with ch (sy_done s) ++ in_flight ch (sy_workers s) ∧
    (lone ch (sy_workers s) → taken = done_with ch (sy_done s) ++ in_flight ch (sy_workers s)).

Lemma worker_split (ws : list Worker) i w w' :
  ws !! i = Some w →
  ∃ l1 l2, ws = l1 ++ w :: l2 ∧ <[i := w']> ws = l1 ++ w' :: l2 ∧ length l1 = i.
Proof.
  intros Hw. exists (firstn i ws), (skipn (S i) ws).
  split; [by rewrite take_drop_middle|]. split.
  - apply insert_take_drop. by apply lookup_lt_Some in Hw.
  - rewrite length_take. apply lookup_lt_Some in Hw. lia.
Qed.

Lemma in_flight_app ch l1 w l2 :
  in_flight ch (l1 ++ w :: l2) =
  in_flight ch l1 ++ (if decide (wk_chan w = ch) then option_list (wk_event w) else []) ++ in_flight ch l2.
Proof.
  unfold in_flight. rewrite omap_app. f_equal. simpl. destruct (decide _); [|done].
  by destruct (wk_event w).
Qed.

Lemma lone_idle ch l1 w l2 :
  lone ch (l1 ++ w :: l2) → wk_chan w = ch → in_flight ch l1 = [] ∧ in_flight ch l2 = [].
Proof.
  intros Hl Hw. assert (∀ l : list Worker, (∀ x, x ∈ l → wk_chan x ≠ ch) → in_flight ch l = []) as Hno.
  { induction l as [|x l IH]; intros Hx; [done|]. unfold in_flight. simpl.
    rewrite decide_False by (apply Hx; constructor). apply IH. intros y Hy. apply Hx. by constructor. }
  assert ((l1 ++ w :: l2) !! length l1 = Some w) as Hm by (by rewrite list_lookup_middle).
  split; apply Hno; intros x [i Hi]%list_elem_of_lookup Hx.
  - assert (i = length l1) as ->; [|by apply lookup_lt_Some in Hi; lia].
    apply (Hl _ _ x w); [by apply lookup_app_l_Some | done..].
  - assert (length l1 + S i = length l1)%nat as ?; [|lia].
    apply (Hl _ _ x w); [|done..]. rewrite lookup_app_r by lia.
    by replace (length l1 + S i - length l1)%nat with (S i) by lia.
Qed.

(** Workers keep their channels. *)
Lemma lone_insert ch ws i w e : ws !! i = Some w → lone ch (<[i := hold e w]> ws) → lone ch ws.
Proof.
  intros Hw Hl j k wj wk Hj Hk Hcj Hck.
  assert (∀ j wj, ws !! j = Some wj → ∃ w', <[i := hold e w]> ws !! j = Some w' ∧ wk_chan w' = wk_chan wj) as H.
  { intros j' wj' Hj'. destruct (decide (i = j')) as [->|Hne].
    - rewrite Hw in Hj'. injection Hj' as <-. exists (hold e w). split; [|done].
      apply list_lookup_insert_eq. by apply lookup_lt_Some in Hw.
    - exists wj'. by rewrite list_lookup_insert_ne. }
  destruct (H _ _ Hj) as (w1 & H1 & E1), (H _ _ Hk) as (w2 & H2 & E2).
  apply (Hl j k w1 w2 H1 H2); congruence.
Qed.

Lemma fanout_grows sourceName event st st' :
  in_heap (st_heap st) → fanout cfg m sourceName event st = Some st' →
  in_heap (st_heap st') ∧ grows st st' ∧ st_published st' = st_published st.
Proof.
  unfold fanout. generalize (GetSubscriptions m sourceName) as subs. intros subs. revert st.
  induction subs as [|sub subs IH]; intros st Hin; cbn [foldl].
  { intros [= <-]. split_and!; [done | by apply grows_chans | done]. }
  cbn [mbind option_bind].
  assert (∃ st1, fanout_one cfg sourceName event st sub = Some st1 ∧ in_heap (st_heap st1) ∧ grows st st1 ∧
    st_published st1 = st_published st) as (st1 & -> & Hin1 & Hg1 & Hp1).
  { unfold fanout_one. destruct (config_GetPipeline _ _) as [pl|]; [|exists st; split_and!; [done..|by apply grows_chans|done]].
    destruct (List.find _ _) as [src|]; [|exists st; split_and!; [done..|by apply grows_chans|done]].
    destruct (process_event_lemma pl src event (sub_SinkChannels sub) st Hin) as (st1 & E & Hk & Hp & Hg).
    exists st1. split_and!; [done|by destruct Hk|done..]. }
  intros Hf. destruct (IH st1 Hin1 Hf) as (Hin' & Hg & Hp). split_and!; [done|by eapply grows_trans|congruence].
Qed.

Definition flow_inv (s : System) : Prop :=
  in_heap (st_heap (sy_state s)) ∧ ∀ ch c, st_chans (sy_state s) !! ch = Some c → accounted s ch c.

Lemma flow_bounded s : flow_inv s → all_bounded (sy_state s).
Proof. intros [_ Ha] ch c Hc. by destruct (Ha ch c Hc). Qed.

Lemma receive_accounted s i w e q sent ch c :
  flow_inv s → sy_workers s !! i = Some w → wk_event w = None →
  st_chans (sy_state s) !! wk_chan w = Some {| ch_queue := e :: q; ch_sent := sent |} →
  <[wk_chan w := {| ch_queue := q; ch_sent := sent |}]> (st_chans (sy_state s)) !! ch = Some c →
  bounded c ∧ ∃ taken, ch_sent c = taken ++ ch_queue c ∧
    taken ≡ₚ done_with ch (sy_done s) ++ in_flight ch (<[i := hold (Some e) w]> (sy_workers s)) ∧
    (lone ch (<[i := hold (Some e) w]> (sy_workers s)) →
     taken = done_with ch (sy_done s) ++ in_flight ch (<[i := hold (Some e) w]> (sy_workers s))).
Proof.
  intros [_ Ha] Hw Hidle Hch Hc.
  destruct (worker_split (sy_workers s) i w (hold (Some e) w) Hw) as (l1 & l2 & Ews & Ens & Hl1).
  destruct (decide (wk_chan w = ch)) as [Heq|Hne].
  - subst ch. rewrite lookup_insert_eq in Hc. injection Hc as <-.
    destruct (Ha _ _ Hch) as (Hb & taken & Hs & Hp & Ho). cbn [ch_sent ch_queue] in *.
    split; [unfold bounded in *; cbn [ch_queue length] in *; lia|].
    exists (taken ++ [e]). split; [by rewrite <-app_assoc|].
    rewrite Ens, in_flight_app. rewrite Ews, in_flight_app in Hp, Ho. rewrite Hidle in Hp, Ho.
    cbn [hold wk_chan wk_event option_list]. rewrite decide_True in Hp, Ho |- * by done. cbn [app option_list] in Hp, Ho |- *.
    split.
    + rewrite Hp. rewrite <-!app_assoc. do 2 apply Permutation_app_head.
      rewrite (Permutation_app_comm _ [e]). done.
    + intros Hl. assert (lone (wk_chan w) (l1 ++ w :: l2)) as Hl'
        by (rewrite <-Ews; eapply (lone_insert _ _ i w (Some e)); [done | by rewrite Ens]).
      destruct (lone_idle _ _ _ _ Hl' eq_refl) as [E1 E2]. rewrite E1, E2 in *. cbn [app] in *.
      rewrite Ho by done. by rewrite !app_nil_r.
  - rewrite lookup_insert_ne in Hc by done. destruct (Ha _ _ Hc) as (Hb & taken & Hs & Hp & Ho).
    split; [done|]. exists taken. split; [done|]. rewrite Ens, in_flight_app. rewrite Ews, in_flight_app in Hp, Ho.
    cbn [hold wk_chan]. rewrite decide_False in Hp, Ho |- * by done. split; [done|].
    intros Hl. apply Ho. rewrite <-Ews. eapply (lone_insert _ _ i w (Some e)); [done | by rewrite Ens].
Qed.

Lemma turn_accounted s i w e ch c :
  accounted s ch c → sy_workers s !! i = Some w → wk_event w = Some e →
  bounded c ∧ ∃ taken, ch_sent c = taken ++ ch_queue c ∧
    taken ≡ₚ done_with ch (sy_done s ++ [(wk_chan w, e)]) ++ in_flight ch (<[i := hold None w]> (sy_workers s)) ∧
    (lone ch (<[i := hold None w]> (sy_workers s)) →
     taken = done_with ch (sy_done s ++ [(wk_chan w, e)]) ++ in_flight ch (<[i := hold None w]> (sy_workers s))).
Proof.
  intros (Hb & taken & Hs & Hp & Ho) Hw Hev. split; [done|]. exists taken. split; [done|].
  destruct (worker_split (sy_workers s) i w (hold None w) Hw) as (l1 & l2 & Ews & Ens & Hl1).
  assert (lone ch (<[i := hold None w]> (sy_workers s)) → lone ch (l1 ++ w :: l2)) as Hlone
    by (intros Hl; rewrite <-Ews; by eapply (lone_insert _ _ i w None)).
  unfold done_with. rewrite omap_app. fold (done_with ch (sy_done s)). cbn [omap list_omap fst snd].
  rewrite Ens in *. rewrite in_flight_app. rewrite Ews, in_flight_app, Hev in Hp, Ho.
  cbn [hold wk_chan wk_event option_list] in *. destruct (decide (wk_chan w = ch)) as [Heq|Hne].
  - cbn [app] in *. split.
    + rewrite Hp, <-!app_assoc. apply Permutation_app_head. cbn [app]. symmetry. apply Permutation_middle.
    + intros Hl%Hlone. destruct (lone_idle _ _ _ _ Hl Heq) as [E1 E2]. rewrite E1, E2 in *. cbn [app] in *.
      rewrite Ho by done. cbn [option_list app]. by rewrite !app_nil_r.
  - rewrite !app_nil_r. split; [exact Hp|]. intros Hl. exact (Ho (Hlone Hl)).
Qed.

Lemma step_flow s s' : flow_inv s → step s s' → flow_inv s'.
Proof.
  intros Hinv Hs. pose proof (flow_bounded s Hinv) as Hbd. pose proof Hinv as [Hin Ha].
  destruct Hs as [s sourceName event st Hf|s i w e q sent Hw Hev Hch|s i w e st Hw Hev Ht].
  - destruct (fanout_grows _ _ _ _ Hin Hf) as (Hin' & [_ Hg] & _). split; [exact Hin'|].
    intros ch c' Hc'. cbn [sy_state sy_workers sy_done] in *. destruct (Hg Hbd ch) as [es E].
    rewrite Hc' in E. destruct (st_chans (sy_state s) !! ch) as [c|] eqn:Hc; [|done]. injection E as ->.
    destruct (Ha ch c Hc) as (_ & taken & Hsent & Hrest). split.
    + destruct (fanout_grows _ _ _ _ Hin Hf) as (_ & [Hb' _] & _). by apply (Hb' Hbd ch).
    + exists taken. cbn [ch_sent ch_queue]. split; [by rewrite Hsent, <-app_assoc | exact Hrest].
  - split; [exact Hin|]. intros ch c Hc. cbn [sy_state sy_workers sy_done set_chan st_chans] in *.
    exact (receive_accounted s i w e q sent ch c Hinv Hw Hev Hch Hc).
  - destruct (sink_turn_spec _ _ _ _ _ _ Hin Ht) as [Hk Hcs]. split; [by destruct Hk|].
    intros ch c Hc. cbn [sy_state sy_workers sy_done] in *. rewrite Hcs in Hc.
    exact (turn_accounted s i w e ch c (Ha ch c Hc) Hw Hev).
Qed.

(** The program before its first event: empty channels, idle goroutines. *)
Record at_start (s : System) : Prop := {
  start_heap : in_heap (st_heap (sy_state s));
  start_chans ch c : st_chans (sy_state s) !! ch = Some c → ch_queue c = [] ∧ ch_sent c = [];
  start_workers w : w ∈ sy_workers s → wk_event w = None;
  start_done : sy_done s = []
}.

Lemma start_flow s : at_start s → flow_inv s.
Proof.
  intros [Hh Hc Hw Hd]. split; [done|]. intros ch c Hch. destruct (Hc ch c Hch) as [Hq Hs].
  assert (in_flight ch (sy_workers s) = []) as Hif.
  { clear -Hw. induction (sy_workers s) as [|w ws IH]; [done|]. unfold in_flight. simpl.
    rewrite Hw by constructor. destruct (decide _); apply IH; intros w' Hw'; apply Hw; by constructor. }
  split; [unfold bounded; rewrite Hq; simpl; unfold sink_capacity; lia|]. exists [].
  rewrite Hs, Hq, Hd, Hif. by split_and!.
Qed.

Lemma flow_reachable s0 s : at_start s0 → steps s0 s → flow_inv s.
Proof.
  intros H0%start_flow Hs. induction Hs as [s|s0 s1 s2 _ IH Hstep]; [done|]. apply (step_flow s1); auto.
Qed.

(** C15: whatever the goroutines do and in whatever order, an event that a sink
    channel has accepted is in its queue, in the hands of one goroutine, or done
    with, once; no queue exceeds its capacity; and if one goroutine reads the
    channel, its events are done with in the order in which they were accepted. *)
Theorem channels_lose_nothing s0 s ch c :
  at_start s0 → steps s0 s → st_chans (sy_state s) !! ch = Some c → accounted s ch c.
Proof. intros H0 Hs. destruct (flow_reachable s0 s H0 Hs) as [_ Ha]. by apply Ha. Qed.

End Run.

(** ** Goroutines per sink *)

Section Setup.
Context `{CN : Connectors} `{SC : SourceConfig}.
Context (cfg : Config).

Lemma SetupSinks_peers m m' pl sinks chans :
  m_peers m = m_peers m' → SetupSinks m pl sinks chans = SetupSinks m' pl sinks chans.
Proof. intros E. induction sinks as [|s sinks IH]; [done|]. cbn [SetupSinks]. unfold GetPeer. by rewrite E, IH. Qed.

Lemma SetupSinks_length m pl sinks chans ws : SetupSinks m pl sinks chans = (ws, None) → length ws = length sinks.
Proof.
  revert ws. induction sinks as [|s sinks IH]; intros ws; cbn [SetupSinks]; [by intros [= <-]|].
  destruct (GetPeer m _); [|done]. destruct (SetupSinks m pl sinks chans) as [ws' err].
  intros [= <- ->]. cbn [length]. f_equal. by apply IH.
Qed.

Lemma setupSource_workers su pl source chans su' :
  setupSource cfg su pl source chans = Ok su' →
  m_peers (su_manager su') = m_peers (su_manager su) ∧ su_chans su' = su_chans su ∧
  ∃ ws, SetupSinks (su_manager su) pl (pl_Sinks pl) chans = (ws, None) ∧ su_workers su' = su_workers su ++ ws.
Proof.
  unfold setupSource. destruct (config_GetPeer _ _) as [sp|]; [|done]. destruct (GetPeer _ _) as [p|]; [|done].
  intros (srcs & _ & H)%res_bind_ok. rewrite (SetupSinks_peers _ (su_manager su)) in H by done.
  destruct (SetupSinks (su_manager su) pl (pl_Sinks pl) chans) as [ws [err|]] eqn:E; [done|].
  injection H as <-. split_and!; [done..|by exists ws].
Qed.

(** Setting up a pipeline starts the goroutines of all its sinks once for
    every source and once more, on the same channels: a sink of a pipeline with
    n sources is read by n + 1 goroutines. *)
Theorem setup_workers su pl su' :
  setupPipeline cfg su pl = Ok su' →
  ∃ ws chans, SetupSinks (su_manager su) pl (pl_Sinks pl) chans = (ws, None) ∧
    length ws = length (pl_Sinks pl) ∧
    su_workers su' = su_workers su ++ concat (replicate (S (length (pl_Sources pl))) ws).
Proof.
  unfold setupPipeline. destruct (make_channels _ _ _) as [next chans].
  set (su0 := {| su_manager := _ |}). intros (su1 & Hf & H)%res_bind_ok.
  assert (∀ sources su0 su1, foldM_res (λ su source, setupSource cfg su pl source chans) su0 sources = Ok su1 →
    m_peers (su_manager su1) = m_peers (su_manager su0) ∧ (∀ ws, SetupSinks (su_manager su0) pl (pl_Sinks pl) chans = (ws, None) →
    su_workers su1 = su_workers su0 ++ concat (replicate (length sources) ws))) as Hall.
  { clear. induction sources as [|s sources IH]; intros su0 su1; cbn [foldM_res].
    { intros [= <-]. split; [done|]. intros ws _. cbn. by rewrite app_nil_r. }
    intros (su2 & (Hp & _ & ws' & Hws' & Hw)%setupSource_workers & (Hp' & Hw')%IH)%res_bind_ok.
    split; [congruence|]. intros ws Hws. rewrite Hws in Hws'. injection Hws' as <-.
    rewrite (Hw' ws), Hw by (by rewrite (SetupSinks_peers _ (su_manager su0))).
    cbn [length replicate concat]. by rewrite app_assoc. }
  destruct (Hall _ _ _ Hf) as [Hp Hw]. rewrite (SetupSinks_peers _ (su_manager su)) in H by done.
  destruct (SetupSinks (su_manager su) pl (pl_Sinks pl) chans) as [ws [err|]] eqn:E; [done|].
  injection H as <-. exists ws, chans. split; [done|]. split; [by eapply SetupSinks_length|].
  cbn [su_workers]. rewrite (Hw ws) by done. cbn [su_workers su0]. rewrite <-app_assoc. f_equal.
  cbn [replicate concat]. clear. induction (length (pl_Sources pl)) as [|n IH]; cbn; [by rewrite app_nil_r|].
  by rewrite <-app_assoc, IH.
Qed.

End Setup.

(** ** A running program *)

Definition demo_connectors : Connectors := {|
  registered := λ c, bool_decide (c ∈ ["postgres"; "debug"]);
  Connect := λ trace c _, if bool_decide (c = "debug") && (length trace <? 4)%nat then Some "refused" else None;
  Sub := λ _, None; Pub := λ _ _ _, None |}.
Definition demo_settings : SourceConfig := {| settings_ok := λ _ _, true; settings_isServer := λ _, false |}.

Definition demo_peer (name connector : string) : Peer :=
  {| peer_Name := name; peer_ConnectorName := connector; peer_Config := Some {["host" := AStr "x"]}; peer_Args := [] |}.
Definition demo_pipeline (name : string) (ts : list Transformation) : Pipeline := {|
  pl_Name := name; pl_Sources := [{| psrc_Name := "db"; psrc_Transformations := [] |}];
  pl_Transformations := ts; pl_Sinks := [{| sink_Name := name; sink_Transformations := [] |}] |}.
Definition rename_ids : list Transformation :=
  [{| tr_Config := {["columns" := AObj {["id" := AStr "key"]}]}; tr_Type := "replace" |}].

(** Two pipelines from one source; only the second renames a column. *)
Definition demo_config : Config := {|
  cfg_Peers := [demo_peer "db" "postgres"; demo_peer "plain" "debug"; demo_peer "renamed" "debug"];
  cfg_Pipelines := [demo_pipeline "plain" []; demo_pipeline "renamed" rename_ids] |}.

Definition demo_init : option init_error * Manager * list act :=
  Init (CN := demo_connectors) (GF := integral_floats) NewManager demo_config.
Definition demo_manager : Manager := demo_init.1.2.

Definition no_setup : Setup :=
  {| su_manager := demo_manager; su_chans := 0; su_workers := []; su_sources := [] |}.
Definition demo_setup : Setup :=
  match startPipelineProcessing (CN := demo_connectors) (SC := demo_settings) demo_config no_setup with
  | Ok su => su
  | Err _ => no_setup
  end.

Definition empty_chan : Chan := {| ch_queue := []; ch_sent := [] |}.
Definition demo_start : System := {|
  sy_state := {| st_heap := user_heap; st_chans := {[0%nat := empty_chan; 1%nat := empty_chan]};
                 st_processed := []; st_errors := []; st_published := []; st_publish_errors := [] |};
  sy_workers := su_workers demo_setup; sy_done := [] |}.

(** The steps as functions, for runs that can be computed. *)
Section Computed.
Context `{RE : Regexp} `{PM : PathMatch} `{GR : GoRange} `{MS : Mapstructure} `{CN : Connectors}.
Context (cfg : Config) (m : Manager).

Definition do_source (name : string) (e : Event) (s : System) : option System :=
  st ← fanout cfg m name e (sy_state s);
  Some {| sy_state := st; sy_workers := sy_workers s; sy_done := sy_done s |}.
Definition do_receive (i : nat) (s : System) : option System :=
  w ← sy_workers s !! i;
  match wk_event w, st_chans (sy_state s) !! wk_chan w with
  | None, Some {| ch_queue := e :: q; ch_sent := sent |} =>
      Some {| sy_state := set_chan (wk_chan w) {| ch_queue := q; ch_sent := sent |} (sy_state s);
              sy_workers := <[i := hold (Some e) w]> (sy_workers s); sy_done := sy_done s |}
  | _, _ => None
  end.
Definition do_turn (i : nat) (s : System) : option System :=
  w ← sy_workers s !! i;
  match wk_event w with
  | Some e => st ← sink_turn (wk_pl w) (wk_sink w) (wk_peer w) e (sy_state s);
              Some {| sy_state := st; sy_workers := <[i := hold None w]> (sy_workers s);
                      sy_done := sy_done s ++ [(wk_chan w, e)] |}
  | None => None
  end.

Inductive action := DoSource (name : string) (e : Event) | DoReceive (i : nat) | DoTurn (i : nat).
Definition do_action (a : action) (s : System) : option System :=
  match a with DoSource n e => do_source n e s | DoReceive i => do_receive i s | DoTurn i => do_turn i s end.
Definition do_actions (l : list action) (s : System) : option System :=
  foldl (λ o a, s ← o; do_action a s) (Some s) l.

Lemma do_action_step a s s' : do_action a s = Some s' → step cfg m s s'.
Proof.
  destruct a as [name e|i|i]; cbn [do_action]; unfold do_source, do_receive, do_turn.
  - destruct (fanout _ _ _ _ _) as [st|] eqn:E; [|done]. intros [= <-]. by eapply step_source.
  - destruct (sy_workers s !! i) as [w|] eqn:Hw; [|done]. cbn [mbind option_bind].
    destruct (wk_event w) eqn:He; [done|]. destruct (st_chans _ !! _) as [[[|e q] sent]|] eqn:Hc; try done.
    intros [= <-]. by apply step_receive.
  - destruct (sy_workers s !! i) as [w|] eqn:Hw; [|done]. cbn [mbind option_bind].
    destruct (wk_event w) as [e|] eqn:He; [|done]. destruct (sink_turn _ _ _ _ _) as [st|] eqn:E; [|done].
    intros [= <-]. by apply step_turn.
Qed.

Lemma do_actions_steps l s s' : do_actions l s = Some s' → steps cfg m s s'.
Proof.
  revert s'. induction l as [|a l IH] using rev_ind; intros s'; [intros [= <-]; apply steps_refl|].
  unfold do_actions. rewrite foldl_app. cbn [foldl]. fold (do_actions l s).
  destruct (do_actions l s) as [s1|]; [|done]. intros Ha%do_action_step. by eapply steps_step; [apply IH|].
Qed.

End Computed.

Definition demo_run (l : list action) : option System :=
  do_actions (RE := no_regexp) (PM := star_match) (GR := range_up) (MS := plain_decode) (CN := demo_connectors)
    demo_config (su_manager demo_setup) l demo_start.
Notation demo_steps := (steps (RE := no_regexp) (PM := star_match) (GR := range_up) (MS := plain_decode)
  (CN := demo_connectors) demo_config (su_manager demo_setup)).

Definition first_event : Event := WithTimestamp 1 user_event.
Definition second_event : Event := WithTimestamp 2 user_event.

(** The order of events is not kept: with a single source, the two
    goroutines of a sink can publish two events the other way round. *)
Theorem sink_order_not_kept :
  ∃ s c, demo_steps demo_start s ∧ st_chans (sy_state s) !! 0%nat = Some c ∧
    ch_sent c = [first_event; second_event] ∧
    pay_TsMs ∘ ev_Payload ∘ snd ∘ fst <$> st_published (sy_state s) = [2; 1].
Proof.
  set (l := [DoSource "db" first_event; DoSource "db" second_event; DoReceive 0; DoReceive 1; DoTurn 1; DoTurn 0]).
  assert (∃ s, demo_run l = Some s ∧ ∃ c, st_chans (sy_state s) !! 0%nat = Some c ∧ ch_sent c = [first_event; second_event] ∧
    pay_TsMs ∘ ev_Payload ∘ snd ∘ fst <$> st_published (sy_state s) = [2; 1]) as (s & Hs & c & Hc)
    by (eexists; split; [vm_compute; reflexivity|]; eexists; split; [vm_compute; reflexivity|]; split; vm_compute; reflexivity).
  exists s, c. split; [by apply (do_actions_steps (MS := plain_decode) _ _ l) | exact Hc].
Qed.

(** A renaming of columns leaks into other pipelines: a sink of a pipeline
    without transformations publishes the event with the schema fields that the
    other pipeline has renamed in the shared array. *)
Theorem renamed_fields_leak :
  ∃ s fields, demo_steps demo_start s ∧
    st_published (sy_state s) = [("plain", user_event, fields)] ∧
    fld_Field <$> user_fields = ["id"; "name"] ∧ fld_Field <$> fields = ["key"; "name"].
Proof.
  set (l := [DoSource "db" user_event; DoReceive 0; DoTurn 0]).
  assert (∃ s, demo_run l = Some s ∧ ∃ fields, st_published (sy_state s) = [("plain", user_event, fields)] ∧
    fld_Field <$> user_fields = ["id"; "name"] ∧ fld_Field <$> fields = ["key"; "name"]) as (s & Hs & fields & Hf)
    by (eexists; split; [vm_compute; reflexivity|]; eexists; split; [vm_compute; reflexivity|]; split; vm_compute; reflexivity).
  exists s, fields. split; [by apply (do_actions_steps (MS := plain_decode) _ _ l) | exact Hf].
Qed.

(** ** Witnesses *)

Lemma init_spec_witness :
  ∃ m trace q, demo_init = (None, m, trace) ∧ GetPeer m "plain" = Some q ∧ peer_Config q = None.
Proof.
  assert (∃ r, demo_init = (None, r.1, r.2)) as [[m trace] H] by (eexists (_, _); vm_compute; reflexivity).
  destruct (init_spec (CN := demo_connectors) (GF := integral_floats) demo_config m trace H) as [Hp _].
  destruct (Hp (demo_peer "plain" "debug")) as (q & Hq & _ & Hc & _); [right; constructor|].
  exists m, trace, q. split; [exact H|]. split; [exact Hq | exact Hc].
Defined.

Definition stubborn_connectors : Connectors := {|
  registered := λ _, true;
  Connect := λ _ c _, if bool_decide (c = "debug") then Some "refused" else None;
  Sub := λ _, None; Pub := λ _ _ _, None |}.

Lemma init_gives_up_witness :
  ∃ m trace, Init (CN := stubborn_connectors) (GF := integral_floats) NewManager demo_config =
      (Some (ConnectFailed "plain"), m, trace) ∧
    ∃ before p after, cfg_Peers demo_config = before ++ p :: after ∧ peer_Name p = "plain".
Proof.
  assert (∃ r, Init (CN := stubborn_connectors) (GF := integral_floats) NewManager demo_config =
    (Some (ConnectFailed "plain"), r.1, r.2)) as [[m trace] H] by (eexists (_, _); vm_compute; reflexivity).
  exists m, trace. split; [exact H|].
  destruct (init_gives_up (CN := stubborn_connectors) (GF := integral_floats) demo_config m trace "plain" H)
    as (before & p & after & _ & _ & _ & _ & Hc & Hn & _).
  exists before, p, after. split; [exact Hc | exact Hn].
Defined.

Lemma distribute_spec_witness :
  let pl := demo_pipeline "plain" [] in
  let st := sy_state demo_start in
  ∃ c', st_chans (distributeToSinks pl {| psrc_Name := "db"; psrc_Transformations := [] |} user_event
      {["plain" := 0%nat]} st) !! 0%nat = Some c' ∧ ch_queue c' = [user_event].
Proof.
  intros pl st.
  destruct (distribute_spec pl {| psrc_Name := "db"; psrc_Transformations := [] |} user_event
    {["plain" := 0%nat]} st 0 empty_chan) as (c' & Hc & Hq & _).
  - intros ch c Hc. cbn in Hc. rewrite lookup_insert_Some, lookup_singleton_Some in Hc.
    destruct Hc as [[_ <-]|[_ [_ <-]]]; unfold bounded, sink_capacity; cbn [empty_chan ch_queue length]; lia.
  - reflexivity.
  - exists c'. split; [exact Hc|]. rewrite Hq. vm_compute. reflexivity.
Defined.

Lemma user_in_heap : in_heap user_heap.
Proof. intros q [e Hq]. cbn in Hq. apply lookup_singleton_Some in Hq as [<- _]. cbn. lia. Qed.

Lemma process_event_safe_witness :
  ∃ st', ProcessEvent (RE := no_regexp) (PM := star_match) (GR := range_up) (MS := plain_decode)
    (demo_pipeline "plain" []) {| psrc_Name := "db"; psrc_Transformations := [] |} user_event {["plain" := 0%nat]}
    (sy_state demo_start) = Some st' ∧ h_fields (st_heap st') = h_fields user_heap.
Proof.
  destruct (process_event_safe (RE := no_regexp) (PM := star_match) (GR := range_up) (MS := plain_decode)
    (demo_pipeline "plain" []) {| psrc_Name := "db"; psrc_Transformations := [] |} user_event {["plain" := 0%nat]}
    (sy_state demo_start) user_in_heap) as (st' & E & Hk & _).
  exists st'. split; [exact E|]. apply (kept_fields _ _ _ Hk). split; constructor.
Defined.

Lemma demo_at_start : at_start demo_start.
Proof.
  constructor; [exact user_in_heap| | |done].
  - intros ch c Hc. cbn in Hc. rewrite lookup_insert_Some, lookup_singleton_Some in Hc.
    by destruct Hc as [[_ <-]|[_ [_ <-]]].
  - assert (Forall (λ w, wk_event w = None) (sy_workers demo_start)) as H by (vm_compute; repeat constructor).
    intros w Hw. by eapply Forall_forall in H.
Qed.

Lemma channels_lose_nothing_witness :
  ∃ s c, demo_run [DoSource "db" first_event; DoReceive 0] = Some s ∧
    st_chans (sy_state s) !! 0%nat = Some c ∧ accounted s 0 c.
Proof.
  assert (∃ s, demo_run [DoSource "db" first_event; DoReceive 0] = Some s ∧
    is_Some (st_chans (sy_state s) !! 0%nat)) as (s & Hs & c & Hc)
    by (eexists; split; [vm_compute; reflexivity|]; eexists; vm_compute; reflexivity).
  exists s, c. split; [exact Hs|]. split; [exact Hc|].
  apply (channels_lose_nothing (RE := no_regexp) (PM := star_match) (GR := range_up) (MS := plain_decode)
    (CN := demo_connectors) demo_config (su_manager demo_setup) demo_start s 0 c demo_at_start); [|exact Hc].
  exact (do_actions_steps _ _ _ _ _ Hs).
Defined.

Lemma setup_workers_witness :
  ∃ su', setupPipeline (CN := demo_connectors) (SC := demo_settings) demo_config no_setup (demo_pipeline "plain" []) = Ok su' ∧
    length (su_workers su') = 2%nat.
Proof.
  assert (∃ su', setupPipeline (CN := demo_connectors) (SC := demo_settings) demo_config no_setup
    (demo_pipeline "plain" []) = Ok su') as [su' H] by (eexists; vm_compute; reflexivity).
  exists su'. split; [exact H|].
  destruct (setup_workers (CN := demo_connectors) (SC := demo_settings) _ _ _ _ H) as (ws & chans & _ & Hl & ->).
  destruct ws as [|w [|w' ws]]; try discriminate Hl. reflexivity.
Defined.
