(* ===== verification/PipelineCommand.v ===== *)
(** * PipelineCommand: the life of [pigo pipeline], [runPipeline] of
    [cmd/pigo/pipeline.go], with the metrics server of [pkg/metrics/prom.go].

    The command starts the goroutines of file Pipeline, waits for a signal or an
    error, cancels the context, and waits for the goroutines, ten seconds at most.
    A run is a list of turns: of a goroutine, of the metrics server, of the clock,
    or of the command itself. Times are in nanoseconds. *)

From S2P Require Import Prelude GoStrings GoAny Cdc Transform TransformProps Support.
From S2P Require Import Json EventJson Pipeline PipelineProps.
Local Open Scope Z_scope.

(** ** Settings of a connector *)

(** [unmarshalConfig]: the settings are printed as JSON and read into a struct. *)
Definition unmarshalConfig `{GoFloat} {A} (target : json → option A) (config : option (gmap string any)) : option A :=
  jsonData ← config_json config; j ← parse_json jsonData; target j.

(** The struct of [setupGRPCConnection]: address and isServer. *)
Definition grpc_names : list string := ["address"; "isServer"].
Definition grpc_settings (j : json) : option (string * bool) :=
  read_struct (λ kvs '(address, isServer),
    address ← read_field get_string grpc_names "address" kvs address;
    isServer ← read_field get_bool grpc_names "isServer" kvs isServer;
    Some (address, isServer)) j ("", false).

(** Names are found without case, other settings are ignored, and an isServer that is
    no boolean is an error. *)
Example grpc_settings_ex :
  unmarshalConfig (H := integral_floats) grpc_settings
    (Some {["address" := AStr "h:1"; "isserver" := ABool true; "tls" := AObj ∅]}) = Some ("h:1", true) ∧
  unmarshalConfig (H := integral_floats) grpc_settings (Some {["isServer" := AStr "true"]}) = None ∧
  unmarshalConfig (H := integral_floats) grpc_settings None = Some ("", false).
Proof. vm_compute. done. Qed.

(** ** The metrics server *)

(** The goroutine that serves: it is counted by the wait group from its [Add] on. *)
Inductive serving := MOff | MStarting | MServing | MReturned.
(** The goroutine that watches the context, which the wait group does not count. *)
Inductive monitor := Watching | Draining (since : Z) | Finished (graceful : bool).

Record Metrics := { mt_opts : PromServerOpts; mt_serving : serving; mt_monitor : monitor }.
Definition with_serving (s : serving) (mt : Metrics) : Metrics :=
  {| mt_opts := mt_opts mt; mt_serving := s; mt_monitor := mt_monitor mt |}.
Definition with_monitor (mo : monitor) (mt : Metrics) : Metrics :=
  {| mt_opts := mt_opts mt; mt_serving := mt_serving mt; mt_monitor := mo |}.

Inductive metrics_turn :=
| Added                        (* [wg.Add(1)] and the start of both goroutines *)
| ListenFailed                 (* [ListenAndServe] gives up, say on a port in use *)
| ShutdownCalled               (* the context is done *)
| ListenReturned               (* [ListenAndServe] returns as soon as [Shutdown] is called *)
| ShutdownReturned             (* no request is open any more *)
| ShutdownTimedOut.

Definition StartPrometheusServer (cancelled : bool) (now : Z) (t : metrics_turn) (mt : Metrics) : option Metrics :=
  match t, mt_serving mt, mt_monitor mt with
  | Added, MStarting, _ => Some (with_serving MServing mt)
  | ListenFailed, MServing, _ => Some (with_serving MReturned mt)
  | ShutdownCalled, (MServing | MReturned), Watching =>
      if cancelled then Some (with_monitor (Draining now) mt) else None
  | ListenReturned, MServing, (Draining _ | Finished _) => Some (with_serving MReturned mt)
  | ShutdownReturned, MReturned, Draining _ => Some (with_monitor (Finished true) mt)
  | ShutdownTimedOut, _, Draining since =>
      if since + ps_ShutdownTimeout (mt_opts mt) <=? now then Some (with_monitor (Finished false) mt) else None
  | _, _, _ => None
  end.

(** ** The command *)

Inductive main_phase := Waiting | Stopping (since : Z) | Ended (complete : bool).

Record Run := {
  rn_sys : System;               (* channels, goroutines of the sinks *)
  rn_sources : gset string;      (* the sources whose goroutine has not returned *)
  rn_gone : gset nat;            (* the goroutines of sinks that have returned *)
  rn_metrics : Metrics;
  rn_errChan : option string;
  rn_now : Z;
  rn_main : main_phase
}.

Definition with_sys (s : System) (r : Run) : Run := {|
  rn_sys := s; rn_sources := rn_sources r; rn_gone := rn_gone r; rn_metrics := rn_metrics r;
  rn_errChan := rn_errChan r; rn_now := rn_now r; rn_main := rn_main r |}.
Definition with_sources (x : gset string) (r : Run) : Run := {|
  rn_sys := rn_sys r; rn_sources := x; rn_gone := rn_gone r; rn_metrics := rn_metrics r;
  rn_errChan := rn_errChan r; rn_now := rn_now r; rn_main := rn_main r |}.
Definition with_gone (x : gset nat) (r : Run) : Run := {|
  rn_sys := rn_sys r; rn_sources := rn_sources r; rn_gone := x; rn_metrics := rn_metrics r;
  rn_errChan := rn_errChan r; rn_now := rn_now r; rn_main := rn_main r |}.
Definition with_metrics (x : Metrics) (r : Run) : Run := {|
  rn_sys := rn_sys r; rn_sources := rn_sources r; rn_gone := rn_gone r; rn_metrics := x;
  rn_errChan := rn_errChan r; rn_now := rn_now r; rn_main := rn_main r |}.
Definition with_now (x : Z) (r : Run) : Run := {|
  rn_sys := rn_sys r; rn_sources := rn_sources r; rn_gone := rn_gone r; rn_metrics := rn_metrics r;
  rn_errChan := rn_errChan r; rn_now := x; rn_main := rn_main r |}.
Definition with_main (x : main_phase) (r : Run) : Run := {|
  rn_sys := rn_sys r; rn_sources := rn_sources r; rn_gone := rn_gone r; rn_metrics := rn_metrics r;
  rn_errChan := rn_errChan r; rn_now := rn_now r; rn_main := x |}.

(** [ctx.Done()] is closed. *)
Definition cancelled (r : Run) : bool := match rn_main r with Waiting => false | _ => true end.

Inductive turn :=
| Flow (a : action)                (* a goroutine takes, transforms or publishes *)
| SourceClosed (name : string)     (* the peer closed its channel *)
| SourceStopped (name : string)    (* [case <-ctx.Done()] of the source *)
| SinkStopped (i : nat)            (* the same of a sink *)
| Serve (t : metrics_turn)
| Signal
| ErrReceived                      (* [case err := <-errChan] *)
| Tick (d : Z)
| AllDone                          (* [case <-doneChan], after [wg.Wait()] *)
| TimedOut.

Definition shutdown_timeout : Z := 10 * 10 ^ 9.

(** The goroutine that an action of file Pipeline belongs to still runs. *)
Definition still_runs (a : action) (r : Run) : bool :=
  match a with
  | DoSource name _ => bool_decide (name ∈ rn_sources r)
  | DoReceive i | DoTurn i => negb (bool_decide (i ∈ rn_gone r))
  end.

(** The count of the wait group is zero. *)
Definition wg_zero (r : Run) : bool :=
  bool_decide (rn_sources r = ∅) &&
  bool_decide (Forall (λ i, i ∈ rn_gone r) (seq 0 (length (sy_workers (rn_sys r))))) &&
  match mt_serving (rn_metrics r) with MServing => false | _ => true end.

Section Life.
Context `{RE : Regexp} `{PM : PathMatch} `{GR : GoRange} `{MS : Mapstructure} `{CN : Connectors}.
Context (cfg : Config) (m : Manager).

Definition take_turn (t : turn) (r : Run) : option Run :=
  match rn_main r with
  | Ended _ => None
  | main =>
      match t with
      | Flow a => if still_runs a r then (λ s, with_sys s r) <$> do_action cfg m a (rn_sys r) else None
      | SourceClosed name =>
          if decide (name ∈ rn_sources r) then Some (with_sources (rn_sources r ∖ {[name]}) r) else None
      | SourceStopped name =>
          if decide (name ∈ rn_sources r ∧ cancelled r = true)
          then Some (with_sources (rn_sources r ∖ {[name]}) r) else None
      | SinkStopped i =>
          match sy_workers (rn_sys r) !! i with
          | Some {| wk_event := None |} => if cancelled r then Some (with_gone ({[i]} ∪ rn_gone r) r) else None
          | _ => None
          end
      | Serve t => (λ x, with_metrics x r) <$> StartPrometheusServer (cancelled r) (rn_now r) t (rn_metrics r)
      | Signal => match main with Waiting => Some (with_main (Stopping (rn_now r)) r) | _ => None end
      | ErrReceived =>
          match main, rn_errChan r with Waiting, Some _ => Some (with_main (Stopping (rn_now r)) r) | _, _ => None end
      | Tick d =>
          if (0 <? d) && match main with Stopping since => rn_now r + d <=? since + shutdown_timeout | _ => true end
          then Some (with_now (rn_now r + d) r) else None
      | AllDone => match main with Stopping _ => if wg_zero r then Some (with_main (Ended true) r) else None | _ => None end
      | TimedOut =>
          match main with
          | Stopping since => if since + shutdown_timeout <=? rn_now r then Some (with_main (Ended false) r) else None
          | _ => None
          end
      end
  end.

Definition take_turns (ts : list turn) (r : Run) : option Run := foldl (λ o t, r ← o; take_turn t r) (Some r) ts.
End Life.

Inductive run_error := InitFailed (e : init_error) | StartFailed (e : setup_error).

(** [runPipeline] up to its wait: an error ends the command, with what
    initializing did; else the goroutines run. The heap holds the fields of the
    schemas that events of the sources come with. *)
Definition runPipeline `{CN : Connectors} `{SC : SourceConfig} `{GF : GoFloat} (h : Heap) (prometheusEnabled : bool)
    (prometheusAddr : string) (cfg : Config) : res run_error (Manager * Run) * list act :=
  match Init NewManager cfg with
  | (Some e, _, trace) => (Err (InitFailed e), trace)
  | (None, m, trace) =>
      match startPipelineProcessing cfg {| su_manager := m; su_chans := 0; su_workers := []; su_sources := [] |} with
      | Err e => (Err (StartFailed e), trace)
      | Ok su =>
          (Ok (su_manager su,
               {| rn_sys := {| sy_state := {| st_heap := h;
                                              st_chans := list_to_map ((λ ch, (ch, empty_chan)) <$> seq 0 (su_chans su));
                                              st_processed := []; st_errors := []; st_published := [];
                                              st_publish_errors := [] |};
                               sy_workers := su_workers su; sy_done := [] |};
                  rn_sources := list_to_set (su_sources su); rn_gone := ∅;
                  rn_metrics := {| mt_opts := effectiveOpts (Some {| ps_Addr := prometheusAddr; ps_Path := "";
                                                                     ps_ShutdownTimeout := 0; ps_ReadHeaderTimeout := 0 |});
                                   mt_serving := if prometheusEnabled then MStarting else MOff; mt_monitor := Watching |};
                  rn_errChan := None; rn_now := 0; rn_main := Waiting |}), trace)
      end
  end.

(** ** Starting *)

Section Start.
Context `{CN : Connectors} `{SC : SourceConfig} (cfg : Config).

Definition all_idle (ws : list Worker) : Prop := ∀ w, w ∈ ws → wk_event w = None.

Lemma SetupSinks_idle m pl sinks chans ws err : SetupSinks m pl sinks chans = (ws, err) → all_idle ws.
Proof.
  revert ws. induction sinks as [|s sinks IH]; intros ws; cbn [SetupSinks]; [by intros [= <- <-] w ?%elem_of_nil|].
  destruct (GetPeer m _); [|by intros [= <- <-] w ?%elem_of_nil]. destruct (SetupSinks m pl sinks chans) as [ws' e].
  intros [= <- <-] w [->|Hw]%elem_of_cons; [done|]. by eapply IH.
Qed.

Lemma idle_app l l' : all_idle l → all_idle l' → all_idle (l ++ l').
Proof. intros H H' w [?|?]%elem_of_app; auto. Qed.

Lemma setupSource_idle su pl source chans su' :
  setupSource cfg su pl source chans = Ok su' → all_idle (su_workers su) → all_idle (su_workers su').
Proof.
  unfold setupSource. destruct (config_GetPeer _ _); [|done]. destruct (GetPeer _ _); [|done].
  intros (sources & _ & H)%res_bind_ok Hi.
  destruct (SetupSinks _ pl (pl_Sinks pl) chans) as [ws [err|]] eqn:E; [done|]. injection H as <-.
  apply idle_app; [done|]. by eapply SetupSinks_idle.
Qed.

Lemma foldM_keeps {S A E} (P : S → Prop) (f : S → A → res E S) l s s' :
  (∀ s a s', f s a = Ok s' → P s → P s') → foldM_res f s l = Ok s' → P s → P s'.
Proof.
  intros Hf. revert s. induction l as [|a l IH]; intros s; cbn [foldM_res]; [by intros [= <-]|].
  intros (s1 & H1 & H2)%res_bind_ok HP. eapply IH; [exact H2|]. by eapply Hf.
Qed.

Lemma start_idle su su' :
  startPipelineProcessing cfg su = Ok su' → all_idle (su_workers su) → all_idle (su_workers su').
Proof.
  apply (foldM_keeps (λ su, all_idle (su_workers su))). clear. intros su pl su'. unfold setupPipeline.
  destruct (make_channels _ _ _) as [next chans]. intros (su1 & Hf & H)%res_bind_ok Hi.
  assert (all_idle (su_workers su1)) as Hi1.
  { refine (foldM_keeps (λ su, all_idle (su_workers su)) _ _ _ _ _ Hf Hi).
    intros s source s' Hs Hi'. exact (setupSource_idle _ _ _ _ _ Hs Hi'). }
  destruct (SetupSinks _ pl (pl_Sinks pl) chans) as [ws [err|]] eqn:E; [done|]. injection H as <-.
  apply idle_app; [done|]. by eapply SetupSinks_idle.
Qed.
End Start.

(** ** Running *)

Section Runs.
Context `{RE : Regexp} `{PM : PathMatch} `{GR : GoRange} `{MS : Mapstructure} `{CN : Connectors} `{SC : SourceConfig}
  `{GF : GoFloat}.
Context (cfg : Config).

Lemma started h b addr m r trace :
  runPipeline h b addr cfg = (Ok (m, r), trace) → in_heap h →
  at_start (rn_sys r) ∧ rn_gone r = ∅ ∧ rn_errChan r = None ∧ rn_main r = Waiting.
Proof.
  unfold runPipeline. destruct (Init NewManager cfg) as [[[e|] m0] tr]; [done|].
  destruct (startPipelineProcessing cfg _) as [su|e] eqn:E; [|done]. intros [= <- <- <-] Hh. split_and!; [|done..].
  constructor; cbn [rn_sys sy_state sy_workers sy_done st_heap st_chans]; [done| | |done].
  - intros ch c Hc%elem_of_list_to_map_2. apply list_elem_of_fmap in Hc as (n & [= -> ->] & _). done.
  - apply (start_idle cfg _ _ E). by intros w ?%elem_of_nil.
Qed.

Local Abbreviation one_turn := (take_turn cfg).
Local Abbreviation all_turns := (take_turns cfg).

Lemma turns_nil m r : all_turns m [] r = Some r.
Proof. done. Qed.
Lemma turns_snoc m ts t r r' : all_turns m (ts ++ [t]) r = Some r' ↔ ∃ r1, all_turns m ts r = Some r1 ∧ one_turn m t r1 = Some r'.
Proof. unfold take_turns. rewrite foldl_app. cbn [foldl]. by rewrite bind_Some. Qed.
Lemma turns_app m ts ts' r : all_turns m (ts ++ ts') r = (r ← all_turns m ts r; all_turns m ts' r).
Proof.
  unfold take_turns. rewrite foldl_app. destruct (foldl _ (Some r) ts) as [r1|]; [done|].
  cbn. by induction ts' as [|t ts' IH].
Qed.

(** By induction on the turns, from the first. *)
Lemma turns_ind (P : list turn → Run → Prop) m r :
  P [] r → (∀ ts t r1 r2, all_turns m ts r = Some r1 → P ts r1 → one_turn m t r1 = Some r2 → P (ts ++ [t]) r2) →
  ∀ ts r', all_turns m ts r = Some r' → P ts r'.
Proof.
  intros H0 Hs. induction ts as [|t ts IH] using rev_ind; intros r'; [by intros [= <-]|].
  intros (r1 & H1 & H2)%turns_snoc. by eapply Hs; [|apply IH|].
Qed.

(** What one turn does, with its condition. *)
Inductive turned (m : Manager) (r : Run) : turn → Run → Prop :=
| turned_flow a s : still_runs a r = true → do_action cfg m a (rn_sys r) = Some s → turned m r (Flow a) (with_sys s r)
| turned_closed name : turned m r (SourceClosed name) (with_sources (rn_sources r ∖ {[name]}) r)
| turned_stopped name : cancelled r = true → turned m r (SourceStopped name) (with_sources (rn_sources r ∖ {[name]}) r)
| turned_sink i w : sy_workers (rn_sys r) !! i = Some w → wk_event w = None → cancelled r = true →
    turned m r (SinkStopped i) (with_gone ({[i]} ∪ rn_gone r) r)
| turned_serve t mt : StartPrometheusServer (cancelled r) (rn_now r) t (rn_metrics r) = Some mt →
    turned m r (Serve t) (with_metrics mt r)
| turned_signal : rn_main r = Waiting → turned m r Signal (with_main (Stopping (rn_now r)) r)
| turned_error e : rn_main r = Waiting → rn_errChan r = Some e → turned m r ErrReceived (with_main (Stopping (rn_now r)) r)
| turned_tick d : 0 < d → (∀ since, rn_main r = Stopping since → rn_now r + d ≤ since + shutdown_timeout) →
    turned m r (Tick d) (with_now (rn_now r + d) r)
| turned_done since : rn_main r = Stopping since → wg_zero r = true → turned m r AllDone (with_main (Ended true) r)
| turned_timeout since : rn_main r = Stopping since → since + shutdown_timeout ≤ rn_now r →
    turned m r TimedOut (with_main (Ended false) r).

Lemma turn_turned m t r r' : one_turn m t r = Some r' → turned m r t r'.
Proof.
  unfold take_turn. destruct (rn_main r) as [|since|] eqn:Em; [| |done]; destruct t as [a|name|name|i|t| | |d| |]; try done;
    try (destruct (still_runs a r) eqn:Ea; [|done]; intros (s & Hs & ->)%fmap_Some; by constructor);
    try (destruct (decide _) as [Hd|]; [|done]; intros [= <-]; constructor; by try apply Hd);
    try (destruct (sy_workers (rn_sys r) !! i) as [[pl sk pe ch [e|]]|] eqn:Ew; try done;
         destruct (cancelled r) eqn:Ec; [|done]; intros [= <-]; by eapply turned_sink);
    try (intros (mt & Hm & ->)%fmap_Some; by constructor);
    try (intros [= <-]; by constructor).
  - destruct (rn_errChan r) eqn:Ee; [|done]. intros [= <-]. by eapply turned_error.
  - rewrite andb_true_r. destruct (Z.ltb_spec 0 d); [|done]. intros [= <-]. constructor; [done|]. intros since. by rewrite Em.
  - destruct (Z.ltb_spec 0 d); [|done]. cbn [andb]. destruct (Z.leb_spec (rn_now r + d) (since + shutdown_timeout)); [|done].
    intros [= <-]. constructor; [done|]. rewrite Em. by intros ? [= <-].
  - destruct (wg_zero r) eqn:Eg; [|done]. intros [= <-]. by eapply turned_done.
  - destruct (Z.leb_spec (since + shutdown_timeout) (rn_now r)); [|done]. intros [= <-]. by eapply turned_timeout.
Qed.

(** The channels and the goroutines of sinks do nothing but steps of file Pipeline. *)
Lemma turns_steps m ts r r' : all_turns m ts r = Some r' → steps cfg m (rn_sys r) (rn_sys r').
Proof.
  revert ts r'. apply (turns_ind (λ _ r', steps cfg m (rn_sys r) (rn_sys r'))); [apply steps_refl|].
  intros ts t r1 r2 _ IH H%turn_turned. inversion H as [a s _ Ha| | | | | | | | |]; subst; try exact IH.
  eapply steps_step; [exact IH|]. exact (do_action_step cfg m a _ _ Ha).
Qed.

Definition not_waiting (r : Run) : Prop := rn_main r ≠ Waiting.

Lemma turn_main m t r r' : one_turn m t r = Some r' →
  rn_errChan r' = rn_errChan r ∧
  (rn_errChan r = None → (not_waiting r' ↔ not_waiting r ∨ t = Signal)).
Proof.
  unfold not_waiting. intros H%turn_turned. inversion H; subst; cbn [rn_main rn_errChan with_sys with_sources with_gone
    with_metrics with_now with_main]; (split; [done|]); intros; split; intros; naive_solver congruence.
Qed.

(** A pipeline that has started goes on until a signal arrives, whatever fails:
    nothing is ever sent to the channel of errors. *)
Theorem only_signals_stop h b addr m r trace ts r' :
  runPipeline h b addr cfg = (Ok (m, r), trace) → in_heap h → all_turns m ts r = Some r' →
  rn_errChan r' = None ∧ (rn_main r' ≠ Waiting ↔ Signal ∈ ts).
Proof.
  intros Hrun Hh. destruct (started _ _ _ _ _ _ Hrun Hh) as (_ & _ & He & Hm). revert ts r'.
  apply (turns_ind (λ ts r', rn_errChan r' = None ∧ (not_waiting r' ↔ Signal ∈ ts))).
  - unfold not_waiting. rewrite Hm, He. split; [done|]. split; intros H; [by destruct H|by apply elem_of_nil in H].
  - intros ts t r1 r2 _ [He1 Hw] [Heq Hm2]%turn_main. rewrite He1 in *. specialize (Hm2 eq_refl).
    split; [done|]. rewrite elem_of_app, list_elem_of_singleton. naive_solver.
Qed.

(** Goroutines that have returned hold no event; the clock does not pass the deadline. *)
Record life_inv (r : Run) : Prop := {
  life_gone i w : i ∈ rn_gone r → sy_workers (rn_sys r) !! i = Some w → wk_event w = None;
  life_clock since : rn_main r = Stopping since → since ≤ rn_now r ≤ since + shutdown_timeout;
  life_ended w : rn_main r = Ended true → w ∈ sy_workers (rn_sys r) → wk_event w = None
}.

Lemma action_gone m a r s :
  do_action cfg m a (rn_sys r) = Some s → still_runs a r = true →
  (∀ i w, i ∈ rn_gone r → sy_workers (rn_sys r) !! i = Some w → wk_event w = None) →
  ∀ i w, i ∈ rn_gone r → sy_workers s !! i = Some w → wk_event w = None.
Proof.
  intros Ha Hrun Hg i w Hi Hw. destruct a as [name e|j|j]; cbn [do_action still_runs] in *;
    unfold do_source, do_receive, do_turn in Ha.
  - destruct (fanout _ _ _ _ _); [|done]. injection Ha as <-. by eapply Hg.
  - apply negb_true_iff, bool_decide_eq_false in Hrun.
    destruct (sy_workers (rn_sys r) !! j) as [wj|]; [|done]. cbn [mbind option_bind] in Ha. repeat case_match; try done.
    injection Ha as <-. cbn [sy_workers] in Hw. rewrite list_lookup_insert_ne in Hw by (by intros ->). by eapply Hg.
  - apply negb_true_iff, bool_decide_eq_false in Hrun.
    destruct (sy_workers (rn_sys r) !! j) as [wj|]; [|done]. cbn [mbind option_bind] in Ha. repeat case_match; try done.
    destruct (sink_turn _ _ _ _ _); [|done]. injection Ha as <-. cbn [sy_workers] in Hw.
    rewrite list_lookup_insert_ne in Hw by (by intros ->). by eapply Hg.
Qed.

Lemma wg_zero_idle r : life_inv r → wg_zero r = true → ∀ w, w ∈ sy_workers (rn_sys r) → wk_event w = None.
Proof.
  intros [Hg _ _] [[_ Hall%bool_decide_eq_true]%andb_true_iff _]%andb_true_iff w [i Hi]%list_elem_of_lookup.
  apply (Hg i); [|done]. rewrite Forall_forall in Hall. apply Hall, elem_of_seq. apply lookup_lt_Some in Hi. lia.
Qed.

Lemma turn_life m t r r' : one_turn m t r = Some r' → life_inv r → life_inv r'.
Proof.
  intros Ht Hinv. assert (∀ b, rn_main r ≠ Ended b) as Hne by (intros b E; unfold take_turn in Ht; by rewrite E in Ht).
  destruct Hinv as [Hg Hc He]. apply turn_turned in Ht.
  inversion Ht as [a s Hr Ha| | |i w Hw Hw0 Hcn| | | |d Hd Htick|since Hs Hz|since Hs Hl]; subst;
    constructor; cbn [rn_sys rn_gone rn_main rn_now with_sys with_sources with_gone with_metrics with_now with_main];
    try done; try (intros w0 E; by destruct (Hne true)).
  - exact (action_gone m a r s Ha Hr Hg).
  - intros j w' [->%elem_of_singleton|Hj]%elem_of_union Hw'; [congruence|by eapply Hg].
  - intros since [= <-]. unfold shutdown_timeout. lia.
  - intros since [= <-]. unfold shutdown_timeout. lia.
  - intros since E. specialize (Htick since E). specialize (Hc since E). lia.
  - intros w _. by apply wg_zero_idle.
Qed.

Lemma life_reachable h b addr m r trace ts r' :
  runPipeline h b addr cfg = (Ok (m, r), trace) → in_heap h → all_turns m ts r = Some r' → life_inv r'.
Proof.
  intros Hrun Hh. destruct (started _ _ _ _ _ _ Hrun Hh) as (_ & Hg & _ & Hm). revert ts r'. apply (turns_ind (λ _ r', life_inv r')).
  - constructor; rewrite ?Hg, ?Hm; [by intros i w ?%elem_of_empty|done..].
  - intros. by eapply turn_life.
Qed.

(** C16: when the command has waited for its goroutines, no event is in the hands of
    one: what a channel accepted is done with, once, or still in its queue, where
    it is lost; and with one goroutine on the channel, what is lost is what was
    accepted last. *)
Theorem shutdown_accounts h b addr m r trace ts r' ch c :
  runPipeline h b addr cfg = (Ok (m, r), trace) → in_heap h → all_turns m ts r = Some r' → rn_main r' = Ended true →
  st_chans (sy_state (rn_sys r')) !! ch = Some c →
  ∃ taken, ch_sent c = taken ++ ch_queue c ∧ taken ≡ₚ done_with ch (sy_done (rn_sys r')) ∧
    (lone ch (sy_workers (rn_sys r')) → taken = done_with ch (sy_done (rn_sys r'))).
Proof.
  intros Hrun Hh Hts Hend Hc. pose proof (life_reachable _ _ _ _ _ _ _ _ Hrun Hh Hts) as [_ _ Hidle].
  destruct (started _ _ _ _ _ _ Hrun Hh) as (Hst & _).
  destruct (flow_reachable cfg m _ _ Hst (turns_steps _ _ _ _ Hts)) as [_ Ha].
  destruct (Ha ch c Hc) as (_ & taken & Hsent & Hp & Hl).
  assert (in_flight ch (sy_workers (rn_sys r')) = []) as Hif.
  { specialize (λ w, Hidle w Hend). clear -Hidle. induction (sy_workers (rn_sys r')) as [|w ws IH]; [done|].
    unfold in_flight. cbn. rewrite (Hidle w) by constructor. destruct (decide _); apply IH; intros w' Hw'; apply Hidle; by constructor. }
  rewrite Hif, app_nil_r in Hp, Hl. by exists taken.
Qed.

(** After the signal the command ends ten seconds later at the latest. *)
Theorem shutdown_bounded h b addr m r trace ts r' since :
  runPipeline h b addr cfg = (Ok (m, r), trace) → in_heap h → all_turns m ts r = Some r' → rn_main r' = Stopping since →
  since ≤ rn_now r' ≤ since + shutdown_timeout ∧
  ∃ ts' r'', all_turns m ts' r' = Some r'' ∧ rn_main r'' = Ended false ∧ rn_now r'' = since + shutdown_timeout.
Proof.
  intros Hrun Hh Hts Hs. pose proof (life_reachable _ _ _ _ _ _ _ _ Hrun Hh Hts) as [_ Hc _].
  specialize (Hc since Hs). split; [done|].
  assert (∀ r', rn_main r' = Stopping since → rn_now r' = since + shutdown_timeout →
    one_turn m TimedOut r' = Some (with_main (Ended false) r')) as Hout.
  { intros r1 E1 E2. unfold take_turn. rewrite E1, E2. by rewrite (proj2 (Z.leb_le _ _)) by lia. }
  destruct (decide (rn_now r' = since + shutdown_timeout)) as [E|E].
  - exists [TimedOut], (with_main (Ended false) r'). split; [|by split]. cbn. by apply Hout.
  - exists [Tick (since + shutdown_timeout - rn_now r'); TimedOut],
      (with_main (Ended false) (with_now (since + shutdown_timeout) r')). split; [|by split].
    unfold take_turns. cbn [foldl mbind option_bind].
    assert (one_turn m (Tick (since + shutdown_timeout - rn_now r')) r' = Some (with_now (since + shutdown_timeout) r')) as ->.
    { unfold take_turn. rewrite Hs, (proj2 (Z.ltb_lt _ _)), (proj2 (Z.leb_le _ _)) by lia. cbn [andb].
      do 2 f_equal. lia. }
    cbn [mbind option_bind]. by apply Hout.
Qed.

End Runs.

(** ** A run *)

Definition demo_started : res run_error (Manager * Run) * list act :=
  runPipeline (CN := demo_connectors) (SC := demo_settings) (GF := integral_floats) user_heap true ":9100" demo_config.
Definition demo_turns (ts : list turn) : option Run :=
  match demo_started.1 with
  | Ok (m, r) => take_turns (RE := no_regexp) (PM := star_match) (GR := range_up) (MS := plain_decode)
                   (CN := demo_connectors) demo_config m ts r
  | Err _ => None
  end.

(** A signal while an event waits in the queue of a sink and a client reads the metrics. *)
Definition stop_turns : list turn :=
  [Serve Added; Flow (DoSource "db" first_event); Flow (DoSource "db" second_event); Flow (DoReceive 0); Flow (DoTurn 0);
   Signal; SourceStopped "db"; SinkStopped 0; SinkStopped 1; SinkStopped 2; SinkStopped 3;
   Serve ShutdownCalled; Serve ListenReturned; AllDone].

Definition is_start (o : res run_error (Manager * Run) * list act) : bool := match o.1 with Ok _ => true | Err _ => false end.

(** The second event is lost, and the command ends while the metrics server still
    waits for its client. *)
Lemma shutdown_accounts_witness :
  ∃ r c taken, demo_turns stop_turns = Some r ∧ rn_main r = Ended true ∧ mt_monitor (rn_metrics r) = Draining 0 ∧
    st_chans (sy_state (rn_sys r)) !! 0%nat = Some c ∧ ch_queue c = [second_event] ∧ ch_sent c = taken ++ ch_queue c ∧
    taken ≡ₚ done_with 0 (sy_done (rn_sys r)).
Proof.
  assert (is_start demo_started = true) as Hok by (vm_compute; reflexivity).
  destruct demo_started as [[[m r0]|e] trace] eqn:Hst; [|discriminate Hok]. clear Hok.
  assert (∃ r, demo_turns stop_turns = Some r ∧ rn_main r = Ended true ∧ mt_monitor (rn_metrics r) = Draining 0 ∧
    ch_queue <$> st_chans (sy_state (rn_sys r)) !! 0%nat = Some [second_event]) as (r & Hr & Hm & Hd & Hq).
  { assert ((λ r, (rn_main r, mt_monitor (rn_metrics r), ch_queue <$> st_chans (sy_state (rn_sys r)) !! 0%nat)) <$>
      demo_turns stop_turns = Some (Ended true, Draining 0, Some [second_event])) as E by (vm_compute; reflexivity).
    apply fmap_Some in E as (r & E & Ep). symmetry in Ep. injection Ep as E1 E2 E3.
    exists r. exact (conj E (conj E1 (conj E2 E3))). }
  apply fmap_Some in Hq as (c & Hc & Hq).
  unfold demo_turns in Hr. rewrite Hst in Hr. cbn [fst] in Hr.
  destruct (shutdown_accounts (RE := no_regexp) (PM := star_match) (GR := range_up) (MS := plain_decode)
    (CN := demo_connectors) (SC := demo_settings) (GF := integral_floats) demo_config user_heap true ":9100" m r0 trace
    stop_turns r 0 c Hst user_in_heap Hr Hm Hc) as (taken & Hs & Hp & _).
  exists r, c, taken. unfold demo_turns. rewrite Hst.
  exact (conj Hr (conj Hm (conj Hd (conj Hc (conj (eq_sym Hq) (conj Hs Hp)))))).
Defined.
