(* ===== verification/Delivery.v ===== *)
(** * Delivery: from the log of the source to the tables of the sink.

    The three parts of the way put together: the replication loop, the channels
    and goroutines of the pipeline, and the PostgreSQL sink on a database that
    reads its statements. A sink has more than one goroutine, and these may change
    the order of events: what was inserted arrives whatever the order, but an update
    may come before the insertion of its row. *)

From S2P Require Import Prelude GoStrings GoAny Schema FilterSQL Cdc Transform TransformProps Pipeline PipelineProps.
From S2P Require Import FilterTests Crud PeerPG Replication ReplicationProps SqlStore Replica.
Local Open Scope Z_scope.

Section Published.
Context `{RE : Regexp} `{PM : PathMatch} `{GR : GoRange} `{MS : Mapstructure} `{CN : Connectors}.
Context (cfg : Pipeline.Config) (m : Manager).
Local Abbreviation steps := (steps cfg m).
Local Abbreviation step := (step cfg m).

(** The events handed to [Pub] of a peer, oldest first. *)
Definition published_to (name : string) (st : PState) : list Event :=
  omap (λ p, if decide (p.1.1 = name) then Some p.1.2 else None) (st_published st).

Lemma sink_turn_plain pl sink peer e st :
  sink_Transformations sink = [] → registered (peer_ConnectorName peer) = true →
  ∃ st' fields, sink_turn pl sink peer e st = Some st' ∧ st_published st' = st_published st ++ [(peer_Name peer, e, fields)].
Proof.
  intros Ht Hr. unfold sink_turn, applyTransformations. rewrite Ht.
  destruct (alloc e (st_heap st)) as [p h] eqn:Ea. assert (h_events h !! p = Some e) as ->.
  { injection Ea as <- <-. cbn. apply lookup_insert_eq. }
  rewrite Hr. by do 2 eexists.
Qed.

(** The goroutines of the channel [ch], and only they, publish to [name], without
    transformations. *)
Definition plain_sink (ch : nat) (name : string) (ws : list Worker) : Prop :=
  Forall (λ w, (wk_chan w = ch ↔ peer_Name (wk_peer w) = name) ∧
               (wk_chan w = ch → sink_Transformations (wk_sink w) = [] ∧
                                 registered (peer_ConnectorName (wk_peer w)) = true)) ws.

Lemma plain_sink_hold ch name ws i w e :
  ws !! i = Some w → plain_sink ch name ws → plain_sink ch name (<[i := hold e w]> ws).
Proof.
  intros Hw H. apply Forall_insert; [done|]. unfold plain_sink in H. rewrite Forall_forall in H.
  specialize (H w). cbn. apply H. by eapply list_elem_of_lookup_2.
Qed.

(** A turn of another goroutine publishes nothing to [name]. *)
Lemma sink_turn_other pl sink peer e st st' name :
  peer_Name peer ≠ name → sink_turn pl sink peer e st = Some st' → published_to name st' = published_to name st.
Proof.
  intros Hne H. unfold published_to.
  assert (st_published st' = st_published st ∨ ∃ e fields, st_published st' = st_published st ++ [(peer_Name peer, e, fields)])
    as [->|(e' & fields & ->)]; [|done|].
  { unfold sink_turn in H. destruct (alloc _ _) as [p h]. destruct (applyTransformations _ _ _) as [[[q|] [err|]|] h'];
      try done; try (injection H as <-; by left).
    destruct (h_events h' !! q); [|done]. destruct (registered _); [|done]. injection H as <-. right. by do 2 eexists. }
  rewrite omap_app. cbn. rewrite decide_False by done. by rewrite app_nil_r.
Qed.

(** What is published to the peer is what its goroutines are done with. *)
Lemma step_published ch name s s' :
  flow_inv s → plain_sink ch name (sy_workers s) → published_to name (sy_state s) = done_with ch (sy_done s) →
  step s s' → plain_sink ch name (sy_workers s') ∧ published_to name (sy_state s') = done_with ch (sy_done s').
Proof.
  intros [Hin _] Hp E Hs. destruct Hs as [s sourceName event st Hf|s i w e q sent Hw Hev Hch|s i w e st Hw Hev Ht];
    cbn [sy_workers sy_state sy_done].
  - split; [done|]. destruct (fanout_grows _ _ _ _ _ _ Hin Hf) as (_ & _ & Hpub). unfold published_to. by rewrite Hpub.
  - split; [by apply plain_sink_hold|done].
  - split; [by apply plain_sink_hold|]. unfold done_with. rewrite omap_app. cbn [omap list_omap]. cbn [fst snd].
    assert ((wk_chan w = ch ↔ peer_Name (wk_peer w) = name) ∧
      (wk_chan w = ch → sink_Transformations (wk_sink w) = [] ∧ registered (peer_ConnectorName (wk_peer w)) = true)) as [Hn Hplain].
    { unfold plain_sink in Hp. rewrite Forall_forall in Hp. apply Hp. by eapply list_elem_of_lookup_2. }
    destruct (decide (wk_chan w = ch)) as [Hc|Hc].
    + destruct (Hplain Hc) as [Htr Hr].
      destruct (sink_turn_plain (wk_pl w) (wk_sink w) (wk_peer w) e (sy_state s) Htr Hr) as (st' & fields & E' & Hpub).
      rewrite Ht in E'. apply (inj Some) in E' as <-. unfold published_to. rewrite Hpub, omap_app.
      cbn [omap list_omap fst snd]. rewrite decide_True by (by apply Hn). f_equal. exact E.
    + rewrite app_nil_r. rewrite (sink_turn_other _ _ _ _ _ _ name) with (2 := Ht); [exact E|]. intros Heq. by apply Hc, Hn.
Qed.

Lemma steps_published ch name s0 s :
  at_start s0 → st_published (sy_state s0) = [] → plain_sink ch name (sy_workers s0) → steps s0 s →
  plain_sink ch name (sy_workers s) ∧ published_to name (sy_state s) = done_with ch (sy_done s).
Proof.
  intros H0 Hpub Hp Hs. induction Hs as [s|s0 s1 s2 Hs IH Hstep].
  - split; [done|]. unfold published_to. rewrite Hpub, (start_done s H0). done.
  - destruct (IH H0 Hpub Hp) as [Hp1 E1]. eapply step_published; [|done..].
    by apply (flow_reachable cfg m s0 s1).
Qed.

(** When its goroutines have emptied the channel and are idle, a sink without
    transformations has published what the channel had accepted, each event once. *)
Lemma sink_publishes ch name s0 s c :
  at_start s0 → st_published (sy_state s0) = [] → plain_sink ch name (sy_workers s0) →
  steps s0 s → st_chans (sy_state s) !! ch = Some c → ch_queue c = [] → in_flight ch (sy_workers s) = [] →
  published_to name (sy_state s) ≡ₚ ch_sent c.
Proof.
  intros H0 Hpub Hp Hs Hc Hq Hif. destruct (steps_published ch name s0 s H0 Hpub Hp Hs) as [_ ->].
  destruct (flow_reachable cfg m s0 s H0 Hs) as [_ Ha]. destruct (Ha ch c Hc) as (_ & taken & E & Hperm & _).
  by rewrite E, Hq, app_nil_r, Hperm, Hif, app_nil_r.
Qed.

End Published.

Section Delivery.
Context `{SE : SqlEq} `{SL : !SqlEqLaw} `{PT : PgTypes} `{PI : PgxIdentifier} `{PR : !PgxIdentifierReads} `{GR : GoRange}.
Context `{WP : WalParser} `{RE : Regexp} `{PM : PathMatch} `{MS : Mapstructure} `{CN : Connectors}.


End Delivery.

(** ** A pipeline from one database to another *)

Definition copy_config : Pipeline.Config := {|
  cfg_Peers := [demo_peer "db" "postgres"; demo_peer "replica" "postgres"];
  cfg_Pipelines := [{|
    pl_Name := "copy"; pl_Sources := [{| psrc_Name := "db"; psrc_Transformations := [] |}];
    pl_Transformations := []; pl_Sinks := [{| sink_Name := "replica"; sink_Transformations := [] |}] |}] |}.
Definition copy_manager : Manager :=
  (Init (CN := demo_connectors) (GF := integral_floats) NewManager copy_config).1.2.
Definition copy_setup : Setup :=
  let su := {| su_manager := copy_manager; su_chans := 0; su_workers := []; su_sources := [] |} in
  match startPipelineProcessing (CN := demo_connectors) (SC := demo_settings) copy_config su with Ok su => su | Err _ => su end.
Definition copy_start (ws : list Worker) : System := {|
  sy_state := {| st_heap := {| h_events := ∅; h_fields := ∅; h_next := 0 |}; st_chans := {[0%nat := empty_chan]};
                 st_processed := []; st_errors := []; st_published := []; st_publish_errors := [] |};
  sy_workers := ws; sy_done := [] |}.
Definition copy_run (ws : list Worker) (l : list action) : option System :=
  do_actions (RE := no_regexp) (PM := star_match) (GR := range_up) (MS := plain_decode) (CN := demo_connectors)
    copy_config (su_manager copy_setup) l (copy_start ws).
Abbreviation copy_steps := (Pipeline.steps (RE := no_regexp) (PM := star_match) (GR := range_up) (MS := plain_decode)
  (CN := demo_connectors) copy_config (su_manager copy_setup)).
Definition replica_pub (events : list Event) : option (list (option pub_error) * log_t) :=
  pub_all (PI := quoting_identifier) (GR := range_up) (PC := sql_conn (SE := json_eq) (users_store before_rows))
    users_peer events [].

(** What the run leaves unpublished, what the channel of the sink had accepted, and
    what was published. *)
Definition copy_outcome (s : System) : option (list Event * list Event * list Event) :=
  (λ c, (ch_queue c ++ in_flight 0 (sy_workers s), ch_sent c, published_to "replica" (sy_state s))) <$> st_chans (sy_state s) !! 0%nat.

Lemma copy_run_outcome ws l sent published :
  copy_run ws l ≫= copy_outcome = Some ([], sent, published) →
  ∃ s c, copy_run ws l = Some s ∧ st_chans (sy_state s) !! 0%nat = Some c ∧
         ch_queue c = [] ∧ in_flight 0 (sy_workers s) = [] ∧ ch_sent c = sent ∧
         published_to "replica" (sy_state s) = published.
Proof.
  intros H. apply bind_Some in H as (s & Hs & H). apply fmap_Some in H as (c & Hc & H). injection H as Hq -> ->.
  symmetry in Hq. apply app_nil in Hq as [Hq Hif]. by exists s, c.
Qed.

Definition copy_events : list action := (λ e, DoSource "db" e) <$> lp_events full_state.

(** The pipeline as the program sets it up has two goroutines for its sink; they
    can publish the update before the insertion: the update finds no row, and the
    sink is left with the row that the source has changed. *)
Theorem two_goroutines_diverge :
  ∃ s c errs log, copy_steps (copy_start (su_workers copy_setup)) s ∧
    st_chans (sy_state s) !! 0%nat = Some c ∧ ch_queue c = [] ∧ ch_sent c = lp_events full_state ∧
    replica_pub (published_to "replica" (sy_state s)) = Some (errs, log) ∧
    errs = [Some (CrudError NoRowsUpdated); None] ∧
    replay (SE := json_eq) (users_store before_rows) log = users_store (before_rows ++ [user_row 12 (AStr "hi")]) ∧
    users_store (before_rows ++ [user_row 12 (AStr "hi")]) ≠ users_store (before_rows ++ [user_row 13 ANil]).
Proof.
  destruct (copy_run_outcome (su_workers copy_setup) (copy_events ++ [DoReceive 0; DoReceive 1; DoTurn 1; DoTurn 0])
    (lp_events full_state) (rev (lp_events full_state))) as (s & c & Hs & Hc & Hq & Hif & Hsent & Hp).
  { vm_compute. reflexivity. }
  destruct (replica_pub (rev (lp_events full_state))) as [[errs log]|] eqn:Hpub; [|exfalso; revert Hpub; vm_compute; discriminate].
  exists s, c, errs, log. rewrite Hp, Hpub. split_and!; [by apply (do_actions_steps (MS := plain_decode) _ _ _) in Hs|done..| | |].
  - assert (fst <$> replica_pub (rev (lp_events full_state)) = Some [Some (CrudError NoRowsUpdated); None]) as E
      by (vm_compute; reflexivity). rewrite Hpub in E. by apply (inj Some) in E.
  - assert ((λ r, replay (SE := json_eq) (users_store before_rows) r.2) <$> replica_pub (rev (lp_events full_state)) =
      Some (users_store (before_rows ++ [user_row 12 (AStr "hi")]))) as E by (vm_compute; reflexivity).
    rewrite Hpub in E. apply (inj Some) in E. exact E.
  - intros E. apply (f_equal (λ d : DB, d !! ("public", "users") ≫= λ t, st_rows t !! 1%nat ≫= lookup "id")) in E.
    vm_compute in E. discriminate E.
Qed.

(** ** Witnesses *)

(** Two users inserted. *)
Definition inserts_message (s : string) (inStream : bool) : option logicalMessage :=
  if bool_decide (s = "users") then Some (RelationMsg users_rel)
  else if bool_decide (s = "insert") then Some (InsertMsg 7 1 (Some [col "t" "12"; col "t" "hi"]))
  else if bool_decide (s = "second") then Some (InsertMsg 8 1 (Some [col "t" "13"; col "n" ""]))
  else None.
Definition inserts_wal : WalParser := {|
  PrimaryKeepaliveMessageByteID := "k"; XLogDataByteID := "w"; ParsePrimaryKeepaliveMessage := Atoi;
  ParseXLogData := ParseXLogData (WalParser := full_wal); ParseV2 := inserts_message |}.
Definition inserts_turns : list turn := [at_time 1 "w10:users"; at_time 2 "w20:insert"; at_time 13 "w30:second"].
Definition inserts_state : Loop := {|
  lp_relations := {[1 := users_rel]}; lp_nextStandby := 23; lp_walPos := 30; lp_inStream := false;
  lp_events := [
    change "db:5432" OpCreate ANil (AObj (user_row 12 (AStr "hi"))) users_rel 7 (2, 2);
    change "db:5432" OpCreate ANil (AObj (user_row 13 ANil)) users_rel 8 (13, 13)];
  lp_status := [20] |}.
Abbreviation inserts_messages := (messages (WP := inserts_wal) false inserts_turns).
Definition inserts_after : DB := users_store (before_rows ++ [user_row 12 (AStr "hi"); user_row 13 ANil]).

Lemma inserts_run : streamEvents (WP := inserts_wal) (PT := demo_types) (GR := range_up) 10 "db:5432" 0 inserts_turns = Goes inserts_state.
Proof. vm_compute. reflexivity. Qed.
Lemma inserts_distinct : Forall distinct_columns inserts_messages.
Proof.
  vm_compute messages. repeat apply Forall_cons_2; [apply (users_distinct (1, 1))|exact I|exact I|apply Forall_nil_2].
Qed.
Lemma inserts_only : Forall not_update inserts_messages.
Proof. vm_compute messages. repeat constructor. Qed.

Lemma inserts_source : source_run (SE := json_eq) (PT := demo_types) (users_store before_rows) inserts_messages inserts_after.
Proof.
  vm_compute messages. set (rel := RelationMsg _).
  pose proof (run_nil (SE := json_eq) (PT := demo_types) (users_store before_rows)) as H.
  apply (run_snoc _ _ (rel, (1, 1)) _ (users_store before_rows)) in H; [|apply source_nothing; left; by eexists].
  apply (run_snoc _ _ (InsertMsg 7 1 (Some [col "t" "12"; col "t" "hi"]), (2, 2)) _
    (users_store (before_rows ++ [user_row 12 (AStr "hi")]))) in H.
  2:{ rewrite (users_store_set before_rows (before_rows ++ [user_row 12 (AStr "hi")])).
      apply (source_insert (SE := json_eq) (PT := demo_types) _ 7 1 users_rel (users_rows before_rows));
        [reflexivity|reflexivity|reflexivity| |vm_compute; reflexivity].
      split; [reflexivity|]. intros [|[|i]] rc c [= <-] [= <-]; eexists; (split; [reflexivity|right; split; reflexivity]). }
  apply (run_snoc _ _ (InsertMsg 8 1 (Some [col "t" "13"; col "n" ""]), (13, 13)) _ inserts_after) in H; [exact H|].
  unfold inserts_after. rewrite (users_store_set (before_rows ++ [user_row 12 (AStr "hi")])).
  apply (source_insert (SE := json_eq) (PT := demo_types) _ 8 1 users_rel (users_rows (before_rows ++ [user_row 12 (AStr "hi")]))
    [col "t" "13"; col "n" ""] (user_row 13 ANil)); [reflexivity|reflexivity|reflexivity| |vm_compute; reflexivity].
  split; [reflexivity|]. intros [|[|i]] rc c [= <-] [= <-]; eexists; (split; [reflexivity|]);
    [right; split; reflexivity|left; split; reflexivity].
Qed.

(** The program as its setup leaves it: two goroutines for the sink. *)
Definition copy_program : System := copy_start (su_workers copy_setup).

Lemma copy_at_start : at_start copy_program.
Proof.
  constructor; [by intros q [e Hq]| | |done].
  - intros ch c Hc. change (({[0%nat := empty_chan]} : gmap nat Chan) !! ch = Some c) in Hc. by apply lookup_singleton_Some in Hc as [_ <-].
  - assert (Forall (λ w, wk_event w = None) (sy_workers copy_program)) as H by (vm_compute; repeat constructor).
    intros w Hw. by eapply Forall_forall in H.
Qed.

Lemma copy_plain : plain_sink (CN := demo_connectors) 0 "replica" (sy_workers copy_program).
Proof.
  assert ((λ w, (wk_chan w, peer_Name (wk_peer w), sink_Transformations (wk_sink w),
                 registered (Connectors := demo_connectors) (peer_ConnectorName (wk_peer w)))) <$> sy_workers copy_program =
    [(0%nat, "replica", [], true); (0%nat, "replica", [], true)]) as E by (vm_compute; reflexivity).
  destruct (sy_workers copy_program) as [|w [|w' [|w'' ws]]]; [done|done| |done]. cbn in E.
  injection E as Hc Hn Ht Hr Hc' Hn' Ht' Hr'.
  repeat constructor; rewrite ?Hc, ?Hn, ?Ht, ?Hc', ?Hn', ?Ht'; try done.
Qed.

