(* ===== verification/Otel.v ===== *)
(** * Otel: [pkg/otelx], traces and metrics.

    Making, flushing and shutting down the provider, with the process-wide
    providers it registers, and the tracer of database queries. What the SDK makes
    and answers is a class; a provider of the SDK is known by its number. *)

From S2P Require Import Prelude GoStrings GoStringFacts Support.
Local Open Scope Z_scope.

(** ** provider.go *)

(** A trace or meter provider: the process-wide default, one the caller gave, or
    one of the SDK. *)
Inductive provider := DefaultProvider | Injected (name : string) | SDK (id : nat).

(** Whether an exporter can be made, and what a provider answers when it is
    flushed or stopped; the arguments name what kind it is. *)
Inductive signal := TraceSignal | MetricSignal.
Class OtelSDK := {
  new_exporter : signal → list string → option string;    (* an error *)
  sdk_ForceFlush : signal → nat → option string;
  sdk_Shutdown : signal → nat → option string;
  resource_New : string → string → option string;         (* the resource, unless detection fails *)
  resource_Default : string
}.

Record OtelOptions := {
  oo_ServiceName : string; oo_ServiceVersion : string; oo_Traces : bool; oo_Metrics : bool;
  oo_Insecure : bool; oo_OTLPEndpoint : string;
  oo_TracerProvider : option string; oo_MeterProvider : option string }.

Record Provider := {
  p_tracer : provider; p_meter : provider;
  p_sdkTP : option nat; p_sdkMP : option nat; p_resource : option string }.

(** What belongs to the process: the registered providers, whether a propagator is
    set, the providers of the SDK made so far, and those stopped. *)
Record OtelState := {
  g_tracer : provider; g_meter : provider; g_propagator : bool;
  g_made : nat; g_stopped : list (signal * nat) }.

Definition set_tracer (p : provider) (s : OtelState) : OtelState :=
  {| g_tracer := p; g_meter := g_meter s; g_propagator := true; g_made := g_made s; g_stopped := g_stopped s |}.
Definition set_meter (p : provider) (s : OtelState) : OtelState :=
  {| g_tracer := g_tracer s; g_meter := p; g_propagator := g_propagator s; g_made := g_made s; g_stopped := g_stopped s |}.
Definition made_one (s : OtelState) : OtelState :=
  {| g_tracer := g_tracer s; g_meter := g_meter s; g_propagator := g_propagator s; g_made := S (g_made s); g_stopped := g_stopped s |}.
Definition stop (x : signal * nat) (s : OtelState) : OtelState :=
  {| g_tracer := g_tracer s; g_meter := g_meter s; g_propagator := g_propagator s; g_made := g_made s;
     g_stopped := g_stopped s ++ [x] |}.

Inductive otel_error := TraceProvider (e : string) | MeterProvider (e : string).

Section Provider.
Context `{SK : OtelSDK}.

Definition exporter_options (opts : OtelOptions) : list string :=
  (if oo_Insecure opts then ["insecure"] else []) ++
  (if bool_decide (oo_OTLPEndpoint opts = "") then [] else [oo_OTLPEndpoint opts]).

(** [newTracerProvider] and [newMeterProvider]. *)
Definition new_provider (k : signal) (opts : OtelOptions) (s : OtelState) : res string nat * OtelState :=
  match new_exporter k (exporter_options opts) with
  | Some e => (Err e, s)
  | None => (Ok (g_made s), made_one s)
  end.

(** [Shutdown]: both are stopped, whatever the first answers. *)
Definition Shutdown (p : Provider) (s : OtelState) : list string * OtelState :=
  let '(e1, s) := match p_sdkTP p with
                  | Some tp => (option_list (sdk_Shutdown TraceSignal tp), stop (TraceSignal, tp) s)
                  | None => ([], s)
                  end in
  let '(e2, s) := match p_sdkMP p with
                  | Some mp => (option_list (sdk_Shutdown MetricSignal mp), stop (MetricSignal, mp) s)
                  | None => ([], s)
                  end in
  (e1 ++ e2, s).

Definition ForceFlush (p : Provider) : list string :=
  match p_sdkTP p with Some tp => option_list (sdk_ForceFlush TraceSignal tp) | None => [] end ++
  match p_sdkMP p with Some mp => option_list (sdk_ForceFlush MetricSignal mp) | None => [] end.

Definition Resource (p : Provider) : string := default resource_Default (p_resource p).

(** [New], after the check for providers of the caller. *)
Definition new_sdk (opts : OtelOptions) (s : OtelState) : res otel_error Provider * OtelState :=
  let name := if bool_decide (oo_ServiceName opts = "") then "unknown_service" else oo_ServiceName opts in
  let resource := default resource_Default (resource_New name (oo_ServiceVersion opts)) in
  let '(tp, s) := if oo_Traces opts then
                    match new_provider TraceSignal opts s with
                    | (Ok tp, s) => (Ok (SDK tp, Some tp), set_tracer (SDK tp) s)
                    | (Err e, s) => (Err (TraceProvider e), s)
                    end
                  else (Ok (g_tracer s, None), s) in
  match tp with
  | Err e => (Err e, s)
  | Ok (tracer, sdkTP) =>
      if oo_Metrics opts then
        match new_provider MetricSignal opts s with
        | (Ok mp, s) =>
            (Ok {| p_tracer := tracer; p_meter := SDK mp; p_sdkTP := sdkTP; p_sdkMP := Some mp;
                   p_resource := Some resource |}, set_meter (SDK mp) s)
        | (Err e, s) =>
            let p := {| p_tracer := tracer; p_meter := DefaultProvider; p_sdkTP := sdkTP; p_sdkMP := None;
                        p_resource := Some resource |} in
            (Err (MeterProvider e), (Shutdown p s).2)
        end
      else
        (Ok {| p_tracer := tracer; p_meter := g_meter s; p_sdkTP := sdkTP; p_sdkMP := None;
               p_resource := Some resource |}, s)
  end.

Definition New (opts : OtelOptions) (s : OtelState) : res otel_error Provider * OtelState :=
  match oo_TracerProvider opts, oo_MeterProvider opts with
  | None, None => new_sdk opts s
  | tp, mp =>
      (Ok {| p_tracer := match tp with Some n => Injected n | None => g_tracer s end;
             p_meter := match mp with Some n => Injected n | None => g_meter s end;
             p_sdkTP := None; p_sdkMP := None; p_resource := None |}, s)
  end.

(** The providers of the SDK a provider holds. *)
Definition held (p : Provider) : list (signal * nat) :=
  option_list ((λ tp, (TraceSignal, tp)) <$> p_sdkTP p) ++ option_list ((λ mp, (MetricSignal, mp)) <$> p_sdkMP p).

Lemma Shutdown_stops p s : g_stopped (Shutdown p s).2 = g_stopped s ++ held p ∧ g_made (Shutdown p s).2 = g_made s.
Proof.
  unfold Shutdown, held. destruct (p_sdkTP p), (p_sdkMP p); cbn; rewrite ?app_nil_r, <-?app_assoc; done.
Qed.

(** Every provider of the SDK that [New] makes is held by the result, to be stopped
    by [Shutdown], or has been stopped when [New] fails. *)
Theorem New_accounts opts s :
  let '(r, s') := New opts s in
  match r with
  | Ok p => g_stopped s' = g_stopped s ∧ (held p).*2 = seq (g_made s) (g_made s' - g_made s) ∧
            (∀ i, p_sdkTP p = Some i → p_tracer p = SDK i) ∧ (∀ i, p_sdkMP p = Some i → p_meter p = SDK i)
  | Err _ => ∃ l, g_stopped s' = g_stopped s ++ l ∧ l.*2 = seq (g_made s) (g_made s' - g_made s)
  end.
Proof.
  assert (∀ m, (m - m = 0 ∧ S m - m = 1 ∧ S (S m) - m = 2)%nat) as Hm by lia.
  destruct (Hm (g_made s)) as (M0 & M1 & M2).
  assert (∀ m, [m; S m] = seq m 2) as Hs by done.
  unfold New. destruct (oo_TracerProvider opts), (oo_MeterProvider opts).
  4: unfold new_sdk, new_provider; destruct (oo_Traces opts), (oo_Metrics opts).
  all: repeat match goal with |- context [new_exporter ?k ?o] => destruct (new_exporter k o) end.
  all: cbn; rewrite ?M0, ?M1, ?M2; try (by split_and!; [done|done|naive_solver..]).
  all: try (by exists []; rewrite app_nil_r).
  all: by exists [(TraceSignal, g_made s)].
Qed.

(** When the exporter of metrics fails, the trace provider is stopped, but stays
    registered for the process: spans go to a provider that has been stopped. *)
Theorem stopped_provider_registered opts s e :
  oo_TracerProvider opts = None → oo_MeterProvider opts = None →
  oo_Traces opts = true → oo_Metrics opts = true →
  new_exporter TraceSignal (exporter_options opts) = None →
  new_exporter MetricSignal (exporter_options opts) = Some e →
  ∃ s', New opts s = (Err (MeterProvider e), s') ∧
    g_tracer s' = SDK (g_made s) ∧ (TraceSignal, g_made s) ∈ g_stopped s'.
Proof.
  intros H1 H2 H3 H4 H5 H6. unfold New. rewrite H1, H2. unfold new_sdk, new_provider. rewrite H3, H4, H5. cbn zeta beta iota.
  rewrite H6. eexists. split; [done|]. split; [done|]. cbn. apply elem_of_app. right. by left.
Qed.

End Provider.

(** ** pgx.go *)

(** [strings.ToUpper] of an ASCII name. *)
Definition sqlOperation (sql : string) : string :=
  let sql := TrimSpace sql in
  match IndexByte sql " " with
  | Some (S i) => ToUpperASCII (take (S i) sql)
  | _ => if (16 <? Z.of_nat (len sql)) then ToUpperASCII (take 16 sql) else ToUpperASCII sql
  end.

Record span := { sp_Name : string; sp_Attrs : list (string * string); sp_Error : option string;
                 sp_Rows : option Z; sp_Ended : bool }.
Definition TraceQueryStart (sql : string) : span :=
  let op := sqlOperation sql in
  {| sp_Name := "pg." +:+ map_string (λ c, if in_range 65 90 (byte_val c) then byte_of (byte_val c + 32) else c) op;
     sp_Attrs := [("db.system.name", "postgresql"); ("db.query.text", sql); ("db.operation.name", op)];
     sp_Error := None; sp_Rows := None; sp_Ended := false |}.
(** [TraceQueryEnd]: the span of the context, ended, and a value for the histogram. *)
Definition TraceQueryEnd (ctx : option span) (commandTag : string) (rowsAffected : Z) (err : option string)
    : option (span * list (string * string)) :=
  (λ v, ({| sp_Name := sp_Name v; sp_Attrs := sp_Attrs v; sp_Error := err;
            sp_Rows := match err with Some _ => None | None => Some rowsAffected end; sp_Ended := true |},
         [("db.system.name", "postgresql"); ("db.operation.name", commandTag);
          ("error", match err with Some _ => "true" | None => "false" end)])) <$> ctx.

Example operation_1 : sqlOperation "  select 1" = "SELECT". Proof. reflexivity. Qed.
Example operation_2 : sqlOperation "commit" = "COMMIT". Proof. reflexivity. Qed.
(** Only a blank ends the verb: a statement written over lines has more than its
    verb in the name of its span. *)
Example operation_over_lines :
  sqlOperation ("SELECT" +:+ String "010" "name" +:+ String "010" "FROM users WHERE id = 1") =
  "SELECT" +:+ String "010" "NAME" +:+ String "010" "FROM".
Proof. reflexivity. Qed.

Lemma map_string_len f s : len (map_string f s) = len s.
Proof. induction s as [|c s IH]; [done|]. cbn. by rewrite IH. Qed.

(** A verb without a blank is cut at sixteen bytes. *)
Theorem sqlOperation_short sql :
  IndexByte (TrimSpace sql) " " = None → (len (sqlOperation sql) ≤ 16)%nat.
Proof.
  intros H. unfold sqlOperation. rewrite H. destruct (Z.ltb_spec 16 (Z.of_nat (len (TrimSpace sql)))) as [Hl|Hl];
    unfold ToUpperASCII; rewrite map_string_len, ?len_take; lia.
Qed.

(** ** The tracer and the gauge of a pool *)

(** The instruments of the meter: the error of making one. *)
Class PgxMeter := { mt_Float64Histogram : string → option string; mt_Int64ObservableGauge : string → option string }.

(** [initOnce] is done; the pool that the callback of the gauge reads. *)
Record PgxTracer := { pt_once : bool; pt_pool : option nat }.

Section PoolStats.
Context `{ME : PgxMeter}.

Definition NewPgxTracer : res string PgxTracer :=
  match mt_Float64Histogram "db.client.operation.duration" with
  | Some e => Err e
  | None => Ok {| pt_once := false; pt_pool := None |}
  end.

Definition RegisterPoolStats (pool : nat) (t : PgxTracer) : option string * PgxTracer :=
  if pt_once t then (None, t) else
  match mt_Int64ObservableGauge "db.client.connection.count" with
  | Some e => (Some e, {| pt_once := true; pt_pool := pt_pool t |})
  | None => (None, {| pt_once := true; pt_pool := Some pool |})
  end.

(** What the callback observes of the statistics (idle, acquired, total). *)
Definition pool_observations (stat : nat → Z * Z * Z) (t : PgxTracer) : list (Z * string) :=
  match pt_pool t with
  | None => []
  | Some pool => let '(idle, acquired, total) := stat pool in [(idle, "idle"); (acquired, "used"); (total, "total")]
  end.

(** Only the first call counts: every later one succeeds and observes nothing new,
    be it for another pool or after a first that failed. *)
Theorem first_pool_only pool pool' t err t1 :
  RegisterPoolStats pool t = (err, t1) → RegisterPoolStats pool' t1 = (None, t1).
Proof.
  unfold RegisterPoolStats. destruct (pt_once t) eqn:E; [intros [= <- <-]; by rewrite E|].
  by destruct (mt_Int64ObservableGauge _); intros [= <- <-].
Qed.
End PoolStats.
