(* ===== verification/PgProxy.v ===== *)
(** * PgProxy: the servers of [pkg/x/pgproxy] and [pkg/x/pgcache] that speak the
    PostgreSQL protocol.

    Messages are values: their encoding is the library's. A connection answers each
    write with success or an error, by the number of the write. *)

From S2P Require Import Prelude GoStrings GoStringFacts GoAny.
Local Open Scope Z_scope.

(** ** pgproxy/server.go *)

Inductive startup_msg := StartupMessage | SSLRequest | OtherStartup (text : string).
Inductive frontend_msg := Query (sql : string) | Terminate | OtherMessage (text : string).
Inductive backend_msg :=
| AuthenticationOk | ReadyForQuery (txStatus : ascii) | DenySSL
| RowDescription (fields : list string) | DataRow (values : list string) | CommandComplete (tag : string).

Inductive run_error :=
| ReceiveStartup (e : string) | SendReady (e : string) | SendDeny (e : string) | UnknownStartup (text : string)
| ReceiveMessage (e : string) | Respond (e : string) | WriteResponse (e : string) | NotAQuery (text : string).

(** What a client sends, message by message, until the connection is lost. *)
Record client := { cl_startup : list startup_msg; cl_messages : list frontend_msg; cl_lost : string }.

(** Writes so far, and whether the connection has been closed. *)
Record backend := { be_out : list (list backend_msg); be_closed : bool }.
Class ProxyConn := {
  conn_Write : nat → option string;
  responder : nat → res string string     (* the answer to the n-th query *)
}.

Section Proxy.
Context `{PC : ProxyConn}.

Definition write (ms : list backend_msg) (b : backend) : option string * backend :=
  (conn_Write (length (be_out b)), {| be_out := be_out b ++ [ms]; be_closed := be_closed b |}).

Fixpoint handleStartup (msgs : list startup_msg) (lost : string) (b : backend) : option run_error * backend :=
  match msgs with
  | [] => (Some (ReceiveStartup lost), b)
  | StartupMessage :: _ =>
      let '(err, b) := write [AuthenticationOk; ReadyForQuery "I"%char] b in (SendReady <$> err, b)
  | SSLRequest :: msgs =>
      let '(err, b) := write [DenySSL] b in
      match err with Some e => (Some (SendDeny e), b) | None => handleStartup msgs lost b end
  | OtherStartup text :: _ => (Some (UnknownStartup text), b)
  end.

Definition response_messages (response : string) : list backend_msg :=
  [RowDescription ["fortune"]; DataRow [response]; CommandComplete "SELECT 1"; ReadyForQuery "I"%char].

(** The loop; [n] queries have been answered. *)
Fixpoint serve (n : nat) (msgs : list frontend_msg) (lost : string) (b : backend) : option run_error * backend :=
  match msgs with
  | [] => (Some (ReceiveMessage lost), b)
  | Query _ :: msgs =>
      match responder n with
      | Err e => (Some (Respond e), b)
      | Ok response =>
          let '(err, b) := write (response_messages response) b in
          match err with Some e => (Some (WriteResponse e), b) | None => serve (S n) msgs lost b end
      end
  | Terminate :: _ => (None, b)
  | OtherMessage text :: _ => (Some (NotAQuery text), b)
  end.

Definition Close (b : backend) : backend := {| be_out := be_out b; be_closed := true |}.

Definition Run (c : client) (b : backend) : option run_error * backend :=
  let '(err, b) := match handleStartup (cl_startup c) (cl_lost c) b with
                   | (Some e, b) => (Some e, b)
                   | (None, b) => serve 0 (cl_messages c) (cl_lost c) b
                   end in
  (err, Close b).

Lemma startup_ok k rest lost b :
  (∀ n, conn_Write n = None) →
  handleStartup (replicate k SSLRequest ++ StartupMessage :: rest) lost b =
    (None, {| be_out := be_out b ++ replicate k [DenySSL] ++ [[AuthenticationOk; ReadyForQuery "I"%char]];
              be_closed := be_closed b |}).
Proof.
  intros Hw. revert b. induction k as [|k IH]; intros b; cbn [replicate app handleStartup write]; rewrite Hw; [done|].
  rewrite IH. cbn [be_out be_closed]. by rewrite <-app_assoc.
Qed.

Lemma serve_queries n qs answers lost b :
  (∀ n, conn_Write n = None) → Forall2 (λ i r, responder i = Ok r) (seq n (length qs)) answers →
  serve n ((Query <$> qs) ++ [Terminate]) lost b =
    (None, {| be_out := be_out b ++ (response_messages <$> answers); be_closed := be_closed b |}).
Proof.
  intros Hw. revert n answers b. induction qs as [|q qs IH]; intros n answers b Ha; cbn [length seq] in Ha.
  - inversion Ha; subst. cbn. rewrite app_nil_r. by destruct b.
  - inversion Ha as [|? r ? rs Hr Hrs]; subst. cbn [fmap list_fmap app serve]. rewrite Hr. unfold write. rewrite Hw.
    rewrite (IH (S n) rs) by done. cbn [be_out be_closed fmap list_fmap]. by rewrite <-app_assoc.
Qed.

(** A client that negotiates, asks and leaves gets the answer of the responder to
    every query, in order, each followed by the server being ready again; then the
    connection is closed without an error. *)
Theorem run_answers k qs answers rest lost b :
  (∀ n, conn_Write n = None) → Forall2 (λ i r, responder i = Ok r) (seq 0 (length qs)) answers →
  Run {| cl_startup := replicate k SSLRequest ++ StartupMessage :: rest;
         cl_messages := (Query <$> qs) ++ [Terminate]; cl_lost := lost |} b =
    (None, {| be_out := be_out b ++ replicate k [DenySSL] ++
                          [[AuthenticationOk; ReadyForQuery "I"%char]] ++ (response_messages <$> answers);
              be_closed := true |}).
Proof.
  intros Hw Ha. unfold Run. cbn [cl_startup cl_messages cl_lost]. rewrite startup_ok by done.
  rewrite (serve_queries 0 qs answers) by done. cbn [be_out Close]. by rewrite <-!app_assoc.
Qed.

(** However a client goes on, the connection is closed in the end. *)
Theorem run_closes c b : be_closed (Run c b).2 = true.
Proof. unfold Run. by case_match. Qed.

End Proxy.

(** ** pgcache/pgcache.go: forwarding *)

(** A read gives bytes, or an error, with which bytes are dropped; a write to the
    server may fail. The bytes that reach the server. *)
Fixpoint forward (reads : list (string * option string)) (write_ok : nat → bool) (n : nat) : string :=
  match reads with
  | [] => ""
  | (bytes, Some _) :: _ => ""
  | (bytes, None) :: reads => if write_ok n then bytes +:+ forward reads write_ok (S n) else ""
  end.

(** The server receives what the client sent, unchanged, up to the first error. *)
Theorem forward_prefix reads write_ok n :
  HasPrefix (foldr (λ r s, r.1 +:+ s) "" reads) (forward reads write_ok n) = true.
Proof.
  assert (∀ p s t, HasPrefix t s = true → HasPrefix (p +:+ t) (p +:+ s) = true) as Hp.
  { intros p s t H. induction p as [|c p IH]; [done|]. rewrite !app_cons_str. cbn [HasPrefix].
    by rewrite bool_decide_eq_true_2. }
  revert n. induction reads as [|[bytes [e|]] reads IH]; intros n; cbn [forward foldr fst]; [done|by destruct (bytes +:+ _)|].
  destruct (write_ok n); [by apply Hp, IH|]. by destruct (bytes +:+ _).
Qed.

(** ** pgcache/pgcache.go: one client *)

(** The two loops of [handleClient]: reading from the client, with both connections
    closed when it ends, and the goroutine that copies from the server. *)
Record Relay := {
  rl_to_server : string; rl_to_client : string; rl_reading : bool; rl_copying : bool;
  rl_client_open : bool; rl_server_open : bool
}.

(** What happens next: bytes or the end of a connection, and whether passing the
    bytes on works. *)
Inductive relay_turn :=
| FromClient (bytes : string) (ok : bool) | ClientEnds | FromServer (bytes : string) (ok : bool) | ServerEnds.

(** [handleClient] once both connections are there; the deferred calls close them. *)
Definition end_client (r : Relay) : Relay := {|
  rl_to_server := rl_to_server r; rl_to_client := rl_to_client r; rl_reading := false; rl_copying := false;
  rl_client_open := false; rl_server_open := false |}.
Definition stop_copying (r : Relay) : Relay := {|
  rl_to_server := rl_to_server r; rl_to_client := rl_to_client r; rl_reading := rl_reading r; rl_copying := false;
  rl_client_open := rl_client_open r; rl_server_open := rl_server_open r |}.
Definition relay_step (t : relay_turn) (r : Relay) : Relay :=
  match t with
  | FromClient bytes ok =>
      if rl_reading r then
        if ok then {| rl_to_server := rl_to_server r +:+ bytes; rl_to_client := rl_to_client r; rl_reading := true;
                      rl_copying := rl_copying r; rl_client_open := rl_client_open r; rl_server_open := rl_server_open r |}
        else end_client r
      else r
  | ClientEnds => if rl_reading r then end_client r else r
  | FromServer bytes ok =>
      if rl_copying r then
        if ok then {| rl_to_server := rl_to_server r; rl_to_client := rl_to_client r +:+ bytes; rl_reading := rl_reading r;
                      rl_copying := true; rl_client_open := rl_client_open r; rl_server_open := rl_server_open r |}
        else stop_copying r
      else r
  | ServerEnds => if rl_copying r then stop_copying r else r
  end.
Definition relay_start : Relay := {|
  rl_to_server := ""; rl_to_client := ""; rl_reading := true; rl_copying := true; rl_client_open := true; rl_server_open := true |}.

(** [handleClient]: without a server the client's connection is closed at once. *)
Definition handleClient (dial : option string) (turns : list relay_turn) : Relay :=
  match dial with Some _ => end_client relay_start | None => foldl (λ r t, relay_step t r) relay_start turns end.

Definition client_bytes (turns : list relay_turn) : string :=
  foldr (λ t s, match t with FromClient b true => b +:+ s | _ => s end) "" turns.
Definition quiet_client (t : relay_turn) : Prop := match t with ClientEnds | FromClient _ false => False | _ => True end.

(** While the client goes on and the server takes its bytes, these arrive unchanged,
    and the connections stay open: also when the server has ended, which the client is
    not told. *)
Theorem server_end_unnoticed turns :
  Forall quiet_client turns →
  let r := handleClient None turns in
  rl_to_server r = client_bytes turns ∧ rl_client_open r = true ∧ rl_server_open r = true ∧
  (ServerEnds ∈ turns → rl_copying r = false).
Proof.
  intros H. cbn [handleClient].
  assert (∀ r, rl_reading r = true → rl_client_open r = true → rl_server_open r = true →
    let r' := foldl (λ r t, relay_step t r) r turns in
    rl_to_server r' = rl_to_server r +:+ client_bytes turns ∧ rl_client_open r' = true ∧ rl_server_open r' = true ∧
    (ServerEnds ∈ turns ∨ rl_copying r = false → rl_copying r' = false)) as Hgen.
  { induction H as [|t turns Ht _ IH]; intros r Hr Hc Hs; cbn [foldl].
    { cbn. rewrite app_nil_r_str. split_and!; try done. by intros [?%elem_of_nil|]. }
    destruct t as [bytes [|]| |bytes ok|]; cbn [quiet_client] in Ht; try done; cbn [relay_step].
    - rewrite Hr. destruct (IH {| rl_to_server := rl_to_server r +:+ bytes; rl_to_client := rl_to_client r; rl_reading := true;
        rl_copying := rl_copying r; rl_client_open := rl_client_open r; rl_server_open := rl_server_open r |}) as (E & ? & ? & Hcp); try done.
      split_and!; try done; [by rewrite E; cbn; rewrite app_assoc_str|]. intros [[?|?]%elem_of_cons|?]; [done|by apply Hcp; left|by apply Hcp; right].
    - destruct (rl_copying r) eqn:Ecp; [destruct ok|]; (edestruct (IH) as (E & ? & ? & Hcp); [..|split_and!; [exact E|done|done|]]; try done);
        intros [[?|?]%elem_of_cons|?]; try done; first [by apply Hcp; left | by apply Hcp; right].
    - destruct (rl_copying r) eqn:Ecp; (edestruct (IH) as (E & ? & ? & Hcp); [..|split_and!; [exact E|done|done|]]; try done);
        intros _; apply Hcp; by right. }
  destruct (Hgen relay_start) as (E & ? & ? & Hcp); try done. split_and!; try done. intros. apply Hcp. by left.
Qed.

(** When the client ends, or its bytes cannot be passed on, both connections are closed. *)
Theorem client_end_closes before t after :
  Forall quiet_client before → ¬ quiet_client t →
  let r := handleClient None (before ++ t :: after) in rl_client_open r = false ∧ rl_server_open r = false.
Proof.
  intros Hb Ht. cbn [handleClient]. rewrite foldl_app. cbn [foldl].
  assert (∀ l r, Forall quiet_client l → rl_reading r = true → rl_reading (foldl (λ r t, relay_step t r) r l) = true) as Hread.
  { induction l as [|x l IH]; intros r Hl Hr; [done|]. inversion Hl as [|? ? Hx Hl']; subst. cbn [foldl]. apply IH; [done|].
    destruct x as [? [|]| |? [|]|]; try done; cbn [relay_step]; rewrite ?Hr; by repeat case_match. }
  assert (∀ l r, rl_reading r = false → rl_client_open r = false → rl_server_open r = false →
    let r' := foldl (λ r t, relay_step t r) r l in rl_client_open r' = false ∧ rl_server_open r' = false) as Hstop.
  { induction l as [|x l IH]; intros r Hr Hc Hs; [done|]. cbn [foldl]. apply IH; destruct x; cbn [relay_step];
      rewrite ?Hr; repeat case_match; try done. }
  specialize (Hread before relay_start Hb eq_refl). apply Hstop;
    (destruct t as [? [|]| |? ?|]; cbn [quiet_client] in Ht; try (by destruct Ht); cbn [relay_step]; by rewrite Hread).
Qed.
